(** * Thread Host Control Interface (THCI), NCP transport and session layer

    A shallow embedding of the parts of [thci_module_ncp.c], of the UART
    transport [thci_module_ncp_uart.cpp] and of [thci_module.c] that carry the
    transaction matcher, the outbound message ring, the control-plane
    dispatch, the outgoing packet pump and the session supervisor, followed
    by the properties proved about them.

    Conventions of the embedding.
    - C integers are [Z]; a store into a [uintN_t] object is written with the
      wrap-around [uintN_t].
    - Pointers into [gTHCINCPContext.mMessageRingBuffer] are offsets from
      [&mMessageRingBuffer[0]]: [ringStart] is [0] and [ringEnd] is the size
      of the ring.  A pointer that may be [NULL] is an [option].
    - The globals [gTHCINCPContext], [gTHCISDKContext] and the file statics
      are threaded through the functions as records.
    - An event queue is the list of the events resident in it, oldest first;
      a queue handle that may be [NULL] is an [option] of that list.
    - Client callbacks are recorded in a log of calls. *)

From Stdlib Require Import ZArith List Bool Lia Permutation.
Import ListNotations.
Local Open Scope Z_scope.

(** ** Machine integers *)

Definition uint8_t (z : Z) : Z := z mod 256.
Definition uint16_t (z : Z) : Z := z mod 65536.
Definition uint32_t (z : Z) : Z := z mod 4294967296.

(** ** What the driver takes from OpenThread

    The Spinel command, property and status numbers, the [OT_CHANGED_*]
    bits and the Spinel decoders come from OpenThread's headers and library;
    the driver only names them.  They are the fields of a class, so that
    everything below holds for whatever values the library gives them.

    Each decoder stands for one [spinel_datatype_unpack] format: it returns
    the parsed length (not positive on failure) and the value left in the
    result variable. *)

(** What [spinel_datatype_unpack] with the format ["CcT(ESSC.)T(iCUD.)."]
    of a scan beacon leaves in the result variables [ReceiveControlFrame]
    passes to it, when the frame unpacks; the short address, the protocol,
    the length of the extended PAN id and the parsed length are not used.
    A pointer is given by the memory it designates: the bytes of the frame
    from there on, and what follows them in the receive buffer. *)
Record spinel_scan_beacon : Type := mk_scan_beacon {
  ubChannel : Z;
  ubRssi : Z;
  ubExtAddress : list Z;
  ubPanId : Z;
  ubLqi : Z;
  ubFlags : Z;
  ubNetworkId : list Z;
  ubXpanId : list Z
}.

(** The fields of an [otActiveScanResult] that the driver writes. *)
Record otActiveScanResult : Type := mk_otActiveScanResult {
  srExtAddress : list Z;
  srNetworkName : list Z;
  srExtendedPanId : list Z;
  srPanId : Z;
  srChannel : Z;
  srRssi : Z;
  srLqi : Z;
  srIsJoinable : bool
}.

Class OpenThread : Type := {
  SPINEL_CMD_PROP_VALUE_GET : Z;
  SPINEL_CMD_PROP_VALUE_SET : Z;
  SPINEL_CMD_PROP_VALUE_INSERT : Z;
  SPINEL_CMD_PROP_VALUE_IS : Z;
  SPINEL_CMD_PROP_VALUE_INSERTED : Z;
  SPINEL_PROP_LAST_STATUS : Z;
  SPINEL_PROP_NCP_VERSION : Z;
  SPINEL_PROP_STREAM_DEBUG : Z;
  SPINEL_PROP_STREAM_NET : Z;
  SPINEL_PROP_STREAM_NET_INSECURE : Z;
  SPINEL_PROP_NET_ROLE : Z;
  SPINEL_PROP_NEST_LEGACY_ULA_PREFIX : Z;
  SPINEL_PROP_MAC_SCAN_STATE : Z;
  SPINEL_PROP_MAC_SCAN_BEACON : Z;
  SPINEL_PROP_THREAD_CHILD_TABLE : Z;
  SPINEL_PROP_THREAD_ASSISTING_PORTS : Z;
  SPINEL_PROP_IPV6_ADDRESS_TABLE : Z;
  SPINEL_PROP_IPV6_MULTICAST_ADDRESS_TABLE : Z;
  SPINEL_STATUS_OK : Z;
  SPINEL_STATUS_RESET__BEGIN : Z;
  SPINEL_STATUS_RESET__END : Z;
  SPINEL_NET_ROLE_CHILD : Z;
  SPINEL_NET_ROLE_ROUTER : Z;
  SPINEL_NET_ROLE_LEADER : Z;
  OT_CHANGED_IP6_ADDRESS_ADDED : Z;
  OT_CHANGED_IP6_MULTICAST_SUBSRCRIBED : Z;
  OT_CHANGED_THREAD_ROLE : Z;
  (* SPINEL_DATATYPE_UINT_PACKED_S *)
  spinel_unpack_uint_packed : list Z -> Z * Z;
  (* SPINEL_DATATYPE_UINT8_S *)
  spinel_unpack_uint8 : list Z -> Z * Z;
  (* SPINEL_DATATYPE_DATA_S: the parsed length and the bytes pointed to *)
  spinel_unpack_data : list Z -> Z * list Z;
  (* SPINEL_DATATYPE_UTF8_S: the parsed length and the memory the returned
     pointer designates ([None] for a [NULL] pointer) *)
  spinel_unpack_utf8 : list Z -> Z * option (list Z);
  (* "CcT(ESSC.)T(iCUD.)." : the values left in the result variables when
     the frame unpacks; [None] when it does not, and the pointers among
     the result variables are then not set *)
  spinel_unpack_scan_beacon : list Z -> option spinel_scan_beacon;
  SPINEL_BEACON_THREAD_FLAG_JOINABLE : Z;
  (* sizeof(result->mExtAddress.m8), sizeof(result->mNetworkName.m8),
     sizeof(result->mExtendedPanId.m8) for an [otActiveScanResult] *)
  sizeof_mExtAddress : nat;
  sizeof_mNetworkName : nat;
  sizeof_mExtendedPanId : nat;
  (* the layout of [otActiveScanResult]: the bytes of a callback buffer
     that held [content] once the fields the driver writes are stored in
     its [mContent.mScanResult]; the other bytes stay *)
  otActiveScanResult_store : otActiveScanResult -> list Z -> list Z
}.

(** Modelled from the spec: the macro [SPINEL_HEADER_GET_TID] of
    [openthread/spinel.h]; the header byte carries the transaction id in
    bits [3:0]. *)
Definition SPINEL_HEADER_GET_TID (aHeader : Z) : Z := Z.land aHeader 15.

(** [SPINEL_HEADER_FLAG | SPINEL_HEADER_IID_0]: bit 7 set, interface 0. *)
Definition SPINEL_HEADER_FLAG : Z := 128.

(** ** Constants of the driver *)

Definition kMaxTransactionId : Z := 15.
Definition kDontCareTransactionId : Z := 1.
Definition kEmptyTransactionId : Z := 0.

Definition NL_THCI_PAYLOAD_MTU : Z := 1280.
Definition THCI_CONFIG_MESSAGE_QUEUE_SIZE : Z := 16.
Definition THCI_CONFIG_NCP_TX_MESSAGE_RING_BUFFER_SIZE : Z :=
  5 * NL_THCI_PAYLOAD_MTU.
Definition THCI_NUM_CALLBACK_BUFFERS : nat := 4.
Definition THCI_LEGACY_ULA_SIZE_BYTES : nat := 8.

Definition THCI_MESSAGE_FLAG_FREE : Z := 1.
Definition THCI_MESSAGE_FLAG_SECURE : Z := 2.
Definition THCI_MESSAGE_FLAG_LEGACY : Z := 4.

Definition THCI_SECURITY_FLAG_THREAD_STARTED : Z := 1.
Definition THCI_SECURITY_FLAG_INSECURE_PORTS_ENABLED : Z := 2.
Definition THCI_SECURITY_FLAG_INSECURE_SOURCE_PORT : Z := 4.
Definition THCI_SECURITY_FLAG_SECURE_MSG_RXD_ON_INSECURE_PORT : Z := 8.

(** [sizeof(thci_message_t)] on the 32-bit targets of the driver: a pointer,
    three [uint16_t] and two [uint8_t]. *)
Definition sizeof_thci_message_t : Z := 12.

Definition ringStart : Z := 0.
Definition ringEnd : Z := THCI_CONFIG_NCP_TX_MESSAGE_RING_BUFFER_SIZE.

(** ** Types *)

Inductive otError : Type :=
| OT_ERROR_NONE
| OT_ERROR_FAILED
| OT_ERROR_PARSE
| OT_ERROR_BUSY
| OT_ERROR_INVALID_ARGS
| OT_ERROR_INVALID_STATE
| OT_ERROR_NO_FRAME_RECEIVED.

Inductive err_t : Type :=
| ERR_OK
| ERR_MEM
| ERR_INPROGRESS
| ERR_VAL
| ERR_IF.

Inductive module_state_t : Type :=
| kModuleStateUninitialized
| kModuleStateInitialized
| kModuleStateResetRecovery
| kModuleStateHostSleep.

Inductive callback_buffer_state_t : Type :=
| kCallbackBufferStateFree
| kCallbackBufferStateScanResult
| kCallbackBufferStateLegacyUla.

Inductive otDeviceRole : Type :=
| OT_DEVICE_ROLE_DISABLED
| OT_DEVICE_ROLE_DETACHED
| OT_DEVICE_ROLE_CHILD
| OT_DEVICE_ROLE_ROUTER
| OT_DEVICE_ROLE_LEADER.

(** The static [nl_event_t] objects of the two files. *)
Inductive nl_event_t : Type :=
| sOutgoingIPPacketEvent
| sStateChangeEvent
| sLegacyUlaChangeEvent
| sScanResultEvent
| sScanCompleteEvent
| sNCPRecoveryEvent
| sFreeMessageEvent
| sUartRxDoneEvent.

Definition nl_event_eqb (a b : nl_event_t) : bool :=
  match a, b with
  | sOutgoingIPPacketEvent, sOutgoingIPPacketEvent
  | sStateChangeEvent, sStateChangeEvent
  | sLegacyUlaChangeEvent, sLegacyUlaChangeEvent
  | sScanResultEvent, sScanResultEvent
  | sScanCompleteEvent, sScanCompleteEvent
  | sNCPRecoveryEvent, sNCPRecoveryEvent
  | sFreeMessageEvent, sFreeMessageEvent
  | sUartRxDoneEvent, sUartRxDoneEvent => true
  | _, _ => false
  end.

Definition module_state_eqb (a b : module_state_t) : bool :=
  match a, b with
  | kModuleStateUninitialized, kModuleStateUninitialized
  | kModuleStateInitialized, kModuleStateInitialized
  | kModuleStateResetRecovery, kModuleStateResetRecovery
  | kModuleStateHostSleep, kModuleStateHostSleep => true
  | _, _ => false
  end.

(** [nl_eventqueue_post_event]: the event becomes resident in the queue.
    The queues of the model are unbounded. *)
Definition nl_eventqueue_post_event
  (q : list nl_event_t) (e : nl_event_t) : list nl_event_t := q ++ [e].

(** How many events [e] are resident in a queue. *)
Definition resident (e : nl_event_t) (q : list nl_event_t) : nat :=
  length (filter (nl_event_eqb e) q).

(** [thci_message_t], together with the address [msgPtr] of the header in
    the ring.  [mBuffer] holds the [mLength] payload bytes written so far
    into the reserved run that follows the header. *)
Record thci_message_t : Type := mk_message {
  msgPtr : Z;
  mBuffer : list Z;
  mOffset : Z;
  mLength : Z;
  mTotalLength : Z;
  mFlags : Z
}.

(** The message-ring fields of [thci_ncp_context_t]. *)
Record message_ring_t : Type := mk_ring {
  mMessageRingHead : Z;
  mMessageRingTail : Z;
  mMessageRingEndGap : Z;
  mWaitFreeQueue : list nl_event_t;
  mWaitFreeQueueEmpty : bool
}.

(** ** Transaction identifiers: [GetNewTransactionId]

    The function reads and writes [gTHCINCPContext.mTransactionId] only; it
    maps the old value of the field to the new one, which it also
    returns. *)
Definition GetNewTransactionId (mTransactionId : Z) : Z :=
  let newId := uint8_t (mTransactionId + 1) in
  let kMinTransactionId := uint8_t (kDontCareTransactionId + 1) in
  let newId := if newId >=? kMaxTransactionId then kMinTransactionId else newId in
  let newId := if newId <? kMinTransactionId then kMinTransactionId else newId in
  newId.

(** [n] successive calls, starting from the counter value [t]: the values
    returned, in order. *)
Fixpoint tid_calls (n : nat) (t : Z) : list Z :=
  match n with
  | O => []
  | S n' => let t' := GetNewTransactionId t in t' :: tid_calls n' t'
  end.

(** ** The outbound message ring: [NewMessage], [FreeMessage] *)

(** The size reserved for a payload of [aLength] bytes: the two updates of
    the [uint16_t] parameter [aLength] in [NewMessage]. *)
Definition alignedLength (aLength : Z) : Z :=
  let aLength := uint16_t (aLength + sizeof_thci_message_t) in
  uint16_t (aLength + Z.land (4 - Z.land aLength (4 - 1)) (4 - 1)).

(** [NewMessage].  [mMessageLock] is taken to be entered without error; it
    makes the body atomic. *)
Definition NewMessage (aSecurity : bool) (aLength : Z) (g : message_ring_t)
  : option thci_message_t * message_ring_t :=
  let g :=
    if mMessageRingHead g =? mMessageRingTail g
    then mk_ring ringStart ringStart (mMessageRingEndGap g)
                 (mWaitFreeQueue g) (mWaitFreeQueueEmpty g)
    else g in
  let termEnd :=
    if mMessageRingHead g <? mMessageRingTail g
    then mMessageRingTail g else ringEnd in
  let termStart :=
    if mMessageRingHead g >? mMessageRingTail g
    then Some (mMessageRingTail g) else None in
  let aLength := alignedLength aLength in
  let init (retval : Z) :=
    mk_message retval [] 0 0 aLength
               (if aSecurity then Z.lor 0 THCI_MESSAGE_FLAG_SECURE else 0) in
  if aLength + mMessageRingHead g <? termEnd then
    (Some (init (mMessageRingHead g)),
     mk_ring (mMessageRingHead g + aLength) (mMessageRingTail g)
             (mMessageRingEndGap g) (mWaitFreeQueue g) (mWaitFreeQueueEmpty g))
  else
    match termStart with
    | Some termStart =>
        if aLength + ringStart <? termStart then
          (Some (init ringStart),
           mk_ring (ringStart + aLength) (mMessageRingTail g)
                   (uint16_t (ringEnd - mMessageRingHead g))
                   (mWaitFreeQueue g) (mWaitFreeQueueEmpty g))
        else (None, g)
    | None => (None, g)
    end.

(** [FreeMessage]; [None] is the [NULL] message. *)
Definition FreeMessage (aMessage : option thci_message_t) (g : message_ring_t)
  : message_ring_t :=
  match aMessage with
  | None => g
  | Some aMessage =>
      let messageHead := msgPtr aMessage in
      if (messageHead =? mMessageRingTail g)
         || (messageHead + mTotalLength aMessage =? mMessageRingHead g)
      then
        let g :=
          if messageHead =? mMessageRingTail g then
            let tail := mMessageRingTail g + mTotalLength aMessage in
            if tail + mMessageRingEndGap g >=? ringEnd
            then mk_ring (mMessageRingHead g) ringStart 0
                         (mWaitFreeQueue g) (mWaitFreeQueueEmpty g)
            else mk_ring (mMessageRingHead g) tail (mMessageRingEndGap g)
                         (mWaitFreeQueue g) (mWaitFreeQueueEmpty g)
          else
            let head := messageHead in
            if (head =? ringStart) && negb (mMessageRingEndGap g =? 0)
            then mk_ring (ringEnd - mMessageRingEndGap g) (mMessageRingTail g) 0
                         (mWaitFreeQueue g) (mWaitFreeQueueEmpty g)
            else mk_ring head (mMessageRingTail g) (mMessageRingEndGap g)
                         (mWaitFreeQueue g) (mWaitFreeQueueEmpty g) in
        if mWaitFreeQueueEmpty g
        then mk_ring (mMessageRingHead g) (mMessageRingTail g)
                     (mMessageRingEndGap g)
                     (nl_eventqueue_post_event (mWaitFreeQueue g) sFreeMessageEvent)
                     false
        else g
      else g
  end.

(** *** Sequences of ring operations

    A run of the ring under the release discipline: the store together
    with the live messages, oldest first.  A release takes the oldest or
    the newest live message, as the callers of [FreeMessage] do. *)

Inductive ring_op : Type :=
| OpNew (aSecurity : bool) (aLength : Z)
| OpFreeOldest
| OpFreeNewest.

Definition no_message : thci_message_t := mk_message 0 [] 0 0 0 0.

(** The ring as [InitializeInternal] leaves it. *)
Definition ring_init : message_ring_t := mk_ring ringStart ringStart 0 [] true.

Definition ring_step (op : ring_op) (s : message_ring_t * list thci_message_t)
  : message_ring_t * list thci_message_t :=
  let (g, live) := s in
  match op with
  | OpNew aSecurity aLength =>
      match NewMessage aSecurity aLength g with
      | (Some m, g') => (g', live ++ [m])
      | (None, g') => (g', live)
      end
  | OpFreeOldest =>
      match live with
      | [] => s
      | m :: rest => (FreeMessage (Some m) g, rest)
      end
  | OpFreeNewest =>
      match live with
      | [] => s
      | _ :: _ => (FreeMessage (Some (last live no_message)) g, removelast live)
      end
  end.

Definition ring_run (ops : list ring_op) : message_ring_t * list thci_message_t :=
  fold_left (fun s op => ring_step op s) ops (ring_init, []).

(** Total bytes of the live allocations, header and padding included. *)
Definition live_bytes (live : list thci_message_t) : Z :=
  fold_right (fun m acc => mTotalLength m + acc) 0 live.

(** The payload lengths requested along a sequence of operations. *)
Fixpoint requests (ops : list ring_op) : list Z :=
  match ops with
  | [] => []
  | OpNew _ aLength :: ops' => aLength :: requests ops'
  | _ :: ops' => requests ops'
  end.

(** ** The driver contexts *)

Record callback_buffer_t : Type := mk_callback_buffer {
  mState : callback_buffer_state_t;
  mContent : list Z
}.

(** Calls made to the callbacks the client registered. *)
Inductive client_call : Type :=
| StateChangeCallback (aFlags : Z)
| ResetRecoveryCallback.

(** [thci_ncp_context_t]; a callback field says whether the pointer is
    set. *)
Record thci_ncp_context_t : Type := mk_ncp {
  mRing : message_ring_t;
  mCallbackBuffers : list callback_buffer_t;
  mScanResultCallback : bool;
  mStateChangeCallback : bool;
  mResetRecoveryCallback : bool;
  mTransactionId : Z;
  mModuleState : module_state_t;
  mLastStatus : Z;
  mStateChangeFlags : Z
}.

(** [thci_message_queue_t]: [THCI_CONFIG_MESSAGE_QUEUE_SIZE] slots, an
    empty slot being [NULL]. *)
Record thci_message_queue_t : Type := mk_queue {
  mHead : Z;
  mTail : Z;
  mQueue : list (option thci_message_t)
}.

(** [thci_sdk_context_t]; [mNetifThread] is
    [mNetif[THCI_NETIF_TAG_THREAD]]. *)
Record thci_sdk_context_t : Type := mk_sdk {
  mSdkQueue : option (list nl_event_t);
  mNetifThread : option Z;
  mMessageQueue : thci_message_queue_t;
  mInsecureSourcePort : Z;
  mSecurityFlags : Z;
  mDeviceRole : otDeviceRole;
  mStallOutgoingDataPackets : bool
}.

(** The state of [thci_module_ncp.c] and [thci_module.c]. *)
Record thci_t : Type := mk_thci {
  gTHCINCPContext : thci_ncp_context_t;
  gTHCISDKContext : thci_sdk_context_t;
  sOutgoingIPPacketEventPosted : Z;
  clientCalls : list client_call
}.

Definition with_ncp (f : thci_ncp_context_t -> thci_ncp_context_t) (w : thci_t)
  : thci_t :=
  mk_thci (f (gTHCINCPContext w)) (gTHCISDKContext w)
          (sOutgoingIPPacketEventPosted w) (clientCalls w).

Definition with_sdk (f : thci_sdk_context_t -> thci_sdk_context_t) (w : thci_t)
  : thci_t :=
  mk_thci (gTHCINCPContext w) (f (gTHCISDKContext w))
          (sOutgoingIPPacketEventPosted w) (clientCalls w).

Definition set_mRing (r : message_ring_t) (c : thci_ncp_context_t) :=
  mk_ncp r (mCallbackBuffers c) (mScanResultCallback c) (mStateChangeCallback c)
         (mResetRecoveryCallback c) (mTransactionId c) (mModuleState c)
         (mLastStatus c) (mStateChangeFlags c).

Definition set_mCallbackBuffers (b : list callback_buffer_t) (c : thci_ncp_context_t) :=
  mk_ncp (mRing c) b (mScanResultCallback c) (mStateChangeCallback c)
         (mResetRecoveryCallback c) (mTransactionId c) (mModuleState c)
         (mLastStatus c) (mStateChangeFlags c).

Definition set_mTransactionId (t : Z) (c : thci_ncp_context_t) :=
  mk_ncp (mRing c) (mCallbackBuffers c) (mScanResultCallback c)
         (mStateChangeCallback c) (mResetRecoveryCallback c) t (mModuleState c)
         (mLastStatus c) (mStateChangeFlags c).

Definition set_mModuleState (s : module_state_t) (c : thci_ncp_context_t) :=
  mk_ncp (mRing c) (mCallbackBuffers c) (mScanResultCallback c)
         (mStateChangeCallback c) (mResetRecoveryCallback c) (mTransactionId c) s
         (mLastStatus c) (mStateChangeFlags c).

Definition set_mLastStatus (s : Z) (c : thci_ncp_context_t) :=
  mk_ncp (mRing c) (mCallbackBuffers c) (mScanResultCallback c)
         (mStateChangeCallback c) (mResetRecoveryCallback c) (mTransactionId c)
         (mModuleState c) s (mStateChangeFlags c).

Definition set_mStateChangeFlags (f : Z) (c : thci_ncp_context_t) :=
  mk_ncp (mRing c) (mCallbackBuffers c) (mScanResultCallback c)
         (mStateChangeCallback c) (mResetRecoveryCallback c) (mTransactionId c)
         (mModuleState c) (mLastStatus c) f.

Definition set_mSdkQueue (q : option (list nl_event_t)) (c : thci_sdk_context_t) :=
  mk_sdk q (mNetifThread c) (mMessageQueue c) (mInsecureSourcePort c)
         (mSecurityFlags c) (mDeviceRole c) (mStallOutgoingDataPackets c).

Definition set_mMessageQueue (q : thci_message_queue_t) (c : thci_sdk_context_t) :=
  mk_sdk (mSdkQueue c) (mNetifThread c) q (mInsecureSourcePort c)
         (mSecurityFlags c) (mDeviceRole c) (mStallOutgoingDataPackets c).

Definition set_mDeviceRole (r : otDeviceRole) (c : thci_sdk_context_t) :=
  mk_sdk (mSdkQueue c) (mNetifThread c) (mMessageQueue c) (mInsecureSourcePort c)
         (mSecurityFlags c) r (mStallOutgoingDataPackets c).

Definition set_sOutgoingIPPacketEventPosted (v : Z) (w : thci_t) : thci_t :=
  mk_thci (gTHCINCPContext w) (gTHCISDKContext w) v (clientCalls w).

Definition log_call (c : client_call) (w : thci_t) : thci_t :=
  mk_thci (gTHCINCPContext w) (gTHCISDKContext w)
          (sOutgoingIPPacketEventPosted w) (clientCalls w ++ [c]).

(** [nl_eventqueue_post_event(gTHCISDKContext.mInitParams.mSdkQueue, e)];
    nothing becomes resident when the handle is [NULL]. *)
Definition post_to_sdk_queue (e : nl_event_t) (w : thci_t) : thci_t :=
  with_sdk (fun c =>
    set_mSdkQueue (option_map (fun q => nl_eventqueue_post_event q e) (mSdkQueue c)) c) w.

(** The events resident in the SDK queue (none without a queue). *)
Definition sdk_events (w : thci_t) : list nl_event_t :=
  match mSdkQueue (gTHCISDKContext w) with
  | Some q => q
  | None => []
  end.

(** ** Session supervisor: [thciInitiateNCPRecovery] *)

Definition thciInitiateNCPRecovery (w : thci_t) : thci_t :=
  if module_state_eqb (mModuleState (gTHCINCPContext w)) kModuleStateResetRecovery
  then w
  else
    let w := with_ncp (set_mModuleState kModuleStateResetRecovery) w in
    match mSdkQueue (gTHCISDKContext w) with
    | Some _ => post_to_sdk_queue sNCPRecoveryEvent w
    | None => w
    end.

(** [NCPRecoveryEventHandler] *)
Definition NCPRecoveryEventHandler (w : thci_t) : thci_t :=
  if mResetRecoveryCallback (gTHCINCPContext w)
  then log_call ResetRecoveryCallback w
  else w.

(** ** Control-plane dispatch *)

Section ControlPlane.
Context `{OT : OpenThread}.

Definition TranslateSpinelRole (aRole : Z) : otDeviceRole :=
  if aRole =? SPINEL_NET_ROLE_CHILD then OT_DEVICE_ROLE_CHILD
  else if aRole =? SPINEL_NET_ROLE_ROUTER then OT_DEVICE_ROLE_ROUTER
  else if aRole =? SPINEL_NET_ROLE_LEADER then OT_DEVICE_ROLE_LEADER
  else OT_DEVICE_ROLE_DETACHED.

Definition HandleLastStatusUpdate (aArg : list Z) (w : thci_t) : thci_t :=
  let (parsedLength, status) := spinel_unpack_uint_packed aArg in
  let w :=
    if parsedLength =? 0 then w else with_ncp (set_mLastStatus status) w in
  if (status >=? SPINEL_STATUS_RESET__BEGIN) && (status <=? SPINEL_STATUS_RESET__END)
  then thciInitiateNCPRecovery w
  else w.

(** [AllocateCallbackBuffer]: the index of the slot taken, and the pool. *)
Fixpoint AllocateCallbackBuffer (aState : callback_buffer_state_t)
  (bufs : list callback_buffer_t) : option nat * list callback_buffer_t :=
  match bufs with
  | [] => (None, [])
  | b :: rest =>
      match mState b with
      | kCallbackBufferStateFree =>
          (Some O, mk_callback_buffer aState (mContent b) :: rest)
      | _ =>
          let (r, rest') := AllocateCallbackBuffer aState rest in
          (option_map S r, b :: rest')
      end
  end.

(** The store into [callbackBuffer->mContent] of slot [i]. *)
Fixpoint set_mContent (i : nat) (content : list Z) (bufs : list callback_buffer_t)
  : list callback_buffer_t :=
  match bufs, i with
  | [], _ => []
  | b :: rest, O => mk_callback_buffer (mState b) content :: rest
  | b :: rest, S i' => b :: set_mContent i' content rest
  end.

Definition or_mStateChangeFlags (bit : Z) (w : thci_t) : thci_t :=
  with_ncp (fun c => set_mStateChangeFlags
                       (uint32_t (Z.lor (mStateChangeFlags c) bit)) c) w.

(** The [switch] of [ReceiveControlFrame] under [SPINEL_CMD_PROP_VALUE_IS].
    The boolean is [false] when the case leaves through [goto done], which
    skips the test that follows the [switch].  The child-table and
    debug-stream handlers only log. *)
Definition ReceiveControlFrame_value_is (aKey : Z) (aArgPtr : list Z) (w : thci_t)
  : thci_t * bool :=
  let key := uint16_t aKey in
  if key =? SPINEL_PROP_LAST_STATUS then
    (HandleLastStatusUpdate aArgPtr w, true)
  else if key =? SPINEL_PROP_NET_ROLE then
    let (parsedLength, spinelRole) := spinel_unpack_uint8 aArgPtr in
    if parsedLength >? 0 then
      let w := with_sdk (set_mDeviceRole (TranslateSpinelRole spinelRole)) w in
      (or_mStateChangeFlags OT_CHANGED_THREAD_ROLE w, true)
    else (w, false)
  else if key =? SPINEL_PROP_NEST_LEGACY_ULA_PREFIX then
    match AllocateCallbackBuffer kCallbackBufferStateLegacyUla
            (mCallbackBuffers (gTHCINCPContext w)) with
    | (None, _) => (w, false)
    | (Some i, bufs) =>
        let w := with_ncp (set_mCallbackBuffers bufs) w in
        let (parsedLength, legacyUlaPrefix) := spinel_unpack_data aArgPtr in
        if parsedLength >? 0 then
          let w := with_ncp (fun c =>
                     set_mCallbackBuffers
                       (set_mContent i (firstn THCI_LEGACY_ULA_SIZE_BYTES legacyUlaPrefix)
                                     (mCallbackBuffers c)) c) w in
          (post_to_sdk_queue sLegacyUlaChangeEvent w, true)
        else (w, false)
    end
  else if key =? SPINEL_PROP_MAC_SCAN_STATE then
    (post_to_sdk_queue sScanCompleteEvent w, true)
  else if key =? SPINEL_PROP_THREAD_CHILD_TABLE then
    (w, true)
  else if key =? SPINEL_PROP_IPV6_ADDRESS_TABLE then
    (or_mStateChangeFlags OT_CHANGED_IP6_ADDRESS_ADDED w, true)
  else if key =? SPINEL_PROP_IPV6_MULTICAST_ADDRESS_TABLE then
    (or_mStateChangeFlags OT_CHANGED_IP6_MULTICAST_SUBSRCRIBED w, true)
  else if key =? SPINEL_PROP_STREAM_DEBUG then
    (w, true)
  else (w, true).

(** The [otActiveScanResult] that the scan-beacon case builds from what the
    unpack left: the three copies take [sizeof] bytes from where the
    pointers designate, whatever the lengths of the name and of the
    extended PAN id. *)
Definition scan_result_of_beacon (unpacked : spinel_scan_beacon) : otActiveScanResult :=
  mk_otActiveScanResult
    (firstn sizeof_mExtAddress (ubExtAddress unpacked))
    (firstn sizeof_mNetworkName (ubNetworkId unpacked))
    (firstn sizeof_mExtendedPanId (ubXpanId unpacked))
    (ubPanId unpacked) (ubChannel unpacked) (ubRssi unpacked) (ubLqi unpacked)
    (negb (Z.land (ubFlags unpacked) SPINEL_BEACON_THREAD_FLAG_JOINABLE =? 0)).

(** The stores into [callbackBuffer->mContent.mScanResult] of slot [i]. *)
Fixpoint store_mScanResult (i : nat) (result : otActiveScanResult)
  (bufs : list callback_buffer_t) : list callback_buffer_t :=
  match bufs, i with
  | [], _ => []
  | b :: rest, O =>
      mk_callback_buffer (mState b) (otActiveScanResult_store result (mContent b))
      :: rest
  | b :: rest, S i' => b :: store_mScanResult i' result rest
  end.

(** The case [SPINEL_PROP_MAC_SCAN_BEACON] of [ReceiveControlFrame].  The
    code does not test the parsed length: for a frame that does not unpack
    it copies through [extAddress], which was never set, and through
    [xpanid], which is [NULL].  The behaviour of the C function is then
    undefined, and the result is [None]. *)
Definition ReceiveControlFrame_scan_beacon (aArgPtr : list Z) (w : thci_t)
  : option thci_t :=
  if mScanResultCallback (gTHCINCPContext w) then
    match AllocateCallbackBuffer kCallbackBufferStateScanResult
            (mCallbackBuffers (gTHCINCPContext w)) with
    | (None, _) => Some w
    | (Some i, bufs) =>
        match spinel_unpack_scan_beacon aArgPtr with
        | Some unpacked =>
            let result := scan_result_of_beacon unpacked in
            let w := with_ncp (set_mCallbackBuffers
                                 (store_mScanResult i result bufs)) w in
            Some (post_to_sdk_queue sScanResultEvent w)
        | None => None
        end
    end
  else Some w.

(** [ReceiveControlFrame].  It says what the C function does wherever its
    behaviour is defined.  On a scan beacon for which
    [ReceiveControlFrame_scan_beacon] is [None] it stands for no run of the
    C function, and its value there is the state before the frame; what is
    stated below about scan beacons is stated for beacons that unpack. *)
Definition ReceiveControlFrame
  (aHeader aCommand aKey : Z) (aArgPtr : list Z) (w : thci_t) : thci_t :=
  let prevStateFlags := mStateChangeFlags (gTHCINCPContext w) in
  if aCommand =? SPINEL_CMD_PROP_VALUE_IS then
    let (w, after_switch) := ReceiveControlFrame_value_is aKey aArgPtr w in
    if after_switch then
      if (prevStateFlags =? 0) && negb (mStateChangeFlags (gTHCINCPContext w) =? 0)
      then post_to_sdk_queue sStateChangeEvent w
      else w
    else w
  else if aCommand =? SPINEL_CMD_PROP_VALUE_INSERTED then
    if aKey =? SPINEL_PROP_MAC_SCAN_BEACON then
      match ReceiveControlFrame_scan_beacon aArgPtr w with
      | Some w' => w'
      | None => w
      end
    else w
  else w.

(** [StateChangeEventHandler] *)
Definition StateChangeEventHandler (w : thci_t) : thci_t :=
  if mStateChangeCallback (gTHCINCPContext w) then
    let flags := mStateChangeFlags (gTHCINCPContext w) in
    let w := with_ncp (set_mStateChangeFlags 0) w in
    log_call (StateChangeCallback flags) w
  else w.

End ControlPlane.

(** ** Messages and the outgoing message queue *)

Definition set_message (m : thci_message_t) (buf : list Z) (off len flags : Z)
  : thci_message_t :=
  mk_message (msgPtr m) buf off len (mTotalLength m) flags.

Definition IsMessageSecure (aMessage : thci_message_t) : bool :=
  negb (Z.land (mFlags aMessage) THCI_MESSAGE_FLAG_SECURE =? 0).

Definition SetMessageSecurity (aMessage : thci_message_t) (aSecurity : bool)
  : thci_message_t :=
  set_message aMessage (mBuffer aMessage) (mOffset aMessage) (mLength aMessage)
    (if aSecurity
     then uint8_t (Z.lor (mFlags aMessage) THCI_MESSAGE_FLAG_SECURE)
     else uint8_t (Z.land (mFlags aMessage) (Z.lnot THCI_MESSAGE_FLAG_SECURE))).

(** [AppendMessage]: [0], or [-ENOMEM] with the message untouched.  The
    right-hand side of the bound is computed in [size_t]. *)
Definition ENOMEM : Z := 12.
Definition EINVAL : Z := 22.
Definition EBADMSG : Z := 74.
Definition ENOSPC : Z := 28.

Definition AppendMessage (aMessage : thci_message_t) (aBuf : list Z) (aLen : Z)
  : Z * thci_message_t :=
  if aLen + mLength aMessage
     <=? uint32_t (mTotalLength aMessage - sizeof_thci_message_t)
  then
    (0, set_message aMessage
          (mBuffer aMessage ++ firstn (Z.to_nat aLen) aBuf)
          (mOffset aMessage) (uint16_t (mLength aMessage + aLen)) (mFlags aMessage))
  else (- ENOMEM, aMessage).

Definition ResetOffset (aMessage : thci_message_t) : thci_message_t :=
  set_message aMessage (mBuffer aMessage) 0 (mLength aMessage) (mFlags aMessage).

(** [ReadMessage]: the count returned, the bytes copied out, the message. *)
Definition ReadMessage (aMessage : thci_message_t) (aLen : Z)
  : Z * list Z * thci_message_t :=
  let retval :=
    if aLen >? mLength aMessage - mOffset aMessage
    then mLength aMessage - mOffset aMessage else aLen in
  if retval =? 0 then (retval, [], aMessage)
  else
    (retval,
     firstn (Z.to_nat retval) (skipn (Z.to_nat (mOffset aMessage)) (mBuffer aMessage)),
     set_message aMessage (mBuffer aMessage) (uint16_t (mOffset aMessage + retval))
                 (mLength aMessage) (mFlags aMessage)).

(** Slot [i] of [mQueue]; a slot outside the array reads as [NULL]. *)
Definition queue_slot (q : thci_message_queue_t) (i : Z) : option thci_message_t :=
  nth (Z.to_nat i) (mQueue q) None.

Fixpoint set_slot (i : nat) (v : option thci_message_t)
  (l : list (option thci_message_t)) : list (option thci_message_t) :=
  match l, i with
  | [], _ => []
  | _ :: rest, O => v :: rest
  | x :: rest, S i' => x :: set_slot i' v rest
  end.

Definition queue_init : thci_message_queue_t :=
  mk_queue 0 0 (repeat None (Z.to_nat THCI_CONFIG_MESSAGE_QUEUE_SIZE)).

Definition IsMessageQueueEmpty (q : thci_message_queue_t) : bool :=
  match queue_slot q (mTail q) with
  | None => true
  | Some _ => false
  end.

(** [EnqueueMessage]: [0] or [-ENOSPC]. *)
Definition EnqueueMessage (aMessage : option thci_message_t)
  (q : thci_message_queue_t) : Z * thci_message_queue_t :=
  match queue_slot q (mHead q) with
  | Some _ => (- ENOSPC, q)
  | None =>
      (0, mk_queue
            (if mHead q <? THCI_CONFIG_MESSAGE_QUEUE_SIZE - 1 then mHead q + 1 else 0)
            (mTail q)
            (set_slot (Z.to_nat (mHead q)) aMessage (mQueue q)))
  end.

Definition DequeueMessage (q : thci_message_queue_t)
  : option thci_message_t * thci_message_queue_t :=
  match queue_slot q (mTail q) with
  | None => (None, q)
  | Some m =>
      (Some m, mk_queue
                 (mHead q)
                 (if mTail q <? THCI_CONFIG_MESSAGE_QUEUE_SIZE - 1 then mTail q + 1 else 0)
                 (set_slot (Z.to_nat (mTail q)) None (mQueue q)))
  end.

(** The messages waiting in the queue, in slot order. *)
Definition queued (q : thci_message_queue_t) : list thci_message_t :=
  flat_map (fun s => match s with Some m => [m] | None => [] end) (mQueue q).

(** ** Submission of an outbound datagram: [LwIPOutputIP6] *)

(** lwIP's [struct pbuf]: the bytes of this buffer, its [len], and the
    [tot_len] of this buffer and those that follow.  The [next] links of a
    chain are the order of a list, [NULL] being the empty list; a datagram
    is handed over as its first buffer and the chain [next] points to. *)
Record pbuf : Type := mk_pbuf {
  payload : list Z;
  len : Z;
  tot_len : Z
}.

(** The length of the datagram a chain carries: the bytes of all its
    buffers. *)
Definition datagram_length (p : pbuf) (next : list pbuf) : Z :=
  fold_right (fun q acc => len q + acc) 0 (p :: next).

(** lwIP's invariant on a chain: [payload] has [len] bytes and [tot_len] is
    [len] plus the [tot_len] of the next buffer. *)
Fixpoint pbuf_wf (chain : list pbuf) : Prop :=
  match chain with
  | [] => True
  | p :: next =>
      Z.of_nat (length (payload p)) = len p /\
      0 <= len p /\ tot_len p < 65536 /\
      tot_len p = len p + match next with q :: _ => tot_len q | [] => 0 end /\
      pbuf_wf next
  end.

Definition THCI_ENABLE_MESSAGE_SECURITY (flags : Z) : bool :=
  negb (Z.land flags THCI_SECURITY_FLAG_THREAD_STARTED =? 0).
Definition THCI_TEST_INSECURE_PORTS (flags : Z) : bool :=
  negb (Z.land flags THCI_SECURITY_FLAG_INSECURE_PORTS_ENABLED =? 0).
Definition THCI_TEST_INSECURE_SOURCE_PORT (flags : Z) : bool :=
  negb (Z.land flags THCI_SECURITY_FLAG_INSECURE_SOURCE_PORT =? 0).
Definition THCI_RECEIVED_SECURE_MESSAGE_ON_INSECURE_PORT (flags : Z) : bool :=
  negb (Z.land flags THCI_SECURITY_FLAG_SECURE_MSG_RXD_ON_INSECURE_PORT =? 0).

Definition SendProvisionalJoinResponseInsecurely (w : thci_t) : bool :=
  let flags := mSecurityFlags (gTHCISDKContext w) in
  THCI_ENABLE_MESSAGE_SECURITY flags
  && THCI_TEST_INSECURE_PORTS flags
  && negb (THCI_RECEIVED_SECURE_MESSAGE_ON_INSECURE_PORT flags).

(** lwIP: the size of [struct ip6_hdr], its next-header byte
    ([IP6H_NEXTH]), [IP6_NEXTH_TCP], and [lwip_ntohs] of two bytes in
    memory order. *)
Definition sizeof_ip6_hdr : Z := 40.
Definition IP6H_NEXTH (hdr : list Z) : Z := nth 6 hdr 0.
Definition IP6_NEXTH_TCP : Z := 6.
Definition lwip_ntohs_bytes (b : list Z) : Z := nth 0 b 0 * 256 + nth 1 b 0.

Definition free_in_ring (m : option thci_message_t) (w : thci_t) : thci_t :=
  with_ncp (fun c => set_mRing (FreeMessage m (mRing c)) c) w.

(** The allocation loop of [CreateTHCIMessageFromPbuf].  While the caller
    is blocked on [mWaitFreeQueue] the driver task may release messages:
    [waits] lists, for each time the caller blocks, the messages released
    before the 2 s deadline, and nothing is released once the list is used
    up.  The caller is woken by an event resident in the queue and times
    out without one.  Once nothing more is released every retry fails as
    the one before it did, so the caller takes the events left in the queue
    one by one and then times out. *)
Fixpoint allocate_blocking (waits : list (list thci_message_t))
  (aSecurity : bool) (aLength : Z) (w : thci_t)
  : option thci_message_t * thci_t :=
  match NewMessage aSecurity aLength (mRing (gTHCINCPContext w)) with
  | (Some m, ring) => (Some m, with_ncp (set_mRing ring) w)
  | (None, ring) =>
      let w := with_ncp (set_mRing ring) w in
      match waits with
      | [] =>
          match mWaitFreeQueue ring with
          | [] => (None, w)
          | _ :: _ =>
              let ring := mk_ring (mMessageRingHead ring) (mMessageRingTail ring)
                                  (mMessageRingEndGap ring) [] true in
              (None, with_ncp (set_mRing ring) w)
          end
      | released :: waits' =>
          let w := fold_left (fun w m => free_in_ring (Some m) w) released w in
          let ring := mRing (gTHCINCPContext w) in
          match mWaitFreeQueue ring with
          | [] => (None, w)
          | _ :: q =>
              let ring := mk_ring (mMessageRingHead ring) (mMessageRingTail ring)
                                  (mMessageRingEndGap ring) q true in
              allocate_blocking waits' aSecurity aLength (with_ncp (set_mRing ring) w)
          end
      end
  end.

(** The copy loop of [CreateTHCIMessageFromPbuf].  The boolean is [false]
    when an [AppendMessage] failed (the loop is left through [done] with
    [-ENOMEM]); otherwise the loop ended with [tot_len] bytes not yet
    copied. *)
Fixpoint copy_pbuf (pbuf_chunk : list pbuf) (tot_len : Z) (message : thci_message_t)
  : bool * Z * thci_message_t :=
  match pbuf_chunk with
  | [] => (true, tot_len, message)
  | chunk :: next =>
      if tot_len =? 0 then (true, tot_len, message)
      else
        let len := if len chunk <=? tot_len then len chunk else tot_len in
        let tot_len := uint16_t (tot_len - len) in
        let (retval, message') := AppendMessage message (payload chunk) len in
        if retval =? 0 then copy_pbuf next tot_len message'
        else (false, tot_len, message')
  end.

(** [CreateTHCIMessageFromPbuf] for a chain that is not [NULL]: the value
    returned and what is stored in [*aMessage] ([None] when nothing is
    stored). *)
Definition CreateTHCIMessageFromPbuf (waits : list (list thci_message_t))
  (aPbuf : pbuf) (next : list pbuf) (w : thci_t)
  : Z * option thci_message_t * thci_t :=
  let linkSecurityEnabled :=
    THCI_ENABLE_MESSAGE_SECURITY (mSecurityFlags (gTHCISDKContext w)) in
  match allocate_blocking waits linkSecurityEnabled (tot_len aPbuf) w with
  | (None, w) => (- ENOMEM, None, w)
  | (Some message, w) =>
      match copy_pbuf (aPbuf :: next) (tot_len aPbuf) message with
      | (false, _, message) => (- ENOMEM, None, free_in_ring (Some message) w)
      | (true, tot_len, message) =>
          if negb (tot_len =? 0) then
            (* [retval] is the [0] of the last [AppendMessage] *)
            (0, None, w)
          else
            let finish (message : thci_message_t) :=
              (0, Some (ResetOffset message), w) in
            if SendProvisionalJoinResponseInsecurely w then
              let message := ResetOffset message in
              let '(len, ip6Hdr, message) := ReadMessage message sizeof_ip6_hdr in
              if (uint16_t len =? sizeof_ip6_hdr)
                 && (IP6H_NEXTH ip6Hdr =? IP6_NEXTH_TCP)
              then
                let '(len, srcPort, message) := ReadMessage message 2 in
                if uint16_t len =? 2 then
                  if lwip_ntohs_bytes srcPort
                     =? mInsecureSourcePort (gTHCISDKContext w)
                  then finish (SetMessageSecurity message false)
                  else finish message
                else (- EBADMSG, None, free_in_ring (Some message) w)
              else finish message
            else finish message
      end
  end.

(** [__sync_fetch_and_or(&sOutgoingIPPacketEventPosted, 1)] followed by the
    post it guards, as one step of the calling task. *)
Definition post_pump_event_once (w : thci_t) : thci_t :=
  let old := sOutgoingIPPacketEventPosted w in
  let w := set_sOutgoingIPPacketEventPosted (Z.lor old 1) w in
  if old =? 0 then post_to_sdk_queue sOutgoingIPPacketEvent w else w.

(** [LwIPOutputIP6] in the default configuration (no legacy interface, no
    certification hooks).  [netif] is the address of the interface. *)
Definition LwIPOutputIP6 (waits : list (list thci_message_t))
  (netif : Z) (aPbuf : pbuf) (next : list pbuf) (w : thci_t)
  : err_t * thci_t :=
  if negb (len aPbuf <=? NL_THCI_PAYLOAD_MTU) then (ERR_VAL, w)
  else
    match mNetifThread (gTHCISDKContext w) with
    | Some thread_netif =>
        if netif =? thread_netif then
          match CreateTHCIMessageFromPbuf waits aPbuf next w with
          | (0, message, w) =>
              let (r, q) := EnqueueMessage message (mMessageQueue (gTHCISDKContext w)) in
              if r =? 0 then
                (ERR_OK, post_pump_event_once (with_sdk (set_mMessageQueue q) w))
              else (ERR_INPROGRESS, free_in_ring message w)
          | (_, message, w) => (ERR_MEM, free_in_ring message w)
          end
        else (ERR_IF, w)
    | None => (ERR_IF, w)
    end.

(** [thciStallOutgoingDataPackets] *)
Definition thciStallOutgoingDataPackets (aEnable : bool) (w : thci_t) : thci_t :=
  if Bool.eqb (mStallOutgoingDataPackets (gTHCISDKContext w)) aEnable then w
  else
    let w := with_sdk (fun c =>
               mk_sdk (mSdkQueue c) (mNetifThread c) (mMessageQueue c)
                      (mInsecureSourcePort c) (mSecurityFlags c) (mDeviceRole c)
                      aEnable) w in
    if negb aEnable && negb (IsMessageQueueEmpty (mMessageQueue (gTHCISDKContext w)))
    then post_pump_event_once w
    else w.

(** ** The UART transport: transaction matcher and response wait *)

(** A received Spinel packet as [spinel_datatype_unpack] with the format
    ["CiiD"] splits it: header, command, property key, arguments. *)
Record spinel_frame : Type := mk_frame {
  fHeader : Z;
  fCommand : Z;
  fKey : Z;
  fArgs : list Z
}.

(** The file statics of the transport that the matcher uses.
    [sResponseBuffer] stands for the pair [sResponseBuffer],
    [sResponseLength]; [sResponseQueueHandle] says whether the handle is
    set.  The byte FIFO, the HDLC decoder and the interrupt-side flags are
    represented by what the decoder delivers, see [rx_delivery]. *)
Record uart_t : Type := mk_uart {
  sProvideInternalResponse : bool;
  sRxEventPostedToSdkQueue : Z;
  sResponseQueueHandle : bool;
  sResponseCommand : Z;
  sResponseKey : Z;
  sResponseBuffer : list Z;
  sResponseReceived : bool;
  sResponseTransactionId : Z;
  sResponseSuccess : bool;
  sDecodeFailure : bool
}.

(** What the HDLC decoder hands over while [UartRxFifoProcess] feeds it
    the bytes of the FIFO: a complete frame, given as the result of its
    unpacking ([None] when the parsed length is not the frame length), or a
    decode error. *)
Inductive rx_delivery : Type :=
| RxFrame (unpacked : option spinel_frame)
| RxError.

Section Uart.
Context `{OT : OpenThread}.

(** The callbacks installed by [thciUartEnable]; they belong to the NCP
    module and do not see the statics of the transport. *)
Variable sDataFrameCB : option (Z -> Z -> list Z -> thci_t -> thci_t).
Variable sControlFrameCB : option (Z -> Z -> Z -> list Z -> thci_t -> thci_t).

(** [CompareResponse]: the value returned and the statics. *)
Definition CompareResponse (aHeader aCommand aKey : Z) (u : uart_t) : bool * uart_t :=
  let success (u : uart_t) :=
    mk_uart (sProvideInternalResponse u) (sRxEventPostedToSdkQueue u)
            (sResponseQueueHandle u) (sResponseCommand u) (sResponseKey u)
            (sResponseBuffer u) (sResponseReceived u) (sResponseTransactionId u)
            true (sDecodeFailure u) in
  if negb (sResponseTransactionId u =? kDontCareTransactionId) then
    if SPINEL_HEADER_GET_TID aHeader =? sResponseTransactionId u then
      if (sResponseCommand u =? aCommand) && (sResponseKey u =? aKey)
      then (true, success u)
      else (true, u)
    else (false, u)
  else if (sResponseCommand u =? aCommand) && (sResponseKey u =? aKey)
  then (true, success u)
  else (false, u).

(** [HandleFrame] *)
Definition HandleFrame (unpacked : option spinel_frame) (s : uart_t * thci_t)
  : uart_t * thci_t :=
  let (u, w) := s in
  match unpacked with
  | None => s
  | Some f =>
      let header := fHeader f in
      let command := fCommand f in
      let key := fKey f in
      let argPtr := fArgs f in
      let (matched, u') :=
        if sProvideInternalResponse u
        then CompareResponse header command key u
        else (false, u) in
      if matched then
        let u := mk_uart (sProvideInternalResponse u') (sRxEventPostedToSdkQueue u')
                         (sResponseQueueHandle u') (sResponseCommand u')
                         (sResponseKey u') argPtr true
                         (sResponseTransactionId u') (sResponseSuccess u')
                         (sDecodeFailure u') in
        if negb (sResponseSuccess u) && (key =? SPINEL_PROP_LAST_STATUS)
        then (u, HandleLastStatusUpdate argPtr w)
        else (u, w)
      else if (key =? SPINEL_PROP_STREAM_NET) || (key =? SPINEL_PROP_STREAM_NET_INSECURE)
      then
        match sDataFrameCB with
        | Some cb => (u', cb command key argPtr w)
        | None => (u', w)
        end
      else
        match sControlFrameCB with
        | Some cb => (u', cb header command key argPtr w)
        | None => (u', w)
        end
  end.

(** [HandleError] *)
Definition HandleError (s : uart_t * thci_t) : uart_t * thci_t :=
  let (u, w) := s in
  (mk_uart (sProvideInternalResponse u) (sRxEventPostedToSdkQueue u)
           (sResponseQueueHandle u) (sResponseCommand u) (sResponseKey u)
           (sResponseBuffer u) true (sResponseTransactionId u) false true,
   thciInitiateNCPRecovery w).

(** [UartRxFifoProcess] over the deliveries of the decoder: the loop stops
    at a decode failure and as soon as a response is received. *)
Fixpoint UartRxFifoProcess (rx : list rx_delivery) (s : uart_t * thci_t)
  : uart_t * thci_t :=
  match rx with
  | [] => s
  | d :: rx' =>
      if sDecodeFailure (fst s) || sResponseReceived (fst s) then s
      else
        UartRxFifoProcess rx'
          match d with
          | RxFrame unpacked => HandleFrame unpacked s
          | RxError => HandleError s
          end
  end.

(** [PostRxDoneEventToSdkQueue(false)] *)
Definition PostRxDoneEventToSdkQueue (s : uart_t * thci_t) : uart_t * thci_t :=
  let (u, w) := s in
  match mSdkQueue (gTHCISDKContext w) with
  | Some _ =>
      let old := sRxEventPostedToSdkQueue u in
      let u := mk_uart (sProvideInternalResponse u) (Z.lor old 1)
                       (sResponseQueueHandle u) (sResponseCommand u)
                       (sResponseKey u) (sResponseBuffer u) (sResponseReceived u)
                       (sResponseTransactionId u) (sResponseSuccess u)
                       (sDecodeFailure u) in
      if old =? 0 then (u, post_to_sdk_queue sUartRxDoneEvent w) else (u, w)
  | None => s
  end.

(** The statics as the start of a wait registers what is looked for. *)
Definition register_response (aTransactionID aCommand aKey : Z) (u : uart_t) : uart_t :=
  mk_uart true (sRxEventPostedToSdkQueue u) (sResponseQueueHandle u)
          (uint8_t aCommand) aKey (sResponseBuffer u) false
          (uint8_t aTransactionID) false (sDecodeFailure u).

(** The statics as the end of a wait ([done:]) leaves them. *)
Definition clear_response (u : uart_t) : uart_t :=
  mk_uart false (sRxEventPostedToSdkQueue u) (sResponseQueueHandle u)
          (sResponseCommand u) (sResponseKey u) (sResponseBuffer u) false
          (sResponseTransactionId u) (sResponseSuccess u) (sDecodeFailure u).

(** [thciUartWaitForResponseInternal].  [rx] is what the decoder delivers
    from the bytes that arrive before the wait gives up (3 s without a
    byte); [leftover] says whether an event is still in the response queue
    when the loop is left.  The result is the error returned and what is
    stored in [*aBuffer], [*aLength] ([None] when they are not written). *)
Definition thciUartWaitForResponseInternal (aAvoidNCPRecovery : bool)
  (aTransactionID aCommand aKey : Z) (rx : list rx_delivery) (leftover : bool)
  (s : uart_t * thci_t) : otError * option (list Z) * (uart_t * thci_t) :=
  let (u, w) := s in
  if sDecodeFailure u then
    (OT_ERROR_NO_FRAME_RECEIVED, None, (clear_response u, w))
  else
    let u := register_response aTransactionID aCommand aKey u in
    let s := UartRxFifoProcess rx (u, w) in
    let result (s : uart_t * thci_t) :=
      if sResponseReceived (fst s)
      then (if sResponseSuccess (fst s) then OT_ERROR_NONE else OT_ERROR_FAILED,
            Some (sResponseBuffer (fst s)))
      else (OT_ERROR_NO_FRAME_RECEIVED, None) in
    if sResponseQueueHandle u then
      let s' :=
        if leftover then
          let (u, w) := PostRxDoneEventToSdkQueue s in
          (mk_uart false (sRxEventPostedToSdkQueue u) (sResponseQueueHandle u)
                   (sResponseCommand u) (sResponseKey u) (sResponseBuffer u)
                   (sResponseReceived u) (sResponseTransactionId u)
                   (sResponseSuccess u) (sDecodeFailure u), w)
        else s in
      let s' :=
        if negb (sResponseReceived (fst s')) && negb aAvoidNCPRecovery
        then (fst s', thciInitiateNCPRecovery (snd s'))
        else s' in
      (result s, (clear_response (fst s'), snd s'))
    else
      (result s, (clear_response (fst s), snd s)).

Definition thciUartWaitForResponse :=
  thciUartWaitForResponseInternal false.

Definition thciUartWaitForResponseIgnoreTimeout :=
  thciUartWaitForResponseInternal true.

End Uart.

(** ** [thciGetVersionString] *)

(** The caller's memory, byte by address. *)
Definition memory : Type := Z -> Z.

Definition memcpy (mem : memory) (dst : Z) (src : list Z) (n : Z) : memory :=
  fun a =>
    if (dst <=? a) && (a <? dst + n) then nth (Z.to_nat (a - dst)) src 0 else mem a.

Definition store_byte (mem : memory) (a : Z) (v : Z) : memory :=
  fun x => if x =? a then v else mem x.

(** [strlen] of the memory a [const char *] designates: the bytes before
    the first NUL. *)
Fixpoint strlen (s : list Z) : Z :=
  match s with
  | [] => 0
  | c :: s' => if c =? 0 then 0 else 1 + strlen s'
  end.

(** The addresses a run of the function stores to. *)
Definition written (before after : memory) (a : Z) : Prop := before a <> after a.

Section VersionString.
Context `{OT : OpenThread}.
Variable sDataFrameCB : option (Z -> Z -> list Z -> thci_t -> thci_t).
Variable sControlFrameCB : option (Z -> Z -> Z -> list Z -> thci_t -> thci_t).

(** [thciGetVersionString].  [aString] is the address of the buffer
    ([None] for [NULL]).  [sent] is what [thciUartFrameSend] returns for the
    request; [rx] and [leftover] are the environment of the wait, see
    [thciUartWaitForResponseInternal]. *)
Definition thciGetVersionString (aString : option Z) (aLength : Z)
  (sent : otError) (rx : list rx_delivery) (leftover : bool)
  (mem : memory) (s : uart_t * thci_t) : otError * memory * (uart_t * thci_t) :=
  let (u, w) := s in
  let tid := GetNewTransactionId (mTransactionId (gTHCINCPContext w)) in
  let w := with_ncp (set_mTransactionId tid) w in
  match aString with
  | None => (OT_ERROR_INVALID_ARGS, mem, (u, w))
  | Some aString =>
      if aLength =? 0 then (OT_ERROR_INVALID_ARGS, mem, (u, w))
      else if negb (module_state_eqb (mModuleState (gTHCINCPContext w))
                                     kModuleStateInitialized)
      then (OT_ERROR_INVALID_STATE, mem, (u, w))
      else
        match sent with
        | OT_ERROR_NONE =>
            match thciUartWaitForResponse sDataFrameCB sControlFrameCB tid
                    SPINEL_CMD_PROP_VALUE_IS SPINEL_PROP_NCP_VERSION rx leftover (u, w)
            with
            | (OT_ERROR_NONE, buffer, s) =>
                let argPtr := match buffer with Some b => b | None => [] end in
                match spinel_unpack_utf8 argPtr with
                | (parsedLength, Some version) =>
                    if parsedLength >? 0 then
                      let versionLength := strlen version in
                      let versionLength :=
                        if aLength <? versionLength + 1 then aLength - 1
                        else versionLength in
                      let mem := memcpy mem aString version versionLength in
                      let mem := store_byte mem (aString + versionLength) 0 in
                      (OT_ERROR_NONE, mem, s)
                    else (OT_ERROR_PARSE, mem, s)
                | (_, None) => (OT_ERROR_PARSE, mem, s)
                end
            | (retval, _, s) => (retval, mem, s)
            end
        | retval => (retval, mem, (u, w))
        end
  end.

End VersionString.

(** ** The outgoing packet pump: [OutgoingIPPacketEventHandler] *)

(** The environment of one request: what [thciUartFrameSend] returns for
    the frame (transaction id, command, key, payload), and the environment
    of the wait that follows, see [thciUartWaitForResponseInternal]. *)
Record request_env : Type := mk_request_env {
  envSent : Z -> Z -> Z -> list Z -> otError;
  envRx : list rx_delivery;
  envLeftover : bool
}.

Definition set_security (flags port : Z) (c : thci_sdk_context_t) :=
  mk_sdk (mSdkQueue c) (mNetifThread c) (mMessageQueue c) port flags
         (mDeviceRole c) (mStallOutgoingDataPackets c).

Definition NeedToOpenInsecureSourcePort (w : thci_t) : bool :=
  let flags := mSecurityFlags (gTHCISDKContext w) in
  negb (THCI_ENABLE_MESSAGE_SECURITY flags)
  && THCI_TEST_INSECURE_PORTS flags
  && negb (THCI_TEST_INSECURE_SOURCE_PORT flags).

Definition otError_is_none (e : otError) : bool :=
  match e with
  | OT_ERROR_NONE => true
  | _ => false
  end.

Section Pump.
Context `{OT : OpenThread}.
Variable sDataFrameCB : option (Z -> Z -> list Z -> thci_t -> thci_t).
Variable sControlFrameCB : option (Z -> Z -> Z -> list Z -> thci_t -> thci_t).

(** [thciAddUnsecurePort] *)
Definition thciAddUnsecurePort (aPort : Z) (env : request_env)
  (s : uart_t * thci_t) : otError * (uart_t * thci_t) :=
  let (u, w) := s in
  let tid := GetNewTransactionId (mTransactionId (gTHCINCPContext w)) in
  let w := with_ncp (set_mTransactionId tid) w in
  if negb (module_state_eqb (mModuleState (gTHCINCPContext w)) kModuleStateInitialized)
  then (OT_ERROR_INVALID_STATE, (u, w))
  else
    match envSent env tid SPINEL_CMD_PROP_VALUE_INSERT
            SPINEL_PROP_THREAD_ASSISTING_PORTS [aPort] with
    | OT_ERROR_NONE =>
        match thciUartWaitForResponse sDataFrameCB sControlFrameCB tid
                SPINEL_CMD_PROP_VALUE_INSERTED SPINEL_PROP_THREAD_ASSISTING_PORTS
                (envRx env) (envLeftover env) (u, w)
        with
        | (OT_ERROR_NONE, _, (u, w)) =>
            let flags := mSecurityFlags (gTHCISDKContext w) in
            let flags := uint8_t (Z.lor flags THCI_SECURITY_FLAG_INSECURE_PORTS_ENABLED) in
            let flags :=
              uint8_t (Z.land flags
                         (Z.lnot THCI_SECURITY_FLAG_SECURE_MSG_RXD_ON_INSECURE_PORT)) in
            (OT_ERROR_NONE, (u, with_sdk (set_security flags aPort) w))
        | (retval, _, s) => (retval, s)
        end
    | retval => (retval, (u, w))
    end.

(** [OpenSourcePort]: the message with its offset reset, the number of
    requests made (none or one), the state. *)
Definition OpenSourcePort (aMessage : thci_message_t) (env : request_env)
  (s : uart_t * thci_t) : thci_message_t * nat * (uart_t * thci_t) :=
  let '(len, ip6Hdr, aMessage) := ReadMessage aMessage sizeof_ip6_hdr in
  if negb (uint16_t len =? sizeof_ip6_hdr) then (ResetOffset aMessage, O, s)
  else if negb (IP6H_NEXTH ip6Hdr =? IP6_NEXTH_TCP) then (ResetOffset aMessage, O, s)
  else
    let '(len, srcPort, aMessage) := ReadMessage aMessage 2 in
    if negb (uint16_t len =? 2) then (ResetOffset aMessage, O, s)
    else
      let srcPort := lwip_ntohs_bytes srcPort in
      match thciAddUnsecurePort srcPort env s with
      | (OT_ERROR_NONE, (u, w)) =>
          let flags :=
            uint8_t (Z.lor (mSecurityFlags (gTHCISDKContext w))
                           THCI_SECURITY_FLAG_INSECURE_SOURCE_PORT) in
          (ResetOffset aMessage, 1%nat, (u, with_sdk (set_security flags srcPort) w))
      | (_, s) => (ResetOffset aMessage, 1%nat, s)
      end.

(** The [while] loop of [OutgoingIPPacketEventHandler] in the default
    configuration (no legacy interface).  [env i] is the environment of the
    [i]-th request the handler makes.  The loop ends with the status it is
    left with; [None] when [fuel] iterations did not empty the queue. *)
Fixpoint drain_message_queue (fuel : nat) (env : nat -> request_env) (i : nat)
  (s : uart_t * thci_t) : option (otError * (uart_t * thci_t)) :=
  if IsMessageQueueEmpty (mMessageQueue (gTHCISDKContext (snd s)))
  then Some (OT_ERROR_NONE, s)
  else
    match fuel with
    | O => None
    | S fuel' =>
        let (u, w) := s in
        match DequeueMessage (mMessageQueue (gTHCISDKContext w)) with
        | (None, _) => Some (OT_ERROR_NONE, s)
        | (Some message, q) =>
            let w := with_sdk (set_mMessageQueue q) w in
            let '(message, used, (u, w)) :=
              if NeedToOpenInsecureSourcePort w
              then OpenSourcePort message (env i) (u, w)
              else (message, O, (u, w)) in
            let i := (i + used)%nat in
            let command := SPINEL_CMD_PROP_VALUE_SET in
            let key := if IsMessageSecure message
                       then SPINEL_PROP_STREAM_NET
                       else SPINEL_PROP_STREAM_NET_INSECURE in
            let tid := GetNewTransactionId (mTransactionId (gTHCINCPContext w)) in
            let w := with_ncp (set_mTransactionId tid) w in
            let status := envSent (env i) tid command key (mBuffer message) in
            let w := free_in_ring (Some message) w in
            if negb (otError_is_none status) then Some (status, (u, w))
            else
              match thciUartWaitForResponse sDataFrameCB sControlFrameCB tid
                      SPINEL_CMD_PROP_VALUE_IS SPINEL_PROP_LAST_STATUS
                      (envRx (env i)) (envLeftover (env i)) (u, w)
              with
              | (OT_ERROR_NONE, buffer, s) =>
                  let argPtr := match buffer with Some b => b | None => [] end in
                  let (parsedLength, last) := spinel_unpack_uint_packed argPtr in
                  if parsedLength >? 0
                  then drain_message_queue fuel' env (S i) s
                  else Some (OT_ERROR_PARSE, s)
              | (status, _, s) => Some (status, s)
              end
        end
    end.

(** [OutgoingIPPacketEventHandler], entered once the driver task has taken
    the event out of the SDK queue. *)
Definition OutgoingIPPacketEventHandler (fuel : nat) (env : nat -> request_env)
  (s : uart_t * thci_t) : option (uart_t * thci_t) :=
  let (u, w) := s in
  let w := set_sOutgoingIPPacketEventPosted 0 w in
  let done (s : uart_t * thci_t) :=
    if negb (IsMessageQueueEmpty (mMessageQueue (gTHCISDKContext (snd s))))
    then (fst s, post_pump_event_once (snd s))
    else s in
  if negb (module_state_eqb (mModuleState (gTHCINCPContext w)) kModuleStateInitialized)
  then Some (done (u, w))
  else if mStallOutgoingDataPackets (gTHCISDKContext w) then Some (u, w)
  else
    match drain_message_queue fuel env O (u, w) with
    | Some (_, s) => Some (done s)
    | None => None
    end.

End Pump.

(** ** The outgoing packet pump and its event

    The three places that post [sOutgoingIPPacketEvent] do so with
    [if (!__sync_fetch_and_or(&sOutgoingIPPacketEventPosted, 1)) post]:
    the fetch-and-or is atomic, the post is a second step of the same
    task.  [OutgoingIPPacketEventHandler] runs on the driver task once the
    event has been taken out of the SDK queue, and its first statement
    clears the flag.  The tasks interleave between these steps. *)

(** Where a posting task stands: outside the two statements, or between the
    fetch-and-or (which returned [old]) and the post. *)
Inductive poster_pc : Type :=
| AtRest
| Fetched (old : Z).

(** Where the driver task stands: waiting for an event; the pump event
    taken out of the queue and the handler entered, before the clear; in
    the body of the handler; at the re-post of its end. *)
Inductive handler_pc : Type :=
| Waiting
| Dispatched
| Draining
| Reposting (old : Z).

Record pump_t : Type := mk_pump {
  pumpEventPosted : Z;
  sdkMailbox : list nl_event_t;
  lwipTask : poster_pc;
  stallCaller : poster_pc;
  driverTask : handler_pc
}.

Inductive pump_action : Type :=
| LwipFetchOr      (* LwIPOutputIP6: __sync_fetch_and_or *)
| LwipPost         (* LwIPOutputIP6: the guarded nl_eventqueue_post_event *)
| StallFetchOr     (* thciStallOutgoingDataPackets: __sync_fetch_and_or *)
| StallPost        (* thciStallOutgoingDataPackets: the guarded post *)
| Dispatch         (* the driver task takes the pump event out of the queue *)
| HandlerClear     (* OutgoingIPPacketEventHandler: sOutgoingIPPacketEventPosted = 0 *)
| HandlerExit      (* the handler returns without the re-post *)
| HandlerFetchOr   (* the handler, queue not empty: __sync_fetch_and_or *)
| HandlerPost.     (* the handler: the guarded post, then return *)

Definition guarded_post (old : Z) (q : list nl_event_t) : list nl_event_t :=
  if old =? 0 then nl_eventqueue_post_event q sOutgoingIPPacketEvent else q.

(** One step of one task; [None] when the task is not at that statement. *)
Definition pump_do (a : pump_action) (p : pump_t) : option pump_t :=
  match a with
  | LwipFetchOr =>
      match lwipTask p with
      | AtRest => Some (mk_pump (Z.lor (pumpEventPosted p) 1) (sdkMailbox p)
                                (Fetched (pumpEventPosted p)) (stallCaller p)
                                (driverTask p))
      | _ => None
      end
  | LwipPost =>
      match lwipTask p with
      | Fetched old => Some (mk_pump (pumpEventPosted p)
                                     (guarded_post old (sdkMailbox p))
                                     AtRest (stallCaller p) (driverTask p))
      | _ => None
      end
  | StallFetchOr =>
      match stallCaller p with
      | AtRest => Some (mk_pump (Z.lor (pumpEventPosted p) 1) (sdkMailbox p)
                                (lwipTask p) (Fetched (pumpEventPosted p))
                                (driverTask p))
      | _ => None
      end
  | StallPost =>
      match stallCaller p with
      | Fetched old => Some (mk_pump (pumpEventPosted p)
                                     (guarded_post old (sdkMailbox p))
                                     (lwipTask p) AtRest (driverTask p))
      | _ => None
      end
  | Dispatch =>
      match driverTask p, sdkMailbox p with
      | Waiting, sOutgoingIPPacketEvent :: q =>
          Some (mk_pump (pumpEventPosted p) q (lwipTask p) (stallCaller p) Dispatched)
      | _, _ => None
      end
  | HandlerClear =>
      match driverTask p with
      | Dispatched => Some (mk_pump 0 (sdkMailbox p) (lwipTask p) (stallCaller p)
                                    Draining)
      | _ => None
      end
  | HandlerExit =>
      match driverTask p with
      | Draining => Some (mk_pump (pumpEventPosted p) (sdkMailbox p) (lwipTask p)
                                  (stallCaller p) Waiting)
      | _ => None
      end
  | HandlerFetchOr =>
      match driverTask p with
      | Draining => Some (mk_pump (Z.lor (pumpEventPosted p) 1) (sdkMailbox p)
                                  (lwipTask p) (stallCaller p)
                                  (Reposting (pumpEventPosted p)))
      | _ => None
      end
  | HandlerPost =>
      match driverTask p with
      | Reposting old => Some (mk_pump (pumpEventPosted p)
                                       (guarded_post old (sdkMailbox p))
                                       (lwipTask p) (stallCaller p) Waiting)
      | _ => None
      end
  end.

Definition pump_init : pump_t := mk_pump 0 [] AtRest AtRest Waiting.

(** A schedule: the steps taken, in order. *)
Fixpoint pump_run (acts : list pump_action) (p : pump_t) : option pump_t :=
  match acts with
  | [] => Some p
  | a :: acts' =>
      match pump_do a p with
      | Some p' => pump_run acts' p'
      | None => None
      end
  end.

(** The pump events resident in the SDK queue. *)
Definition pump_resident (p : pump_t) : nat :=
  resident sOutgoingIPPacketEvent (sdkMailbox p).

(** The posts still owed: a task that fetched [0] has yet to post, and a
    handler that was dispatched has yet to clear the flag. *)
Definition owes (pc : poster_pc) : nat :=
  match pc with
  | Fetched 0 => 1
  | _ => 0
  end.

Definition driver_owes (pc : handler_pc) : nat :=
  match pc with
  | Dispatched => 1
  | Reposting 0 => 1
  | _ => 0
  end.

Definition pump_in_flight (p : pump_t) : nat :=
  (owes (lwipTask p) + owes (stallCaller p) + driver_owes (driverTask p))%nat.

(** The contexts [w'] show the same as [w] to whoever looks at the events
    selected by [keep] in the SDK queue, at the pump flag and at the
    message queue; a queue exists in both or in neither. *)
Definition unchanged (keep : nl_event_t -> bool) (w w' : thci_t) : Prop :=
  filter keep (sdk_events w') = filter keep (sdk_events w) /\
  (mSdkQueue (gTHCISDKContext w') = None <-> mSdkQueue (gTHCISDKContext w) = None) /\
  sOutgoingIPPacketEventPosted w' = sOutgoingIPPacketEventPosted w /\
  mMessageQueue (gTHCISDKContext w') = mMessageQueue (gTHCISDKContext w).

(** The pump as the contexts show it: the flag, and the pump events among
    the events resident in the SDK queue. *)
Definition pump_only : nl_event_t -> bool := nl_event_eqb sOutgoingIPPacketEvent.

Definition pump_of (w : thci_t) (lw st : poster_pc) (dr : handler_pc) : pump_t :=
  mk_pump (sOutgoingIPPacketEventPosted w) (filter pump_only (sdk_events w)) lw st dr.

Definition same_pump_view (w w' : thci_t) : Prop :=
  filter pump_only (sdk_events w') = filter pump_only (sdk_events w) /\
  (mSdkQueue (gTHCISDKContext w') = None <-> mSdkQueue (gTHCISDKContext w) = None) /\
  sOutgoingIPPacketEventPosted w' = sOutgoingIPPacketEventPosted w.

(** The invariant of the pump: the flag is 0 or 1 and counts the pump
    events resident in the queue together with the posts and the clear
    still owed. *)
Definition pump_inv (p : pump_t) : Prop :=
  (pumpEventPosted p = 0 \/ pumpEventPosted p = 1) /\
  pumpEventPosted p = Z.of_nat (pump_resident p + pump_in_flight p).

(** ** The matching rule in the words of the specification

    A response matches iff the request tid is not the don't-care id and the
    frame's tid equals the request tid, or the request tid is the
    don't-care id and the frame's (command, key) equals the expected
    pair.  The request is the one registered in the statics [u]. *)
Definition spec_response_matches (u : uart_t) (f : spinel_frame) : Prop :=
  (sResponseTransactionId u <> kDontCareTransactionId /\
   SPINEL_HEADER_GET_TID (fHeader f) = sResponseTransactionId u)
  \/
  (sResponseTransactionId u = kDontCareTransactionId /\
   fCommand f = sResponseCommand u /\ fKey f = sResponseKey u).

(** The frame carries the expected (command, key). *)
Definition spec_expected_pair (u : uart_t) (f : spinel_frame) : Prop :=
  fCommand f = sResponseCommand u /\ fKey f = sResponseKey u.

(** The test of [CompareResponse] on the (command, key) of a frame. *)
Definition expected_pairb (u : uart_t) (f : spinel_frame) : bool :=
  (sResponseCommand u =? fCommand f) && (sResponseKey u =? fKey f).

(** A delivery that is not the awaited response: a frame that does not
    match or does not parse.  A decode error ends the wait as a failure and
    is not one of these. *)
Definition unmatched (u : uart_t) (d : rx_delivery) : Prop :=
  match d with
  | RxFrame (Some f) => ~ spec_response_matches u f
  | RxFrame None => True
  | RxError => False
  end.

(** ** States to run the model on *)

(** The contexts after a first [thciInitialize] with all callbacks given,
    an SDK queue, and the Thread interface at address [1]. *)
Definition thci_initialized : thci_t :=
  mk_thci
    (mk_ncp ring_init
            (repeat (mk_callback_buffer kCallbackBufferStateFree [])
                    THCI_NUM_CALLBACK_BUFFERS)
            false true true 0 kModuleStateInitialized 0 0)
    (mk_sdk (Some []) (Some 1) queue_init 0 0 OT_DEVICE_ROLE_DISABLED false)
    0 [].

(** The statics of the transport after [thciUartEnable] with callbacks
    ([with_queue]) or without (the updater). *)
Definition uart_enabled (with_queue : bool) : uart_t :=
  mk_uart false 0 with_queue 0 0 [] false 0 false false.

(** Spinel's packed unsigned integer: seven bits a byte, least significant
    group first, bit 7 set on all bytes but the last. *)
Fixpoint packed_uint_decode (fuel : nat) (bytes : list Z) : Z * Z :=
  match fuel, bytes with
  | S fuel', b :: rest =>
      if b <? 128 then (1, b)
      else
        let (n, v) := packed_uint_decode fuel' rest in
        if n <=? 0 then (-1, 0) else (n + 1, Z.land b 127 + 128 * v)
  | _, _ => (-1, 0)
  end.

Fixpoint utf8_decode (bytes : list Z) : Z :=
  match bytes with
  | [] => -1
  | b :: rest =>
      if b =? 0 then 1
      else let n := utf8_decode rest in if n <=? 0 then -1 else n + 1
  end.

(** A structure of a Spinel frame: its length on two bytes, low byte
    first, and that many bytes; the result is these bytes and what follows
    the structure. *)
Definition struct_decode (bytes : list Z) : option (list Z * list Z) :=
  match bytes with
  | lo :: hi :: rest =>
      let n := Z.to_nat (lo + 256 * hi) in
      if (n <=? length rest)%nat then Some (firstn n rest, skipn n rest) else None
  | _ => None
  end.

(** A scan beacon: channel, RSSI, the structure of the MAC layer (extended
    address, short address, PAN id, LQI) and the structure of the network
    layer (protocol, flags, network name, extended PAN id with its
    length).  The pointers designate bytes of the frame. *)
Definition scan_beacon_decode (bytes : list Z) : option spinel_scan_beacon :=
  match bytes with
  | channel :: rssi :: rest =>
      match struct_decode rest with
      | Some (mac, rest) =>
          match struct_decode rest with
          | Some (net, _) =>
              let (n, _) := packed_uint_decode 5 net in
              match skipn (Z.to_nat n) net with
              | flags :: name =>
                  let u := utf8_decode name in
                  match struct_decode (skipn (Z.to_nat u) name) with
                  | Some (xpanid, _) =>
                      if (0 <? n) && (0 <? u) && (13 <=? length mac)%nat then
                        Some (mk_scan_beacon
                                channel (if rssi <? 128 then rssi else rssi - 256)
                                mac
                                (nth 10 mac 0 + 256 * nth 11 mac 0)
                                (nth 12 mac 0) flags name xpanid)
                      else None
                  | None => None
                  end
              | [] => None
              end
          | None => None
          end
      | None => None
      end
  | _ => None
  end.

(** The numbers of [openthread/spinel.h] and [openthread/types.h], with
    decoders for the formats used, to run the model on concrete frames.
    No proof depends on these values. *)
Definition openthread_reference : OpenThread := {|
  SPINEL_CMD_PROP_VALUE_GET := 2;
  SPINEL_CMD_PROP_VALUE_SET := 3;
  SPINEL_CMD_PROP_VALUE_INSERT := 4;
  SPINEL_CMD_PROP_VALUE_IS := 6;
  SPINEL_CMD_PROP_VALUE_INSERTED := 7;
  SPINEL_PROP_LAST_STATUS := 0;
  SPINEL_PROP_NCP_VERSION := 2;
  SPINEL_PROP_STREAM_DEBUG := 112;
  SPINEL_PROP_STREAM_NET := 114;
  SPINEL_PROP_STREAM_NET_INSECURE := 115;
  SPINEL_PROP_NET_ROLE := 67;
  SPINEL_PROP_NEST_LEGACY_ULA_PREFIX := 15297;
  SPINEL_PROP_MAC_SCAN_STATE := 48;
  SPINEL_PROP_MAC_SCAN_BEACON := 51;
  SPINEL_PROP_THREAD_CHILD_TABLE := 82;
  SPINEL_PROP_THREAD_ASSISTING_PORTS := 92;
  SPINEL_PROP_IPV6_ADDRESS_TABLE := 99;
  SPINEL_PROP_IPV6_MULTICAST_ADDRESS_TABLE := 102;
  SPINEL_STATUS_OK := 0;
  SPINEL_STATUS_RESET__BEGIN := 112;
  SPINEL_STATUS_RESET__END := 128;
  SPINEL_NET_ROLE_CHILD := 1;
  SPINEL_NET_ROLE_ROUTER := 2;
  SPINEL_NET_ROLE_LEADER := 3;
  OT_CHANGED_IP6_ADDRESS_ADDED := 1;
  OT_CHANGED_IP6_MULTICAST_SUBSRCRIBED := 4096;
  OT_CHANGED_THREAD_ROLE := 4;
  spinel_unpack_uint_packed := packed_uint_decode 5;
  spinel_unpack_uint8 := fun bytes =>
    match bytes with
    | b :: _ => (1, b)
    | [] => (-1, 0)
    end;
  spinel_unpack_data := fun bytes =>
    match bytes with
    | lo :: hi :: rest =>
        if lo + 256 * hi <=? Z.of_nat (length rest)
        then (2 + (lo + 256 * hi), firstn (Z.to_nat (lo + 256 * hi)) rest)
        else (-1, [])
    | _ => (-1, [])
    end;
  spinel_unpack_utf8 := fun bytes =>
    let n := utf8_decode bytes in
    if n <=? 0 then (-1, None) else (n, Some bytes);
  spinel_unpack_scan_beacon := scan_beacon_decode;
  SPINEL_BEACON_THREAD_FLAG_JOINABLE := 1;
  sizeof_mExtAddress := 8;
  sizeof_mNetworkName := 17;
  sizeof_mExtendedPanId := 8;
  otActiveScanResult_store := fun r content =>
    srExtAddress r ++ srNetworkName r ++ srExtendedPanId r
    ++ [srPanId r; srChannel r; srRssi r; srLqi r; if srIsJoinable r then 1 else 0]
    ++ skipn 38 content
|}.

(** ** Layout of the live messages in the ring

    The invariant of the ring along a run.  [ring_chain a l b]: the
    messages of [l] lie one after the other from address [a] to address
    [b], each with a positive size.  Either the live messages form one
    chain from the tail to the head and no gap is recorded, or the ring has
    wrapped: the older messages run from the tail to where the gap begins,
    the newer ones from the base to the head, below the tail. *)

Fixpoint ring_chain (a : Z) (l : list thci_message_t) (b : Z) : Prop :=
  match l with
  | [] => a = b
  | m :: l' =>
      msgPtr m = a /\ 0 < mTotalLength m /\ ring_chain (a + mTotalLength m) l' b
  end.

Definition ring_linear (g : message_ring_t) (live : list thci_message_t) : Prop :=
  mMessageRingEndGap g = 0 /\
  ringStart <= mMessageRingTail g /\
  mMessageRingHead g < ringEnd /\
  ring_chain (mMessageRingTail g) live (mMessageRingHead g).

Definition ring_wrapped (R : Z) (g : message_ring_t) (live : list thci_message_t)
  : Prop :=
  exists older newer,
    live = older ++ newer /\ older <> [] /\ newer <> [] /\
    0 < mMessageRingEndGap g <= R /\
    ring_chain (mMessageRingTail g) older (ringEnd - mMessageRingEndGap g) /\
    ring_chain ringStart newer (mMessageRingHead g) /\
    mMessageRingHead g < mMessageRingTail g.

Definition ring_inv (R : Z) (g : message_ring_t) (live : list thci_message_t)
  : Prop :=
  ring_linear g live \/ ring_wrapped R g live.

(** The sizes a run may request: each aligned size is positive (the
    [uint16_t] sum did not wrap to zero) and at most [R]. *)
Definition sizes_within (R : Z) (lens : list Z) : Prop :=
  Forall (fun aLength => 0 < alignedLength aLength <= R) lens.

(** * Further parts of the driver *)

(** ** The receive FIFO of the UART transport

    [sRxUartFifo] with [sRxUartFifoHead] and [sRxUartFifoTail]: the
    interrupt handler puts the bytes it receives at the head, the driver
    task gets them at the tail. *)

Definition RX_UART_FIFO_SIZE : Z := 128.
Definition RX_UART_FIFO_NEAR_FULL_THRESHOLD : Z := RX_UART_FIFO_SIZE / 10.

Record rx_fifo_t : Type := mk_rx_fifo {
  sRxUartFifo : list Z;
  sRxUartFifoHead : Z;
  sRxUartFifoTail : Z
}.

(** The store [a[i] = v] into an array held as a list; nothing is stored
    at an index outside the array. *)
Fixpoint array_store (i : nat) (v : Z) (a : list Z) : list Z :=
  match a, i with
  | [], _ => []
  | _ :: rest, O => v :: rest
  | x :: rest, S i' => x :: array_store i' v rest
  end.

(** [GetRxFifoChar]: the byte stored in [*aByte] when the function returns
    [0]; [None] when it returns [-ENODATA]. *)
Definition GetRxFifoChar (f : rx_fifo_t) : option Z * rx_fifo_t :=
  if negb (sRxUartFifoTail f =? sRxUartFifoHead f) then
    (Some (nth (Z.to_nat (sRxUartFifoTail f)) (sRxUartFifo f) 0),
     mk_rx_fifo (sRxUartFifo f) (sRxUartFifoHead f)
                (if sRxUartFifoTail f <? RX_UART_FIFO_SIZE - 1
                 then sRxUartFifoTail f + 1 else 0))
  else (None, f).

(** [PutRxFifoChar]: [true] when the function returns [0], [false] when it
    returns [-EOVERFLOW]. *)
Definition PutRxFifoChar (aByte : Z) (f : rx_fifo_t) : bool * rx_fifo_t :=
  let newHead :=
    if sRxUartFifoHead f <? RX_UART_FIFO_SIZE - 1
    then sRxUartFifoHead f + 1 else 0 in
  if negb (newHead =? sRxUartFifoTail f) then
    (true, mk_rx_fifo (array_store (Z.to_nat (sRxUartFifoHead f)) aByte (sRxUartFifo f))
                      newHead (sRxUartFifoTail f))
  else (false, f).

(** [IsRxFifoNearFull]; [aThreshold] and [newHead] are [size_t]. *)
Definition IsRxFifoNearFull (aThreshold : Z) (f : rx_fifo_t) : bool :=
  let head := sRxUartFifoHead f in
  let tail := sRxUartFifoTail f in
  let newHead :=
    if head <? uint32_t (RX_UART_FIFO_SIZE - aThreshold)
    then uint32_t (head + aThreshold)
    else uint32_t (aThreshold - uint32_t (RX_UART_FIFO_SIZE - head)) in
  if head >? tail then
    if (newHead >? head) || (newHead <? tail) then false else true
  else
    if (newHead <? tail) && (newHead >? head) then false else true.

Definition IsRxFifoEmpty (f : rx_fifo_t) : bool :=
  sRxUartFifoTail f =? sRxUartFifoHead f.

(** The FIFO holds the bytes [l], oldest first: they lie from the tail
    to the head, around the end of the array. *)
Definition rx_fifo_holds (f : rx_fifo_t) (l : list Z) : Prop :=
  length (sRxUartFifo f) = Z.to_nat RX_UART_FIFO_SIZE /\
  0 <= sRxUartFifoTail f < RX_UART_FIFO_SIZE /\
  Z.of_nat (length l) < RX_UART_FIFO_SIZE /\
  sRxUartFifoHead f
  = (sRxUartFifoTail f + Z.of_nat (length l)) mod RX_UART_FIFO_SIZE /\
  forall i : nat, (i < length l)%nat ->
    nth (Z.to_nat ((sRxUartFifoTail f + Z.of_nat i) mod RX_UART_FIFO_SIZE))
        (sRxUartFifo f) 0
    = nth i l 0.

(** ** The outgoing message queue as a queue *)

(** The queue holds the messages [l], oldest first: they fill the slots
    from [mTail] on, around the end of the array, and every other slot is
    [NULL]. *)
Definition queue_holds (q : thci_message_queue_t) (l : list thci_message_t) : Prop :=
  length (mQueue q) = Z.to_nat THCI_CONFIG_MESSAGE_QUEUE_SIZE /\
  0 <= mTail q < THCI_CONFIG_MESSAGE_QUEUE_SIZE /\
  Z.of_nat (length l) <= THCI_CONFIG_MESSAGE_QUEUE_SIZE /\
  mHead q = (mTail q + Z.of_nat (length l)) mod THCI_CONFIG_MESSAGE_QUEUE_SIZE /\
  forall i : nat, (i < Z.to_nat THCI_CONFIG_MESSAGE_QUEUE_SIZE)%nat ->
    queue_slot q ((mTail q + Z.of_nat i) mod THCI_CONFIG_MESSAGE_QUEUE_SIZE)
    = nth_error l i.

(** ** Messages in the ring *)

(** Two messages occupy bytes of the ring that do not overlap. *)
Definition messages_apart (m1 m2 : thci_message_t) : Prop :=
  msgPtr m1 + mTotalLength m1 <= msgPtr m2 \/
  msgPtr m2 + mTotalLength m2 <= msgPtr m1.

(** The head, the tail and the gap of the ring and the live messages are
    at multiples of four bytes. *)
Definition ring_aligned (g : message_ring_t) (live : list thci_message_t) : Prop :=
  mMessageRingHead g mod 4 = 0 /\
  mMessageRingTail g mod 4 = 0 /\
  mMessageRingEndGap g mod 4 = 0 /\
  Forall (fun m => msgPtr m mod 4 = 0 /\ mTotalLength m mod 4 = 0) live.

(** [IsMessageLegacy], [SetMessageLegacy] *)
Definition IsMessageLegacy (aMessage : thci_message_t) : bool :=
  negb (Z.land (mFlags aMessage) THCI_MESSAGE_FLAG_LEGACY =? 0).

Definition SetMessageLegacy (aMessage : thci_message_t) (aLegacy : bool)
  : thci_message_t :=
  set_message aMessage (mBuffer aMessage) (mOffset aMessage) (mLength aMessage)
    (if aLegacy
     then uint8_t (Z.lor (mFlags aMessage) THCI_MESSAGE_FLAG_LEGACY)
     else uint8_t (Z.land (mFlags aMessage) (Z.lnot THCI_MESSAGE_FLAG_LEGACY))).

(** The message holds the [mLength] bytes of [mBuffer], the read offset
    lies within them, and they fit the allocation. *)
Definition message_wf (m : thci_message_t) : Prop :=
  Z.of_nat (length (mBuffer m)) = mLength m /\
  0 <= mOffset m <= mLength m /\
  mLength m <= mTotalLength m - sizeof_thci_message_t /\
  mTotalLength m < 65536.

(** ** Datagrams *)

(** The [tot_len] of a chain: that of its first buffer. *)
Definition chain_tot_len (chain : list pbuf) : Z :=
  match chain with
  | p :: _ => tot_len p
  | [] => 0
  end.

(** The bytes of the datagram a chain carries. *)
Definition datagram_bytes (chain : list pbuf) : list Z :=
  concat (map payload chain).

(** ** The handlers of the scan and legacy-prefix events *)

Definition callback_buffer_state_eqb (a b : callback_buffer_state_t) : bool :=
  match a, b with
  | kCallbackBufferStateFree, kCallbackBufferStateFree => true
  | kCallbackBufferStateScanResult, kCallbackBufferStateScanResult => true
  | kCallbackBufferStateLegacyUla, kCallbackBufferStateLegacyUla => true
  | _, _ => false
  end.

(** The loop of [ScanResultEventHandler] and of
    [LegacyUlaChangeEventHandler] over the callback buffers: the contents
    the callback is called with, in the order of the buffers, and the
    buffers afterwards.  [registered] says whether the callback is set; a
    buffer in state [aState] is set free also when it is not. *)
Fixpoint release_callback_buffers (aState : callback_buffer_state_t)
  (registered : bool) (bufs : list callback_buffer_t)
  : list (list Z) * list callback_buffer_t :=
  match bufs with
  | [] => ([], [])
  | b :: rest =>
      let (calls, rest') := release_callback_buffers aState registered rest in
      if callback_buffer_state_eqb (mState b) aState then
        ((if registered then [mContent b] else []) ++ calls,
         mk_callback_buffer kCallbackBufferStateFree (mContent b) :: rest')
      else (calls, b :: rest')
  end.

(** [ScanResultEventHandler]: the scan results [mScanResultCallback] is
    called with, and the state. *)
Definition ScanResultEventHandler (w : thci_t) : list (list Z) * thci_t :=
  let (calls, bufs) :=
    release_callback_buffers kCallbackBufferStateScanResult
      (mScanResultCallback (gTHCINCPContext w))
      (mCallbackBuffers (gTHCINCPContext w)) in
  (calls, with_ncp (set_mCallbackBuffers bufs) w).

(** [LegacyUlaChangeEventHandler]: the prefixes [mLegacyUlaCallback] is
    called with, and the state; [mLegacyUlaCallback] says whether the
    callback is set. *)
Definition LegacyUlaChangeEventHandler (mLegacyUlaCallback : bool) (w : thci_t)
  : list (list Z) * thci_t :=
  let (calls, bufs) :=
    release_callback_buffers kCallbackBufferStateLegacyUla mLegacyUlaCallback
      (mCallbackBuffers (gTHCINCPContext w)) in
  (calls, with_ncp (set_mCallbackBuffers bufs) w).

(** The callback buffers that are free. *)
Definition free_callback_buffers (bufs : list callback_buffer_t) : nat :=
  length (filter (fun b => callback_buffer_state_eqb (mState b) kCallbackBufferStateFree)
                 bufs).

(** No buffer that holds a scan result comes after a free one. *)
Fixpoint scan_results_first (bufs : list callback_buffer_t) : Prop :=
  match bufs with
  | [] => True
  | b :: rest =>
      (mState b = kCallbackBufferStateFree ->
       Forall (fun b' => mState b' <> kCallbackBufferStateScanResult) rest) /\
      scan_results_first rest
  end.

(** ** The debug stream of the NCP: [HandleDebugStream] *)

(** The value of a [char] that holds the byte [b]; whether [char] is
    signed is the platform's choice. *)
Definition char_of_byte (char_is_signed : bool) (b : Z) : Z :=
  if char_is_signed && (b >=? 128) then b - 256 else b.

(** The store [a[i] = v] into an array of known size: [None] when the
    index lies outside the array. *)
Definition array_store_checked (i : Z) (v : Z) (a : list Z) : option (list Z) :=
  if (0 <=? i) && (i <? Z.of_nat (length a))
  then Some (array_store (Z.to_nat i) v a)
  else None.

(** The test of [HandleDebugStream] for a character that is kept. *)
Definition debug_char_kept (nextchar : Z) : bool :=
  (nextchar =? 9) || (nextchar >=? 32).

(** The loop of [HandleDebugStream] over the bytes that are left.
    [linebuffer] is the array of [96 + 1] characters and [log] the lines
    handed to the log so far; a line is logged with [%s], as the characters
    before the first NUL. *)
Fixpoint HandleDebugStream_loop (char_is_signed : bool) (aArgPtr : list Z)
  (linebuffer : list Z) (linepos : Z) (log : list (list Z))
  : option (list (list Z)) :=
  match aArgPtr with
  | [] => Some log
  | byte :: rest =>
      let nextchar := char_of_byte char_is_signed byte in
      let stored :=
        if debug_char_kept nextchar
        then option_map (fun b => (b, linepos + 1))
                        (array_store_checked linepos nextchar linebuffer)
        else Some (linebuffer, linepos) in
      match stored with
      | None => None
      | Some (linebuffer, linepos) =>
          if negb (linepos =? 0)
             && ((nextchar =? 10) || (nextchar =? 13) || (linepos >=? 97 - 1)
                 || match rest with [] => true | _ :: _ => false end)
          then
            match array_store_checked linepos 0 linebuffer with
            | None => None
            | Some linebuffer =>
                HandleDebugStream_loop char_is_signed rest linebuffer 0
                  (log ++ [firstn (Z.to_nat (strlen linebuffer)) linebuffer])
            end
          else HandleDebugStream_loop char_is_signed rest linebuffer linepos log
      end
  end.

(** [HandleDebugStream]; [linebuffer] is the array as the function finds
    it on its stack. *)
Definition HandleDebugStream (char_is_signed : bool) (linebuffer : list Z)
  (aArgPtr : list Z) : option (list (list Z)) :=
  HandleDebugStream_loop char_is_signed aArgPtr linebuffer 0 [].

(** ** The header of a request frame *)

(** The header byte [thciUartFrameSend] packs for a transaction id:
    [aTransactionID |= SPINEL_HEADER_FLAG | SPINEL_HEADER_IID_0] on a
    [uint8_t]. *)
Definition thciUartFrameSend_header (aTransactionID : Z) : Z :=
  uint8_t (Z.lor aTransactionID SPINEL_HEADER_FLAG).

(** ** Reception of a datagram: [ReceiveIp6Datagram] *)

Section Ip6Receive.
Context `{OT : OpenThread}.

(** [spinel_datatype_unpack] with the format ["D."]: the parsed length and
    the bytes [argPtr], [argLen] designate. *)
Variable spinel_unpack_data_wlen : list Z -> Z * list Z.

(** [ReceiveIp6Datagram] in the default configuration (no certification
    hooks, no legacy interface).  [pbuf_alloc_ok] says whether [pbuf_alloc]
    returns a buffer, and [stale] is what the memory of that buffer holds
    behind the [argLen] bytes copied into it: the function reads the IPv6
    header and the TCP port from the buffer whatever the length of the
    datagram.  The buffer is taken to hold the datagram in one piece.  The
    result is the datagram handed to [tcpip_input], if any, and the
    state. *)
Definition ReceiveIp6Datagram (pbuf_alloc_ok : bool) (stale : list Z)
  (aCommand aKey : Z) (aBuf : list Z) (w : thci_t) : option (list Z) * thci_t :=
  let isSecure := negb (aKey =? SPINEL_PROP_STREAM_NET_INSECURE) in
  let (parsedLength, arg) := spinel_unpack_data_wlen aBuf in
  if negb (parsedLength =? Z.of_nat (length aBuf)) then (None, w)
  else if negb pbuf_alloc_ok then (None, w)
  else
    let buffer := arg ++ stale in
    let ip6Hdr := firstn (Z.to_nat sizeof_ip6_hdr) buffer in
    let w :=
      if isSecure && SendProvisionalJoinResponseInsecurely w then
        if IP6H_NEXTH ip6Hdr =? IP6_NEXTH_TCP then
          let dstPort :=
            lwip_ntohs_bytes (firstn 2 (skipn (Z.to_nat (sizeof_ip6_hdr + 2)) buffer)) in
          if dstPort =? mInsecureSourcePort (gTHCISDKContext w) then
            with_sdk (fun c =>
              set_security
                (uint8_t (Z.lor (mSecurityFlags c)
                                THCI_SECURITY_FLAG_SECURE_MSG_RXD_ON_INSECURE_PORT))
                (mInsecureSourcePort c) c) w
          else w
        else w
      else w in
    (Some arg, w).

End Ip6Receive.


(** ** Corruption of datagrams for certification tests (thci_cert.c) *)

Definition set_payload (bytes : list Z) (p : pbuf) : pbuf :=
  mk_pbuf bytes (len p) (tot_len p).

(** The loop of [thci_cert_pbuf_bit_flip] over the chain from [buff]: the
    first buffer longer than what is left of [byte_offset] has one bit of
    its byte at that index inverted; a chain that ends before is left as it
    is. *)
Fixpoint thci_cert_pbuf_bit_flip_loop (bit_offset byte_offset : Z) (buff : list pbuf)
  : list pbuf :=
  match buff with
  | [] => []
  | b :: next =>
      if len b >? byte_offset then
        let old := nth (Z.to_nat byte_offset) (payload b) 0 in
        set_payload
          (array_store (Z.to_nat byte_offset)
             (uint8_t (Z.lxor old (Z.shiftl 1 bit_offset))) (payload b)) b
        :: next
      else
        b :: thci_cert_pbuf_bit_flip_loop bit_offset (byte_offset - len b) next
  end.

Definition thci_cert_pbuf_bit_flip (buff : list pbuf) (offset : Z) : list pbuf :=
  thci_cert_pbuf_bit_flip_loop (Z.land offset 7) (Z.shiftr offset 3) buff.

(** The offset of the bit inverted for the result [r] of [rand()] in a
    datagram of [tot_len] bytes. *)
Definition thci_cert_offset (tot_len r : Z) : Z :=
  Z.rem r (Z.shiftl (tot_len - 40) 3) + Z.shiftl 40 3.

(** The loop of [thci_cert_pbuf_corrupt] with [todo] bits still to invert,
    [rand i] being the result of the call of [rand()] in round [i].  The
    inner loop over [flipped] has no effect: its [continue] goes on with
    that loop.  [None] stands for the undefined behaviour of a datagram of
    at most 40 bytes, where the divisor is zero or a negative number is
    shifted. *)
Fixpoint thci_cert_pbuf_corrupt_loop (todo i : nat) (rand : nat -> Z) (buff : list pbuf)
  : option (list pbuf) :=
  match todo with
  | O => Some buff
  | S todo' =>
      if chain_tot_len buff - 40 <=? 0 then None
      else
        let offset := thci_cert_offset (chain_tot_len buff) (rand i) in
        thci_cert_pbuf_corrupt_loop todo' (S i) rand
          (thci_cert_pbuf_bit_flip buff offset)
  end.

Definition thci_cert_pbuf_corrupt (rand : nat -> Z) (buff : list pbuf) (bits : Z)
  : option (list pbuf) :=
  match buff with
  | [] => Some buff
  | _ :: _ =>
      if negb (bits <=? 3) then Some buff
      else thci_cert_pbuf_corrupt_loop (Z.to_nat bits) 0 rand buff
  end.

(** ** The channels of a scan: [SetScanMaskAll] *)

Definition MIN_SUPPORTED_CHANNEL : Z := 11.
Definition MAX_SUPPORTED_CHANNEL : Z := 26.

(** The [for] loop of [SetScanMaskAll] with [rounds] channels from [i] still
    to test: the array and [index].  [None] when a store falls outside the
    array. *)
Fixpoint SetScanMaskAll_loop (rounds : nat) (i : Z) (aScanChannels : Z)
  (channelArray : list Z) (index : Z) : option (list Z * Z) :=
  match rounds with
  | O => Some (channelArray, index)
  | S rounds' =>
      if negb (0 =? Z.land aScanChannels (Z.shiftl 1 i)) then
        match array_store_checked index (uint8_t i) channelArray with
        | Some channelArray =>
            SetScanMaskAll_loop rounds' (i + 1) aScanChannels channelArray (index + 1)
        | None => None
        end
      else SetScanMaskAll_loop rounds' (i + 1) aScanChannels channelArray index
  end.

(** The data [SetScanMaskAll] sends as the scan mask: the first [index]
    bytes of [channelArray], an array of 32 bytes that starts with whatever
    the stack held. *)
Definition SetScanMaskAll_data (aScanChannels : Z) (channelArray : list Z)
  : option (list Z) :=
  match SetScanMaskAll_loop
          (Z.to_nat (MAX_SUPPORTED_CHANNEL - MIN_SUPPORTED_CHANNEL + 1))
          MIN_SUPPORTED_CHANNEL aScanChannels channelArray 0 with
  | Some (channelArray, index) => Some (firstn (Z.to_nat index) channelArray)
  | None => None
  end.

(** ** Reception of bytes: the interrupt handler, the FIFO and the decoder *)

(** The statics of the receive side that [uart_t] leaves out: the FIFO,
    the flag of the disabled receive interrupt, the flag of the event
    posted to the response queue and the count of the bytes of the frame
    under way, together with the events resident in the response queue. *)
Record uart_rx_t : Type := mk_uart_rx {
  sRxFifo : rx_fifo_t;
  sRxIsrDisabled : bool;
  sRxEventPostedToResponseQueue : Z;
  sFrameByteCount : Z;
  sResponseQueue : list nl_event_t
}.

Definition set_sRxFifo (f : rx_fifo_t) (r : uart_rx_t) : uart_rx_t :=
  mk_uart_rx f (sRxIsrDisabled r) (sRxEventPostedToResponseQueue r)
             (sFrameByteCount r) (sResponseQueue r).

Definition set_sRxIsrDisabled (b : bool) (r : uart_rx_t) : uart_rx_t :=
  mk_uart_rx (sRxFifo r) b (sRxEventPostedToResponseQueue r)
             (sFrameByteCount r) (sResponseQueue r).

Definition set_sFrameByteCount (n : Z) (r : uart_rx_t) : uart_rx_t :=
  mk_uart_rx (sRxFifo r) (sRxIsrDisabled r) (sRxEventPostedToResponseQueue r)
             n (sResponseQueue r).

Definition RxISREnable (aForce : bool) (r : uart_rx_t) : uart_rx_t :=
  if aForce || sRxIsrDisabled r then set_sRxIsrDisabled false r else r.

Definition RxISRDisable (r : uart_rx_t) : uart_rx_t :=
  if negb (sRxIsrDisabled r) then set_sRxIsrDisabled true r else r.

(** [PostRxDoneEventToResponseQueue(true)], the call from the interrupt
    handler. *)
Definition PostRxDoneEventToResponseQueue_from_isr (u : uart_t) (r : uart_rx_t)
  : uart_rx_t :=
  if sProvideInternalResponse u then
    if sResponseQueueHandle u then
      if sRxEventPostedToResponseQueue r =? 0 then
        mk_uart_rx (sRxFifo r) (sRxIsrDisabled r) 1 (sFrameByteCount r)
                   (nl_eventqueue_post_event (sResponseQueue r) sUartRxDoneEvent)
      else r
    else r
  else r.

(** [PostRxDoneEventToSdkQueue(true)], the call from the interrupt
    handler. *)
Definition PostRxDoneEventToSdkQueue_from_isr (s : uart_t * thci_t) : uart_t * thci_t :=
  let (u, w) := s in
  match mSdkQueue (gTHCISDKContext w) with
  | Some _ =>
      if sRxEventPostedToSdkQueue u =? 0 then
        (mk_uart (sProvideInternalResponse u) 1
                 (sResponseQueueHandle u) (sResponseCommand u)
                 (sResponseKey u) (sResponseBuffer u) (sResponseReceived u)
                 (sResponseTransactionId u) (sResponseSuccess u)
                 (sDecodeFailure u),
         post_to_sdk_queue sUartRxDoneEvent w)
      else s
  | None => s
  end.

(** [UartRxReadyIsr]; [aContext] is the byte received. *)
Definition UartRxReadyIsr (aContext : Z) (st : uart_rx_t * (uart_t * thci_t))
  : uart_rx_t * (uart_t * thci_t) :=
  let '(r, (u, w)) := st in
  if sDecodeFailure u then st
  else if sProvideInternalResponse u
          || match mSdkQueue (gTHCISDKContext w) with Some _ => true | None => false end
  then
    let '(r, s) :=
      if sProvideInternalResponse u
      then (PostRxDoneEventToResponseQueue_from_isr u r, (u, w))
      else (r, PostRxDoneEventToSdkQueue_from_isr (u, w)) in
    let (_, f) := PutRxFifoChar aContext (sRxFifo r) in
    let r := set_sRxFifo f r in
    let r :=
      if IsRxFifoNearFull RX_UART_FIFO_NEAR_FULL_THRESHOLD (sRxFifo r)
      then RxISRDisable r else r in
    (r, s)
  else st.

Section UartRx.
Context `{OT : OpenThread}.
Variable sDataFrameCB : option (Z -> Z -> list Z -> thci_t -> thci_t).
Variable sControlFrameCB : option (Z -> Z -> Z -> list Z -> thci_t -> thci_t).

(** The HDLC decoder of OpenThread: its state, and what [Decode] does with
    one byte, handing over at most one frame or error. *)
Variable decoder_t : Type.
Variable Decode : decoder_t -> Z -> decoder_t * option rx_delivery.

(** What the decoder hands over for a run of bytes. *)
Fixpoint decoded (dec : decoder_t) (bytes : list Z) : decoder_t * list rx_delivery :=
  match bytes with
  | [] => (dec, [])
  | b :: bytes' =>
      let (dec, d) := Decode dec b in
      let (dec', ds) := decoded dec bytes' in
      (dec', match d with Some d => d :: ds | None => ds end)
  end.

(** [UartRxFifoProcess] byte by byte, with no interrupt in between.  Both
    handlers of the decoder clear [sFrameByteCount] first.  [None] when
    [fuel] rounds did not end the loop. *)
Fixpoint UartRxFifoProcess_bytes (fuel : nat) (dec : decoder_t)
  (st : uart_rx_t * (uart_t * thci_t))
  : option (decoder_t * (uart_rx_t * (uart_t * thci_t))) :=
  let (r, s) := st in
  if sDecodeFailure (fst s) || sResponseReceived (fst s) then Some (dec, st)
  else
    match GetRxFifoChar (sRxFifo r) with
    | (None, _) => Some (dec, st)
    | (Some ch, f) =>
        match fuel with
        | O => None
        | S fuel' =>
            let r := set_sRxFifo f r in
            let r := set_sFrameByteCount (uint16_t (sFrameByteCount r + 1)) r in
            let (dec, d) := Decode dec ch in
            let '(r, s) :=
              match d with
              | None => (r, s)
              | Some (RxFrame unpacked) =>
                  (set_sFrameByteCount 0 r,
                   HandleFrame sDataFrameCB sControlFrameCB unpacked s)
              | Some RxError => (set_sFrameByteCount 0 r, HandleError s)
              end in
            let r :=
              if sRxIsrDisabled r
                 && negb (IsRxFifoNearFull (2 * RX_UART_FIFO_NEAR_FULL_THRESHOLD)
                                           (sRxFifo r))
              then RxISREnable false r else r in
            UartRxFifoProcess_bytes fuel' dec (r, s)
        end
    end.

End UartRx.

(** [UartRxDoneEventHandler], run with no interrupt in between. *)
Section UartRxHandler.
Context `{OT : OpenThread}.
Variable sDataFrameCB : option (Z -> Z -> list Z -> thci_t -> thci_t).
Variable sControlFrameCB : option (Z -> Z -> Z -> list Z -> thci_t -> thci_t).
Variable decoder_t : Type.
Variable Decode : decoder_t -> Z -> decoder_t * option rx_delivery.

Definition UartRxDoneEventHandler (fuel : nat) (dec : decoder_t)
  (st : uart_rx_t * (uart_t * thci_t))
  : option (decoder_t * (uart_rx_t * (uart_t * thci_t))) :=
  let '(r, (u, w)) := st in
  let u := mk_uart (sProvideInternalResponse u) 0 (sResponseQueueHandle u)
                   (sResponseCommand u) (sResponseKey u) (sResponseBuffer u)
                   (sResponseReceived u) (sResponseTransactionId u)
                   (sResponseSuccess u) (sDecodeFailure u) in
  match UartRxFifoProcess_bytes sDataFrameCB sControlFrameCB decoder_t Decode
          fuel dec (r, (u, w)) with
  | None => None
  | Some (dec, (r, s)) =>
      if negb (sDecodeFailure (fst s)) && negb (IsRxFifoEmpty (sRxFifo r))
      then Some (dec, (r, PostRxDoneEventToSdkQueue s))
      else Some (dec, (r, s))
  end.

End UartRxHandler.

(** ** The combined table of neighbours and children *)

(** [otNeighborInfo] of OpenThread, with the members that
    [thciGetCombinedNeighborTable] fills. *)
Record otNeighborInfo : Type := mk_neighbor_info {
  mExtAddress : list Z;
  mRloc16 : Z;
  mAge : Z;
  mLinkQualityIn : Z;
  mAverageRssi : Z;
  mLastRssi : Z;
  mLinkFrameCounter : Z;
  mMleFrameCounter : Z;
  mRxOnWhenIdle : bool;
  mSecureDataRequest : bool;
  mFullFunction : bool;
  mFullNetworkData : bool;
  mIsChild : bool
}.

Record thci_neighbor_child_info_t : Type := mk_neighbor_child_info {
  mNeighborInfo : otNeighborInfo;
  mTimeout : Z;
  mChildId : Z;
  mNetworkDataVersion : Z;
  mFoundChild : bool
}.

(** What unpacking one structure of the neighbour table leaves in the
    variables it is given: the members of [currNeighbor] it writes, and the
    locals [eui64], [modeFlags] and [isChild]. *)
Record neighbor_unpacked : Type := mk_neighbor_unpacked {
  nuEui64 : list Z;
  nuRloc16 : Z;
  nuAge : Z;
  nuLinkQualityIn : Z;
  nuAverageRssi : Z;
  nuModeFlags : Z;
  nuIsChild : bool;
  nuLinkFrameCounter : Z;
  nuMleFrameCounter : Z;
  nuLastRssi : Z
}.

(** The members of [tempChild] and the locals that unpacking one structure
    of the child table writes. *)
Record child_unpacked : Type := mk_child_unpacked {
  cuEui64 : list Z;
  cuRloc16 : Z;
  cuTimeout : Z;
  cuAge : Z;
  cuNetworkDataVersion : Z;
  cuLinkQualityIn : Z;
  cuAverageRssi : Z;
  cuModeFlags : Z;
  cuLastRssi : Z
}.

(** [a[i] = v] for an array of table entries; nothing is stored outside
    the array. *)
Fixpoint table_store (i : nat) (v : thci_neighbor_child_info_t)
  (a : list thci_neighbor_child_info_t) : list thci_neighbor_child_info_t :=
  match a, i with
  | [], _ => []
  | _ :: a', O => v :: a'
  | x :: a', S i' => x :: table_store i' v a'
  end.

(** The [for] loop that looks for the entry with a given RLOC16 among the
    first [neighborLen] entries: the index of the first one. *)
Fixpoint find_rloc16 (rloc16 : Z) (l : list thci_neighbor_child_info_t) (i : nat)
  : option nat :=
  match l with
  | [] => None
  | e :: l' =>
      if mRloc16 (mNeighborInfo e) =? rloc16 then Some i
      else find_rloc16 rloc16 l' (S i)
  end.

(** The last loop of [thciGetCombinedNeighborTable]: entries that are
    marked as children and got no child information are overwritten with
    the last entry.  The table and [neighborLen]; [None] when [fuel] rounds
    do not end the loop or an index lies outside the array. *)
Fixpoint purge_unmatched (fuel : nat) (aTableHead : list thci_neighbor_child_info_t)
  (i neighborLen numIsChild : Z)
  : option (list thci_neighbor_child_info_t * Z) :=
  if (numIsChild >? 0) && (i <? neighborLen) then
    match fuel with
    | O => None
    | S fuel' =>
        match nth_error aTableHead (Z.to_nat i),
              nth_error aTableHead (Z.to_nat (neighborLen - 1)) with
        | Some entry, Some last =>
            if mIsChild (mNeighborInfo entry) && negb (mFoundChild entry) then
              purge_unmatched fuel' (table_store (Z.to_nat i) last aTableHead)
                i (uint32_t (neighborLen - 1)) (uint32_t (numIsChild - 1))
            else
              purge_unmatched fuel' aTableHead (uint32_t (i + 1)) neighborLen
                numIsChild
        | _, _ => None
        end
    end
  else Some (aTableHead, neighborLen).

Section NeighborTable.
Context `{OT : OpenThread}.
Variable sDataFrameCB : option (Z -> Z -> list Z -> thci_t -> thci_t).
Variable sControlFrameCB : option (Z -> Z -> Z -> list Z -> thci_t -> thci_t).

Variable SPINEL_PROP_THREAD_NEIGHBOR_TABLE : Z.
Variable SPINEL_THREAD_MODE_RX_ON_WHEN_IDLE : Z.
Variable SPINEL_THREAD_MODE_SECURE_DATA_REQUEST : Z.
Variable SPINEL_THREAD_MODE_FULL_FUNCTION_DEV : Z.
Variable SPINEL_THREAD_MODE_FULL_NETWORK_DATA : Z.

(** The two structure formats: the parsed length (not positive on
    failure) and what is left in the variables. *)
Variable spinel_unpack_neighbor : list Z -> Z * neighbor_unpacked.
Variable spinel_unpack_child : list Z -> Z * child_unpacked.

(** The members of [currNeighbor] that the unpacking writes. *)
Definition neighbor_written (f : neighbor_unpacked) (n : otNeighborInfo)
  : otNeighborInfo :=
  mk_neighbor_info (mExtAddress n) (nuRloc16 f) (nuAge f) (nuLinkQualityIn f)
    (nuAverageRssi f) (nuLastRssi f) (nuLinkFrameCounter f) (nuMleFrameCounter f)
    (mRxOnWhenIdle n) (mSecureDataRequest n) (mFullFunction n) (mFullNetworkData n)
    (mIsChild n).

(** [currNeighbor] at the end of a round of the first loop. *)
Definition neighbor_filled (f : neighbor_unpacked) : otNeighborInfo :=
  mk_neighbor_info (nuEui64 f) (nuRloc16 f) (nuAge f) (nuLinkQualityIn f)
    (nuAverageRssi f) (nuLastRssi f) (nuLinkFrameCounter f) (nuMleFrameCounter f)
    (negb (Z.land (nuModeFlags f) SPINEL_THREAD_MODE_RX_ON_WHEN_IDLE =? 0))
    (negb (Z.land (nuModeFlags f) SPINEL_THREAD_MODE_SECURE_DATA_REQUEST =? 0))
    (negb (Z.land (nuModeFlags f) SPINEL_THREAD_MODE_FULL_FUNCTION_DEV =? 0))
    (negb (Z.land (nuModeFlags f) SPINEL_THREAD_MODE_FULL_NETWORK_DATA =? 0))
    (nuIsChild f).

(** The first loop, with room for [room] more entries: the error, the
    table, [neighborLen] and [numIsChild].  [None] when the parsed length
    exceeds what is left of the frame or the table is shorter than
    [aInSize]. *)
Fixpoint read_neighbors (room : nat) (argPtr : list Z)
  (aTableHead : list thci_neighbor_child_info_t) (neighborLen numIsChild : Z)
  : option (otError * list thci_neighbor_child_info_t * Z * Z) :=
  match argPtr, room with
  | [], _ | _, O => Some (OT_ERROR_NONE, aTableHead, neighborLen, numIsChild)
  | _ :: _, S room' =>
      match nth_error aTableHead (Z.to_nat neighborLen) with
      | None => None
      | Some old =>
          let (parsedLen, f) := spinel_unpack_neighbor argPtr in
          if negb (parsedLen >? 0) then
            Some (OT_ERROR_PARSE,
                  table_store (Z.to_nat neighborLen)
                    (mk_neighbor_child_info (neighbor_written f (mNeighborInfo old))
                       (mTimeout old) (mChildId old) (mNetworkDataVersion old)
                       (mFoundChild old)) aTableHead,
                  neighborLen, numIsChild)
          else if parsedLen >? Z.of_nat (length argPtr) then None
          else
            let entry :=
              mk_neighbor_child_info (neighbor_filled f) (mTimeout old) (mChildId old)
                (mNetworkDataVersion old) false in
            read_neighbors room' (skipn (Z.to_nat parsedLen) argPtr)
              (table_store (Z.to_nat neighborLen) entry aTableHead)
              (uint32_t (neighborLen + 1))
              (if nuIsChild f then uint32_t (numIsChild + 1) else numIsChild)
      end
  end.

(** The second loop; the parsed length is not tested.  [uninitialised n]
    is what [tempChild.mChildId], which nothing writes, holds in round
    [n].  [None] when [fuel] rounds do not end the loop or the parsed
    length leads outside the frame. *)
Fixpoint match_children (fuel : nat) (uninitialised : nat -> Z) (round : nat)
  (argPtr : list Z) (aTableHead : list thci_neighbor_child_info_t)
  (neighborLen numIsChild : Z)
  : option (otError * list thci_neighbor_child_info_t * Z) :=
  match argPtr with
  | [] => Some (OT_ERROR_NONE, aTableHead, numIsChild)
  | _ :: _ =>
      match fuel with
      | O => None
      | S fuel' =>
          let (parsedLen, tempChild) := spinel_unpack_child argPtr in
          let next (aTableHead : list thci_neighbor_child_info_t) (numIsChild : Z) :=
            if (parsedLen <? 0) || (parsedLen >? Z.of_nat (length argPtr)) then None
            else match_children fuel' uninitialised (S round)
                   (skipn (Z.to_nat parsedLen) argPtr) aTableHead neighborLen
                   numIsChild in
          match find_rloc16 (cuRloc16 tempChild)
                  (firstn (Z.to_nat neighborLen) aTableHead) 0 with
          | None => next aTableHead numIsChild
          | Some i =>
              match nth_error aTableHead i with
              | None => None
              | Some entry =>
                  if negb (mIsChild (mNeighborInfo entry))
                  then Some (OT_ERROR_FAILED, aTableHead, numIsChild)
                  else
                    next (table_store i
                            (mk_neighbor_child_info (mNeighborInfo entry)
                               (cuTimeout tempChild) (uninitialised round)
                               (cuNetworkDataVersion tempChild) true)
                            aTableHead)
                         (uint32_t (numIsChild - 1))
              end
          end
      end
  end.

(** [thciGetCombinedNeighborTable].  [aTableHead] is the caller's array
    ([None] for [NULL]) and [aOutSize_null] says whether [aOutSize] is
    [NULL]; the result is the error, the array and [*aOutSize].  [None]
    when a loop gives no result, and when the function comes to [done:]
    with an error and [aOutSize] is [NULL], where it writes through the
    pointer. *)
Definition thciGetCombinedNeighborTable
  (aTableHead : option (list thci_neighbor_child_info_t)) (aInSize : Z)
  (aOutSize_null : bool) (env1 env2 : request_env) (uninitialised : nat -> Z)
  (fuel : nat) (s : uart_t * thci_t)
  : option (otError * option (list thci_neighbor_child_info_t) * Z
            * (uart_t * thci_t)) :=
  let (u, w) := s in
  let tid := GetNewTransactionId (mTransactionId (gTHCINCPContext w)) in
  let w := with_ncp (set_mTransactionId tid) w in
  let failed (retval : otError) (table : option (list thci_neighbor_child_info_t))
             (s : uart_t * thci_t) :=
    if aOutSize_null then None else Some (retval, table, 0, s) in
  match aTableHead with
  | None => failed OT_ERROR_INVALID_ARGS None (u, w)
  | Some table =>
      if aInSize =? 0 then failed OT_ERROR_INVALID_ARGS aTableHead (u, w)
      else if aOutSize_null then failed OT_ERROR_INVALID_ARGS aTableHead (u, w)
      else if negb (module_state_eqb (mModuleState (gTHCINCPContext w))
                                     kModuleStateInitialized)
      then failed OT_ERROR_INVALID_STATE aTableHead (u, w)
      else
        match envSent env1 tid SPINEL_CMD_PROP_VALUE_GET
                SPINEL_PROP_THREAD_NEIGHBOR_TABLE [] with
        | OT_ERROR_NONE =>
            match thciUartWaitForResponse sDataFrameCB sControlFrameCB tid
                    SPINEL_CMD_PROP_VALUE_IS SPINEL_PROP_THREAD_NEIGHBOR_TABLE
                    (envRx env1) (envLeftover env1) (u, w)
            with
            | (OT_ERROR_NONE, buffer, (u, w)) =>
                let argPtr := match buffer with Some b => b | None => [] end in
                match read_neighbors (Z.to_nat aInSize) argPtr table 0 0 with
                | None => None
                | Some (OT_ERROR_NONE, table, neighborLen, numIsChild) =>
                    let tid := GetNewTransactionId (mTransactionId (gTHCINCPContext w)) in
                    let w := with_ncp (set_mTransactionId tid) w in
                    match envSent env2 tid SPINEL_CMD_PROP_VALUE_GET
                            SPINEL_PROP_THREAD_CHILD_TABLE [] with
                    | OT_ERROR_NONE =>
                        match thciUartWaitForResponse sDataFrameCB sControlFrameCB tid
                                SPINEL_CMD_PROP_VALUE_IS SPINEL_PROP_THREAD_CHILD_TABLE
                                (envRx env2) (envLeftover env2) (u, w)
                        with
                        | (OT_ERROR_NONE, buffer, s) =>
                            let argPtr :=
                              match buffer with Some b => b | None => [] end in
                            match match_children fuel uninitialised 0 argPtr table
                                    neighborLen numIsChild with
                            | None => None
                            | Some (OT_ERROR_NONE, table, numIsChild) =>
                                match purge_unmatched fuel table 0 neighborLen
                                        numIsChild with
                                | None => None
                                | Some (table, neighborLen) =>
                                    Some (OT_ERROR_NONE, Some table, neighborLen, s)
                                end
                            | Some (retval, table, _) => failed retval (Some table) s
                            end
                        | (retval, _, s) => failed retval (Some table) s
                        end
                    | retval => failed retval (Some table) (u, w)
                    end
                | Some (retval, table, _, _) => failed retval (Some table) (u, w)
                end
            | (retval, _, s) => failed retval aTableHead s
            end
        | retval => failed retval aTableHead (u, w)
        end
  end.

End NeighborTable.

(** A frame [arg] that the unpacking function [unpack] takes apart into the
    structures [items], one after the other, each with a parsed length that
    is positive and within what is left. *)
Fixpoint unpacks_to {A : Type} (unpack : list Z -> Z * A) (arg : list Z)
  (items : list A) : Prop :=
  match items with
  | [] => arg = []
  | x :: items' =>
      arg <> [] /\
      exists n, unpack arg = (n, x) /\ 0 < n <= Z.of_nat (length arg) /\
                unpacks_to unpack (skipn (Z.to_nat n) arg) items'
  end.

(** The child information that a round of the second loop puts into the
    entry with the RLOC16 of the child; [cg] is the child and the value of
    the member that is not initialised. *)
Definition annotate_child (cg : child_unpacked * Z) (e : thci_neighbor_child_info_t)
  : thci_neighbor_child_info_t :=
  if mRloc16 (mNeighborInfo e) =? cuRloc16 (fst cg)
  then mk_neighbor_child_info (mNeighborInfo e) (cuTimeout (fst cg)) (snd cg)
         (cuNetworkDataVersion (fst cg)) true
  else e.

Definition annotate_children (cgs : list (child_unpacked * Z))
  (e : thci_neighbor_child_info_t) : thci_neighbor_child_info_t :=
  fold_left (fun e cg => annotate_child cg e) cgs e.

(** An entry that the last loop keeps. *)
Definition entry_kept (e : thci_neighbor_child_info_t) : bool :=
  negb (mIsChild (mNeighborInfo e) && negb (mFoundChild e)).

(** The entry of the table that a round of the first loop leaves: the
    members of the child information keep what the array held. *)
Definition fill_entry (info : otNeighborInfo) (old : thci_neighbor_child_info_t)
  : thci_neighbor_child_info_t :=
  mk_neighbor_child_info info (mTimeout old) (mChildId old) (mNetworkDataVersion old)
    false.

(** ** The neighbour table: [thciGetNeighborTable] *)

(** [a[i] = v] for an array of [otNeighborInfo]; nothing is stored outside
    the array. *)
Fixpoint neighbor_store (i : nat) (v : otNeighborInfo) (a : list otNeighborInfo)
  : list otNeighborInfo :=
  match a, i with
  | [], _ => []
  | _ :: a', O => v :: a'
  | x :: a', S i' => x :: neighbor_store i' v a'
  end.

Section NeighborTableOnly.
Context `{OT : OpenThread}.
Variable sDataFrameCB : option (Z -> Z -> list Z -> thci_t -> thci_t).
Variable sControlFrameCB : option (Z -> Z -> Z -> list Z -> thci_t -> thci_t).

Variable SPINEL_PROP_THREAD_NEIGHBOR_TABLE : Z.
Variable SPINEL_THREAD_MODE_RX_ON_WHEN_IDLE : Z.
Variable SPINEL_THREAD_MODE_SECURE_DATA_REQUEST : Z.
Variable SPINEL_THREAD_MODE_FULL_FUNCTION_DEV : Z.
Variable SPINEL_THREAD_MODE_FULL_NETWORK_DATA : Z.
Variable spinel_unpack_neighbor : list Z -> Z * neighbor_unpacked.

(** The loop of [thciGetNeighborTable], with room for [room] more entries:
    the error, the array and [*aOutSize].  [None] when the parsed length
    exceeds what is left of the frame or the array is shorter than
    [aInSize]. *)
Fixpoint thciGetNeighborTable_loop (room : nat) (argPtr : list Z)
  (aNeighborTableHead : list otNeighborInfo) (aOutSize : Z)
  : option (otError * list otNeighborInfo * Z) :=
  match argPtr, room with
  | [], _ | _, O => Some (OT_ERROR_NONE, aNeighborTableHead, aOutSize)
  | _ :: _, S room' =>
      match nth_error aNeighborTableHead (Z.to_nat aOutSize) with
      | None => None
      | Some old =>
          let (parsedLen, f) := spinel_unpack_neighbor argPtr in
          if negb (parsedLen >? 0) then
            Some (OT_ERROR_PARSE,
                  neighbor_store (Z.to_nat aOutSize) (neighbor_written f old)
                    aNeighborTableHead,
                  aOutSize)
          else if parsedLen >? Z.of_nat (length argPtr) then None
          else
            thciGetNeighborTable_loop room' (skipn (Z.to_nat parsedLen) argPtr)
              (neighbor_store (Z.to_nat aOutSize)
                 (neighbor_filled SPINEL_THREAD_MODE_RX_ON_WHEN_IDLE
                    SPINEL_THREAD_MODE_SECURE_DATA_REQUEST
                    SPINEL_THREAD_MODE_FULL_FUNCTION_DEV
                    SPINEL_THREAD_MODE_FULL_NETWORK_DATA f)
                 aNeighborTableHead)
              (uint32_t (aOutSize + 1))
      end
  end.

(** [thciGetNeighborTable]: the error, the array and [*aOutSize].  [None]
    when the loop gives no result, and when the function comes to [done:]
    with an error and [aOutSize] is [NULL], where it writes through the
    pointer. *)
Definition thciGetNeighborTable (aNeighborTableHead : option (list otNeighborInfo))
  (aInSize : Z) (aOutSize_null : bool) (env : request_env) (s : uart_t * thci_t)
  : option (otError * option (list otNeighborInfo) * Z * (uart_t * thci_t)) :=
  let (u, w) := s in
  let tid := GetNewTransactionId (mTransactionId (gTHCINCPContext w)) in
  let w := with_ncp (set_mTransactionId tid) w in
  let failed (retval : otError) (table : option (list otNeighborInfo))
             (s : uart_t * thci_t) :=
    if aOutSize_null then None else Some (retval, table, 0, s) in
  match aNeighborTableHead with
  | None => failed OT_ERROR_INVALID_ARGS None (u, w)
  | Some table =>
      if aInSize =? 0 then failed OT_ERROR_INVALID_ARGS aNeighborTableHead (u, w)
      else if aOutSize_null then failed OT_ERROR_INVALID_ARGS aNeighborTableHead (u, w)
      else if negb (module_state_eqb (mModuleState (gTHCINCPContext w))
                                     kModuleStateInitialized)
      then failed OT_ERROR_INVALID_STATE aNeighborTableHead (u, w)
      else
        match envSent env tid SPINEL_CMD_PROP_VALUE_GET
                SPINEL_PROP_THREAD_NEIGHBOR_TABLE [] with
        | OT_ERROR_NONE =>
            match thciUartWaitForResponse sDataFrameCB sControlFrameCB tid
                    SPINEL_CMD_PROP_VALUE_IS SPINEL_PROP_THREAD_NEIGHBOR_TABLE
                    (envRx env) (envLeftover env) (u, w)
            with
            | (OT_ERROR_NONE, buffer, s) =>
                let argPtr := match buffer with Some b => b | None => [] end in
                match thciGetNeighborTable_loop (Z.to_nat aInSize) argPtr table 0 with
                | None => None
                | Some (OT_ERROR_NONE, table, aOutSize) =>
                    Some (OT_ERROR_NONE, Some table, aOutSize, s)
                | Some (retval, table, _) => failed retval (Some table) s
                end
            | (retval, _, s) => failed retval aNeighborTableHead s
            end
        | retval => failed retval aNeighborTableHead (u, w)
        end
  end.

End NeighborTableOnly.

(** ** [thciRemoveUnsecurePort] *)

Section RemovePort.
Context `{OT : OpenThread}.
Variable sDataFrameCB : option (Z -> Z -> list Z -> thci_t -> thci_t).
Variable sControlFrameCB : option (Z -> Z -> Z -> list Z -> thci_t -> thci_t).
Variable SPINEL_CMD_PROP_VALUE_REMOVE : Z.
Variable SPINEL_CMD_PROP_VALUE_REMOVED : Z.

(** [thciRemoveUnsecurePort]; [env1] and [env2] are the environments of
    the two requests, which carry the same transaction id. *)
Definition thciRemoveUnsecurePort (aPort : Z) (env1 env2 : request_env)
  (s : uart_t * thci_t) : otError * (uart_t * thci_t) :=
  let (u, w) := s in
  let tid := GetNewTransactionId (mTransactionId (gTHCINCPContext w)) in
  let w := with_ncp (set_mTransactionId tid) w in
  if negb (module_state_eqb (mModuleState (gTHCINCPContext w)) kModuleStateInitialized)
  then (OT_ERROR_INVALID_STATE, (u, w))
  else
    match envSent env1 tid SPINEL_CMD_PROP_VALUE_REMOVE
            SPINEL_PROP_THREAD_ASSISTING_PORTS [aPort] with
    | OT_ERROR_NONE =>
        match thciUartWaitForResponse sDataFrameCB sControlFrameCB tid
                SPINEL_CMD_PROP_VALUE_REMOVED SPINEL_PROP_THREAD_ASSISTING_PORTS
                (envRx env1) (envLeftover env1) (u, w)
        with
        | (OT_ERROR_NONE, _, (u, w)) =>
            let w :=
              with_sdk (fun c =>
                set_security
                  (uint8_t (Z.land (mSecurityFlags c)
                              (Z.lnot THCI_SECURITY_FLAG_INSECURE_PORTS_ENABLED)))
                  (mInsecureSourcePort c) c) w in
            if THCI_TEST_INSECURE_SOURCE_PORT (mSecurityFlags (gTHCISDKContext w)) then
              match envSent env2 tid SPINEL_CMD_PROP_VALUE_REMOVE
                      SPINEL_PROP_THREAD_ASSISTING_PORTS
                      [mInsecureSourcePort (gTHCISDKContext w)] with
              | OT_ERROR_NONE =>
                  match thciUartWaitForResponse sDataFrameCB sControlFrameCB tid
                          SPINEL_CMD_PROP_VALUE_REMOVED
                          SPINEL_PROP_THREAD_ASSISTING_PORTS
                          (envRx env2) (envLeftover env2) (u, w)
                  with
                  | (OT_ERROR_NONE, _, (u, w)) =>
                      (OT_ERROR_NONE,
                       (u, with_sdk (fun c =>
                              set_security
                                (uint8_t (Z.land (mSecurityFlags c)
                                            (Z.lnot THCI_SECURITY_FLAG_INSECURE_SOURCE_PORT)))
                                (mInsecureSourcePort c) c) w))
                  | (retval, _, s) => (retval, s)
                  end
              | retval => (retval, (u, w))
              end
            else (OT_ERROR_NONE, (u, w))
        | (retval, _, s) => (retval, s)
        end
    | retval => (retval, (u, w))
    end.

End RemovePort.

(** ** Scan results in the callback buffers *)

(** What the free callback buffers hold, in the order of the buffers. *)
Definition free_contents (bufs : list callback_buffer_t) : list (list Z) :=
  map mContent
      (filter (fun b => callback_buffer_state_eqb (mState b) kCallbackBufferStateFree)
              bufs).

(** * Properties *)

(** ** Transaction identifiers *)

Lemma uint8_t_range (z : Z) : 0 <= uint8_t z < 256.
Proof. unfold uint8_t. apply Z.mod_pos_bound. lia. Qed.

Lemma GetNewTransactionId_range (t : Z) : 2 <= GetNewTransactionId t <= 14.
Proof.
  unfold GetNewTransactionId, kMaxTransactionId, kDontCareTransactionId.
  pose proof (uint8_t_range (t + 1)) as Hr.
  change (uint8_t (1 + 1)) with 2.
  destruct (Z.geb_spec (uint8_t (t + 1)) 15) as [Hge | Hlt]; simpl.
  - lia.
  - destruct (Z.ltb_spec (uint8_t (t + 1)) 2); lia.
Qed.

Lemma GetNewTransactionId_next (t : Z) :
  2 <= t <= 14 -> GetNewTransactionId t = if t =? 14 then 2 else t + 1.
Proof.
  intros Ht.
  assert (Hcases : t = 2 \/ t = 3 \/ t = 4 \/ t = 5 \/ t = 6 \/ t = 7 \/ t = 8 \/
                   t = 9 \/ t = 10 \/ t = 11 \/ t = 12 \/ t = 13 \/ t = 14) by lia.
  repeat (destruct Hcases as [-> | Hcases]; [reflexivity |]).
  subst t. reflexivity.
Qed.

Lemma tid_calls_cover (t : Z) :
  2 <= t <= 14 -> forall v, 2 <= v <= 14 -> In v (t :: tid_calls 12 t).
Proof.
  intros Ht v Hv.
  assert (Hcases : t = 2 \/ t = 3 \/ t = 4 \/ t = 5 \/ t = 6 \/ t = 7 \/ t = 8 \/
                   t = 9 \/ t = 10 \/ t = 11 \/ t = 12 \/ t = 13 \/ t = 14) by lia.
  assert (Hv' : v = 2 \/ v = 3 \/ v = 4 \/ v = 5 \/ v = 6 \/ v = 7 \/ v = 8 \/
                v = 9 \/ v = 10 \/ v = 11 \/ v = 12 \/ v = 13 \/ v = 14) by lia.
  repeat (destruct Hcases as [-> | Hcases]; [vm_compute; lia |]).
  subst t. vm_compute; lia.
Qed.

(** C4.  Whatever the value of the transaction-id counter, the identifier
    [GetNewTransactionId] returns lies in 2..14 (never 0, 1 or 15); the call
    after one that returned [v] returns [v + 1], or 2 after 14; and any 13
    successive calls return each identifier of 2..14. *)
Theorem GetNewTransactionId_cycles_through_2_to_14 :
  forall t : Z,
    let v := GetNewTransactionId t in
    (2 <= v <= 14) /\
    v <> kEmptyTransactionId /\ v <> kDontCareTransactionId /\ v <> kMaxTransactionId /\
    GetNewTransactionId v = (if v =? 14 then 2 else v + 1) /\
    (forall i, 2 <= i <= 14 -> In i (tid_calls 13 t)).
Proof.
  intros t v.
  pose proof (GetNewTransactionId_range t) as Hr. fold v in Hr.
  unfold kEmptyTransactionId, kDontCareTransactionId, kMaxTransactionId.
  repeat split; try lia.
  - apply GetNewTransactionId_next; exact Hr.
  - intros i Hi. change (tid_calls 13 t) with (v :: tid_calls 12 v).
    apply tid_calls_cover; assumption.
Qed.

(** ** The outbound message ring *)

(** The exit of [FreeMessage] through [nlREQUIRE_ACTION]. *)
Lemma FreeMessage_rejected (m : thci_message_t) (g : message_ring_t) :
  msgPtr m <> mMessageRingTail g ->
  msgPtr m + mTotalLength m <> mMessageRingHead g ->
  FreeMessage (Some m) g = g.
Proof.
  intros Htail Hhead. unfold FreeMessage.
  destruct (Z.eqb_spec (msgPtr m) (mMessageRingTail g)); [contradiction |].
  destruct (Z.eqb_spec (msgPtr m + mTotalLength m) (mMessageRingHead g));
    [contradiction | reflexivity].
Qed.

(** C7.  [FreeMessage] of a message that neither starts at the ring tail
    nor ends at the ring head is rejected: the store (head, tail, end-gap)
    is unchanged, the waiter queue receives no wake event and its
    empty mark is untouched. *)
Theorem FreeMessage_rejects_interior_release :
  forall (aMessage : thci_message_t) (g : message_ring_t),
    msgPtr aMessage <> mMessageRingTail g ->
    msgPtr aMessage + mTotalLength aMessage <> mMessageRingHead g ->
    FreeMessage (Some aMessage) g = g /\
    mMessageRingHead (FreeMessage (Some aMessage) g) = mMessageRingHead g /\
    mMessageRingTail (FreeMessage (Some aMessage) g) = mMessageRingTail g /\
    mMessageRingEndGap (FreeMessage (Some aMessage) g) = mMessageRingEndGap g /\
    mWaitFreeQueue (FreeMessage (Some aMessage) g) = mWaitFreeQueue g.
Proof.
  intros m g Htail Hhead.
  rewrite (FreeMessage_rejected m g Htail Hhead). repeat split.
Qed.

(** The ring with three live messages of 1292 bytes; the message in the
    middle is neither the oldest nor the newest. *)
Lemma FreeMessage_rejects_interior_release_witness :
  let g := mk_ring 3876 0 0 [] true in
  let b := mk_message 1292 [] 0 0 1292 0 in
  FreeMessage (Some b) g = g /\
  mMessageRingHead (FreeMessage (Some b) g) = mMessageRingHead g /\
  mMessageRingTail (FreeMessage (Some b) g) = mMessageRingTail g /\
  mMessageRingEndGap (FreeMessage (Some b) g) = mMessageRingEndGap g /\
  mWaitFreeQueue (FreeMessage (Some b) g) = mWaitFreeQueue g.
Proof.
  intros g b.
  apply (FreeMessage_rejects_interior_release b g); simpl; lia.
Defined.

(** The head, tail and end-gap of the ring after a release; the wake event
    touches the waiter queue only. *)
Lemma FreeMessage_tail_release (m : thci_message_t) (g : message_ring_t) :
  msgPtr m = mMessageRingTail g ->
  let reached :=
    mMessageRingTail g + mTotalLength m + mMessageRingEndGap g >=? ringEnd in
  mMessageRingHead (FreeMessage (Some m) g) = mMessageRingHead g /\
  mMessageRingTail (FreeMessage (Some m) g) =
    (if reached then ringStart else mMessageRingTail g + mTotalLength m) /\
  mMessageRingEndGap (FreeMessage (Some m) g) =
    (if reached then 0 else mMessageRingEndGap g).
Proof.
  intros Hptr reached. unfold FreeMessage.
  rewrite Hptr, Z.eqb_refl. cbn [orb]. fold reached.
  destruct reached; cbn [mWaitFreeQueueEmpty];
    destruct (mWaitFreeQueueEmpty g); repeat split.
Qed.

Lemma FreeMessage_head_release (m : thci_message_t) (g : message_ring_t) :
  msgPtr m <> mMessageRingTail g ->
  msgPtr m + mTotalLength m = mMessageRingHead g ->
  let rewound := (msgPtr m =? ringStart) && negb (mMessageRingEndGap g =? 0) in
  mMessageRingHead (FreeMessage (Some m) g) =
    (if rewound then ringEnd - mMessageRingEndGap g else msgPtr m) /\
  mMessageRingTail (FreeMessage (Some m) g) = mMessageRingTail g /\
  mMessageRingEndGap (FreeMessage (Some m) g) =
    (if rewound then 0 else mMessageRingEndGap g).
Proof.
  intros Hptr Hend rewound. unfold FreeMessage.
  destruct (Z.eqb_spec (msgPtr m) (mMessageRingTail g)); [contradiction |].
  rewrite Hend, Z.eqb_refl. cbn [orb]. fold rewound.
  destruct rewound; cbn [mWaitFreeQueueEmpty];
    destruct (mWaitFreeQueueEmpty g); repeat split.
Qed.

(** C2.  With the head segment above the tail, an allocation whose aligned
    size is not below the run from the head to the end of the buffer but is
    below the run from the base to the tail is placed at the base, the
    bytes skipped behind the old head being recorded as the end-gap.  A
    release of the oldest message whose tail advance reaches the end-gap
    puts the tail at the base and clears the gap; a release of the newest
    message that starts at the base while a gap is recorded puts the head
    where the gap begins and clears the gap. *)
Theorem NewMessage_wraps_and_FreeMessage_passes_end_gap :
  forall (aSecurity : bool) (aLength : Z) (g : message_ring_t)
         (oldest : thci_message_t) (g1 : message_ring_t)
         (newest : thci_message_t) (g2 : message_ring_t),
    ringStart <= mMessageRingTail g ->
    mMessageRingTail g < mMessageRingHead g ->
    mMessageRingHead g <= ringEnd ->
    ~ (alignedLength aLength + mMessageRingHead g < ringEnd) ->
    alignedLength aLength + ringStart < mMessageRingTail g ->
    msgPtr oldest = mMessageRingTail g1 ->
    mMessageRingTail g1 + mTotalLength oldest + mMessageRingEndGap g1 >= ringEnd ->
    msgPtr newest <> mMessageRingTail g2 ->
    msgPtr newest + mTotalLength newest = mMessageRingHead g2 ->
    msgPtr newest = ringStart ->
    mMessageRingEndGap g2 <> 0 ->
    (exists m g',
        NewMessage aSecurity aLength g = (Some m, g') /\
        msgPtr m = ringStart /\
        mTotalLength m = alignedLength aLength /\
        mMessageRingHead g' = ringStart + alignedLength aLength /\
        mMessageRingTail g' = mMessageRingTail g /\
        mMessageRingEndGap g' = ringEnd - mMessageRingHead g) /\
    (mMessageRingTail (FreeMessage (Some oldest) g1) = ringStart /\
     mMessageRingEndGap (FreeMessage (Some oldest) g1) = 0 /\
     mMessageRingHead (FreeMessage (Some oldest) g1) = mMessageRingHead g1) /\
    (mMessageRingHead (FreeMessage (Some newest) g2) = ringEnd - mMessageRingEndGap g2 /\
     mMessageRingEndGap (FreeMessage (Some newest) g2) = 0 /\
     mMessageRingTail (FreeMessage (Some newest) g2) = mMessageRingTail g2).
Proof.
  intros sec aLength g oldest g1 newest g2
         Hbase Habove Hend Hnofit Hfit Hold Hreach Hnew Hnewest Hatbase Hgap.
  split; [| split].
  - unfold NewMessage.
    destruct (Z.eqb_spec (mMessageRingHead g) (mMessageRingTail g)); [lia |].
    destruct (Z.ltb_spec (mMessageRingHead g) (mMessageRingTail g)); [lia |].
    destruct (Z.ltb_spec (alignedLength aLength + mMessageRingHead g) ringEnd);
      [contradiction |].
    destruct (Z.gtb_spec (mMessageRingHead g) (mMessageRingTail g)); [| lia].
    destruct (Z.ltb_spec (alignedLength aLength + ringStart) (mMessageRingTail g));
      [| lia].
    eexists; eexists. split; [reflexivity |].
    cbn [msgPtr mTotalLength mMessageRingHead mMessageRingTail mMessageRingEndGap].
    repeat split.
    unfold uint16_t. apply Z.mod_small.
    unfold ringEnd, ringStart, THCI_CONFIG_NCP_TX_MESSAGE_RING_BUFFER_SIZE,
      NL_THCI_PAYLOAD_MTU in *. lia.
  - destruct (FreeMessage_tail_release oldest g1 Hold) as (Hh & Ht & Hg).
    destruct (Z.geb_spec (mMessageRingTail g1 + mTotalLength oldest
                          + mMessageRingEndGap g1) ringEnd); [| lia].
    auto.
  - destruct (FreeMessage_head_release newest g2 Hnew Hnewest) as (Hh & Ht & Hg).
    rewrite Hatbase, Z.eqb_refl in Hh, Hg.
    destruct (Z.eqb_spec (mMessageRingEndGap g2) 0); [contradiction |].
    auto.
Qed.

(** Four messages of 1292 bytes were allocated and the oldest released
    ([g]); an allocation of 1232 bytes then wraps.  In [g1] the oldest
    message ends where the gap begins; in [g2] the newest message is the
    one placed at the base. *)
Lemma NewMessage_wraps_and_FreeMessage_passes_end_gap_witness :
  let g := mk_ring 5168 1292 0 [] true in
  let g1 := mk_ring 1232 3876 1232 [] true in
  let oldest := mk_message 3876 [] 0 0 1292 0 in
  let g2 := mk_ring 1232 1292 1232 [] true in
  let newest := mk_message 0 [] 0 0 1232 0 in
  (exists m g',
      NewMessage false 1220 g = (Some m, g') /\
      msgPtr m = ringStart /\
      mTotalLength m = alignedLength 1220 /\
      mMessageRingHead g' = ringStart + alignedLength 1220 /\
      mMessageRingTail g' = mMessageRingTail g /\
      mMessageRingEndGap g' = ringEnd - mMessageRingHead g) /\
  (mMessageRingTail (FreeMessage (Some oldest) g1) = ringStart /\
   mMessageRingEndGap (FreeMessage (Some oldest) g1) = 0 /\
   mMessageRingHead (FreeMessage (Some oldest) g1) = mMessageRingHead g1) /\
  (mMessageRingHead (FreeMessage (Some newest) g2) = ringEnd - mMessageRingEndGap g2 /\
   mMessageRingEndGap (FreeMessage (Some newest) g2) = 0 /\
   mMessageRingTail (FreeMessage (Some newest) g2) = mMessageRingTail g2).
Proof.
  intros g g1 oldest g2 newest.
  apply (NewMessage_wraps_and_FreeMessage_passes_end_gap
           false 1220 g oldest g1 newest g2); vm_compute; congruence.
Defined.

(** *** Runs of the ring *)

Lemma ringEnd_val : ringEnd = 6400.
Proof. reflexivity. Qed.

Lemma ringStart_val : ringStart = 0.
Proof. reflexivity. Qed.

Lemma ring_chain_le (l : list thci_message_t) :
  forall a b, ring_chain a l b -> a <= b /\ (l <> [] -> a < b).
Proof.
  induction l as [| m l IH]; intros a b H; simpl in H.
  - subst. split; [lia | congruence].
  - destruct H as (_ & Hpos & H). apply IH in H. lia.
Qed.

Lemma ring_chain_nil (l : list thci_message_t) (a : Z) :
  ring_chain a l a -> l = [].
Proof.
  intros H. destruct l as [| m l]; [reflexivity |].
  apply ring_chain_le in H. destruct H as [_ H].
  assert (a < a) by (apply H; discriminate). lia.
Qed.

Lemma ring_chain_app (l1 l2 : list thci_message_t) :
  forall a c,
    ring_chain a (l1 ++ l2) c <-> exists b, ring_chain a l1 b /\ ring_chain b l2 c.
Proof.
  induction l1 as [| m l1 IH]; intros a c; simpl.
  - split.
    + intros H. exists a. auto.
    + intros (b & -> & H). exact H.
  - split.
    + intros (Hp & Hpos & H). apply IH in H. destruct H as (b & H1 & H2).
      exists b. auto.
    + intros (b & (Hp & Hpos & H1) & H2). repeat split; try assumption.
      apply IH. exists b. auto.
Qed.

Lemma live_bytes_app (l1 l2 : list thci_message_t) :
  live_bytes (l1 ++ l2) = live_bytes l1 + live_bytes l2.
Proof.
  induction l1 as [| m l1 IH]; simpl; [reflexivity |].
  unfold live_bytes in *. simpl. rewrite IH. lia.
Qed.

Lemma ring_chain_bytes (l : list thci_message_t) :
  forall a b, ring_chain a l b -> live_bytes l = b - a.
Proof.
  induction l as [| m l IH]; intros a b H; simpl in H.
  - subst. unfold live_bytes. simpl. lia.
  - destruct H as (_ & _ & H). apply IH in H.
    unfold live_bytes in *. simpl. rewrite H. lia.
Qed.

Ltac ring_fields :=
  cbn [mMessageRingHead mMessageRingTail mMessageRingEndGap mWaitFreeQueue
       mWaitFreeQueueEmpty msgPtr mTotalLength fst snd] in *.

(** An allocation keeps the layout. *)
Lemma NewMessage_keeps_layout (R : Z) (aSecurity : bool) (aLength : Z)
  (g : message_ring_t) (live : list thci_message_t) :
  0 < alignedLength aLength <= R ->
  ring_inv R g live ->
  ring_inv R (fst (ring_step (OpNew aSecurity aLength) (g, live)))
             (snd (ring_step (OpNew aSecurity aLength) (g, live))).
Proof.
  intros Hr Hinv. unfold ring_step, NewMessage.
  set (r := alignedLength aLength) in *.
  pose proof ringEnd_val as HE. pose proof ringStart_val as HS.
  destruct Hinv as [(Hgap & Htail & Hhead & Hchain)
                   | (older & newer & Hlive & Hold & Hnew & Hgap & Hco & Hcn & Hlt)].
  - pose proof (ring_chain_le _ _ _ Hchain) as [Hle Hlt].
    destruct (Z.eqb_spec (mMessageRingHead g) (mMessageRingTail g)) as [Heq | Hne].
    + rewrite Heq in Hchain. apply ring_chain_nil in Hchain. subst live.
      ring_fields. rewrite Z.gtb_ltb, !Z.ltb_irrefl.
      destruct (Z.ltb_spec (r + ringStart) ringEnd).
      * ring_fields. left. unfold ring_linear. ring_fields. simpl.
        repeat split; lia.
      * ring_fields. left. unfold ring_linear. ring_fields. simpl.
        repeat split; lia.
    + destruct (Z.ltb_spec (mMessageRingHead g) (mMessageRingTail g)); [lia |].
      destruct (Z.gtb_spec (mMessageRingHead g) (mMessageRingTail g)); [| lia].
      destruct (Z.ltb_spec (r + mMessageRingHead g) ringEnd).
      * ring_fields. left. unfold ring_linear. ring_fields.
        repeat split; try lia.
        apply ring_chain_app. exists (mMessageRingHead g). split; [assumption |].
        simpl. repeat split; lia.
      * destruct (Z.ltb_spec (r + ringStart) (mMessageRingTail g)).
        -- ring_fields. right. exists live, [mk_message ringStart [] 0 0 r
                 (if aSecurity then Z.lor 0 THCI_MESSAGE_FLAG_SECURE else 0)].
           ring_fields.
           assert (Hg : uint16_t (ringEnd - mMessageRingHead g)
                        = ringEnd - mMessageRingHead g)
             by (unfold uint16_t; apply Z.mod_small; lia).
           rewrite Hg.
           repeat split; ring_fields; try lia; try discriminate.
           ++ intros ->. cbn [ring_chain] in Hchain. lia.
           ++ replace (ringEnd - (ringEnd - mMessageRingHead g))
                with (mMessageRingHead g) by lia. assumption.
        -- ring_fields. left. unfold ring_linear. repeat split; assumption.
  - destruct (Z.eqb_spec (mMessageRingHead g) (mMessageRingTail g)); [lia |].
    destruct (Z.ltb_spec (mMessageRingHead g) (mMessageRingTail g)); [| lia].
    destruct (Z.gtb_spec (mMessageRingHead g) (mMessageRingTail g)); [lia |].
    destruct (Z.ltb_spec (r + mMessageRingHead g) (mMessageRingTail g)).
    + ring_fields. right.
      exists older, (newer ++ [mk_message (mMessageRingHead g) [] 0 0 r
                 (if aSecurity then Z.lor 0 THCI_MESSAGE_FLAG_SECURE else 0)]).
      ring_fields. subst live. rewrite app_assoc.
      repeat split; ring_fields; try lia; try assumption.
      * intros Hnil. apply app_eq_nil in Hnil. destruct Hnil; discriminate.
      * apply ring_chain_app. exists (mMessageRingHead g). split; [assumption |].
        simpl. repeat split; lia.
    + ring_fields. right. exists older, newer. repeat split; assumption || lia.
Qed.

(** Releasing the oldest live message keeps the layout. *)
Lemma FreeOldest_keeps_layout (R : Z) (g : message_ring_t)
  (live : list thci_message_t) :
  ring_inv R g live ->
  ring_inv R (fst (ring_step OpFreeOldest (g, live)))
             (snd (ring_step OpFreeOldest (g, live))).
Proof.
  intros Hinv. unfold ring_step.
  pose proof ringEnd_val as HE. pose proof ringStart_val as HS.
  destruct Hinv as [(Hgap & Htail & Hhead & Hchain)
                   | (older & newer & Hlive & Hold & Hnew & Hgap & Hco & Hcn & Hlt)].
  - destruct live as [| m rest].
    + left. repeat split; assumption.
    + cbn [ring_chain] in Hchain. destruct Hchain as (Hptr & Hpos & Hchain).
      destruct (FreeMessage_tail_release m g Hptr) as (Hh & Ht & Hg).
      pose proof (ring_chain_le _ _ _ Hchain) as [Hle _].
      destruct (Z.geb_spec (mMessageRingTail g + mTotalLength m
                            + mMessageRingEndGap g) ringEnd); [lia |].
      left. unfold ring_linear. ring_fields. rewrite Hh, Ht, Hg.
      repeat split; assumption || lia.
  - destruct older as [| m older']; [congruence |].
    subst live. cbn [app]. cbn [ring_chain] in Hco. destruct Hco as (Hptr & Hpos & Hco).
    destruct (FreeMessage_tail_release m g Hptr) as (Hh & Ht & Hg).
    pose proof (ring_chain_le _ _ _ Hco) as [Hle Hlt'].
    pose proof (ring_chain_le _ _ _ Hcn) as [Hle2 Hlt2].
    destruct older' as [| m' older''].
    + cbn [ring_chain] in Hco.
      destruct (Z.geb_spec (mMessageRingTail g + mTotalLength m
                            + mMessageRingEndGap g) ringEnd); [| lia].
      left. unfold ring_linear. ring_fields. rewrite Hh, Ht, Hg. cbn [app].
      repeat split; assumption || lia.
    + assert (mMessageRingTail g + mTotalLength m
              < ringEnd - mMessageRingEndGap g) by (apply Hlt'; discriminate).
      destruct (Z.geb_spec (mMessageRingTail g + mTotalLength m
                            + mMessageRingEndGap g) ringEnd); [lia |].
      right. exists (m' :: older''), newer. ring_fields. rewrite Hh, Ht, Hg.
      repeat split; try assumption; try lia; try discriminate.
      all: cbn [ring_chain] in Hco; tauto.
Qed.

(** Releasing the newest live message keeps the layout. *)
Lemma FreeNewest_keeps_layout (R : Z) (g : message_ring_t)
  (live : list thci_message_t) :
  ring_inv R g live ->
  ring_inv R (fst (ring_step OpFreeNewest (g, live)))
             (snd (ring_step OpFreeNewest (g, live))).
Proof.
  intros Hinv. unfold ring_step.
  pose proof ringEnd_val as HE. pose proof ringStart_val as HS.
  destruct live as [| m0 rest0] eqn:Elive; [exact Hinv |].
  rewrite <- Elive in *.
  assert (Hne : live <> []) by (rewrite Elive; discriminate).
  clear Elive m0 rest0.
  destruct Hinv as [(Hgap & Htail & Hhead & Hchain)
                   | (older & newer & Hlive & Hold & Hnew & Hgap & Hco & Hcn & Hlt)].
  - destruct (exists_last Hne) as (l' & m & ->).
    rewrite last_last, removelast_last.
    apply ring_chain_app in Hchain. destruct Hchain as (b & Hl' & Hm).
    cbn [ring_chain] in Hm. destruct Hm as (Hptr & Hpos & Hend).
    pose proof (ring_chain_le _ _ _ Hl') as [Hle _].
    destruct (Z.eq_dec (msgPtr m) (mMessageRingTail g)) as [Heq | Hneq].
    + destruct (FreeMessage_tail_release m g Heq) as (Hh & Ht & Hg).
      destruct (Z.geb_spec (mMessageRingTail g + mTotalLength m
                            + mMessageRingEndGap g) ringEnd); [lia |].
      rewrite Hptr in Heq. rewrite Heq in Hl'. apply ring_chain_nil in Hl'.
      subst l'. left. unfold ring_linear. ring_fields. rewrite Hh, Ht, Hg.
      simpl. repeat split; lia.
    + assert (Hend' : msgPtr m + mTotalLength m = mMessageRingHead g) by lia.
      destruct (FreeMessage_head_release m g Hneq Hend') as (Hh & Ht & Hg).
      rewrite Hgap in Hh, Hg. cbn [Z.eqb negb] in Hh, Hg.
      rewrite andb_false_r in Hh, Hg.
      left. unfold ring_linear. ring_fields. rewrite Hh, Ht, Hg.
      repeat split; try lia. rewrite Hptr. assumption.
  - destruct (exists_last Hnew) as (newer' & m & ->).
    subst live. rewrite app_assoc, last_last, removelast_last.
    apply ring_chain_app in Hcn. destruct Hcn as (b & Hn' & Hm).
    cbn [ring_chain] in Hm. destruct Hm as (Hptr & Hpos & Hend).
    pose proof (ring_chain_le _ _ _ Hn') as [Hle Hlt'].
    pose proof (ring_chain_le _ _ _ Hco) as [Hle2 Hlt2].
    assert (Hneq : msgPtr m <> mMessageRingTail g) by lia.
    assert (Hend' : msgPtr m + mTotalLength m = mMessageRingHead g) by lia.
    destruct (FreeMessage_head_release m g Hneq Hend') as (Hh & Ht & Hg).
    destruct (Z.eqb_spec (mMessageRingEndGap g) 0) as [Hz | Hnz]; [lia |].
    cbn [negb] in Hh, Hg. rewrite andb_true_r in Hh, Hg.
    destruct (Z.eqb_spec (msgPtr m) ringStart) as [Hbase | Hnbase].
    + rewrite Hptr in Hbase. rewrite Hbase in Hn'. apply ring_chain_nil in Hn'.
      subst newer'. rewrite app_nil_r.
      left. unfold ring_linear. ring_fields. rewrite Hh, Ht, Hg.
      repeat split; try lia. assumption.
    + right. exists older, newer'. ring_fields. rewrite Hh, Ht, Hg.
      repeat split; try assumption; try lia.
      * intros ->. cbn [ring_chain] in Hn'. lia.
      * rewrite Hptr. assumption.
Qed.

Lemma ring_step_keeps_layout (R : Z) (op : ring_op)
  (s : message_ring_t * list thci_message_t) :
  sizes_within R (requests [op]) ->
  ring_inv R (fst s) (snd s) ->
  ring_inv R (fst (ring_step op s)) (snd (ring_step op s)).
Proof.
  intros Hsz Hinv. destruct s as [g live]. destruct op.
  - apply NewMessage_keeps_layout; [| exact Hinv].
    cbn [ring_chain] in Hsz. inversion Hsz; assumption.
  - apply FreeOldest_keeps_layout; exact Hinv.
  - apply FreeNewest_keeps_layout; exact Hinv.
Qed.

Lemma requests_app (ops1 ops2 : list ring_op) :
  requests (ops1 ++ ops2) = requests ops1 ++ requests ops2.
Proof.
  induction ops1 as [| [sec len | |] ops1 IH]; simpl; rewrite ?IH; reflexivity.
Qed.

Lemma ring_run_layout (R : Z) (ops : list ring_op) :
  sizes_within R (requests ops) ->
  ring_inv R (fst (ring_run ops)) (snd (ring_run ops)).
Proof.
  induction ops as [| op ops IH] using rev_ind; intros Hsz.
  - left. unfold ring_run, ring_linear. simpl. repeat split; lia.
  - unfold ring_run in *. rewrite fold_left_app. simpl.
    rewrite requests_app in Hsz. unfold sizes_within in Hsz.
    apply Forall_app in Hsz. destruct Hsz as [Hsz1 Hsz2].
    apply ring_step_keeps_layout; [exact Hsz2 | apply IH; exact Hsz1].
Qed.

(** In a ring that satisfies the layout, an allocation succeeds when the
    live bytes, the gap and the sizes tried at both runs leave room. *)
Lemma NewMessage_succeeds_with_room (R : Z) (aSecurity : bool) (aLength : Z)
  (g : message_ring_t) (live : list thci_message_t) :
  ring_inv R g live ->
  0 < alignedLength aLength <= R ->
  live_bytes live + 2 * R < ringEnd ->
  fst (NewMessage aSecurity aLength g) <> None.
Proof.
  intros Hinv Hr Hroom. unfold NewMessage.
  set (r := alignedLength aLength) in *.
  pose proof ringEnd_val as HE. pose proof ringStart_val as HS.
  destruct Hinv as [(Hgap & Htail & Hhead & Hchain)
                   | (older & newer & Hlive & Hold & Hnew & Hgap & Hco & Hcn & Hlt)].
  - pose proof (ring_chain_bytes _ _ _ Hchain) as Hbytes.
    pose proof (ring_chain_le _ _ _ Hchain) as [Hle _].
    destruct (Z.eqb_spec (mMessageRingHead g) (mMessageRingTail g)) as [Heq | Hne].
    + ring_fields. rewrite Z.gtb_ltb, !Z.ltb_irrefl.
      destruct (Z.ltb_spec (r + ringStart) ringEnd); [discriminate | lia].
    + destruct (Z.ltb_spec (mMessageRingHead g) (mMessageRingTail g)); [lia |].
      destruct (Z.gtb_spec (mMessageRingHead g) (mMessageRingTail g)); [| lia].
      destruct (Z.ltb_spec (r + mMessageRingHead g) ringEnd); [discriminate |].
      destruct (Z.ltb_spec (r + ringStart) (mMessageRingTail g));
        [discriminate | lia].
  - subst live. rewrite live_bytes_app in Hroom.
    pose proof (ring_chain_bytes _ _ _ Hco) as Hb1.
    pose proof (ring_chain_bytes _ _ _ Hcn) as Hb2.
    destruct (Z.eqb_spec (mMessageRingHead g) (mMessageRingTail g)); [lia |].
    destruct (Z.ltb_spec (mMessageRingHead g) (mMessageRingTail g)); [| lia].
    destruct (Z.ltb_spec (r + mMessageRingHead g) (mMessageRingTail g));
      [discriminate | lia].
Qed.

(** Along a run, a live message that is neither the oldest nor the newest
    starts above the tail and ends below the head (or lies in the other
    segment of a wrapped ring), and its release is rejected. *)
Lemma FreeMessage_rejects_interior_live_message (R : Z) (ops : list ring_op)
  (l1 l2 : list thci_message_t) (m : thci_message_t) :
  sizes_within R (requests ops) ->
  snd (ring_run ops) = l1 ++ m :: l2 ->
  l1 <> [] -> l2 <> [] ->
  FreeMessage (Some m) (fst (ring_run ops)) = fst (ring_run ops).
Proof.
  intros Hsz Hlive Hl1 Hl2.
  pose proof (ring_run_layout R ops Hsz) as Hinv.
  destruct (ring_run ops) as [g live]. cbn [fst snd] in *. subst live.
  apply FreeMessage_rejected.
  - destruct Hinv as [(_ & _ & _ & Hchain)
                     | (older & newer & Hlive & Hold & Hnew & Hgap & Hco & Hcn & Hlt)].
    + apply ring_chain_app in Hchain. destruct Hchain as (b & H1 & H2).
      cbn [ring_chain] in H2. destruct H2 as (Hptr & _).
      apply ring_chain_le in H1. destruct H1 as [_ H1]. specialize (H1 Hl1). lia.
    + symmetry in Hlive. apply app_eq_app in Hlive.
      destruct Hlive as (l & [[Ho Hn] | [Ho Hn]]).
      * destruct l as [| x l].
        -- cbn [app] in Hn. subst newer. cbn [ring_chain] in Hcn.
           destruct Hcn as (Hptr & Hpos & Hrest).
           apply ring_chain_le in Hrest. unfold ringStart in *. lia.
        -- cbn [app] in Hn. injection Hn as <- Hn. subst older.
           apply ring_chain_app in Hco. destruct Hco as (b & H1 & H2).
           cbn [ring_chain] in H2. destruct H2 as (Hptr & _).
           apply ring_chain_le in H1. destruct H1 as [_ H1]. specialize (H1 Hl1). lia.
      * subst newer. apply ring_chain_app in Hcn. destruct Hcn as (b & H1 & H2).
        cbn [ring_chain] in H2. destruct H2 as (Hptr & Hpos & Hrest).
        apply ring_chain_le in H1. apply ring_chain_le in Hrest.
        destruct Hrest as [_ Hrest]. specialize (Hrest Hl2). lia.
  - destruct Hinv as [(_ & _ & _ & Hchain)
                     | (older & newer & Hlive & Hold & Hnew & Hgap & Hco & Hcn & Hlt)].
    + apply ring_chain_app in Hchain. destruct Hchain as (b & H1 & H2).
      cbn [ring_chain] in H2. destruct H2 as (Hptr & _ & Hrest).
      apply ring_chain_le in Hrest. destruct Hrest as [_ Hrest].
      specialize (Hrest Hl2). lia.
    + symmetry in Hlive. apply app_eq_app in Hlive.
      destruct Hlive as (l & [[Ho Hn] | [Ho Hn]]).
      * destruct l as [| x l].
        -- cbn [app] in Hn. subst newer. cbn [ring_chain] in Hcn.
           destruct Hcn as (Hptr & Hpos & Hrest).
           apply ring_chain_le in Hrest. destruct Hrest as [_ Hrest].
           specialize (Hrest Hl2). lia.
        -- cbn [app] in Hn. injection Hn as <- Hn. subst older.
           apply ring_chain_app in Hco. destruct Hco as (b & H1 & H2).
           cbn [ring_chain] in H2. destruct H2 as (Hptr & Hpos & Hrest).
           apply ring_chain_le in H1. apply ring_chain_le in Hrest.
           apply ring_chain_le in Hcn. lia.
      * subst newer. apply ring_chain_app in Hcn. destruct Hcn as (b & H1 & H2).
        cbn [ring_chain] in H2. destruct H2 as (Hptr & Hpos & Hrest).
        apply ring_chain_le in Hrest. destruct Hrest as [_ Hrest].
        specialize (Hrest Hl2). lia.
Qed.

(** C3, as the code has it.  Along every sequence of allocations and of
    releases of the oldest or the newest live message, starting from the
    empty ring, [NewMessage] does not report exhaustion while the live
    bytes (headers and padding included) plus twice the largest aligned
    allocation size [R] stay below the capacity of the ring.  A run at the
    head or at the base must hold the whole allocation, and the bytes
    skipped at the end of the buffer are lost until the tail passes them,
    so room for one allocation is not enough. *)
Theorem NewMessage_no_exhaustion_with_room_for_two :
  forall (ops : list ring_op) (R : Z) (aSecurity : bool) (aLength : Z),
    sizes_within R (requests ops) ->
    0 < alignedLength aLength <= R ->
    live_bytes (snd (ring_run ops)) + 2 * R
      < THCI_CONFIG_NCP_TX_MESSAGE_RING_BUFFER_SIZE ->
    fst (NewMessage aSecurity aLength (fst (ring_run ops))) <> None.
Proof.
  intros ops R sec aLength Hsz Hr Hroom.
  apply (NewMessage_succeeds_with_room R sec aLength _ (snd (ring_run ops)));
    [apply ring_run_layout; exact Hsz | exact Hr | exact Hroom].
Qed.

(** Two datagrams of 1280 bytes were submitted and the first one sent. *)
Lemma NewMessage_no_exhaustion_with_room_for_two_witness :
  let ops := [OpNew false 1280; OpNew false 1280; OpFreeOldest] in
  sizes_within 1292 (requests ops) /\
  0 < alignedLength 1280 <= 1292 /\
  live_bytes (snd (ring_run ops)) + 2 * 1292
    < THCI_CONFIG_NCP_TX_MESSAGE_RING_BUFFER_SIZE /\
  fst (NewMessage false 1280 (fst (ring_run ops))) <> None.
Proof.
  intros ops.
  assert (Hsz : sizes_within 1292 (requests ops))
    by (repeat constructor; vm_compute; congruence).
  assert (Hr : 0 < alignedLength 1280 <= 1292) by (vm_compute; split; congruence).
  assert (Hroom : live_bytes (snd (ring_run ops)) + 2 * 1292
                  < THCI_CONFIG_NCP_TX_MESSAGE_RING_BUFFER_SIZE) by reflexivity.
  repeat split; try assumption; try apply Hr.
  exact (NewMessage_no_exhaustion_with_room_for_two ops 1292 false 1280 Hsz Hr Hroom).
Defined.

(** C3 as stated fails.  Four datagrams of 1280 bytes are allocated (1292
    bytes each with the header) and the oldest is released: 3876 bytes are
    live, from 1292 to 5168.  A fifth allocation of 1280 bytes fits neither
    in the 1232 bytes behind the head nor in the 1292 bytes before the tail
    (the comparison is strict), and [NewMessage] returns no buffer although
    live bytes, payload, header and alignment slack come to 5171 of 6400
    bytes. *)
Lemma NewMessage_false_exhaustion :
  let ops := [OpNew false 1280; OpNew false 1280; OpNew false 1280;
              OpNew false 1280; OpFreeOldest] in
  (live_bytes (snd (ring_run ops)) = 3876 /\
   live_bytes (snd (ring_run ops)) + 1280 + sizeof_thci_message_t + 3
     < THCI_CONFIG_NCP_TX_MESSAGE_RING_BUFFER_SIZE /\
   fst (NewMessage false 1280 (fst (ring_run ops))) = None) /\
  ~ (forall (ops : list ring_op) (aSecurity : bool) (aLength : Z),
        Forall (fun a => 0 <= a <= NL_THCI_PAYLOAD_MTU) (aLength :: requests ops) ->
        live_bytes (snd (ring_run ops)) + aLength + sizeof_thci_message_t + 3
          < THCI_CONFIG_NCP_TX_MESSAGE_RING_BUFFER_SIZE ->
        fst (NewMessage aSecurity aLength (fst (ring_run ops))) <> None).
Proof.
  intros ops.
  assert (Hfacts : live_bytes (snd (ring_run ops)) = 3876 /\
                   live_bytes (snd (ring_run ops)) + 1280 + sizeof_thci_message_t + 3
                     < THCI_CONFIG_NCP_TX_MESSAGE_RING_BUFFER_SIZE /\
                   fst (NewMessage false 1280 (fst (ring_run ops))) = None)
    by (repeat split; reflexivity).
  split; [exact Hfacts |].
  intros Hclaim. destruct Hfacts as (_ & Hroom & Hnone).
  apply (Hclaim ops false 1280); [| exact Hroom | exact Hnone].
  repeat constructor; vm_compute; congruence.
Qed.

(** ** The transaction matcher and the response wait *)

Section UartProperties.
Context `{OT : OpenThread}.
Variable sDataFrameCB : option (Z -> Z -> list Z -> thci_t -> thci_t).
Variable sControlFrameCB : option (Z -> Z -> Z -> list Z -> thci_t -> thci_t).

Lemma expected_pairb_spec (u : uart_t) (f : spinel_frame) :
  expected_pairb u f = true <-> spec_expected_pair u f.
Proof.
  unfold expected_pairb, spec_expected_pair.
  rewrite andb_true_iff, !Z.eqb_eq. intuition congruence.
Qed.

Lemma CompareResponse_matches (u : uart_t) (f : spinel_frame) :
  fst (CompareResponse (fHeader f) (fCommand f) (fKey f) u) = true
  <-> spec_response_matches u f.
Proof.
  unfold CompareResponse, spec_response_matches.
  destruct (Z.eqb_spec (sResponseTransactionId u) kDontCareTransactionId) as [Hd | Hd];
    cbn [negb].
  - destruct (Z.eqb_spec (sResponseCommand u) (fCommand f)) as [Hc | Hc];
      destruct (Z.eqb_spec (sResponseKey u) (fKey f)) as [Hk | Hk];
      cbn [andb fst]; split; intros H; try discriminate; try (right; auto; fail);
      destruct H as [[H _] | (_ & H1 & H2)]; congruence.
  - destruct (Z.eqb_spec (SPINEL_HEADER_GET_TID (fHeader f)) (sResponseTransactionId u))
      as [Ht | Ht].
    + destruct ((sResponseCommand u =? fCommand f) && (sResponseKey u =? fKey f));
        cbn [fst]; split; auto.
    + cbn [fst]. split; [discriminate |].
      intros [[_ H] | [H _]]; congruence.
Qed.

Lemma CompareResponse_statics (u : uart_t) (f : spinel_frame) :
  let u' := snd (CompareResponse (fHeader f) (fCommand f) (fKey f) u) in
  sProvideInternalResponse u' = sProvideInternalResponse u /\
  sResponseReceived u' = sResponseReceived u /\
  sResponseBuffer u' = sResponseBuffer u /\
  sDecodeFailure u' = sDecodeFailure u /\
  (fst (CompareResponse (fHeader f) (fCommand f) (fKey f) u) = false -> u' = u) /\
  (fst (CompareResponse (fHeader f) (fCommand f) (fKey f) u) = true ->
   sResponseSuccess u' = sResponseSuccess u || expected_pairb u f).
Proof.
  unfold CompareResponse, expected_pairb.
  destruct (negb (sResponseTransactionId u =? kDontCareTransactionId));
    [destruct (SPINEL_HEADER_GET_TID (fHeader f) =? sResponseTransactionId u) |];
    destruct ((sResponseCommand u =? fCommand f) && (sResponseKey u =? fKey f));
    cbn; repeat split; try reflexivity; try discriminate;
    intros _; rewrite ?orb_true_r, ?orb_false_r; reflexivity.
Qed.

(** A frame that does not match leaves the statics of the transport as
    they are: it goes to the callbacks. *)
Lemma HandleFrame_unmatched (u : uart_t) (w : thci_t) (f : spinel_frame) :
  ~ spec_response_matches u f ->
  fst (HandleFrame sDataFrameCB sControlFrameCB (Some f) (u, w)) = u.
Proof.
  intros Hno. unfold HandleFrame.
  destruct (sProvideInternalResponse u).
  - pose proof (CompareResponse_matches u f) as Hm.
    pose proof (CompareResponse_statics u f) as (_ & _ & _ & _ & Hsame & _).
    destruct (CompareResponse (fHeader f) (fCommand f) (fKey f) u) as [matched u'].
    cbn [fst snd] in *. destruct matched.
    + exfalso. apply Hno, Hm. reflexivity.
    + rewrite (Hsame eq_refl).
      destruct ((fKey f =? SPINEL_PROP_STREAM_NET)
                || (fKey f =? SPINEL_PROP_STREAM_NET_INSECURE));
        [destruct sDataFrameCB | destruct sControlFrameCB]; reflexivity.
  - destruct ((fKey f =? SPINEL_PROP_STREAM_NET)
              || (fKey f =? SPINEL_PROP_STREAM_NET_INSECURE));
      [destruct sDataFrameCB | destruct sControlFrameCB]; reflexivity.
Qed.

(** A frame that matches while a request is pending is taken as the
    response, with its arguments; it is a success when it carries the
    expected (command, key). *)
Lemma HandleFrame_matched (u : uart_t) (w : thci_t) (f : spinel_frame) :
  sProvideInternalResponse u = true ->
  spec_response_matches u f ->
  let u' := fst (HandleFrame sDataFrameCB sControlFrameCB (Some f) (u, w)) in
  sResponseReceived u' = true /\
  sResponseBuffer u' = fArgs f /\
  sResponseSuccess u' = sResponseSuccess u || expected_pairb u f /\
  sDecodeFailure u' = sDecodeFailure u.
Proof.
  intros Hp Hyes. unfold HandleFrame. rewrite Hp.
  pose proof (CompareResponse_matches u f) as Hm.
  pose proof (CompareResponse_statics u f) as (_ & _ & _ & Hdf & _ & Hsucc).
  destruct (CompareResponse (fHeader f) (fCommand f) (fKey f) u) as [matched u'].
  cbn [fst snd] in *. destruct matched.
  - specialize (Hsucc eq_refl).
    match goal with
    | |- context [if ?c then _ else _] => destruct c
    end; cbn [fst sResponseReceived sResponseBuffer sResponseSuccess sDecodeFailure];
      auto.
  - apply Hm in Hyes. discriminate.
Qed.

Lemma UartRxFifoProcess_done (rx : list rx_delivery) (s : uart_t * thci_t) :
  sDecodeFailure (fst s) || sResponseReceived (fst s) = true ->
  UartRxFifoProcess sDataFrameCB sControlFrameCB rx s = s.
Proof.
  intros H. destruct rx as [| d rx]; [reflexivity |]. cbn [UartRxFifoProcess].
  rewrite H. reflexivity.
Qed.

Lemma UartRxFifoProcess_app (rx1 rx2 : list rx_delivery) :
  forall s,
    UartRxFifoProcess sDataFrameCB sControlFrameCB (rx1 ++ rx2) s =
    UartRxFifoProcess sDataFrameCB sControlFrameCB rx2
      (UartRxFifoProcess sDataFrameCB sControlFrameCB rx1 s).
Proof.
  induction rx1 as [| d rx1 IH]; intros s; [reflexivity |].
  cbn [app UartRxFifoProcess].
  destruct (sDecodeFailure (fst s) || sResponseReceived (fst s)) eqn:E.
  - symmetry. apply UartRxFifoProcess_done. exact E.
  - apply IH.
Qed.

(** Deliveries that are not the awaited response leave the statics as the
    wait registered them. *)
Lemma UartRxFifoProcess_unmatched (rx : list rx_delivery) (u : uart_t) :
  sResponseReceived u = false ->
  sDecodeFailure u = false ->
  Forall (unmatched u) rx ->
  forall w, fst (UartRxFifoProcess sDataFrameCB sControlFrameCB rx (u, w)) = u.
Proof.
  intros Hr Hd Hall. induction Hall as [| d rx Hun _ IH]; intros w; [reflexivity |].
  cbn [UartRxFifoProcess fst]. rewrite Hr, Hd. cbn [orb].
  destruct d as [[f |] |]; cbn [unmatched] in Hun.
  - pose proof (HandleFrame_unmatched u w f Hun) as Hu.
    destruct (HandleFrame sDataFrameCB sControlFrameCB (Some f) (u, w)) as [u1 w1].
    cbn [fst] in Hu. subst u1. apply IH.
  - apply IH.
  - contradiction.
Qed.

Lemma register_response_pending (tid cmd key : Z) (u : uart_t) :
  let p := register_response tid cmd key u in
  sProvideInternalResponse p = true /\ sResponseReceived p = false /\
  sResponseSuccess p = false /\ sDecodeFailure p = sDecodeFailure u /\
  sResponseQueueHandle p = sResponseQueueHandle u.
Proof. cbn. repeat split. Qed.

(** C1.  While a request is pending, a frame is accepted as the response
    iff the request tid is not the don't-care id and the 4-bit tid of the
    frame header equals it, or the request tid is the don't-care id and the
    (command, key) of the frame is the expected pair.  The wait that meets
    such a frame, after any number of frames that do not match, hands the
    arguments of that frame to the caller; it returns success when the
    frame carries the expected (command, key), and the failed result
    otherwise (the tid matched, the pair did not). *)
Theorem response_accepted_iff_matches :
  forall (aAvoidNCPRecovery : bool) (aTransactionID aCommand aKey : Z)
         (before after : list rx_delivery) (f : spinel_frame) (leftover : bool)
         (u0 u : uart_t) (w0 w : thci_t),
    sProvideInternalResponse u0 = true ->
    sResponseReceived u0 = false ->
    sDecodeFailure u = false ->
    Forall (unmatched (register_response aTransactionID aCommand aKey u)) before ->
    (sResponseReceived
       (fst (HandleFrame sDataFrameCB sControlFrameCB (Some f) (u0, w0))) = true
     <-> spec_response_matches u0 f) /\
    (let pending := register_response aTransactionID aCommand aKey u in
     let r := thciUartWaitForResponseInternal sDataFrameCB sControlFrameCB
                aAvoidNCPRecovery aTransactionID aCommand aKey
                (before ++ RxFrame (Some f) :: after) leftover (u, w) in
     spec_response_matches pending f ->
     snd (fst r) = Some (fArgs f) /\
     (spec_expected_pair pending f -> fst (fst r) = OT_ERROR_NONE) /\
     (~ spec_expected_pair pending f -> fst (fst r) = OT_ERROR_FAILED)).
Proof.
  intros avoid tid cmd key before after f leftover u0 u w0 w Hp0 Hr0 Hd Hbefore.
  split.
  - split.
    + intros Hrec.
      destruct (CompareResponse_matches u0 f) as [Hm _]. apply Hm.
      destruct (fst (CompareResponse (fHeader f) (fCommand f) (fKey f) u0)) eqn:E;
        [reflexivity |].
      assert (Hno : ~ spec_response_matches u0 f).
      { intros Hyes. apply CompareResponse_matches in Hyes. congruence. }
      rewrite (HandleFrame_unmatched u0 w0 f Hno) in Hrec. congruence.
    + intros Hyes. apply (HandleFrame_matched u0 w0 f Hp0 Hyes).
  - intros pending r Hyes.
    destruct (register_response_pending tid cmd key u) as (Hpp & Hpr & Hps & Hpd & _).
    fold pending in Hpp, Hpr, Hps, Hpd. rewrite Hd in Hpd.
    assert (Hr : fst r = (if expected_pairb pending f
                          then OT_ERROR_NONE else OT_ERROR_FAILED,
                          Some (fArgs f))).
    { subst r. unfold thciUartWaitForResponseInternal. rewrite Hd.
      fold pending.
      set (s := UartRxFifoProcess sDataFrameCB sControlFrameCB
                  (before ++ RxFrame (Some f) :: after) (pending, w)).
      assert (Hs : sResponseReceived (fst s) = true /\
                   sResponseBuffer (fst s) = fArgs f /\
                   sResponseSuccess (fst s) = expected_pairb pending f).
      { unfold s. rewrite UartRxFifoProcess_app.
        pose proof (UartRxFifoProcess_unmatched before pending Hpr Hpd Hbefore w)
          as Hu.
        destruct (UartRxFifoProcess sDataFrameCB sControlFrameCB before (pending, w))
          as [u1 w1]. cbn [fst] in Hu. subst u1.
        cbn [UartRxFifoProcess fst]. rewrite Hpr, Hpd. cbn [orb].
        destruct (HandleFrame_matched pending w1 f Hpp Hyes) as (H1 & H2 & H3 & H4).
        rewrite UartRxFifoProcess_done by (rewrite H1; apply orb_true_r).
        rewrite Hps in H3. auto. }
      destruct Hs as (Hrec & Hbuf & Hsucc).
      destruct (sResponseQueueHandle pending);
        cbn [fst]; rewrite Hrec, Hbuf, Hsucc; reflexivity. }
    rewrite Hr. cbn [fst snd]. split; [reflexivity |]. split.
    + intros He. apply expected_pairb_spec in He. rewrite He. reflexivity.
    + intros Hne. destruct (expected_pairb pending f) eqn:E; [| reflexivity].
      exfalso. apply Hne, expected_pairb_spec, E.
Qed.

End UartProperties.

(** A request for the NCP version with tid 5 is pending.  An unsolicited
    role change (tid 0) arrives first and goes to the control callback;
    then the NCP answers with a last-status frame that carries tid 5: the
    wait fails and hands over the status byte. *)
Lemma response_accepted_iff_matches_witness :
  let OT := openthread_reference in
  let u := uart_enabled true in
  let w := thci_initialized in
  let pending := register_response 5 6 2 u in
  let role_change := mk_frame 128 6 67 [2] in
  let last_status := mk_frame 133 6 0 [1] in
  let r := thciUartWaitForResponseInternal None (Some ReceiveControlFrame)
             false 5 6 2 [RxFrame (Some role_change); RxFrame (Some last_status)]
             false (u, w) in
  (sResponseReceived
     (fst (HandleFrame None (Some ReceiveControlFrame) (Some last_status) (pending, w)))
   = true <-> spec_response_matches pending last_status) /\
  (spec_response_matches pending last_status ->
   snd (fst r) = Some [1] /\
   (spec_expected_pair pending last_status -> fst (fst r) = OT_ERROR_NONE) /\
   (~ spec_expected_pair pending last_status -> fst (fst r) = OT_ERROR_FAILED)).
Proof.
  intros OT u w pending role_change last_status r.
  apply (response_accepted_iff_matches None (Some ReceiveControlFrame)
           false 5 6 2 [RxFrame (Some role_change)] [] last_status false
           pending u w w).
  - reflexivity.
  - reflexivity.
  - reflexivity.
  - repeat constructor. cbn [unmatched].
    intros [[_ H] | [H _]]; vm_compute in H; discriminate.
Defined.

(** ** Time-out of a request and reset recovery *)

Lemma resident_post (e e' : nl_event_t) (q : list nl_event_t) :
  resident e (nl_eventqueue_post_event q e') =
  (resident e q + if nl_event_eqb e e' then 1 else 0)%nat.
Proof.
  unfold resident, nl_eventqueue_post_event.
  rewrite filter_app, length_app. cbn [filter].
  destruct (nl_event_eqb e e'); reflexivity.
Qed.

(** Reduction of the projections of the contexts, and nothing else. *)
Ltac thci_fields :=
  cbn [gTHCINCPContext gTHCISDKContext sOutgoingIPPacketEventPosted clientCalls
       mRing mCallbackBuffers mScanResultCallback mStateChangeCallback
       mResetRecoveryCallback mTransactionId mModuleState mLastStatus
       mStateChangeFlags mSdkQueue mNetifThread mMessageQueue mInsecureSourcePort
       mSecurityFlags mDeviceRole mStallOutgoingDataPackets
       sProvideInternalResponse sRxEventPostedToSdkQueue sResponseQueueHandle
       sResponseCommand sResponseKey sResponseBuffer sResponseReceived
       sResponseTransactionId sResponseSuccess sDecodeFailure
       fst snd option_map] in *.

Ltac unfold_updates :=
  unfold post_to_sdk_queue, log_call, with_ncp, with_sdk, set_mRing,
    set_mCallbackBuffers, set_mTransactionId, set_mModuleState, set_mLastStatus,
    set_mStateChangeFlags, set_mSdkQueue, set_mMessageQueue, set_mDeviceRole,
    set_sOutgoingIPPacketEventPosted in *.

Lemma sdk_events_post (e : nl_event_t) (w : thci_t) (q : list nl_event_t) :
  mSdkQueue (gTHCISDKContext w) = Some q ->
  sdk_events (post_to_sdk_queue e w) = nl_eventqueue_post_event q e /\
  mSdkQueue (gTHCISDKContext (post_to_sdk_queue e w))
    = Some (nl_eventqueue_post_event q e) /\
  gTHCINCPContext (post_to_sdk_queue e w) = gTHCINCPContext w /\
  clientCalls (post_to_sdk_queue e w) = clientCalls w.
Proof.
  intros Hq. unfold sdk_events. unfold_updates. thci_fields. rewrite Hq.
  thci_fields. repeat split.
Qed.

Lemma thciInitiateNCPRecovery_idempotent (w : thci_t) :
  mModuleState (gTHCINCPContext w) = kModuleStateResetRecovery ->
  thciInitiateNCPRecovery w = w.
Proof. intros H. unfold thciInitiateNCPRecovery. rewrite H. reflexivity. Qed.

Lemma thciInitiateNCPRecovery_state (w : thci_t) :
  mModuleState (gTHCINCPContext (thciInitiateNCPRecovery w)) = kModuleStateResetRecovery.
Proof.
  unfold thciInitiateNCPRecovery.
  destruct (mModuleState (gTHCINCPContext w)) eqn:E; cbn [module_state_eqb];
    try exact E;
    unfold_updates; thci_fields;
    destruct (mSdkQueue (gTHCISDKContext w)); reflexivity.
Qed.

Lemma thciInitiateNCPRecovery_posts_once (w : thci_t) :
  mModuleState (gTHCINCPContext w) <> kModuleStateResetRecovery ->
  mSdkQueue (gTHCISDKContext w) <> None ->
  resident sNCPRecoveryEvent (sdk_events (thciInitiateNCPRecovery w)) =
  S (resident sNCPRecoveryEvent (sdk_events w)).
Proof.
  intros Hst Hq.
  destruct (mSdkQueue (gTHCISDKContext w)) as [q |] eqn:E; [| congruence].
  assert (Hev : sdk_events w = q) by (unfold sdk_events; rewrite E; reflexivity).
  set (w' := with_ncp (set_mModuleState kModuleStateResetRecovery) w).
  assert (E' : mSdkQueue (gTHCISDKContext w') = Some q) by exact E.
  assert (Hun : thciInitiateNCPRecovery w
                = post_to_sdk_queue sNCPRecoveryEvent w').
  { unfold thciInitiateNCPRecovery. fold w'. rewrite E'.
    destruct (mModuleState (gTHCINCPContext w)); try congruence; reflexivity. }
  rewrite Hun. destruct (sdk_events_post sNCPRecoveryEvent w' q E') as (-> & _).
  rewrite resident_post, Hev. cbn [nl_event_eqb]. lia.
Qed.

Lemma thciInitiateNCPRecovery_without_queue (w : thci_t) :
  mSdkQueue (gTHCISDKContext w) = None ->
  sdk_events (thciInitiateNCPRecovery w) = [].
Proof.
  intros Hq. unfold thciInitiateNCPRecovery, sdk_events.
  destruct (module_state_eqb _ _); unfold_updates; thci_fields; rewrite Hq;
    thci_fields; rewrite ?Hq; reflexivity.
Qed.

Lemma PostRxDoneEventToSdkQueue_keeps (s : uart_t * thci_t) :
  let s' := PostRxDoneEventToSdkQueue s in
  sResponseReceived (fst s') = sResponseReceived (fst s) /\
  mModuleState (gTHCINCPContext (snd s')) = mModuleState (gTHCINCPContext (snd s)) /\
  resident sNCPRecoveryEvent (sdk_events (snd s')) =
    resident sNCPRecoveryEvent (sdk_events (snd s)) /\
  (mSdkQueue (gTHCISDKContext (snd s')) = None <->
   mSdkQueue (gTHCISDKContext (snd s)) = None).
Proof.
  destruct s as [u w]. unfold PostRxDoneEventToSdkQueue.
  destruct (mSdkQueue (gTHCISDKContext w)) as [q |] eqn:E.
  - assert (Hev : sdk_events w = q) by (unfold sdk_events; rewrite E; reflexivity).
    destruct (sRxEventPostedToSdkQueue u =? 0); thci_fields.
    + destruct (sdk_events_post sUartRxDoneEvent w q E) as (H1 & H2 & H3 & _).
      rewrite H1, H2, H3, resident_post, Hev, E. cbn [nl_event_eqb].
      repeat split; try lia; discriminate.
    + rewrite E. repeat split; discriminate.
  - thci_fields. rewrite E. repeat split; auto.
Qed.

Section RecoveryProperties.
Context `{OT : OpenThread}.
Variable sDataFrameCB : option (Z -> Z -> list Z -> thci_t -> thci_t).
Variable sControlFrameCB : option (Z -> Z -> Z -> list Z -> thci_t -> thci_t).

(** C6, as the code has it.  A request is awaited without the
    ignore-timeout option, the transport has its response queue and no
    decode failure is latched.  If only frames that do not match arrive
    before the wait gives up, the caller receives no-frame-received and
    nothing is stored in its buffer, and the module state is ResetRecovery
    afterwards.  With [before] the contexts when the wait gives up: the
    time-out posts exactly one recovery event when the module was not yet in
    ResetRecovery and an SDK queue is configured, and none when the module
    was already in ResetRecovery or there is no SDK queue.  Initiating
    recovery in ResetRecovery changes nothing. *)
Theorem wait_timeout_initiates_recovery :
  forall (aTransactionID aCommand aKey : Z) (rx : list rx_delivery)
         (leftover : bool) (u : uart_t) (w : thci_t),
    sDecodeFailure u = false ->
    sResponseQueueHandle u = true ->
    Forall (unmatched (register_response aTransactionID aCommand aKey u)) rx ->
    let before :=
      snd (UartRxFifoProcess sDataFrameCB sControlFrameCB rx
             (register_response aTransactionID aCommand aKey u, w)) in
    let r := thciUartWaitForResponse sDataFrameCB sControlFrameCB
               aTransactionID aCommand aKey rx leftover (u, w) in
    let after := snd (snd r) in
    fst (fst r) = OT_ERROR_NO_FRAME_RECEIVED /\
    snd (fst r) = None /\
    mModuleState (gTHCINCPContext after) = kModuleStateResetRecovery /\
    (mModuleState (gTHCINCPContext before) <> kModuleStateResetRecovery ->
     mSdkQueue (gTHCISDKContext before) <> None ->
     resident sNCPRecoveryEvent (sdk_events after) =
       S (resident sNCPRecoveryEvent (sdk_events before))) /\
    (mModuleState (gTHCINCPContext before) = kModuleStateResetRecovery ->
     resident sNCPRecoveryEvent (sdk_events after) =
       resident sNCPRecoveryEvent (sdk_events before)) /\
    (mSdkQueue (gTHCISDKContext before) = None -> sdk_events after = []) /\
    (forall w0 : thci_t,
        mModuleState (gTHCINCPContext w0) = kModuleStateResetRecovery ->
        thciInitiateNCPRecovery w0 = w0 /\
        sdk_events (thciInitiateNCPRecovery w0) = sdk_events w0).
Proof.
  intros tid cmd key rx leftover u w Hd Hq Hrx before r after.
  destruct (register_response_pending tid cmd key u) as (Hpp & Hpr & Hps & Hpd & Hpq).
  set (pending := register_response tid cmd key u) in *.
  rewrite Hd in Hpd. rewrite Hq in Hpq.
  pose proof (UartRxFifoProcess_unmatched sDataFrameCB sControlFrameCB
                rx pending Hpr Hpd Hrx w) as Hu.
  set (s := UartRxFifoProcess sDataFrameCB sControlFrameCB rx (pending, w)) in *.
  assert (Hrec : sResponseReceived (fst s) = false) by (rewrite Hu; exact Hpr).
  pose proof (PostRxDoneEventToSdkQueue_keeps s) as (Hk1 & Hk2 & Hk3 & Hk4).
  assert (Hr : fst r = (OT_ERROR_NO_FRAME_RECEIVED, None) /\
               after = thciInitiateNCPRecovery
                         (snd (if leftover then PostRxDoneEventToSdkQueue s else s))).
  { subst after r. unfold thciUartWaitForResponse, thciUartWaitForResponseInternal.
    rewrite Hd. fold pending. fold s. rewrite Hpq, Hrec.
    destruct leftover.
    - destruct (PostRxDoneEventToSdkQueue s) as [u2 w2].
      cbn [fst snd sResponseReceived] in *. rewrite Hk1, Hrec. cbn. auto.
    - rewrite Hrec. cbn. auto. }
  destruct Hr as [Hr Hafter]. rewrite Hr, Hafter. cbn [fst snd].
  fold before in Hk2, Hk3, Hk4.
  repeat split.
  - apply thciInitiateNCPRecovery_state.
  - intros Hst Hsdk. destruct leftover.
    + rewrite thciInitiateNCPRecovery_posts_once; [congruence | congruence |].
      intros Hn. apply Hk4 in Hn. contradiction.
    + apply thciInitiateNCPRecovery_posts_once; assumption.
  - intros Hst. destruct leftover.
    + rewrite thciInitiateNCPRecovery_idempotent; congruence.
    + rewrite thciInitiateNCPRecovery_idempotent; [reflexivity | exact Hst].
  - intros Hn. apply thciInitiateNCPRecovery_without_queue.
    destruct leftover; [apply Hk4 |]; exact Hn.
  - apply thciInitiateNCPRecovery_idempotent; assumption.
  - rewrite thciInitiateNCPRecovery_idempotent; [reflexivity | assumption].
Qed.

End RecoveryProperties.

(** A property get with tid 2 is awaited; only an unsolicited role
    change arrives. *)
Lemma wait_timeout_initiates_recovery_witness :
  let OT := openthread_reference in
  let u := uart_enabled true in
  let w := thci_initialized in
  let rx := [RxFrame (Some (mk_frame 128 6 67 [2]))] in
  let before :=
    snd (UartRxFifoProcess None (Some ReceiveControlFrame) rx
           (register_response 2 6 2 u, w)) in
  let r := thciUartWaitForResponse None (Some ReceiveControlFrame)
             2 6 2 rx false (u, w) in
  let after := snd (snd r) in
  fst (fst r) = OT_ERROR_NO_FRAME_RECEIVED /\
  snd (fst r) = None /\
  mModuleState (gTHCINCPContext after) = kModuleStateResetRecovery /\
  (mModuleState (gTHCINCPContext before) <> kModuleStateResetRecovery ->
   mSdkQueue (gTHCISDKContext before) <> None ->
   resident sNCPRecoveryEvent (sdk_events after) =
     S (resident sNCPRecoveryEvent (sdk_events before))) /\
  (mModuleState (gTHCINCPContext before) = kModuleStateResetRecovery ->
   resident sNCPRecoveryEvent (sdk_events after) =
     resident sNCPRecoveryEvent (sdk_events before)) /\
  (mSdkQueue (gTHCISDKContext before) = None -> sdk_events after = []) /\
  (forall w0 : thci_t,
      mModuleState (gTHCINCPContext w0) = kModuleStateResetRecovery ->
      thciInitiateNCPRecovery w0 = w0 /\
      sdk_events (thciInitiateNCPRecovery w0) = sdk_events w0).
Proof.
  intros OT u w rx before r after.
  apply (wait_timeout_initiates_recovery None (Some ReceiveControlFrame)
           2 6 2 rx false u w).
  - reflexivity.
  - reflexivity.
  - repeat constructor. cbn [unmatched].
    intros [[_ H] | [H _]]; vm_compute in H; discriminate.
Defined.

(** C6 as stated fails.  The firmware updater enables the transport
    without callbacks, so that no response queue exists, and asks for the
    NCP version with [thciUartWaitForResponse]; nothing arrives.  The caller
    receives no-frame-received, but the module state stays Initialized and
    no recovery event is posted: the polling branch of the wait never
    initiates recovery. *)
Lemma wait_timeout_without_response_queue :
  let OT := openthread_reference in
  let r := thciUartWaitForResponse None None 2 6 2 [] false
             (uart_enabled false, thci_initialized) in
  fst (fst r) = OT_ERROR_NO_FRAME_RECEIVED /\
  mModuleState (gTHCINCPContext (snd (snd r))) = kModuleStateInitialized /\
  mModuleState (gTHCINCPContext (snd (snd r))) <> kModuleStateResetRecovery /\
  resident sNCPRecoveryEvent (sdk_events (snd (snd r))) = 0%nat.
Proof. cbv zeta. repeat split. discriminate. Qed.

(** ** What the handlers leave unchanged *)

Section Unchanged.
Variable keep : nl_event_t -> bool.

Lemma unchanged_refl (w : thci_t) : unchanged keep w w.
Proof. repeat split; auto. Qed.

Lemma unchanged_trans (w1 w2 w3 : thci_t) :
  unchanged keep w1 w2 -> unchanged keep w2 w3 -> unchanged keep w1 w3.
Proof.
  intros (H1 & H2 & H3 & H4) (H5 & H6 & H7 & H8).
  repeat split; try congruence; tauto.
Qed.

Lemma unchanged_with_ncp (f : thci_ncp_context_t -> thci_ncp_context_t)
  (w : thci_t) : unchanged keep w (with_ncp f w).
Proof. repeat split; auto. Qed.

Lemma unchanged_set_mDeviceRole (r : otDeviceRole) (w : thci_t) :
  unchanged keep w (with_sdk (set_mDeviceRole r) w).
Proof. repeat split; auto. Qed.

Lemma unchanged_set_security (flags port : Z) (w : thci_t) :
  unchanged keep w (with_sdk (set_security flags port) w).
Proof. repeat split; auto. Qed.

Lemma unchanged_free_in_ring (m : option thci_message_t) (w : thci_t) :
  unchanged keep w (free_in_ring m w).
Proof. apply unchanged_with_ncp. Qed.

Lemma unchanged_post (e : nl_event_t) (w : thci_t) :
  keep e = false -> unchanged keep w (post_to_sdk_queue e w).
Proof.
  intros He. unfold unchanged.
  destruct (mSdkQueue (gTHCISDKContext w)) as [q |] eqn:E.
  - destruct (sdk_events_post e w q E) as (H1 & H2 & _).
    rewrite H1, H2. unfold nl_eventqueue_post_event, sdk_events.
    rewrite E, filter_app. cbn [filter]. rewrite He, app_nil_r.
    repeat split; discriminate.
  - unfold sdk_events. unfold_updates. thci_fields. rewrite E. thci_fields.
    rewrite ?E. repeat split; auto.
Qed.

Hypothesis drop_recovery : keep sNCPRecoveryEvent = false.

Lemma unchanged_recovery (w : thci_t) :
  unchanged keep w (thciInitiateNCPRecovery w).
Proof.
  unfold thciInitiateNCPRecovery.
  destruct (module_state_eqb _ _); [apply unchanged_refl |].
  set (w' := with_ncp (set_mModuleState kModuleStateResetRecovery) w).
  assert (H : unchanged keep w w') by apply unchanged_with_ncp.
  destruct (mSdkQueue (gTHCISDKContext w')); [| exact H].
  eapply unchanged_trans; [exact H |].
  apply unchanged_post. exact drop_recovery.
Qed.

End Unchanged.

Lemma unchanged_resident (e : nl_event_t) (w w' : thci_t) :
  unchanged (nl_event_eqb e) w w' ->
  resident e (sdk_events w') = resident e (sdk_events w).
Proof. intros (H & _). unfold resident. rewrite H. reflexivity. Qed.

Lemma post_state_change_event (w : thci_t) :
  mSdkQueue (gTHCISDKContext w) <> None ->
  resident sStateChangeEvent (sdk_events (post_to_sdk_queue sStateChangeEvent w)) =
  S (resident sStateChangeEvent (sdk_events w)).
Proof.
  intros Hq. destruct (mSdkQueue (gTHCISDKContext w)) as [q |] eqn:E; [| congruence].
  destruct (sdk_events_post sStateChangeEvent w q E) as (-> & _).
  rewrite resident_post. unfold sdk_events. rewrite E. cbn [nl_event_eqb]. lia.
Qed.

(** ** State-changed events *)

Section ControlProperties.
Context `{OT : OpenThread}.
Variable keep : nl_event_t -> bool.
Hypothesis drop_recovery : keep sNCPRecoveryEvent = false.
Hypothesis drop_legacy_ula : keep sLegacyUlaChangeEvent = false.
Hypothesis drop_scan_complete : keep sScanCompleteEvent = false.

Lemma HandleLastStatusUpdate_keeps (aArg : list Z) (w : thci_t) :
  unchanged keep w (HandleLastStatusUpdate aArg w) /\
  mStateChangeFlags (gTHCINCPContext (HandleLastStatusUpdate aArg w))
    = mStateChangeFlags (gTHCINCPContext w).
Proof.
  unfold HandleLastStatusUpdate.
  destruct (spinel_unpack_uint_packed aArg) as [parsedLength status].
  set (w1 := if parsedLength =? 0 then w else with_ncp (set_mLastStatus status) w).
  assert (H1 : unchanged keep w w1 /\
               mStateChangeFlags (gTHCINCPContext w1)
                 = mStateChangeFlags (gTHCINCPContext w)).
  { unfold w1. destruct (parsedLength =? 0);
      split; try reflexivity; try apply unchanged_refl.
    apply unchanged_with_ncp. }
  destruct H1 as [H1 H2].
  destruct ((status >=? SPINEL_STATUS_RESET__BEGIN)
            && (status <=? SPINEL_STATUS_RESET__END)); [| split; assumption].
  split.
  - eapply unchanged_trans; [exact H1 | apply unchanged_recovery; assumption].
  - rewrite <- H2. unfold thciInitiateNCPRecovery.
    destruct (module_state_eqb _ _); [reflexivity |].
    unfold_updates. thci_fields.
    destruct (mSdkQueue (gTHCISDKContext w1)); reflexivity.
Qed.

(** The cases of the [switch] post none of the events kept; a case left
    through [goto done] has not touched the pending flags. *)
Lemma ReceiveControlFrame_value_is_keeps (aKey : Z) (aArgPtr : list Z) (w : thci_t) :
  let r := ReceiveControlFrame_value_is aKey aArgPtr w in
  unchanged keep w (fst r) /\
  (snd r = false ->
   mStateChangeFlags (gTHCINCPContext (fst r)) = mStateChangeFlags (gTHCINCPContext w)).
Proof.
  unfold ReceiveControlFrame_value_is.
  destruct (uint16_t aKey =? SPINEL_PROP_LAST_STATUS).
  { cbn [fst snd]. split; [apply HandleLastStatusUpdate_keeps | discriminate]. }
  destruct (uint16_t aKey =? SPINEL_PROP_NET_ROLE).
  { destruct (spinel_unpack_uint8 aArgPtr) as [parsedLength spinelRole].
    destruct (parsedLength >? 0); cbn [fst snd].
    - split; [| discriminate].
      eapply unchanged_trans; [apply unchanged_set_mDeviceRole |].
      apply unchanged_with_ncp.
    - split; [apply unchanged_refl | reflexivity]. }
  destruct (uint16_t aKey =? SPINEL_PROP_NEST_LEGACY_ULA_PREFIX).
  { destruct (AllocateCallbackBuffer kCallbackBufferStateLegacyUla
                (mCallbackBuffers (gTHCINCPContext w))) as [[i |] bufs].
    - destruct (spinel_unpack_data aArgPtr) as [parsedLength legacyUlaPrefix].
      destruct (parsedLength >? 0); cbn [fst snd].
      + split; [| discriminate].
        eapply unchanged_trans; [apply unchanged_with_ncp |].
        eapply unchanged_trans; [apply unchanged_with_ncp |].
        apply unchanged_post. assumption.
      + split; [apply unchanged_with_ncp | reflexivity].
    - cbn [fst snd]. split; [apply unchanged_refl | reflexivity]. }
  destruct (uint16_t aKey =? SPINEL_PROP_MAC_SCAN_STATE).
  { cbn [fst snd]. split; [apply unchanged_post; assumption | discriminate]. }
  destruct (uint16_t aKey =? SPINEL_PROP_THREAD_CHILD_TABLE).
  { cbn [fst snd]. split; [apply unchanged_refl | discriminate]. }
  destruct (uint16_t aKey =? SPINEL_PROP_IPV6_ADDRESS_TABLE).
  { cbn [fst snd]. split; [apply unchanged_with_ncp | discriminate]. }
  destruct (uint16_t aKey =? SPINEL_PROP_IPV6_MULTICAST_ADDRESS_TABLE).
  { cbn [fst snd]. split; [apply unchanged_with_ncp | discriminate]. }
  destruct (uint16_t aKey =? SPINEL_PROP_STREAM_DEBUG);
    cbn [fst snd]; (split; [apply unchanged_refl | discriminate]).
Qed.

Hypothesis drop_state_change : keep sStateChangeEvent = false.
Hypothesis drop_scan_result : keep sScanResultEvent = false.

(** [ReceiveControlFrame] posts none of the events kept and leaves the pump
    flag and the message queue alone. *)
Lemma ReceiveControlFrame_unchanged (aHeader aCommand aKey : Z) (aArgPtr : list Z)
  (w : thci_t) :
  unchanged keep w (ReceiveControlFrame aHeader aCommand aKey aArgPtr w).
Proof.
  unfold ReceiveControlFrame.
  destruct (aCommand =? SPINEL_CMD_PROP_VALUE_IS).
  - pose proof (ReceiveControlFrame_value_is_keeps aKey aArgPtr w) as [H _].
    destruct (ReceiveControlFrame_value_is aKey aArgPtr w) as [w1 after_switch].
    cbn [fst] in H.
    destruct after_switch; [| exact H].
    destruct ((_ =? 0) && negb (_ =? 0)); [| exact H].
    eapply unchanged_trans; [exact H | apply unchanged_post; assumption].
  - destruct (aCommand =? SPINEL_CMD_PROP_VALUE_INSERTED); [| apply unchanged_refl].
    destruct (aKey =? SPINEL_PROP_MAC_SCAN_BEACON); [| apply unchanged_refl].
    unfold ReceiveControlFrame_scan_beacon.
    destruct (mScanResultCallback (gTHCINCPContext w)); [| apply unchanged_refl].
    destruct (AllocateCallbackBuffer _ _) as [[i |] bufs]; [| apply unchanged_refl].
    destruct (spinel_unpack_scan_beacon aArgPtr); [| apply unchanged_refl].
    eapply unchanged_trans; [apply unchanged_with_ncp |].
    apply unchanged_post. assumption.
Qed.

End ControlProperties.

Section StateChangeProperties.
Context `{OT : OpenThread}.

(** C8.  With an SDK queue and a registered state-change callback: the
    handling of an unsolicited property-value-is control frame posts exactly
    one state-changed event when it takes the pending flags from zero to
    non-zero, and none otherwise; the handler of the event resets the
    pending flags to zero and calls the callback once, with the flags it
    consumed. *)
Theorem state_change_event_posted_on_zero_to_nonzero :
  forall (aHeader aKey : Z) (aArgPtr : list Z) (w pending : thci_t),
    mSdkQueue (gTHCISDKContext w) <> None ->
    mStateChangeCallback (gTHCINCPContext pending) = true ->
    let w' := ReceiveControlFrame aHeader SPINEL_CMD_PROP_VALUE_IS aKey aArgPtr w in
    let zero_to_nonzero :=
      (mStateChangeFlags (gTHCINCPContext w) =? 0)
      && negb (mStateChangeFlags (gTHCINCPContext w') =? 0) in
    resident sStateChangeEvent (sdk_events w') =
      (resident sStateChangeEvent (sdk_events w)
       + if zero_to_nonzero then 1 else 0)%nat /\
    mStateChangeFlags (gTHCINCPContext (StateChangeEventHandler pending)) = 0 /\
    clientCalls (StateChangeEventHandler pending) =
      clientCalls pending
      ++ [StateChangeCallback (mStateChangeFlags (gTHCINCPContext pending))].
Proof.
  intros aHeader aKey aArgPtr w pending Hq Hcb w' z.
  split.
  - subst z w'. unfold ReceiveControlFrame. rewrite Z.eqb_refl.
    pose proof (ReceiveControlFrame_value_is_keeps (nl_event_eqb sStateChangeEvent)
                  eq_refl eq_refl eq_refl aKey aArgPtr w) as [Hun Hflags].
    destruct (ReceiveControlFrame_value_is aKey aArgPtr w) as [w1 after_switch].
    cbn [fst snd] in *.
    pose proof (unchanged_resident _ _ _ Hun) as Hev.
    destruct Hun as (_ & Hsome & _).
    destruct after_switch.
    + destruct ((mStateChangeFlags (gTHCINCPContext w) =? 0)
                && negb (mStateChangeFlags (gTHCINCPContext w1) =? 0)) eqn:E.
      * rewrite post_state_change_event by tauto.
        destruct (sdk_events_post sStateChangeEvent w1) with
          (q := match mSdkQueue (gTHCISDKContext w1) with Some q => q | None => [] end)
          as (_ & _ & Hncp & _).
        { destruct (mSdkQueue (gTHCISDKContext w1)); [reflexivity | tauto]. }
        rewrite Hncp, E, Hev. lia.
      * rewrite E, Hev. lia.
    + rewrite (Hflags eq_refl), Hev.
      destruct (Z.eqb_spec (mStateChangeFlags (gTHCINCPContext w)) 0);
        cbn [negb andb]; lia.
  - unfold StateChangeEventHandler. rewrite Hcb. split; reflexivity.
Qed.

End StateChangeProperties.

(** Scenario S2: the NCP announces the router role while no state change
    is pending; the event handler then runs on the resulting contexts. *)
Lemma state_change_event_posted_on_zero_to_nonzero_witness :
  let OT := openthread_reference in
  let w := thci_initialized in
  let w' := ReceiveControlFrame 128 SPINEL_CMD_PROP_VALUE_IS 67 [2] w in
  let zero_to_nonzero :=
    (mStateChangeFlags (gTHCINCPContext w) =? 0)
    && negb (mStateChangeFlags (gTHCINCPContext w') =? 0) in
  resident sStateChangeEvent (sdk_events w') =
    (resident sStateChangeEvent (sdk_events w)
     + if zero_to_nonzero then 1 else 0)%nat /\
  mStateChangeFlags (gTHCINCPContext (StateChangeEventHandler w')) = 0 /\
  clientCalls (StateChangeEventHandler w') =
    clientCalls w' ++ [StateChangeCallback (mStateChangeFlags (gTHCINCPContext w'))].
Proof.
  intros OT w w' z.
  apply (state_change_event_posted_on_zero_to_nonzero 128 67 [2] w w').
  - discriminate.
  - reflexivity.
Defined.

(** ** Submission of a datagram longer than the MTU *)

(** A datagram whose first buffer is longer than the MTU is rejected with
    [ERR_VAL]; the contexts are untouched: no message is created and nothing
    is queued or posted. *)
Lemma LwIPOutputIP6_rejects_long_first_buffer
  (waits : list (list thci_message_t)) (netif : Z) (aPbuf : pbuf)
  (next : list pbuf) (w : thci_t) :
  len aPbuf > NL_THCI_PAYLOAD_MTU ->
  LwIPOutputIP6 waits netif aPbuf next w = (ERR_VAL, w).
Proof.
  intros Hlen. unfold LwIPOutputIP6.
  destruct (Z.leb_spec (len aPbuf) NL_THCI_PAYLOAD_MTU); [lia | reflexivity].
Qed.

(** C9 fails on a chained datagram.  The datagram is a chain of two buffers
    of 700 bytes, well formed for lwIP ([tot_len] 1400 on the first
    buffer): 1400 bytes, more than the MTU of 1280.  [LwIPOutputIP6]
    compares [pbuf->len], the 700 bytes of the first buffer, with the MTU,
    accepts the datagram, creates a message of 1400 payload bytes in the
    ring (1412 bytes from the base), enqueues it and posts the pump
    event. *)
Lemma LwIPOutputIP6_accepts_chained_datagram_over_mtu :
  let first := mk_pbuf (repeat 0 700) 700 1400 in
  let second := mk_pbuf (repeat 0 700) 700 700 in
  let r := LwIPOutputIP6 [] 1 first [second] thci_initialized in
  pbuf_wf [first; second] /\
  datagram_length first [second] = 1400 /\
  datagram_length first [second] > NL_THCI_PAYLOAD_MTU /\
  fst r = ERR_OK /\
  map mLength (queued (mMessageQueue (gTHCISDKContext (snd r)))) = [1400] /\
  mMessageRingHead (mRing (gTHCINCPContext (snd r))) = 1412 /\
  sdk_events (snd r) = [sOutgoingIPPacketEvent].
Proof.
  cbv zeta. split.
  - cbn [pbuf_wf payload len tot_len]. rewrite !repeat_length.
    repeat split; lia.
  - repeat split; vm_compute; reflexivity.
Qed.

(** ** The version string *)

Lemma strlen_nonneg (s : list Z) : 0 <= strlen s.
Proof.
  induction s as [| c s IH]; cbn [strlen]; [lia |]. destruct (c =? 0); lia.
Qed.

Lemma strlen_nth_nonzero (s : list Z) :
  forall i, 0 <= i < strlen s -> nth (Z.to_nat i) s 0 <> 0.
Proof.
  induction s as [| c s IH]; intros i Hi; cbn [strlen] in Hi; [lia |].
  destruct (Z.eqb_spec c 0) as [Hc | Hc]; [lia |].
  destruct (Z.eq_dec i 0) as [-> | Hnz]; [exact Hc |].
  replace (Z.to_nat i) with (S (Z.to_nat (i - 1))) by lia.
  cbn [nth]. apply IH. lia.
Qed.

(** What the copy and the terminator of [thciGetVersionString] leave in
    memory. *)
Lemma version_copy_bounded (mem : memory) (aString aLength : Z) (version : list Z) :
  0 < aLength ->
  let n := if aLength <? strlen version + 1 then aLength - 1 else strlen version in
  let mem' := store_byte (memcpy mem aString version n) (aString + n) 0 in
  0 <= n < aLength /\
  (aLength < strlen version + 1 -> n = aLength - 1) /\
  (strlen version + 1 <= aLength -> n = strlen version) /\
  (forall a, written mem mem' a -> aString <= a < aString + n + 1) /\
  (forall i, 0 <= i < n ->
     mem' (aString + i) = nth (Z.to_nat i) version 0 /\ mem' (aString + i) <> 0) /\
  mem' (aString + n) = 0.
Proof.
  intros Hlen n mem'.
  pose proof (strlen_nonneg version) as Hs.
  assert (Hn : 0 <= n < aLength /\ n <= strlen version).
  { unfold n. destruct (Z.ltb_spec aLength (strlen version + 1)); lia. }
  split; [tauto |]. split; [| split].
  - intros H. unfold n. destruct (Z.ltb_spec aLength (strlen version + 1)); lia.
  - intros H. unfold n. destruct (Z.ltb_spec aLength (strlen version + 1)); lia.
  - split; [| split].
    + intros a Hw. unfold written, mem', store_byte, memcpy in Hw.
      destruct (Z.eqb_spec a (aString + n)); [lia |].
      destruct (Z.leb_spec aString a); destruct (Z.ltb_spec a (aString + n));
        cbn [andb] in Hw; try lia; congruence.
    + intros i Hi. unfold mem', store_byte, memcpy.
      destruct (Z.eqb_spec (aString + i) (aString + n)); [lia |].
      destruct (Z.leb_spec aString (aString + i)); [| lia].
      destruct (Z.ltb_spec (aString + i) (aString + n)); [| lia].
      cbn [andb]. replace (aString + i - aString) with i by lia.
      split; [reflexivity | apply strlen_nth_nonzero; lia].
    + unfold mem', store_byte. rewrite Z.eqb_refl. reflexivity.
Qed.

Section WaitSuccess.
Context `{OT : OpenThread}.
Variable sDataFrameCB : option (Z -> Z -> list Z -> thci_t -> thci_t).
Variable sControlFrameCB : option (Z -> Z -> Z -> list Z -> thci_t -> thci_t).

(** A run of [UartRxFifoProcess] that ends with a successful response met
    it in the deliveries: a frame with the expected (command, key) that
    matches, after deliveries that do not match, and its arguments are in
    the response buffer. *)
Lemma UartRxFifoProcess_success (rx : list rx_delivery) (u : uart_t) :
  sProvideInternalResponse u = true ->
  sResponseReceived u = false ->
  sResponseSuccess u = false ->
  sDecodeFailure u = false ->
  forall w,
    let s := UartRxFifoProcess sDataFrameCB sControlFrameCB rx (u, w) in
    sResponseReceived (fst s) = true ->
    sResponseSuccess (fst s) = true ->
    exists before f after,
      rx = before ++ RxFrame (Some f) :: after /\
      Forall (unmatched u) before /\
      spec_response_matches u f /\
      spec_expected_pair u f /\
      sResponseBuffer (fst s) = fArgs f.
Proof.
  intros Hp Hr Hs Hd. induction rx as [| d rx IH]; intros w s Hrec Hsucc.
  - cbn in Hrec. congruence.
  - subst s. cbn [UartRxFifoProcess fst] in Hrec, Hsucc |- *.
    rewrite Hr, Hd in Hrec, Hsucc |- *. cbn [orb] in Hrec, Hsucc |- *.
    destruct d as [[f |] |].
    + destruct (fst (CompareResponse (fHeader f) (fCommand f) (fKey f) u)) eqn:E.
      * assert (Hyes : spec_response_matches u f)
          by (apply CompareResponse_matches; exact E).
        destruct (HandleFrame_matched sDataFrameCB sControlFrameCB u w f Hp Hyes)
          as (H1 & H2 & H3 & H4).
        rewrite UartRxFifoProcess_done in Hrec, Hsucc |- *
          by (rewrite H1; apply orb_true_r).
        exists [], f, rx. split; [reflexivity |]. split; [constructor |].
        split; [exact Hyes |]. split; [| exact H2].
        apply expected_pairb_spec. rewrite H3, Hs in Hsucc. exact Hsucc.
      * assert (Hno : ~ spec_response_matches u f).
        { intros Hyes. apply CompareResponse_matches in Hyes. congruence. }
        pose proof (HandleFrame_unmatched sDataFrameCB sControlFrameCB u w f Hno) as Hu.
        destruct (HandleFrame sDataFrameCB sControlFrameCB (Some f) (u, w)) as [u1 w1].
        cbn [fst] in Hu. subst u1.
        destruct (IH w1 Hrec Hsucc) as (before & f' & after & -> & Hb & Hm & He & Hbuf).
        exists (RxFrame (Some f) :: before), f', after.
        split; [reflexivity |]. split; [constructor; [exact Hno | exact Hb] |]. auto.
    + cbn [HandleFrame] in Hrec, Hsucc |- *.
      destruct (IH w Hrec Hsucc) as (before & f' & after & -> & Hb & Hm & He & Hbuf).
      exists (RxFrame None :: before), f', after.
      split; [reflexivity |]. split; [constructor; [exact I | exact Hb] |]. auto.
    + rewrite UartRxFifoProcess_done in Hsucc by reflexivity.
      cbn in Hsucc. discriminate.
Qed.

(** A wait that returns [OT_ERROR_NONE] hands over the arguments of the
    first delivery that matches, and that delivery is a frame with the
    expected (command, key). *)
Lemma wait_success_gives_the_response (aAvoidNCPRecovery : bool)
  (aTransactionID aCommand aKey : Z) (rx : list rx_delivery) (leftover : bool)
  (u : uart_t) (w : thci_t) (buffer : option (list Z)) (s' : uart_t * thci_t) :
  thciUartWaitForResponseInternal sDataFrameCB sControlFrameCB aAvoidNCPRecovery
    aTransactionID aCommand aKey rx leftover (u, w) = (OT_ERROR_NONE, buffer, s') ->
  let pending := register_response aTransactionID aCommand aKey u in
  exists before f after,
    rx = before ++ RxFrame (Some f) :: after /\
    Forall (unmatched pending) before /\
    spec_response_matches pending f /\
    spec_expected_pair pending f /\
    buffer = Some (fArgs f).
Proof.
  intros Hrun pending. unfold thciUartWaitForResponseInternal in Hrun.
  destruct (sDecodeFailure u) eqn:Hd; [discriminate |].
  fold pending in Hrun.
  pose proof (UartRxFifoProcess_success rx pending eq_refl eq_refl eq_refl Hd w) as H.
  cbv zeta in H.
  set (s := UartRxFifoProcess sDataFrameCB sControlFrameCB rx (pending, w)) in *.
  assert (Hres : sResponseReceived (fst s) = true /\ sResponseSuccess (fst s) = true /\
                 buffer = Some (sResponseBuffer (fst s))).
  { destruct (sResponseQueueHandle pending);
      destruct (sResponseReceived (fst s)); destruct (sResponseSuccess (fst s));
      cbn [fst] in Hrun; try discriminate;
      injection Hrun as <- _; auto. }
  destruct Hres as (Hrec & Hsucc & ->).
  destruct (H Hrec Hsucc) as (before & f & after & Hrx & Hb & Hm & He & Hbuf).
  exists before, f, after. rewrite Hbuf. auto.
Qed.

End WaitSuccess.

Section VersionProperties.
Context `{OT : OpenThread}.
Variable sDataFrameCB : option (Z -> Z -> list Z -> thci_t -> thci_t).
Variable sControlFrameCB : option (Z -> Z -> Z -> list Z -> thci_t -> thci_t).

(** C10.  A call of [thciGetVersionString] with a buffer that is not
    [NULL] and a length that is not zero, and that returns success, was
    answered: among the deliveries of the wait, after deliveries that do
    not match the request, there is a property-value-is frame for the NCP
    version that carries the transaction id of the request, and its
    arguments unpack to the version string of the NCP.  The call stores
    only into the [aLength] bytes of the buffer; the buffer then holds the
    first [n] bytes of that version string, none of them NUL, followed by a
    NUL, where [n] is the smaller of the length of the string and
    [aLength - 1]: all of the string when the buffer has room for it and
    its terminator, and its first [aLength - 1] bytes otherwise.  The
    memory outside these [n + 1] bytes is as it was. *)
Theorem thciGetVersionString_bounded_and_terminated :
  forall (aString aLength : Z) (sent : otError) (rx : list rx_delivery)
         (leftover : bool) (mem : memory) (s : uart_t * thci_t),
    0 < aLength ->
    let r := thciGetVersionString sDataFrameCB sControlFrameCB (Some aString)
               aLength sent rx leftover mem s in
    let mem' := snd (fst r) in
    let tid := GetNewTransactionId (mTransactionId (gTHCINCPContext (snd s))) in
    let pending := register_response tid SPINEL_CMD_PROP_VALUE_IS
                     SPINEL_PROP_NCP_VERSION (fst s) in
    fst (fst r) = OT_ERROR_NONE ->
    exists (before : list rx_delivery) (reply : spinel_frame)
           (after : list rx_delivery) (parsedLength : Z) (version : list Z) (n : Z),
      rx = before ++ RxFrame (Some reply) :: after /\
      Forall (unmatched pending) before /\
      SPINEL_HEADER_GET_TID (fHeader reply) = tid /\
      fCommand reply = uint8_t SPINEL_CMD_PROP_VALUE_IS /\
      fKey reply = SPINEL_PROP_NCP_VERSION /\
      spinel_unpack_utf8 (fArgs reply) = (parsedLength, Some version) /\
      0 < parsedLength /\
      n = Z.min (strlen version) (aLength - 1) /\
      0 <= n < aLength /\
      (aLength < strlen version + 1 -> n = aLength - 1) /\
      (strlen version + 1 <= aLength -> n = strlen version) /\
      (forall a, written mem mem' a -> aString <= a < aString + aLength) /\
      (forall i, 0 <= i < n ->
         mem' (aString + i) = nth (Z.to_nat i) version 0 /\ mem' (aString + i) <> 0) /\
      mem' (aString + n) = 0 /\
      (forall a, ~ aString <= a <= aString + n -> mem' a = mem a).
Proof.
  intros aString aLength sent rx leftover mem [u w] Hlen r mem' tid pending Hok.
  subst mem' r. cbn [fst snd] in tid, pending.
  unfold thciGetVersionString in *. fold tid in Hok |- *.
  destruct (Z.eqb_spec aLength 0); [lia |].
  destruct (negb (module_state_eqb _ _)); [discriminate |].
  destruct sent; try discriminate.
  destruct (thciUartWaitForResponse _ _ _ _ _ _ _ _) as [[e buffer] s'] eqn:Hwait.
  destruct e; try discriminate.
  destruct (wait_success_gives_the_response sDataFrameCB sControlFrameCB false tid
              SPINEL_CMD_PROP_VALUE_IS SPINEL_PROP_NCP_VERSION rx leftover u
              (with_ncp (set_mTransactionId tid) w) buffer s' Hwait)
    as (before & reply & after & Hrx & Hbefore & Hm & (Hcmd & Hkey) & ->).
  fold pending in Hbefore, Hm, Hcmd, Hkey.
  destruct (spinel_unpack_utf8 (fArgs reply)) as [parsedLength [version |]] eqn:Hun;
    [| discriminate].
  destruct (Z.gtb_spec parsedLength 0) as [Hpos | Hneg]; [| discriminate].
  cbn [fst snd] in *.
  destruct (version_copy_bounded mem aString aLength version Hlen)
    as (Hn & Htrunc & Hfull & Hw & Hcopy & Hnul).
  pose proof (GetNewTransactionId_range (mTransactionId (gTHCINCPContext w))) as Htid.
  fold tid in Htid.
  assert (Htid8 : uint8_t tid = tid) by (unfold uint8_t; apply Z.mod_small; lia).
  exists before, reply, after, parsedLength, version.
  exists (if aLength <? strlen version + 1 then aLength - 1 else strlen version).
  split; [exact Hrx |]. split; [exact Hbefore |].
  split.
  { destruct Hm as [[_ H] | [H _]]; cbn [pending register_response
      sResponseTransactionId] in H; unfold kDontCareTransactionId in *; lia. }
  split; [exact Hcmd |]. split; [exact Hkey |].
  split; [exact Hun |]. split; [lia |].
  split; [destruct (Z.ltb_spec aLength (strlen version + 1)); lia |].
  split; [exact Hn |]. split; [exact Htrunc |]. split; [exact Hfull |].
  split; [intros a Ha; apply Hw in Ha; lia |].
  split; [exact Hcopy |]. split; [exact Hnul |].
  intros a Ha.
  destruct (Z.eq_dec (mem a)
              (store_byte (memcpy mem aString version
                 (if aLength <? strlen version + 1 then aLength - 1
                  else strlen version))
                 (aString + (if aLength <? strlen version + 1 then aLength - 1
                             else strlen version)) 0 a)) as [Heq | Hne];
    [symmetry; exact Heq |].
  exfalso. apply Ha. specialize (Hw a Hne). lia.
Qed.

End VersionProperties.

(** Scenario S1 with a buffer of 8 bytes at address 1000: the NCP answers
    the version request (tid 2) with "OPENTHREAD/1.0"; the buffer receives
    "OPENTHR" and the terminator, and the bytes around it are untouched. *)
Lemma thciGetVersionString_bounded_and_terminated_witness :
  let OT := openthread_reference in
  let text := [79; 80; 69; 78; 84; 72; 82; 69; 65; 68; 47; 49; 46; 48; 0] in
  let reply := mk_frame 130 6 2 text in
  let mem : memory := fun _ => 255 in
  let s := (uart_enabled true, thci_initialized) in
  let r := thciGetVersionString None (Some ReceiveControlFrame) (Some 1000) 8
             OT_ERROR_NONE [RxFrame (Some reply)] false mem s in
  let mem' := snd (fst r) in
  let tid := GetNewTransactionId (mTransactionId (gTHCINCPContext (snd s))) in
  let pending := register_response tid SPINEL_CMD_PROP_VALUE_IS
                   SPINEL_PROP_NCP_VERSION (fst s) in
  0 < 8 /\
  fst (fst r) = OT_ERROR_NONE /\
  spinel_unpack_utf8 text = (15, Some text) /\
  map mem' [999; 1000; 1001; 1002; 1003; 1004; 1005; 1006; 1007; 1008]
  = [255; 79; 80; 69; 78; 84; 72; 82; 0; 255] /\
  exists (before : list rx_delivery) (reply' : spinel_frame)
         (after : list rx_delivery) (parsedLength : Z) (version : list Z) (n : Z),
    [RxFrame (Some reply)] = before ++ RxFrame (Some reply') :: after /\
    Forall (unmatched pending) before /\
    SPINEL_HEADER_GET_TID (fHeader reply') = tid /\
    fCommand reply' = uint8_t SPINEL_CMD_PROP_VALUE_IS /\
    fKey reply' = SPINEL_PROP_NCP_VERSION /\
    spinel_unpack_utf8 (fArgs reply') = (parsedLength, Some version) /\
    0 < parsedLength /\
    n = Z.min (strlen version) (8 - 1) /\
    0 <= n < 8 /\
    (8 < strlen version + 1 -> n = 8 - 1) /\
    (strlen version + 1 <= 8 -> n = strlen version) /\
    (forall a, written mem mem' a -> 1000 <= a < 1000 + 8) /\
    (forall i, 0 <= i < n ->
       mem' (1000 + i) = nth (Z.to_nat i) version 0 /\ mem' (1000 + i) <> 0) /\
    mem' (1000 + n) = 0 /\
    (forall a, ~ 1000 <= a <= 1000 + n -> mem' a = mem a).
Proof.
  intros OT text reply mem s r mem' tid pending.
  assert (Hlen : 0 < 8) by lia.
  assert (Hok : fst (fst r) = OT_ERROR_NONE) by reflexivity.
  split; [exact Hlen |]. split; [exact Hok |].
  split; [reflexivity |]. split; [reflexivity |].
  exact (thciGetVersionString_bounded_and_terminated None (Some ReceiveControlFrame)
           1000 8 OT_ERROR_NONE [RxFrame (Some reply)] false mem s Hlen Hok).
Defined.

(** ** The pump event *)

Lemma owes_Fetched (old : Z) : owes (Fetched old) = if old =? 0 then 1%nat else 0%nat.
Proof. destruct old; reflexivity. Qed.

Lemma driver_owes_Reposting (old : Z) :
  driver_owes (Reposting old) = if old =? 0 then 1%nat else 0%nat.
Proof. destruct old; reflexivity. Qed.

Lemma resident_guarded_post (old : Z) (q : list nl_event_t) :
  resident sOutgoingIPPacketEvent (guarded_post old q) =
  (resident sOutgoingIPPacketEvent q + if (old =? 0)%Z then 1 else 0)%nat.
Proof.
  unfold guarded_post. destruct (old =? 0).
  - rewrite resident_post. reflexivity.
  - lia.
Qed.

Lemma lor_flag (v : Z) : v = 0 \/ v = 1 -> Z.lor v 1 = 1.
Proof. intros [-> | ->]; reflexivity. Qed.

Ltac pump_fields :=
  cbn [pumpEventPosted sdkMailbox lwipTask stallCaller driverTask] in *.

Lemma pump_do_keeps_inv (a : pump_action) (p p' : pump_t) :
  pump_inv p -> pump_do a p = Some p' -> pump_inv p'.
Proof.
  unfold pump_inv, pump_resident, pump_in_flight.
  intros [Hflag Hcount] Hdo.
  destruct p as [flag q lw st dr]. pump_fields.
  destruct a; cbn [pump_do] in Hdo; pump_fields.
  - destruct lw; try discriminate; injection Hdo as <-; pump_fields.
    rewrite (lor_flag flag Hflag), owes_Fetched. cbn [owes] in Hcount.
    destruct Hflag as [-> | ->]; cbn [Z.eqb]; split; auto; lia.
  - destruct lw as [| old]; try discriminate; injection Hdo as <-; pump_fields.
    rewrite resident_guarded_post. rewrite owes_Fetched in Hcount. cbn [owes].
    split; [assumption |]. destruct (old =? 0); lia.
  - destruct st; try discriminate; injection Hdo as <-; pump_fields.
    rewrite (lor_flag flag Hflag), owes_Fetched. cbn [owes] in Hcount.
    destruct Hflag as [-> | ->]; cbn [Z.eqb]; split; auto; lia.
  - destruct st as [| old]; try discriminate; injection Hdo as <-; pump_fields.
    rewrite resident_guarded_post. rewrite owes_Fetched in Hcount. cbn [owes].
    split; [assumption |]. destruct (old =? 0); lia.
  - destruct dr; try discriminate. destruct q as [| e q]; [discriminate |].
    destruct e; try discriminate; injection Hdo as <-; pump_fields.
    unfold resident in *. cbn [filter nl_event_eqb length driver_owes] in *.
    split; [assumption | lia].
  - destruct dr; try discriminate; injection Hdo as <-; pump_fields.
    cbn [driver_owes] in *. split; [auto | lia].
  - destruct dr; try discriminate; injection Hdo as <-; pump_fields.
    cbn [driver_owes] in *. split; [auto | lia].
  - destruct dr; try discriminate; injection Hdo as <-; pump_fields.
    rewrite (lor_flag flag Hflag), driver_owes_Reposting. cbn [driver_owes] in Hcount.
    destruct Hflag as [-> | ->]; cbn [Z.eqb]; split; auto; lia.
  - destruct dr as [| | | old]; try discriminate; injection Hdo as <-; pump_fields.
    rewrite resident_guarded_post. rewrite driver_owes_Reposting in Hcount.
    cbn [driver_owes]. split; [assumption |]. destruct (old =? 0); lia.
Qed.

Lemma pump_run_keeps_inv (acts : list pump_action) :
  forall p p', pump_inv p -> pump_run acts p = Some p' -> pump_inv p'.
Proof.
  induction acts as [| a acts IH]; intros p p' Hinv Hrun; cbn [pump_run] in Hrun.
  - inversion Hrun; subst; exact Hinv.
  - destruct (pump_do a p) as [p1 |] eqn:E; [| discriminate].
    apply (IH p1 p'); [| exact Hrun].
    apply (pump_do_keeps_inv a p p1); assumption.
Qed.

(** C5, as the code has it.  In every state the tasks can reach by
    interleaving their steps, at most one pump event is resident in the SDK
    queue, the flag is set whenever one is resident, and no event is
    resident while the flag is clear.  The flag counts the resident event
    together with what is in flight: a post owed by a task that has just
    set the flag, or the clear owed by the handler that has just been
    dispatched. *)
Theorem pump_event_resident_at_most_once :
  forall (acts : list pump_action) (p : pump_t),
    pump_run acts pump_init = Some p ->
    (pump_resident p <= 1)%nat /\
    (pump_resident p = 1%nat -> pumpEventPosted p = 1) /\
    (pumpEventPosted p = 0 -> pump_resident p = 0%nat) /\
    pumpEventPosted p = Z.of_nat (pump_resident p + pump_in_flight p).
Proof.
  intros acts p Hrun.
  assert (Hinit : pump_inv pump_init) by (split; [left |]; reflexivity).
  destruct (pump_run_keeps_inv acts pump_init p Hinit Hrun) as [Hflag Hcount].
  repeat split; try exact Hcount; lia.
Qed.

(** Two datagrams are submitted, the stall is lifted, the event is
    dispatched and the handler re-posts it. *)
Lemma pump_event_resident_at_most_once_witness :
  let acts := [LwipFetchOr; LwipPost; StallFetchOr; LwipFetchOr; StallPost;
               Dispatch; LwipPost; HandlerClear; HandlerFetchOr; HandlerPost] in
  let p := mk_pump 1 [sOutgoingIPPacketEvent] AtRest AtRest Waiting in
  pump_run acts pump_init = Some p /\
  (pump_resident p <= 1)%nat /\
  (pump_resident p = 1%nat -> pumpEventPosted p = 1) /\
  (pumpEventPosted p = 0 -> pump_resident p = 0%nat) /\
  pumpEventPosted p = Z.of_nat (pump_resident p + pump_in_flight p).
Proof.
  intros acts p.
  assert (Hrun : pump_run acts pump_init = Some p) by reflexivity.
  split; [exact Hrun |].
  exact (pump_event_resident_at_most_once acts p Hrun).
Defined.

(** C5 as stated fails: the flag is set while no pump event is resident.
    After the fetch-and-or of [LwIPOutputIP6] and before its post the flag
    is 1 and the queue is empty; and once the driver task has taken the
    event out of the queue the flag stays 1 until the first statement of
    the handler clears it. *)
Lemma pump_flag_set_without_resident_event :
  let posting := mk_pump 1 [] (Fetched 0) AtRest Waiting in
  let entered := mk_pump 1 [] AtRest AtRest Dispatched in
  (pump_run [LwipFetchOr] pump_init = Some posting /\
   pumpEventPosted posting = 1 /\ pump_resident posting = 0%nat) /\
  (pump_run [LwipFetchOr; LwipPost; Dispatch] pump_init = Some entered /\
   pumpEventPosted entered = 1 /\ pump_resident entered = 0%nat) /\
  ~ (forall (acts : list pump_action) (p : pump_t),
        pump_run acts pump_init = Some p ->
        (pumpEventPosted p <> 0 <-> pump_resident p = 1%nat)).
Proof.
  cbv zeta. split; [repeat split |]. split; [repeat split |].
  intros Hclaim.
  destruct (Hclaim [LwipFetchOr] (mk_pump 1 [] (Fetched 0) AtRest Waiting) eq_refl)
    as [H _].
  assert (Hres : pump_resident (mk_pump 1 [] (Fetched 0) AtRest Waiting) = 1%nat)
    by (apply H; discriminate).
  discriminate Hres.
Qed.

(** ** The handler of the pump event and the steps of the pump *)

Lemma same_pump_view_refl (w : thci_t) : same_pump_view w w.
Proof. repeat split; auto. Qed.

Lemma same_pump_view_trans (w1 w2 w3 : thci_t) :
  same_pump_view w1 w2 -> same_pump_view w2 w3 -> same_pump_view w1 w3.
Proof.
  intros (H1 & H2 & H3) (H4 & H5 & H6). repeat split; try congruence; tauto.
Qed.

Lemma unchanged_same_pump_view (w w' : thci_t) :
  unchanged pump_only w w' -> same_pump_view w w'.
Proof. intros (H1 & H2 & H3 & _). repeat split; tauto. Qed.

Lemma same_pump_view_set_mMessageQueue (q : thci_message_queue_t) (w : thci_t) :
  same_pump_view w (with_sdk (set_mMessageQueue q) w).
Proof. repeat split; auto. Qed.

Lemma same_pump_view_set_flag (w : thci_t) :
  sOutgoingIPPacketEventPosted w = 0 ->
  same_pump_view w (set_sOutgoingIPPacketEventPosted 0 w).
Proof. intros H. repeat split; auto. Qed.

Section PumpProperties.
Context `{OT : OpenThread}.
Variable sDataFrameCB : option (Z -> Z -> list Z -> thci_t -> thci_t).
Variable sControlFrameCB : option (Z -> Z -> Z -> list Z -> thci_t -> thci_t).

(** The callbacks post no pump event and leave the pump flag and the
    message queue alone, as [ReceiveControlFrame] does. *)
Hypothesis data_cb_unchanged :
  forall cb, sDataFrameCB = Some cb ->
  forall c k a w, unchanged pump_only w (cb c k a w).
Hypothesis control_cb_unchanged :
  forall cb, sControlFrameCB = Some cb ->
  forall h c k a w, unchanged pump_only w (cb h c k a w).

Lemma HandleFrame_unchanged (unpacked : option spinel_frame) (s : uart_t * thci_t) :
  unchanged pump_only (snd s)
    (snd (HandleFrame sDataFrameCB sControlFrameCB unpacked s)).
Proof.
  destruct s as [u w]. unfold HandleFrame.
  destruct unpacked as [f |]; [| apply unchanged_refl].
  destruct (if sProvideInternalResponse u
            then CompareResponse (fHeader f) (fCommand f) (fKey f) u
            else (false, u)) as [matched u'].
  destruct matched.
  - match goal with
    | |- context [if ?c then _ else _] => destruct c
    end; cbn [snd]; [| apply unchanged_refl].
    apply (HandleLastStatusUpdate_keeps pump_only eq_refl).
  - destruct ((fKey f =? SPINEL_PROP_STREAM_NET)
              || (fKey f =? SPINEL_PROP_STREAM_NET_INSECURE)).
    + destruct sDataFrameCB as [cb |] eqn:E; cbn [snd]; [| apply unchanged_refl].
      apply (data_cb_unchanged cb eq_refl).
    + destruct sControlFrameCB as [cb |] eqn:E; cbn [snd]; [| apply unchanged_refl].
      apply (control_cb_unchanged cb eq_refl).
Qed.

Lemma UartRxFifoProcess_unchanged (rx : list rx_delivery) :
  forall s, unchanged pump_only (snd s)
              (snd (UartRxFifoProcess sDataFrameCB sControlFrameCB rx s)).
Proof.
  induction rx as [| d rx IH]; intros s; [apply unchanged_refl |].
  cbn [UartRxFifoProcess].
  destruct (sDecodeFailure (fst s) || sResponseReceived (fst s));
    [apply unchanged_refl |].
  eapply unchanged_trans; [| apply IH].
  destruct d as [unpacked |].
  - apply HandleFrame_unchanged.
  - destruct s as [u w]. cbn [HandleError snd].
    apply unchanged_recovery. reflexivity.
Qed.

Lemma PostRxDoneEventToSdkQueue_unchanged (s : uart_t * thci_t) :
  unchanged pump_only (snd s) (snd (PostRxDoneEventToSdkQueue s)).
Proof.
  destruct s as [u w]. unfold PostRxDoneEventToSdkQueue.
  destruct (mSdkQueue (gTHCISDKContext w)); [| apply unchanged_refl].
  destruct (sRxEventPostedToSdkQueue u =? 0); cbn [snd]; [| apply unchanged_refl].
  apply unchanged_post. reflexivity.
Qed.

Lemma thciUartWaitForResponseInternal_unchanged (aAvoidNCPRecovery : bool)
  (aTransactionID aCommand aKey : Z) (rx : list rx_delivery) (leftover : bool)
  (s : uart_t * thci_t) :
  unchanged pump_only (snd s)
    (snd (snd (thciUartWaitForResponseInternal sDataFrameCB sControlFrameCB
                 aAvoidNCPRecovery aTransactionID aCommand aKey rx leftover s))).
Proof.
  destruct s as [u w]. unfold thciUartWaitForResponseInternal.
  destruct (sDecodeFailure u); [apply unchanged_refl |].
  set (pending := register_response aTransactionID aCommand aKey u).
  pose proof (UartRxFifoProcess_unchanged rx (pending, w)) as H1.
  set (s1 := UartRxFifoProcess sDataFrameCB sControlFrameCB rx (pending, w)) in *.
  cbn [snd] in H1.
  destruct (sResponseQueueHandle pending); cbn [snd]; [| exact H1].
  eapply unchanged_trans; [exact H1 |].
  assert (H2 : unchanged pump_only (snd s1)
                 (snd (if leftover
                       then
                        let (u0, w0) := PostRxDoneEventToSdkQueue s1 in
                        (mk_uart false (sRxEventPostedToSdkQueue u0)
                                 (sResponseQueueHandle u0) (sResponseCommand u0)
                                 (sResponseKey u0) (sResponseBuffer u0)
                                 (sResponseReceived u0) (sResponseTransactionId u0)
                                 (sResponseSuccess u0) (sDecodeFailure u0), w0)
                       else s1))).
  { destruct leftover; [| apply unchanged_refl].
    pose proof (PostRxDoneEventToSdkQueue_unchanged s1) as H.
    destruct (PostRxDoneEventToSdkQueue s1) as [u0 w0]. exact H. }
  match goal with
  | |- context [if ?c then _ else _] => destruct c
  end; cbn [snd]; [| exact H2].
  eapply unchanged_trans; [exact H2 |].
  apply unchanged_recovery. reflexivity.
Qed.

Lemma thciAddUnsecurePort_unchanged (aPort : Z) (env : request_env)
  (s : uart_t * thci_t) :
  unchanged pump_only (snd s)
    (snd (snd (thciAddUnsecurePort sDataFrameCB sControlFrameCB aPort env s))).
Proof.
  destruct s as [u w]. unfold thciAddUnsecurePort.
  set (w1 := with_ncp (set_mTransactionId _) w).
  assert (H1 : unchanged pump_only w w1) by apply unchanged_with_ncp.
  destruct (negb (module_state_eqb _ _)); [exact H1 |].
  destruct (envSent env _ _ _ _); try exact H1.
  pose proof (thciUartWaitForResponseInternal_unchanged false
                (GetNewTransactionId (mTransactionId (gTHCINCPContext w)))
                SPINEL_CMD_PROP_VALUE_INSERTED SPINEL_PROP_THREAD_ASSISTING_PORTS
                (envRx env) (envLeftover env) (u, w1)) as H2.
  unfold thciUartWaitForResponse.
  destruct (thciUartWaitForResponseInternal _ _ _ _ _ _ _ _ _) as [[e b] [u2 w2]].
  cbn [snd] in H2.
  pose proof (unchanged_trans pump_only w w1 w2 H1 H2) as H3.
  destruct e; cbn [snd]; try exact H3.
Qed.

Lemma OpenSourcePort_unchanged (aMessage : thci_message_t) (env : request_env)
  (s : uart_t * thci_t) :
  unchanged pump_only (snd s)
    (snd (snd (OpenSourcePort sDataFrameCB sControlFrameCB aMessage env s))).
Proof.
  unfold OpenSourcePort.
  destruct (ReadMessage aMessage sizeof_ip6_hdr) as [[len ip6Hdr] m1].
  destruct (negb (uint16_t len =? sizeof_ip6_hdr)); [apply unchanged_refl |].
  destruct (negb (IP6H_NEXTH ip6Hdr =? IP6_NEXTH_TCP)); [apply unchanged_refl |].
  destruct (ReadMessage m1 2) as [[len2 srcPort] m2].
  destruct (negb (uint16_t len2 =? 2)); [apply unchanged_refl |].
  pose proof (thciAddUnsecurePort_unchanged (lwip_ntohs_bytes srcPort) env s) as H.
  destruct (thciAddUnsecurePort _ _ _ _ _) as [e [u1 w1]].
  cbn [snd] in H.
  destruct e; cbn [snd]; try exact H.
Qed.

(** One turn of the loop after the message has been taken out of the
    queue: nothing the pump can see changes, and the message queue stays as
    the turn found it. *)
Lemma drain_message_queue_same_pump_view (fuel : nat) (env : nat -> request_env) :
  forall i s r,
    drain_message_queue sDataFrameCB sControlFrameCB fuel env i s = Some r ->
    same_pump_view (snd s) (snd (snd r)).
Proof.
  induction fuel as [| fuel IH]; intros i [u w] r Hr; cbn [drain_message_queue snd] in Hr.
  - destruct (IsMessageQueueEmpty _); [| discriminate].
    injection Hr as <-. apply same_pump_view_refl.
  - destruct (IsMessageQueueEmpty _).
    { injection Hr as <-. apply same_pump_view_refl. }
    destruct (DequeueMessage _) as [[message |] q].
    2:{ injection Hr as <-. apply same_pump_view_refl. }
    set (w1 := with_sdk (set_mMessageQueue q) w) in *.
    assert (H1 : same_pump_view w w1) by apply same_pump_view_set_mMessageQueue.
    assert (H2 : same_pump_view w
                   (snd (snd (if NeedToOpenInsecureSourcePort w1
                              then OpenSourcePort sDataFrameCB sControlFrameCB
                                     message (env i) (u, w1)
                              else (message, O, (u, w1)))))).
    { destruct (NeedToOpenInsecureSourcePort w1); [| exact H1].
      eapply same_pump_view_trans; [exact H1 |].
      apply unchanged_same_pump_view.
      apply (OpenSourcePort_unchanged message (env i) (u, w1)). }
    destruct (if NeedToOpenInsecureSourcePort w1 then _ else _)
      as [[message2 used] [u2 w2]].
    cbn [snd] in H2.
    set (tid := GetNewTransactionId (mTransactionId (gTHCINCPContext w2))) in *.
    set (w3 := free_in_ring (Some message2) (with_ncp (set_mTransactionId tid) w2)) in *.
    assert (H3 : same_pump_view w w3).
    { eapply same_pump_view_trans; [exact H2 |]. repeat split; auto. }
    destruct (negb (otError_is_none _)).
    { injection Hr as <-. exact H3. }
    pose proof (thciUartWaitForResponseInternal_unchanged false tid
                  SPINEL_CMD_PROP_VALUE_IS SPINEL_PROP_LAST_STATUS
                  (envRx (env (i + used)%nat)) (envLeftover (env (i + used)%nat))
                  (u2, w3)) as H4.
    unfold thciUartWaitForResponse in Hr.
    destruct (thciUartWaitForResponseInternal _ _ _ _ _ _ _ _ _) as [[e b] [u4 w4]].
    cbn [snd] in H4.
    assert (H5 : same_pump_view w w4).
    { eapply same_pump_view_trans; [exact H3 |].
      apply unchanged_same_pump_view. exact H4. }
    destruct e; try (injection Hr as <-; exact H5).
    destruct (spinel_unpack_uint_packed _) as [parsedLength last].
    destruct (parsedLength >? 0).
    + apply IH in Hr. eapply same_pump_view_trans; [exact H5 | exact Hr].
    + injection Hr as <-. exact H5.
Qed.

Lemma post_pump_event_once_view (w : thci_t) :
  mSdkQueue (gTHCISDKContext w) <> None ->
  sOutgoingIPPacketEventPosted (post_pump_event_once w)
    = Z.lor (sOutgoingIPPacketEventPosted w) 1 /\
  filter pump_only (sdk_events (post_pump_event_once w))
    = guarded_post (sOutgoingIPPacketEventPosted w)
        (filter pump_only (sdk_events w)).
Proof.
  intros Hq. unfold post_pump_event_once, guarded_post.
  destruct (mSdkQueue (gTHCISDKContext w)) as [q |] eqn:E; [| congruence].
  set (w1 := set_sOutgoingIPPacketEventPosted _ w).
  assert (E1 : mSdkQueue (gTHCISDKContext w1) = Some q) by exact E.
  destruct (sOutgoingIPPacketEventPosted w =? 0).
  - destruct (sdk_events_post sOutgoingIPPacketEvent w1 q E1) as (H1 & _).
    rewrite H1. unfold nl_eventqueue_post_event, sdk_events. rewrite E, filter_app.
    split; reflexivity.
  - split; reflexivity.
Qed.

(** The handler, run on the contexts the dispatch left, does to the flag
    and to the pump events of the SDK queue what the steps of the driver
    task do in the step model: the clear, then either the return or the
    fetch-and-or and the post. *)
Lemma OutgoingIPPacketEventHandler_steps (fuel : nat) (env : nat -> request_env)
  (s s' : uart_t * thci_t) :
  mSdkQueue (gTHCISDKContext (snd s)) <> None ->
  OutgoingIPPacketEventHandler sDataFrameCB sControlFrameCB fuel env s = Some s' ->
  exists acts,
    (acts = [HandlerClear; HandlerExit]
     \/ acts = [HandlerClear; HandlerFetchOr; HandlerPost]) /\
    pump_run acts (pump_of (snd s) AtRest AtRest Dispatched)
      = Some (pump_of (snd s') AtRest AtRest Waiting).
Proof.
  destruct s as [u w]. cbn [snd]. intros Hq Hrun.
  unfold OutgoingIPPacketEventHandler in Hrun.
  set (w0 := set_sOutgoingIPPacketEventPosted 0 w) in *.
  assert (Hdone : forall s1 : uart_t * thci_t,
             filter pump_only (sdk_events (snd s1)) = filter pump_only (sdk_events w) ->
             (mSdkQueue (gTHCISDKContext (snd s1)) = None <->
              mSdkQueue (gTHCISDKContext w) = None) ->
             sOutgoingIPPacketEventPosted (snd s1) = 0 ->
             s' = (if negb (IsMessageQueueEmpty (mMessageQueue (gTHCISDKContext (snd s1))))
                   then (fst s1, post_pump_event_once (snd s1)) else s1) ->
             exists acts,
               (acts = [HandlerClear; HandlerExit]
                \/ acts = [HandlerClear; HandlerFetchOr; HandlerPost]) /\
               pump_run acts (pump_of w AtRest AtRest Dispatched)
                 = Some (pump_of (snd s') AtRest AtRest Waiting)).
  { intros [u1 w1] Hev Hnone Hflag ->. clear Hrun. cbn [fst snd] in *.
    destruct (negb (IsMessageQueueEmpty (mMessageQueue (gTHCISDKContext w1))));
      cbn [snd].
    - exists [HandlerClear; HandlerFetchOr; HandlerPost]. split; [auto |].
      destruct (post_pump_event_once_view w1) as [Hf Hm]; [tauto |].
      unfold pump_of. rewrite Hf, Hm, Hflag, Hev. reflexivity.
    - exists [HandlerClear; HandlerExit]. split; [auto |].
      unfold pump_of. rewrite Hflag, Hev. reflexivity. }
  destruct (negb (module_state_eqb _ _)).
  { injection Hrun as Hrun. apply (Hdone (u, w0)); auto; tauto. }
  destruct (mStallOutgoingDataPackets _).
  { injection Hrun as <-. exists [HandlerClear; HandlerExit]. split; [auto |].
    reflexivity. }
  destruct (drain_message_queue _ _ _ _ _ _) as [[status s1] |] eqn:E; [| discriminate].
  injection Hrun as Hrun.
  apply drain_message_queue_same_pump_view in E. cbn [snd] in E.
  destruct E as (Hev & Hnone & Hflag).
  apply (Hdone s1); auto.
Qed.

(** Taking a message out of the queue leaves one message less in it. *)
Lemma set_slot_None_count (l : list (option thci_message_t)) :
  forall (i : nat) (m : thci_message_t),
    nth i l None = Some m ->
    S (length (flat_map (fun s => match s with Some m => [m] | None => [] end)
                        (set_slot i None l)))
    = length (flat_map (fun s => match s with Some m => [m] | None => [] end) l).
Proof.
  induction l as [| x l IH]; intros i m Hnth.
  - destruct i; discriminate.
  - destruct i as [| i]; cbn [nth] in Hnth.
    + subst x. reflexivity.
    + cbn [set_slot flat_map]. rewrite !length_app, <- (IH i m Hnth). lia.
Qed.

Lemma DequeueMessage_count (q q' : thci_message_queue_t) (m : thci_message_t) :
  DequeueMessage q = (Some m, q') ->
  S (length (queued q')) = length (queued q).
Proof.
  unfold DequeueMessage, queue_slot, queued.
  destruct (nth (Z.to_nat (mTail q)) (mQueue q) None) as [m0 |] eqn:E; [| discriminate].
  intros H. injection H as _ <-. cbn [mQueue].
  apply (set_slot_None_count (mQueue q) _ m0 E).
Qed.

Lemma IsMessageQueueEmpty_false (q : thci_message_queue_t) :
  IsMessageQueueEmpty q = false -> (0 < length (queued q))%nat.
Proof.
  unfold IsMessageQueueEmpty, queue_slot, queued.
  destruct (nth (Z.to_nat (mTail q)) (mQueue q) None) as [m |] eqn:E; [| discriminate].
  intros _. rewrite <- (set_slot_None_count (mQueue q) _ m E). lia.
Qed.

(** The loop ends within as many turns as there are messages in the
    queue. *)
Lemma drain_message_queue_terminates (fuel : nat) (env : nat -> request_env) :
  forall i s,
    (length (queued (mMessageQueue (gTHCISDKContext (snd s)))) <= fuel)%nat ->
    drain_message_queue sDataFrameCB sControlFrameCB fuel env i s <> None.
Proof.
  induction fuel as [| fuel IH]; intros i [u w] Hlen; cbn [drain_message_queue snd] in *.
  - destruct (IsMessageQueueEmpty _) eqn:E; [discriminate |].
    apply IsMessageQueueEmpty_false in E. lia.
  - destruct (IsMessageQueueEmpty _); [discriminate |].
    destruct (DequeueMessage _) as [[message |] q] eqn:Edq; [| discriminate].
    apply DequeueMessage_count in Edq.
    set (w1 := with_sdk (set_mMessageQueue q) w) in *.
    assert (H2 : mMessageQueue
                   (gTHCISDKContext
                      (snd (snd (if NeedToOpenInsecureSourcePort w1
                                 then OpenSourcePort sDataFrameCB sControlFrameCB
                                        message (env i) (u, w1)
                                 else (message, O, (u, w1)))))) = q).
    { destruct (NeedToOpenInsecureSourcePort w1); [| reflexivity].
      destruct (OpenSourcePort_unchanged message (env i) (u, w1)) as (_ & _ & _ & H).
      exact H. }
    destruct (if NeedToOpenInsecureSourcePort w1 then _ else _)
      as [[message2 used] [u2 w2]].
    cbn [snd] in H2.
    set (tid := GetNewTransactionId (mTransactionId (gTHCINCPContext w2))) in *.
    set (w3 := free_in_ring (Some message2) (with_ncp (set_mTransactionId tid) w2)) in *.
    destruct (negb (otError_is_none _)); [discriminate |].
    pose proof (thciUartWaitForResponseInternal_unchanged false tid
                  SPINEL_CMD_PROP_VALUE_IS SPINEL_PROP_LAST_STATUS
                  (envRx (env (i + used)%nat)) (envLeftover (env (i + used)%nat))
                  (u2, w3)) as (_ & _ & _ & H4).
    unfold thciUartWaitForResponse.
    destruct (thciUartWaitForResponseInternal _ _ _ _ _ _ _ _ _) as [[e b] [u4 w4]].
    cbn [snd] in H4.
    destruct e; try discriminate.
    destruct (spinel_unpack_uint_packed _) as [parsedLength last].
    destruct (parsedLength >? 0); [| discriminate].
    apply IH. cbn [snd]. rewrite H4. change (mMessageQueue (gTHCISDKContext w3))
      with (mMessageQueue (gTHCISDKContext w2)). rewrite H2. lia.
Qed.

Lemma OutgoingIPPacketEventHandler_returns (fuel : nat) (env : nat -> request_env)
  (s : uart_t * thci_t) :
  (length (queued (mMessageQueue (gTHCISDKContext (snd s)))) <= fuel)%nat ->
  OutgoingIPPacketEventHandler sDataFrameCB sControlFrameCB fuel env s <> None.
Proof.
  destruct s as [u w]. cbn [snd]. intros Hlen. unfold OutgoingIPPacketEventHandler.
  destruct (negb (module_state_eqb _ _)); [discriminate |].
  destruct (mStallOutgoingDataPackets _); [discriminate |].
  pose proof (drain_message_queue_terminates fuel env O
                (u, set_sOutgoingIPPacketEventPosted 0 w) Hlen) as H.
  destruct (drain_message_queue _ _ _ _ _ _) as [[status s1] |];
    [discriminate | congruence].
Qed.

End PumpProperties.

(** ** The posting tasks and the steps of the pump *)

Lemma pump_of_same_view (w w' : thci_t) (lw st : poster_pc) (dr : handler_pc) :
  same_pump_view w w' -> pump_of w' lw st dr = pump_of w lw st dr.
Proof. intros (H1 & _ & H3). unfold pump_of. rewrite H1, H3. reflexivity. Qed.

Lemma same_pump_view_queue (w w' : thci_t) :
  same_pump_view w w' ->
  mSdkQueue (gTHCISDKContext w) <> None -> mSdkQueue (gTHCISDKContext w') <> None.
Proof. intros (_ & H & _). tauto. Qed.

Lemma fold_free_in_ring_same_pump_view (released : list thci_message_t) :
  forall w, same_pump_view w
              (fold_left (fun w m => free_in_ring (Some m) w) released w).
Proof.
  induction released as [| m released IH]; intros w; cbn [fold_left].
  - apply same_pump_view_refl.
  - eapply same_pump_view_trans; [| apply IH]. repeat split; auto.
Qed.

Lemma allocate_blocking_same_pump_view (waits : list (list thci_message_t))
  (aSecurity : bool) (aLength : Z) :
  forall w, same_pump_view w (snd (allocate_blocking waits aSecurity aLength w)).
Proof.
  induction waits as [| released waits IH]; intros w; cbn [allocate_blocking];
    destruct (NewMessage _ _ _) as [[m |] ring]; cbn [snd];
    try (repeat split; auto; fail).
  - destruct (mWaitFreeQueue ring); cbn [snd]; repeat split; auto.
  - set (w1 := with_ncp (set_mRing ring) w).
    pose proof (fold_free_in_ring_same_pump_view released w1) as H1.
    set (w2 := fold_left _ released w1) in *.
    assert (H0 : same_pump_view w w2).
    { eapply same_pump_view_trans; [| exact H1]. repeat split; auto. }
    destruct (mWaitFreeQueue (mRing (gTHCINCPContext w2))); cbn [snd]; [exact H0 |].
    eapply same_pump_view_trans; [| apply IH].
    eapply same_pump_view_trans; [exact H0 |]. repeat split; auto.
Qed.

Lemma same_pump_view_free_in_ring (m : option thci_message_t) (w w' : thci_t) :
  same_pump_view w w' -> same_pump_view w (free_in_ring m w').
Proof.
  intros H. eapply same_pump_view_trans; [exact H |]. repeat split; auto.
Qed.

Lemma CreateTHCIMessageFromPbuf_same_pump_view (waits : list (list thci_message_t))
  (aPbuf : pbuf) (next : list pbuf) (w : thci_t) :
  same_pump_view w (snd (CreateTHCIMessageFromPbuf waits aPbuf next w)).
Proof.
  unfold CreateTHCIMessageFromPbuf.
  pose proof (allocate_blocking_same_pump_view waits
                (THCI_ENABLE_MESSAGE_SECURITY (mSecurityFlags (gTHCISDKContext w)))
                (tot_len aPbuf) w) as H.
  destruct (allocate_blocking _ _ _ _) as [[message |] w1]; cbn [snd] in *;
    [| exact H].
  destruct (copy_pbuf _ _ _) as [[[|] rest] message1]; cbn [snd];
    [| apply same_pump_view_free_in_ring; exact H].
  destruct (negb (rest =? 0)); cbn [snd]; [exact H |].
  destruct (SendProvisionalJoinResponseInsecurely w1); cbn [snd]; [| exact H].
  destruct (ReadMessage _ _) as [[len1 ip6Hdr] message2].
  destruct (_ && _); cbn [snd]; [| exact H].
  destruct (ReadMessage _ _) as [[len2 srcPort] message3].
  destruct (uint16_t len2 =? 2); cbn [snd];
    [| apply same_pump_view_free_in_ring; exact H].
  destruct (_ =? _); cbn [snd]; exact H.
Qed.

(** A task that posts the pump event takes the two steps of the model:
    the fetch-and-or, then the post it guards. *)
Lemma post_pump_event_once_as_lwip_steps (w : thci_t) (st : poster_pc)
  (dr : handler_pc) :
  mSdkQueue (gTHCISDKContext w) <> None ->
  pump_run [LwipFetchOr; LwipPost] (pump_of w AtRest st dr)
  = Some (pump_of (post_pump_event_once w) AtRest st dr).
Proof.
  intros Hq. destruct (post_pump_event_once_view w Hq) as [Hf Hm].
  unfold pump_of. rewrite Hf, Hm. reflexivity.
Qed.

Lemma post_pump_event_once_as_stall_steps (w : thci_t) (lw : poster_pc)
  (dr : handler_pc) :
  mSdkQueue (gTHCISDKContext w) <> None ->
  pump_run [StallFetchOr; StallPost] (pump_of w lw AtRest dr)
  = Some (pump_of (post_pump_event_once w) lw AtRest dr).
Proof.
  intros Hq. destruct (post_pump_event_once_view w Hq) as [Hf Hm].
  unfold pump_of. rewrite Hf, Hm. reflexivity.
Qed.

(** [LwIPOutputIP6] moves the pump by no step, or by the two steps of the
    network task. *)
Lemma LwIPOutputIP6_steps (waits : list (list thci_message_t)) (netif : Z)
  (aPbuf : pbuf) (next : list pbuf) (w : thci_t) (st : poster_pc)
  (dr : handler_pc) :
  mSdkQueue (gTHCISDKContext w) <> None ->
  exists acts,
    (acts = [] \/ acts = [LwipFetchOr; LwipPost]) /\
    pump_run acts (pump_of w AtRest st dr)
    = Some (pump_of (snd (LwIPOutputIP6 waits netif aPbuf next w)) AtRest st dr).
Proof.
  intros Hq. unfold LwIPOutputIP6.
  assert (Hsame : forall w', same_pump_view w w' ->
            exists acts, (acts = [] \/ acts = [LwipFetchOr; LwipPost]) /\
              pump_run acts (pump_of w AtRest st dr)
              = Some (pump_of w' AtRest st dr)).
  { intros w' H. exists []. split; [auto |].
    rewrite (pump_of_same_view w w' _ _ _ H). reflexivity. }
  destruct (negb _); cbn [snd]; [apply Hsame, same_pump_view_refl |].
  destruct (mNetifThread _) as [thread_netif |];
    [| apply Hsame, same_pump_view_refl].
  destruct (netif =? thread_netif); [| apply Hsame, same_pump_view_refl].
  pose proof (CreateTHCIMessageFromPbuf_same_pump_view waits aPbuf next w) as H.
  destruct (CreateTHCIMessageFromPbuf _ _ _ _) as [[retval message] w1].
  cbn [snd] in H.
  assert (Hfail : exists acts, (acts = [] \/ acts = [LwipFetchOr; LwipPost]) /\
            pump_run acts (pump_of w AtRest st dr)
            = Some (pump_of (free_in_ring message w1) AtRest st dr)).
  { apply Hsame, same_pump_view_free_in_ring, H. }
  destruct retval; cbn [snd]; try exact Hfail.
  destruct (EnqueueMessage _ _) as [r q].
  destruct (r =? 0); cbn [snd]; [| exact Hfail].
  exists [LwipFetchOr; LwipPost]. split; [auto |].
  set (w2 := with_sdk (set_mMessageQueue q) w1).
  assert (H2 : same_pump_view w w2).
  { eapply same_pump_view_trans; [exact H |].
    apply same_pump_view_set_mMessageQueue. }
  rewrite <- (pump_of_same_view w w2 _ _ _ H2).
  apply post_pump_event_once_as_lwip_steps.
  exact (same_pump_view_queue w w2 H2 Hq).
Qed.

(** [thciStallOutgoingDataPackets] moves the pump by no step, or by the two
    steps of its caller. *)
Lemma thciStallOutgoingDataPackets_steps (aEnable : bool) (w : thci_t)
  (lw : poster_pc) (dr : handler_pc) :
  mSdkQueue (gTHCISDKContext w) <> None ->
  exists acts,
    (acts = [] \/ acts = [StallFetchOr; StallPost]) /\
    pump_run acts (pump_of w lw AtRest dr)
    = Some (pump_of (thciStallOutgoingDataPackets aEnable w) lw AtRest dr).
Proof.
  intros Hq. unfold thciStallOutgoingDataPackets.
  destruct (Bool.eqb _ _); [exists []; split; [auto | reflexivity] |].
  set (w1 := with_sdk _ w).
  assert (H1 : same_pump_view w w1) by (repeat split; auto).
  destruct (_ && _).
  - exists [StallFetchOr; StallPost]. split; [auto |].
    rewrite <- (pump_of_same_view w w1 _ _ _ H1).
    apply post_pump_event_once_as_stall_steps.
    exact (same_pump_view_queue w w1 H1 Hq).
  - exists []. split; [auto |].
    rewrite (pump_of_same_view w w1 _ _ _ H1). reflexivity.
Qed.

(** ** The pump with the control-plane handler installed *)

Section PumpWithControlPlane.
Context `{OT : OpenThread}.

Lemma ReceiveControlFrame_leaves_pump (aHeader aCommand aKey : Z)
  (aArgPtr : list Z) (w : thci_t) :
  unchanged pump_only w (ReceiveControlFrame aHeader aCommand aKey aArgPtr w).
Proof. apply ReceiveControlFrame_unchanged; reflexivity. Qed.

(** With [ReceiveControlFrame] as the control callback, a run of the
    handler is one of the two schedules of the driver task. *)
Lemma OutgoingIPPacketEventHandler_steps_with_ReceiveControlFrame
  (fuel : nat) (env : nat -> request_env) (s s' : uart_t * thci_t) :
  mSdkQueue (gTHCISDKContext (snd s)) <> None ->
  OutgoingIPPacketEventHandler None (Some ReceiveControlFrame) fuel env s = Some s' ->
  exists acts,
    (acts = [HandlerClear; HandlerExit] \/
     acts = [HandlerClear; HandlerFetchOr; HandlerPost]) /\
    pump_run acts (pump_of (snd s) AtRest AtRest Dispatched)
    = Some (pump_of (snd s') AtRest AtRest Waiting).
Proof.
  apply OutgoingIPPacketEventHandler_steps.
  - discriminate.
  - intros cb Hcb. injection Hcb as <-. apply ReceiveControlFrame_leaves_pump.
Qed.

Lemma OutgoingIPPacketEventHandler_returns_with_ReceiveControlFrame
  (fuel : nat) (env : nat -> request_env) (s : uart_t * thci_t) :
  (length (queued (mMessageQueue (gTHCISDKContext (snd s)))) <= fuel)%nat ->
  OutgoingIPPacketEventHandler None (Some ReceiveControlFrame) fuel env s <> None.
Proof.
  apply OutgoingIPPacketEventHandler_returns.
  - discriminate.
  - intros cb Hcb. injection Hcb as <-. apply ReceiveControlFrame_leaves_pump.
Qed.

End PumpWithControlPlane.

(** * The receive FIFO of the UART transport *)

Lemma length_array_store (a : list Z) :
  forall (i : nat) (v : Z), length (array_store i v a) = length a.
Proof.
  induction a as [| x a IH]; intros [| i] v; cbn [array_store length]; auto.
Qed.

Lemma nth_array_store (a : list Z) :
  forall (i j : nat) (v d : Z),
    nth j (array_store i v a) d
    = if (j =? i)%nat && (i <? length a)%nat then v else nth j a d.
Proof.
  induction a as [| x a IH]; intros i j v d.
  - destruct i, j; cbn [array_store nth length]; rewrite ?andb_false_r; reflexivity.
  - destruct i as [| i], j as [| j]; cbn [array_store nth length]; try reflexivity.
    rewrite IH. reflexivity.
Qed.

Ltac mod_lia := Z.div_mod_to_equations; lia.

Lemma rx_fifo_holds_get (f : rx_fifo_t) (x : Z) (l : list Z) :
  rx_fifo_holds f (x :: l) ->
  exists f', GetRxFifoChar f = (Some x, f') /\ rx_fifo_holds f' l.
Proof.
  intros (Hlen & Ht & Hn & Hh & Hc). unfold GetRxFifoChar.
  unfold RX_UART_FIFO_SIZE in *. cbn [length] in Hn, Hh.
  assert (Hne : (sRxUartFifoTail f =? sRxUartFifoHead f) = false).
  { apply Z.eqb_neq. rewrite Hh. mod_lia. }
  rewrite Hne. cbn [negb].
  pose proof (Hc O ltac:(cbn [length]; lia)) as H0. cbn [nth] in H0.
  replace ((sRxUartFifoTail f + Z.of_nat 0) mod 128) with (sRxUartFifoTail f) in H0
    by mod_lia.
  rewrite H0. eexists. split; [reflexivity |].
  unfold rx_fifo_holds, RX_UART_FIFO_SIZE. cbn [sRxUartFifo sRxUartFifoHead sRxUartFifoTail].
  split; [exact Hlen |].
  split; [destruct (sRxUartFifoTail f <? 128 - 1) eqn:E; lia |].
  split; [lia |].
  split.
  - rewrite Hh. destruct (sRxUartFifoTail f <? 128 - 1) eqn:E; mod_lia.
  - intros i Hi. specialize (Hc (S i) ltac:(cbn [length]; lia)). cbn [nth] in Hc.
    rewrite <- Hc. f_equal. f_equal.
    destruct (sRxUartFifoTail f <? 128 - 1) eqn:E; mod_lia.
Qed.

Lemma rx_fifo_holds_put (f : rx_fifo_t) (l : list Z) (b : Z) :
  rx_fifo_holds f l ->
  Z.of_nat (length l) < RX_UART_FIFO_SIZE - 1 ->
  exists f', PutRxFifoChar b f = (true, f') /\ rx_fifo_holds f' (l ++ [b]).
Proof.
  intros (Hlen & Ht & Hn & Hh & Hc) Hroom. unfold PutRxFifoChar.
  unfold RX_UART_FIFO_SIZE in *.
  set (newHead := if sRxUartFifoHead f <? 128 - 1 then sRxUartFifoHead f + 1 else 0).
  assert (HnewHead : newHead = (sRxUartFifoTail f + Z.of_nat (length l) + 1) mod 128).
  { subst newHead. rewrite Hh.
    destruct (_ <? 128 - 1) eqn:E; mod_lia. }
  assert (Hne : (newHead =? sRxUartFifoTail f) = false).
  { apply Z.eqb_neq. rewrite HnewHead. mod_lia. }
  rewrite Hne. cbn [negb]. eexists. split; [reflexivity |].
  unfold rx_fifo_holds, RX_UART_FIFO_SIZE.
  cbn [sRxUartFifo sRxUartFifoHead sRxUartFifoTail].
  rewrite length_array_store, length_app. cbn [length].
  split; [exact Hlen |]. split; [lia |]. split; [lia |]. split.
  - rewrite HnewHead. f_equal. lia.
  - intros i Hi. rewrite nth_array_store.
    assert (Hhead : 0 <= sRxUartFifoHead f < 128) by (rewrite Hh; mod_lia).
    destruct (Nat.eq_dec i (length l)) as [-> | Hneq].
    + rewrite nth_middle. rewrite <- Hh, Nat.eqb_refl.
      replace (_ <? _)%nat with true; [reflexivity |].
      symmetry. apply Nat.ltb_lt. lia.
    + rewrite app_nth1 by lia. rewrite <- (Hc i) by lia.
      replace (_ =? _)%nat with false; [reflexivity |].
      symmetry. apply Nat.eqb_neq. rewrite Hh. intros Heq.
      apply Z2Nat.inj in Heq; mod_lia.
Qed.

Lemma rx_fifo_holds_full (f : rx_fifo_t) (l : list Z) (b : Z) :
  rx_fifo_holds f l ->
  Z.of_nat (length l) = RX_UART_FIFO_SIZE - 1 ->
  PutRxFifoChar b f = (false, f).
Proof.
  intros (Hlen & Ht & Hn & Hh & Hc) Hfull. unfold PutRxFifoChar.
  unfold RX_UART_FIFO_SIZE in *.
  set (newHead := if sRxUartFifoHead f <? 128 - 1 then sRxUartFifoHead f + 1 else 0).
  assert (Heq : (newHead =? sRxUartFifoTail f) = true).
  { apply Z.eqb_eq. subst newHead. rewrite Hh.
    destruct (_ <? 128 - 1) eqn:E; mod_lia. }
  rewrite Heq. reflexivity.
Qed.

Lemma rx_fifo_holds_empty (f : rx_fifo_t) (l : list Z) :
  rx_fifo_holds f l ->
  IsRxFifoEmpty f = match l with [] => true | _ :: _ => false end.
Proof.
  intros (Hlen & Ht & Hn & Hh & Hc). unfold IsRxFifoEmpty.
  unfold RX_UART_FIFO_SIZE in *.
  destruct l as [| x l]; cbn [length] in *.
  - apply Z.eqb_eq. rewrite Hh. mod_lia.
  - apply Z.eqb_neq. rewrite Hh. mod_lia.
Qed.

(** X1: the receive FIFO is a first-in first-out queue of 127 bytes.  A
    FIFO that holds the bytes [l] is empty exactly when [l] is; a get
    fails on the empty FIFO and otherwise returns the oldest byte and
    leaves the others; a put appends the byte while fewer than 127 bytes
    are held and otherwise fails and leaves the FIFO as it is. *)
Theorem rx_fifo_first_in_first_out (f : rx_fifo_t) (l : list Z) (b : Z) :
  rx_fifo_holds f l ->
  IsRxFifoEmpty f = match l with [] => true | _ :: _ => false end /\
  match l with
  | [] => GetRxFifoChar f = (None, f)
  | x :: l' => exists f', GetRxFifoChar f = (Some x, f') /\ rx_fifo_holds f' l'
  end /\
  if Z.of_nat (length l) <? RX_UART_FIFO_SIZE - 1
  then exists f', PutRxFifoChar b f = (true, f') /\ rx_fifo_holds f' (l ++ [b])
  else PutRxFifoChar b f = (false, f).
Proof.
  intros H. split; [apply rx_fifo_holds_empty; exact H |]. split.
  - destruct l as [| x l'].
    + pose proof (rx_fifo_holds_empty f [] H) as He. unfold IsRxFifoEmpty in He.
      unfold GetRxFifoChar. rewrite He. reflexivity.
    + apply rx_fifo_holds_get. exact H.
  - destruct (Z.of_nat (length l) <? RX_UART_FIFO_SIZE - 1) eqn:E.
    + apply rx_fifo_holds_put; [exact H | lia].
    + apply (rx_fifo_holds_full f l b H).
      destruct H as (_ & _ & Hn & _). lia.
Qed.

(** The FIFO as [UartEnable] leaves it, with two bytes put and one taken:
    the second byte is the one a further get returns. *)
Lemma rx_fifo_first_in_first_out_witness :
  let f := mk_rx_fifo (65 :: 66 :: repeat 0 126) 2 1 in
  rx_fifo_holds f [66] /\
  IsRxFifoEmpty f = false /\
  (exists f', GetRxFifoChar f = (Some 66, f') /\ rx_fifo_holds f' []) /\
  (exists f', PutRxFifoChar 67 f = (true, f') /\ rx_fifo_holds f' [66; 67]).
Proof.
  intros f.
  assert (H : rx_fifo_holds f [66]).
  { unfold rx_fifo_holds.
    split; [reflexivity |]. split; [vm_compute; split; congruence |].
    split; [reflexivity |]. split; [reflexivity |].
    intros i Hi. cbn [length] in Hi. assert (i = O) by lia. subst i. reflexivity. }
  split; [exact H |].
  destruct (rx_fifo_first_in_first_out f [66] 67 H) as (H1 & H2 & H3).
  split; [exact H1 |]. split; [exact H2 | exact H3].
Defined.

Lemma rx_fifo_holds_near_full (f : rx_fifo_t) (l : list Z)
  (aThreshold : Z) :
  rx_fifo_holds f l ->
  1 <= aThreshold <= RX_UART_FIFO_SIZE ->
  IsRxFifoNearFull aThreshold f = true <->
  l = [] \/ RX_UART_FIFO_SIZE - 1 - Z.of_nat (length l) < aThreshold.
Proof.
  intros (Hlen & Ht & Hn & Hh & _) Hthr.
  assert (Hnil : l = [] <-> Z.of_nat (length l) = 0).
  { destruct l; cbn [length]; split; intros; try reflexivity; try discriminate; lia. }
  rewrite Hnil. clear Hnil.
  unfold IsRxFifoNearFull, uint32_t, RX_UART_FIFO_SIZE in *.
  set (n := Z.of_nat (length l)) in *. assert (0 <= n) by lia.
  set (head := sRxUartFifoHead f) in *. set (tail := sRxUartFifoTail f) in *.
  clearbody n head tail. clear Hlen.
  assert (Hhead : 0 <= head < 128) by (subst head; mod_lia).
  replace ((128 - aThreshold) mod 4294967296) with (128 - aThreshold) by mod_lia.
  replace ((128 - head) mod 4294967296) with (128 - head) by mod_lia.
  destruct (head <? 128 - aThreshold) eqn:E1.
  - replace ((head + aThreshold) mod 4294967296) with (head + aThreshold) by mod_lia.
    destruct (head >? tail) eqn:E2.
    + destruct (head + aThreshold >? head) eqn:E3; [| lia].
      cbn [orb]. split; [discriminate |]. intros [Hz | Hr]; subst head; mod_lia.
    + destruct (head + aThreshold <? tail) eqn:E3;
        destruct (head + aThreshold >? head) eqn:E4; cbn [andb]; try lia.
      * split; [discriminate |]. intros [Hz | Hr]; subst head; mod_lia.
      * split; [intros _ | reflexivity]. subst head. mod_lia.
  - replace ((aThreshold - (128 - head)) mod 4294967296)
      with (aThreshold - (128 - head)) by mod_lia.
    destruct (head >? tail) eqn:E2.
    + destruct (aThreshold - (128 - head) >? head) eqn:E3; [lia |].
      destruct (aThreshold - (128 - head) <? tail) eqn:E4; cbn [orb].
      * split; [discriminate |]. intros [Hz | Hr]; subst head; mod_lia.
      * split; [intros _ | reflexivity]. subst head. mod_lia.
    + destruct (aThreshold - (128 - head) <? tail) eqn:E3;
        destruct (aThreshold - (128 - head) >? head) eqn:E4; cbn [andb].
      * lia.
      * split; [intros _ | reflexivity]. subst head. mod_lia.
      * split; [intros _ | reflexivity]. subst head. mod_lia.
      * split; [intros _ | reflexivity]. subst head. mod_lia.
Qed.

(** X2: [IsRxFifoNearFull] with a threshold of 1 to 128 answers [true]
    exactly when the FIFO is empty or has room for fewer than
    [aThreshold] more bytes. *)
Theorem IsRxFifoNearFull_iff_empty_or_little_room (f : rx_fifo_t) (l : list Z)
  (aThreshold : Z) :
  rx_fifo_holds f l ->
  1 <= aThreshold <= RX_UART_FIFO_SIZE ->
  IsRxFifoNearFull aThreshold f = true <->
  l = [] \/ RX_UART_FIFO_SIZE - 1 - Z.of_nat (length l) < aThreshold.
Proof.
  intros Hf Hthr. apply rx_fifo_holds_near_full; assumption.
Qed.

(** In the FIFO of 128 slots that holds one byte there is room for 126
    more, so the answer for the threshold of the interrupt handler is
    [false]. *)
Lemma IsRxFifoNearFull_iff_empty_or_little_room_witness :
  let f := mk_rx_fifo (65 :: 66 :: repeat 0 126) 2 1 in
  rx_fifo_holds f [66] /\
  (IsRxFifoNearFull RX_UART_FIFO_NEAR_FULL_THRESHOLD f = true <->
   [66] = [] \/ RX_UART_FIFO_SIZE - 1 - 1 < RX_UART_FIFO_NEAR_FULL_THRESHOLD).
Proof.
  intros f.
  assert (H : rx_fifo_holds f [66]).
  { unfold rx_fifo_holds.
    split; [reflexivity |]. split; [vm_compute; split; congruence |].
    split; [reflexivity |]. split; [reflexivity |].
    intros i Hi. cbn [length] in Hi. assert (i = O) by lia. subst i. reflexivity. }
  split; [exact H |].
  apply (IsRxFifoNearFull_iff_empty_or_little_room f [66]
           RX_UART_FIFO_NEAR_FULL_THRESHOLD H).
  vm_compute. split; congruence.
Defined.

(** * The outgoing message queue *)

Lemma length_set_slot (a : list (option thci_message_t)) :
  forall (i : nat) (v : option thci_message_t), length (set_slot i v a) = length a.
Proof.
  induction a as [| x a IH]; intros [| i] v; cbn [set_slot length]; auto.
Qed.

Lemma nth_set_slot (a : list (option thci_message_t)) :
  forall (i j : nat) (v : option thci_message_t),
    nth j (set_slot i v a) None
    = if (j =? i)%nat && (i <? length a)%nat then v else nth j a None.
Proof.
  induction a as [| x a IH]; intros i j v.
  - destruct i, j; cbn [set_slot nth length]; rewrite ?andb_false_r; reflexivity.
  - destruct i as [| i], j as [| j]; cbn [set_slot nth length]; try reflexivity.
    rewrite IH. reflexivity.
Qed.

Lemma queue_holds_head_range (q : thci_message_queue_t) (l : list thci_message_t) :
  queue_holds q l -> 0 <= mHead q < THCI_CONFIG_MESSAGE_QUEUE_SIZE.
Proof.
  intros (_ & Ht & _ & Hh & _). rewrite Hh.
  unfold THCI_CONFIG_MESSAGE_QUEUE_SIZE in *. mod_lia.
Qed.

Lemma queue_holds_tail_slot (q : thci_message_queue_t) (l : list thci_message_t) :
  queue_holds q l -> queue_slot q (mTail q) = nth_error l 0.
Proof.
  intros (_ & Ht & _ & _ & Hc).
  specialize (Hc O ltac:(vm_compute; lia)).
  unfold THCI_CONFIG_MESSAGE_QUEUE_SIZE in *.
  replace ((mTail q + Z.of_nat 0) mod 16) with (mTail q) in Hc by mod_lia.
  exact Hc.
Qed.

Lemma queue_holds_head_slot (q : thci_message_queue_t) (l : list thci_message_t) :
  queue_holds q l ->
  queue_slot q (mHead q)
  = if Z.of_nat (length l) <? THCI_CONFIG_MESSAGE_QUEUE_SIZE then None
    else nth_error l 0.
Proof.
  intros H. pose proof (queue_holds_tail_slot q l H) as Htail.
  destruct H as (_ & Ht & Hn & Hh & Hc).
  unfold THCI_CONFIG_MESSAGE_QUEUE_SIZE in *.
  destruct (Z.of_nat (length l) <? 16) eqn:E.
  - specialize (Hc (length l) ltac:(lia)). rewrite <- Hh in Hc. rewrite Hc.
    apply nth_error_None. lia.
  - assert (Heq : mHead q = mTail q) by (rewrite Hh; mod_lia).
    rewrite Heq. exact Htail.
Qed.

Lemma queue_holds_dequeue (q : thci_message_queue_t) (x : thci_message_t)
  (l : list thci_message_t) :
  queue_holds q (x :: l) ->
  exists q', DequeueMessage q = (Some x, q') /\ queue_holds q' l.
Proof.
  intros H. pose proof (queue_holds_tail_slot q _ H) as Htail.
  cbn [nth_error] in Htail.
  destruct H as (Hlen & Ht & Hn & Hh & Hc).
  unfold DequeueMessage. rewrite Htail. eexists. split; [reflexivity |].
  unfold queue_holds, queue_slot in *. cbn [mQueue mHead mTail length] in *.
  unfold THCI_CONFIG_MESSAGE_QUEUE_SIZE in *.
  rewrite length_set_slot.
  set (tail' := if mTail q <? 16 - 1 then mTail q + 1 else 0).
  assert (Htail' : tail' = (mTail q + 1) mod 16).
  { subst tail'. destruct (_ <? _) eqn:E; mod_lia. }
  split; [exact Hlen |]. split; [rewrite Htail'; mod_lia |]. split; [lia |]. split.
  - rewrite Hh, Htail'. mod_lia.
  - intros i Hi. rewrite nth_set_slot.
    replace (_ <? length (mQueue q))%nat with true
      by (symmetry; apply Nat.ltb_lt; lia).
    rewrite andb_true_r.
    destruct (Nat.eq_dec i 15) as [-> | Hneq].
    + replace (_ =? _)%nat with true.
      * symmetry. apply nth_error_None. lia.
      * symmetry. apply Nat.eqb_eq. f_equal. rewrite Htail'. mod_lia.
    + replace (_ =? _)%nat with false.
      * specialize (Hc (S i) ltac:(lia)). cbn [nth_error] in Hc. rewrite <- Hc.
        f_equal. f_equal. rewrite Htail'. mod_lia.
      * symmetry. apply Nat.eqb_neq. intros Heq.
        apply Z2Nat.inj in Heq; rewrite ?Htail' in *; mod_lia.
Qed.

Lemma queue_holds_enqueue (q : thci_message_queue_t) (l : list thci_message_t)
  (m : thci_message_t) :
  queue_holds q l ->
  Z.of_nat (length l) < THCI_CONFIG_MESSAGE_QUEUE_SIZE ->
  exists q', EnqueueMessage (Some m) q = (0, q') /\ queue_holds q' (l ++ [m]).
Proof.
  intros H Hroom. pose proof (queue_holds_head_slot q l H) as Hhead.
  pose proof (queue_holds_head_range q l H) as Hrange.
  destruct H as (Hlen & Ht & Hn & Hh & Hc).
  unfold EnqueueMessage. rewrite Hhead.
  replace (_ <? _) with true by (symmetry; apply Z.ltb_lt; exact Hroom).
  eexists. split; [reflexivity |].
  unfold queue_holds, queue_slot in *. cbn [mQueue mHead mTail] in *.
  unfold THCI_CONFIG_MESSAGE_QUEUE_SIZE in *.
  rewrite length_set_slot, length_app. cbn [length].
  split; [exact Hlen |]. split; [exact Ht |]. split; [lia |]. split.
  - rewrite Hh. destruct (_ <? 16 - 1) eqn:E; mod_lia.
  - intros i Hi. rewrite nth_set_slot.
    replace (_ <? length (mQueue q))%nat with true
      by (symmetry; apply Nat.ltb_lt; lia).
    rewrite andb_true_r.
    destruct (Nat.eq_dec i (length l)) as [-> | Hneq].
    + rewrite <- Hh, Nat.eqb_refl. rewrite nth_error_app2 by lia.
      rewrite Nat.sub_diag. reflexivity.
    + replace (_ =? _)%nat with false.
      * rewrite (Hc i Hi).
        destruct (Nat.lt_ge_cases i (length l)) as [Hlt | Hge].
        -- rewrite nth_error_app1 by lia. reflexivity.
        -- transitivity (@None thci_message_t).
           ++ apply nth_error_None. lia.
           ++ symmetry. apply nth_error_None. rewrite length_app. cbn [length]. lia.
      * symmetry. apply Nat.eqb_neq. intros Heq.
        apply Z2Nat.inj in Heq; rewrite ?Hh in *; mod_lia.
Qed.

(** X3: the outgoing message queue is a first-in first-out queue of 16
    messages.  A queue that holds the messages [l] is empty exactly when
    [l] is; [DequeueMessage] returns [NULL] on the empty queue and
    otherwise the oldest message, leaving the others; [EnqueueMessage]
    appends a message while fewer than 16 are held and otherwise returns
    [-ENOSPC] and leaves the queue as it is. *)
Theorem message_queue_first_in_first_out (q : thci_message_queue_t)
  (l : list thci_message_t) (m : thci_message_t) :
  queue_holds q l ->
  IsMessageQueueEmpty q = match l with [] => true | _ :: _ => false end /\
  match l with
  | [] => DequeueMessage q = (None, q)
  | x :: l' => exists q', DequeueMessage q = (Some x, q') /\ queue_holds q' l'
  end /\
  if Z.of_nat (length l) <? THCI_CONFIG_MESSAGE_QUEUE_SIZE
  then exists q', EnqueueMessage (Some m) q = (0, q') /\ queue_holds q' (l ++ [m])
  else EnqueueMessage (Some m) q = (- ENOSPC, q).
Proof.
  intros H. pose proof (queue_holds_tail_slot q l H) as Htail.
  split; [| split].
  - unfold IsMessageQueueEmpty. rewrite Htail. destruct l; reflexivity.
  - destruct l as [| x l'].
    + unfold DequeueMessage. rewrite Htail. reflexivity.
    + apply queue_holds_dequeue. exact H.
  - destruct (Z.of_nat (length l) <? THCI_CONFIG_MESSAGE_QUEUE_SIZE) eqn:E.
    + apply queue_holds_enqueue; [exact H | lia].
    + unfold EnqueueMessage. rewrite (queue_holds_head_slot q l H), E.
      destruct l as [| x l']; [discriminate E | reflexivity].
Qed.

Lemma queue_init_holds_nothing : queue_holds queue_init [].
Proof.
  unfold queue_holds, queue_init, queue_slot. cbn [mQueue mHead mTail length].
  split; [apply repeat_length |]. split; [vm_compute; split; congruence |].
  split; [vm_compute; congruence |]. split; [reflexivity |].
  intros i Hi. rewrite nth_repeat. destruct i; reflexivity.
Qed.

(** A queue that wraps around the end of the array: the older of its two
    messages is in the last slot and the newer in the first.  The queue is
    not empty, gives the older message first and takes a third one behind
    the two. *)
Lemma message_queue_first_in_first_out_witness :
  let m1 := mk_message 0 [1] 0 1 16 0 in
  let m2 := mk_message 16 [2] 0 1 16 0 in
  let m3 := mk_message 32 [3] 0 1 16 0 in
  let q := mk_queue 1 15 (Some m2 :: repeat None 14 ++ [Some m1]) in
  queue_holds q [m1; m2] /\
  IsMessageQueueEmpty q = false /\
  (exists q', DequeueMessage q = (Some m1, q') /\ queue_holds q' [m2]) /\
  exists q', EnqueueMessage (Some m3) q = (0, q') /\ queue_holds q' [m1; m2; m3].
Proof.
  intros m1 m2 m3 q.
  assert (Hq : queue_holds q [m1; m2]).
  { unfold queue_holds, queue_slot. cbn [mQueue mHead mTail length].
    split; [reflexivity |]. split; [vm_compute; split; congruence |].
    split; [vm_compute; congruence |]. split; [reflexivity |].
    intros i Hi.
    do 16 (destruct i as [| i]; [reflexivity |]).
    exfalso. vm_compute in Hi. lia. }
  split; [exact Hq |].
  destruct (message_queue_first_in_first_out q [m1; m2] m3 Hq) as (H1 & H2 & H3).
  split; [exact H1 |]. split; [exact H2 | exact H3].
Defined.

(** * Messages in the ring *)

Lemma ring_chain_bounds (l : list thci_message_t) :
  forall a b, ring_chain a l b ->
  forall m, In m l -> a <= msgPtr m /\ msgPtr m + mTotalLength m <= b.
Proof.
  induction l as [| x l IH]; intros a b H m Hin; [destruct Hin |].
  cbn [ring_chain] in H. destruct H as (Hp & Hpos & H).
  pose proof (ring_chain_le _ _ _ H) as [Hle _].
  destruct Hin as [<- | Hin].
  - lia.
  - specialize (IH _ _ H m Hin). lia.
Qed.

Lemma ring_chain_sorted (l : list thci_message_t) :
  forall a b, ring_chain a l b ->
  forall i j mi mj, (i < j)%nat ->
    nth_error l i = Some mi -> nth_error l j = Some mj ->
    msgPtr mi + mTotalLength mi <= msgPtr mj.
Proof.
  induction l as [| x l IH]; intros a b H i j mi mj Hij Hi Hj.
  - destruct i; discriminate.
  - cbn [ring_chain] in H. destruct H as (Hp & Hpos & H).
    destruct j as [| j]; [lia |]. cbn [nth_error] in Hj.
    destruct i as [| i]; cbn [nth_error] in Hi.
    + injection Hi as <-. apply nth_error_In in Hj.
      pose proof (ring_chain_bounds _ _ _ H mj Hj). lia.
    + apply (IH _ _ H i j mi mj); [lia | exact Hi | exact Hj].
Qed.

Lemma ring_inv_bounds (R : Z) (g : message_ring_t) (live : list thci_message_t) :
  ring_inv R g live ->
  forall m, In m live ->
    ringStart <= msgPtr m /\ msgPtr m + mTotalLength m <= ringEnd.
Proof.
  pose proof ringEnd_val as HE. pose proof ringStart_val as HS.
  intros [(Hgap & Htail & Hhead & Hchain)
         | (older & newer & -> & Hold & Hnew & Hgap & Hco & Hcn & Hlt)] m Hin.
  - pose proof (ring_chain_bounds _ _ _ Hchain m Hin). lia.
  - pose proof (ring_chain_le _ _ _ Hco) as [Hle _].
    pose proof (ring_chain_le _ _ _ Hcn) as [Hle' _].
    apply in_app_or in Hin. destruct Hin as [Hin | Hin].
    + pose proof (ring_chain_bounds _ _ _ Hco m Hin). lia.
    + pose proof (ring_chain_bounds _ _ _ Hcn m Hin). lia.
Qed.

Lemma ring_inv_apart (R : Z) (g : message_ring_t) (live : list thci_message_t) :
  ring_inv R g live ->
  forall i j mi mj, (i < j)%nat ->
    nth_error live i = Some mi -> nth_error live j = Some mj ->
    messages_apart mi mj.
Proof.
  intros [(Hgap & Htail & Hhead & Hchain)
         | (older & newer & -> & Hold & Hnew & Hgap & Hco & Hcn & Hlt)]
         i j mi mj Hij Hi Hj.
  - left. exact (ring_chain_sorted _ _ _ Hchain i j mi mj Hij Hi Hj).
  - destruct (Nat.lt_ge_cases j (length older)) as [Hjo | Hjn].
    + rewrite nth_error_app1 in Hi, Hj by lia.
      left. exact (ring_chain_sorted _ _ _ Hco i j mi mj Hij Hi Hj).
    + rewrite nth_error_app2 in Hj by lia.
      destruct (Nat.lt_ge_cases i (length older)) as [Hio | Hin].
      * rewrite nth_error_app1 in Hi by lia. right.
        apply nth_error_In in Hi, Hj.
        pose proof (ring_chain_bounds _ _ _ Hco mi Hi).
        pose proof (ring_chain_bounds _ _ _ Hcn mj Hj). lia.
      * rewrite nth_error_app2 in Hi by lia. left.
        apply (ring_chain_sorted _ _ _ Hcn (i - length older) (j - length older));
          [lia | exact Hi | exact Hj].
Qed.

Lemma alignedLength_mod4 (aLength : Z) : alignedLength aLength mod 4 = 0.
Proof.
  unfold alignedLength, uint16_t, sizeof_thci_message_t.
  set (x := (aLength + 12) mod 65536).
  assert (Hx : 0 <= x < 65536) by (subst x; apply Z.mod_pos_bound; lia).
  clearbody x.
  change (4 - 1) with 3.
  assert (Hland : forall z, 0 <= z -> Z.land z 3 = z mod 4).
  { intros z Hz. change 3 with (Z.ones 2). rewrite Z.land_ones by lia. reflexivity. }
  rewrite (Hland x) by lia.
  rewrite (Hland (4 - x mod 4)) by mod_lia.
  mod_lia.
Qed.

Lemma alignedLength_bounds (aLength : Z) :
  0 <= aLength <= 65520 ->
  aLength + sizeof_thci_message_t <= alignedLength aLength
  < aLength + sizeof_thci_message_t + 4.
Proof.
  intros H. unfold alignedLength, uint16_t, sizeof_thci_message_t.
  rewrite (Z.mod_small (aLength + 12)) by lia.
  change (4 - 1) with 3.
  assert (Hland : forall z, 0 <= z -> Z.land z 3 = z mod 4).
  { intros z Hz. change 3 with (Z.ones 2). rewrite Z.land_ones by lia. reflexivity. }
  rewrite (Hland (aLength + 12)) by lia.
  rewrite (Hland (4 - (aLength + 12) mod 4)) by mod_lia.
  mod_lia.
Qed.

Lemma FreeMessage_keeps_aligned (m : thci_message_t) (g : message_ring_t) :
  mMessageRingHead g mod 4 = 0 -> mMessageRingTail g mod 4 = 0 ->
  mMessageRingEndGap g mod 4 = 0 ->
  msgPtr m mod 4 = 0 -> mTotalLength m mod 4 = 0 ->
  mMessageRingHead (FreeMessage (Some m) g) mod 4 = 0 /\
  mMessageRingTail (FreeMessage (Some m) g) mod 4 = 0 /\
  mMessageRingEndGap (FreeMessage (Some m) g) mod 4 = 0.
Proof.
  intros Hh Ht Hg Hp Hl. pose proof ringEnd_val as HE. pose proof ringStart_val as HS.
  unfold FreeMessage.
  destruct (_ || _); [| auto].
  destruct (msgPtr m =? mMessageRingTail g).
  - destruct (_ >=? _); destruct (mWaitFreeQueueEmpty _); ring_fields;
      rewrite ?HS; repeat split; try reflexivity; try assumption; mod_lia.
  - destruct (_ && _); destruct (mWaitFreeQueueEmpty _); ring_fields;
      rewrite ?HE; repeat split; try reflexivity; try assumption; mod_lia.
Qed.

Lemma ring_step_keeps_aligned (op : ring_op)
  (s : message_ring_t * list thci_message_t) :
  ring_aligned (fst s) (snd s) ->
  ring_aligned (fst (ring_step op s)) (snd (ring_step op s)).
Proof.
  destruct s as [g live]. cbn [fst snd]. intros (Hh & Ht & Hg & Hall).
  pose proof ringEnd_val as HE. pose proof ringStart_val as HS.
  destruct op as [sec aLength | |]; unfold ring_step.
  - pose proof (alignedLength_mod4 aLength) as Ha.
    unfold NewMessage. set (r := alignedLength aLength) in *. clearbody r.
    assert (Hnew : forall p, p mod 4 = 0 ->
              Forall (fun m => msgPtr m mod 4 = 0 /\ mTotalLength m mod 4 = 0)
                (live ++ [mk_message p [] 0 0 r
                            (if sec then Z.lor 0 THCI_MESSAGE_FLAG_SECURE else 0)])).
    { intros p Hp. apply Forall_app. split; [exact Hall |].
      constructor; [| constructor]. cbn [msgPtr mTotalLength]. auto. }
    destruct (mMessageRingHead g =? mMessageRingTail g); ring_fields.
    + rewrite Z.ltb_irrefl, Z.gtb_ltb, Z.ltb_irrefl.
      destruct (_ <? _); cbn [fst snd]; unfold ring_aligned; ring_fields.
      * split; [rewrite HS; mod_lia |]. split; [rewrite HS; reflexivity |].
        split; [exact Hg |]. apply Hnew. rewrite HS. reflexivity.
      * rewrite HS. repeat split; try reflexivity; assumption.
    + destruct (mMessageRingHead g <? mMessageRingTail g) eqn:E1;
        destruct (mMessageRingHead g >? mMessageRingTail g) eqn:E2;
        destruct (r + mMessageRingHead g <? _);
        try destruct (r + ringStart <? _);
        cbn [fst snd]; unfold ring_aligned; ring_fields;
        try (repeat split; assumption).
      all: split; [rewrite ?HS; mod_lia |]; split; [exact Ht |];
        split; [try exact Hg; unfold uint16_t; rewrite HE; mod_lia |];
        apply Hnew; rewrite ?HS; auto.
  - destruct live as [| m rest]; [repeat split; assumption |].
    cbn [fst snd]. inversion Hall as [| ? ? [Hp Hl] Hrest]. subst.
    destruct (FreeMessage_keeps_aligned m g Hh Ht Hg Hp Hl) as (H1 & H2 & H3).
    repeat split; assumption.
  - destruct live as [| m0 rest0] eqn:Elive; [repeat split; assumption |].
    rewrite <- Elive in *.
    assert (Hne : live <> []) by (rewrite Elive; discriminate).
    clear Elive m0 rest0.
    destruct (exists_last Hne) as (l' & m & ->).
    rewrite last_last, removelast_last. cbn [fst snd].
    apply Forall_app in Hall. destruct Hall as [Hl' Hm].
    inversion Hm as [| ? ? [Hp Hl] _]. subst.
    destruct (FreeMessage_keeps_aligned m g Hh Ht Hg Hp Hl) as (H1 & H2 & H3).
    repeat split; assumption.
Qed.

Lemma ring_run_aligned (ops : list ring_op) :
  ring_aligned (fst (ring_run ops)) (snd (ring_run ops)).
Proof.
  induction ops as [| op ops IH] using rev_ind.
  - unfold ring_run, ring_aligned. cbn. repeat split; constructor.
  - unfold ring_run in *. rewrite fold_left_app. cbn [fold_left].
    apply ring_step_keeps_aligned. exact IH.
Qed.

Lemma sizes_within_of_lengths (lens : list Z) :
  Forall (fun aLength => 0 <= aLength <= 65520) lens -> sizes_within 65535 lens.
Proof.
  unfold sizes_within. apply Forall_impl. intros aLength H.
  pose proof (alignedLength_bounds aLength H). unfold sizeof_thci_message_t in *. lia.
Qed.

(** X4: along every run of allocations and releases that follows the
    oldest-or-newest discipline, with payload lengths of at most 65520
    bytes, the live messages lie within the ring buffer at multiples of
    four bytes, and no two of them overlap. *)
Theorem ring_live_messages_within_ring_and_apart (ops : list ring_op) :
  Forall (fun aLength => 0 <= aLength <= 65520) (requests ops) ->
  (forall m, In m (snd (ring_run ops)) ->
     ringStart <= msgPtr m /\ msgPtr m + mTotalLength m <= ringEnd /\
     msgPtr m mod 4 = 0) /\
  (forall i j mi mj, (i < j)%nat ->
     nth_error (snd (ring_run ops)) i = Some mi ->
     nth_error (snd (ring_run ops)) j = Some mj ->
     messages_apart mi mj).
Proof.
  intros Hlens. apply sizes_within_of_lengths in Hlens.
  pose proof (ring_run_layout 65535 ops Hlens) as Hinv.
  pose proof (ring_run_aligned ops) as (_ & _ & _ & Hall).
  split.
  - intros m Hin. destruct (ring_inv_bounds _ _ _ Hinv m Hin) as [H1 H2].
    rewrite Forall_forall in Hall. destruct (Hall m Hin) as [H3 _]. auto.
  - apply (ring_inv_apart _ _ _ Hinv).
Qed.

(** Five datagrams of 1200 bytes are submitted, the first two are sent and
    released, and a sixth is submitted: it wraps to the base of the ring. *)
Lemma ring_live_messages_within_ring_and_apart_witness :
  let ops := [OpNew true 1200; OpNew true 1200; OpNew true 1200; OpNew true 1200;
              OpNew true 1200; OpFreeOldest; OpFreeOldest; OpNew false 1200] in
  map msgPtr (snd (ring_run ops)) = [2424; 3636; 4848; 0] /\
  (forall m, In m (snd (ring_run ops)) ->
     ringStart <= msgPtr m /\ msgPtr m + mTotalLength m <= ringEnd /\
     msgPtr m mod 4 = 0) /\
  (forall i j mi mj, (i < j)%nat ->
     nth_error (snd (ring_run ops)) i = Some mi ->
     nth_error (snd (ring_run ops)) j = Some mj ->
     messages_apart mi mj).
Proof.
  intros ops. split; [vm_compute; reflexivity |].
  apply (ring_live_messages_within_ring_and_apart ops).
  repeat constructor; lia.
Defined.

(** * The flags and the bytes of a message *)

Lemma forall_uint8 (P : Z -> bool) :
  forallb P (map Z.of_nat (seq 0 256)) = true ->
  forall z, 0 <= z < 256 -> P z = true.
Proof.
  intros H z Hz. rewrite forallb_forall in H. apply H.
  apply in_map_iff. exists (Z.to_nat z). split; [lia |]. apply in_seq. lia.
Qed.

(** X5: the security mark and the legacy mark of a message are
    independent flags.  [SetMessageSecurity] makes [IsMessageSecure]
    answer what was set and leaves the answer of [IsMessageLegacy], and
    the other way round; both leave the bytes of the message alone. *)
Theorem message_marks_round_trip (m : thci_message_t) (b : bool) :
  0 <= mFlags m < 256 ->
  IsMessageSecure (SetMessageSecurity m b) = b /\
  IsMessageLegacy (SetMessageSecurity m b) = IsMessageLegacy m /\
  IsMessageLegacy (SetMessageLegacy m b) = b /\
  IsMessageSecure (SetMessageLegacy m b) = IsMessageSecure m /\
  mBuffer (SetMessageSecurity m b) = mBuffer m /\
  mBuffer (SetMessageLegacy m b) = mBuffer m.
Proof.
  intros Hf.
  set (check := fun f : Z =>
    let secure x := negb (Z.land x THCI_MESSAGE_FLAG_SECURE =? 0) in
    let legacy x := negb (Z.land x THCI_MESSAGE_FLAG_LEGACY =? 0) in
    let set bit (v : bool) :=
      if v then uint8_t (Z.lor f bit) else uint8_t (Z.land f (Z.lnot bit)) in
    forallb (fun v =>
      Bool.eqb (secure (set THCI_MESSAGE_FLAG_SECURE v)) v
      && Bool.eqb (legacy (set THCI_MESSAGE_FLAG_SECURE v)) (legacy f)
      && Bool.eqb (legacy (set THCI_MESSAGE_FLAG_LEGACY v)) v
      && Bool.eqb (secure (set THCI_MESSAGE_FLAG_LEGACY v)) (secure f))
      [true; false]).
  assert (Hall : check (mFlags m) = true).
  { apply forall_uint8; [vm_compute; reflexivity | exact Hf]. }
  unfold check in Hall. cbv zeta in Hall. rewrite forallb_forall in Hall.
  specialize (Hall b ltac:(destruct b; cbn; auto)).
  rewrite !andb_true_iff in Hall. destruct Hall as (((H1 & H2) & H3) & H4).
  apply eqb_prop in H1, H2, H3, H4.
  unfold IsMessageSecure, IsMessageLegacy, SetMessageSecurity, SetMessageLegacy,
    set_message. cbn [mFlags mBuffer].
  destruct b; repeat split; assumption.
Qed.

(** A message allocated with the security mark, as [NewMessage] leaves its
    flags. *)
Lemma message_marks_round_trip_witness :
  let m := mk_message 0 [] 0 0 1292 THCI_MESSAGE_FLAG_SECURE in
  IsMessageSecure (SetMessageSecurity m false) = false /\
  IsMessageLegacy (SetMessageSecurity m false) = IsMessageLegacy m /\
  IsMessageLegacy (SetMessageLegacy m false) = false /\
  IsMessageSecure (SetMessageLegacy m false) = IsMessageSecure m /\
  mBuffer (SetMessageSecurity m false) = mBuffer m /\
  mBuffer (SetMessageLegacy m false) = mBuffer m.
Proof.
  intros m. apply (message_marks_round_trip m false). vm_compute. split; congruence.
Defined.

Lemma AppendMessage_appends (m : thci_message_t) (aBuf : list Z) :
  message_wf m ->
  Z.of_nat (length aBuf) + mLength m <= mTotalLength m - sizeof_thci_message_t ->
  AppendMessage m aBuf (Z.of_nat (length aBuf))
  = (0, set_message m (mBuffer m ++ aBuf) (mOffset m)
                    (mLength m + Z.of_nat (length aBuf)) (mFlags m)) /\
  message_wf (set_message m (mBuffer m ++ aBuf) (mOffset m)
                          (mLength m + Z.of_nat (length aBuf)) (mFlags m)).
Proof.
  intros (Hb & Ho & Hl & Ht) Hfit. unfold AppendMessage, sizeof_thci_message_t in *.
  unfold uint32_t, uint16_t.
  rewrite (Z.mod_small (mTotalLength m - 12)) by lia.
  replace (_ <=? _) with true by (symmetry; apply Z.leb_le; lia).
  rewrite Nat2Z.id, firstn_all.
  rewrite (Z.mod_small (mLength m + _)) by lia.
  split; [reflexivity |].
  unfold message_wf, set_message, sizeof_thci_message_t.
  cbn [mBuffer mOffset mLength mTotalLength].
  rewrite length_app. repeat split; lia.
Qed.

Lemma ReadMessage_all (m : thci_message_t) :
  message_wf m ->
  exists m',
    ReadMessage (ResetOffset m) (mLength m) = (mLength m, mBuffer m, m') /\
    mOffset m' = mLength m /\ mBuffer m' = mBuffer m /\ mLength m' = mLength m.
Proof.
  intros (Hb & Ho & Hl & Ht). unfold ReadMessage, ResetOffset, set_message.
  cbn [mBuffer mOffset mLength mTotalLength mFlags msgPtr].
  rewrite Z.sub_0_r. rewrite Z.gtb_ltb, Z.ltb_irrefl.
  destruct (Z.eqb_spec (mLength m) 0) as [Hz | Hnz].
  - assert (Hnil : mBuffer m = []).
    { destruct (mBuffer m); [reflexivity | cbn [length] in Hb; lia]. }
    rewrite Hz, Hnil. eexists. split; [reflexivity |].
    cbn [mBuffer mOffset mLength]. repeat split; lia.
  - eexists. split.
    + cbn [Z.to_nat skipn]. rewrite <- Hb, Nat2Z.id, firstn_all. reflexivity.
    + cbn [mBuffer mOffset mLength]. unfold uint16_t.
      unfold sizeof_thci_message_t in *.
      rewrite Z.mod_small by lia. repeat split; lia.
Qed.

(** X6: what [AppendMessage] appends, [ReadMessage] reads back.  A block
    that fits the allocation is appended to the bytes of the message, and
    reading the whole length from the start then returns these bytes in
    order and leaves nothing to read; a block that does not fit is refused
    with [-ENOMEM] and the message is left as it is. *)
Theorem AppendMessage_then_ReadMessage (m : thci_message_t) (aBuf : list Z) :
  message_wf m ->
  Z.of_nat (length aBuf) < 65536 ->
  if Z.of_nat (length aBuf) + mLength m <=? mTotalLength m - sizeof_thci_message_t
  then
    exists m' m'',
      AppendMessage m aBuf (Z.of_nat (length aBuf)) = (0, m') /\
      mLength m' = mLength m + Z.of_nat (length aBuf) /\
      ReadMessage (ResetOffset m') (mLength m')
      = (mLength m', mBuffer m ++ aBuf, m'') /\
      fst (fst (ReadMessage m'' 1)) = 0
  else AppendMessage m aBuf (Z.of_nat (length aBuf)) = (- ENOMEM, m).
Proof.
  intros Hwf Hlen.
  destruct (Z.leb_spec (Z.of_nat (length aBuf) + mLength m)
                       (mTotalLength m - sizeof_thci_message_t)) as [Hfit | Hnofit].
  - destruct (AppendMessage_appends m aBuf Hwf Hfit) as [Happ Hwf'].
    destruct (ReadMessage_all _ Hwf') as (m'' & Hread & Hoff & Hbuf & Hlen').
    eexists. exists m''. split; [exact Happ |].
    split; [reflexivity |]. split; [exact Hread |].
    unfold ReadMessage. rewrite Hoff, Hlen', Z.sub_diag. reflexivity.
  - destruct Hwf as (Hb & Ho & Hl & Ht).
    unfold AppendMessage, uint32_t, sizeof_thci_message_t in *.
    rewrite (Z.mod_small (mTotalLength m - 12)) by lia.
    replace (_ <=? _) with false by (symmetry; apply Z.leb_gt; lia).
    reflexivity.
Qed.

(** A fresh allocation of 1292 bytes takes a block of three bytes and
    gives it back. *)
Lemma AppendMessage_then_ReadMessage_witness :
  let m := mk_message 0 [] 0 0 1292 0 in
  exists m' m'',
    AppendMessage m [96; 0; 7] 3 = (0, m') /\
    mLength m' = 3 /\
    ReadMessage (ResetOffset m') (mLength m') = (mLength m', [96; 0; 7], m'') /\
    fst (fst (ReadMessage m'' 1)) = 0.
Proof.
  intros m.
  assert (Hwf : message_wf m) by (vm_compute; repeat split; congruence).
  exact (AppendMessage_then_ReadMessage m [96; 0; 7] Hwf ltac:(vm_compute; reflexivity)).
Defined.

(** * Submission of a datagram *)

Lemma NewMessage_fresh (aSecurity : bool) (aLength : Z) (g g' : message_ring_t)
  (m : thci_message_t) :
  NewMessage aSecurity aLength g = (Some m, g') ->
  mBuffer m = [] /\ mOffset m = 0 /\ mLength m = 0 /\
  mTotalLength m = alignedLength aLength /\
  mFlags m = (if aSecurity then THCI_MESSAGE_FLAG_SECURE else 0).
Proof.
  unfold NewMessage. intros H.
  repeat match type of H with
         | context [if ?c then _ else _] => destruct c
         | context [match ?c with Some _ => _ | None => _ end] => destruct c
         end;
    try discriminate; injection H as <- _; cbn; repeat split; reflexivity.
Qed.

Lemma pbuf_wf_tot_len (chain : list pbuf) :
  pbuf_wf chain ->
  0 <= chain_tot_len chain < 65536 /\
  chain_tot_len chain = Z.of_nat (length (datagram_bytes chain)).
Proof.
  unfold datagram_bytes. induction chain as [| p next IH]; cbn [pbuf_wf chain_tot_len map concat].
  - intros _. cbn. lia.
  - intros (Hlen & Hpos & Hlt & Htot & Hnext). specialize (IH Hnext).
    rewrite length_app. fold (chain_tot_len next) in Htot. lia.
Qed.

Lemma copy_pbuf_copies (chain : list pbuf) :
  forall m,
    pbuf_wf chain -> message_wf m ->
    chain_tot_len chain + mLength m <= mTotalLength m - sizeof_thci_message_t ->
    copy_pbuf chain (chain_tot_len chain) m
    = (true, 0,
       set_message m (mBuffer m ++ datagram_bytes chain) (mOffset m)
                   (mLength m + chain_tot_len chain) (mFlags m)).
Proof.
  unfold datagram_bytes.
  induction chain as [| p next IH]; intros m Hwf Hm Hfit.
  - cbn [copy_pbuf chain_tot_len map concat]. rewrite app_nil_r, Z.add_0_r.
    destruct m; reflexivity.
  - pose proof (pbuf_wf_tot_len _ Hwf) as [Hrange Hbytes].
    cbn [pbuf_wf] in Hwf. destruct Hwf as (Hlen & Hpos & Hlt & Htot & Hnext).
    fold (chain_tot_len next) in Htot.
    pose proof (pbuf_wf_tot_len _ Hnext) as [Hrange' Hbytes'].
    unfold datagram_bytes in *. cbn [chain_tot_len] in *. cbn [copy_pbuf].
    destruct (Z.eqb_spec (tot_len p) 0) as [Hz | Hnz].
    + rewrite Hz in *. cbn [map concat] in *.
      destruct (payload p ++ concat (map payload next));
        [| cbn [length] in Hbytes; lia].
      rewrite app_nil_r, Z.add_0_r. destruct m; reflexivity.
    + replace (len p <=? tot_len p) with true by (symmetry; apply Z.leb_le; lia).
      replace (uint16_t (tot_len p - len p)) with (chain_tot_len next)
        by (unfold uint16_t; rewrite Z.mod_small; lia).
      rewrite <- Hlen in *.
      destruct (AppendMessage_appends m (payload p) Hm ltac:(lia)) as [Happ Hm'].
      rewrite Happ. cbn [Z.eqb].
      rewrite IH; [| exact Hnext | exact Hm' |].
      * unfold set_message. cbn [mBuffer mOffset mLength mFlags msgPtr mTotalLength map concat].
        rewrite <- app_assoc.
        replace (mLength m + Z.of_nat (length (payload p)) + chain_tot_len next)
          with (mLength m + tot_len p) by lia.
        reflexivity.
      * unfold set_message. cbn [mLength mTotalLength]. lia.
Qed.

Lemma allocate_blocking_at_once (waits : list (list thci_message_t))
  (aSecurity : bool) (aLength : Z) (w : thci_t) (m : thci_message_t)
  (g' : message_ring_t) :
  NewMessage aSecurity aLength (mRing (gTHCINCPContext w)) = (Some m, g') ->
  allocate_blocking waits aSecurity aLength w = (Some m, with_ncp (set_mRing g') w).
Proof.
  intros H. destruct waits; cbn [allocate_blocking]; rewrite H; reflexivity.
Qed.

Lemma post_pump_event_once_fields (w : thci_t) :
  mMessageQueue (gTHCISDKContext (post_pump_event_once w))
  = mMessageQueue (gTHCISDKContext w) /\
  gTHCINCPContext (post_pump_event_once w) = gTHCINCPContext w /\
  sOutgoingIPPacketEventPosted (post_pump_event_once w)
  = Z.lor (sOutgoingIPPacketEventPosted w) 1.
Proof.
  unfold post_pump_event_once. destruct (_ =? 0); repeat split.
Qed.

Lemma lor_1_nonzero (z : Z) : Z.lor z 1 <> 0.
Proof.
  intros H. apply (f_equal (fun x => Z.testbit x 0)) in H.
  rewrite Z.lor_spec, orb_true_r in H. discriminate.
Qed.

(** The message [CreateTHCIMessageFromPbuf] makes of a well-formed chain
    when the ring has room at once and no joiner is being assisted. *)
Lemma CreateTHCIMessageFromPbuf_copies (waits : list (list thci_message_t))
  (aPbuf : pbuf) (next : list pbuf) (w : thci_t) (m0 : thci_message_t)
  (g' : message_ring_t) :
  pbuf_wf (aPbuf :: next) ->
  0 <= tot_len aPbuf <= 65520 ->
  NewMessage (THCI_ENABLE_MESSAGE_SECURITY (mSecurityFlags (gTHCISDKContext w)))
             (tot_len aPbuf) (mRing (gTHCINCPContext w)) = (Some m0, g') ->
  SendProvisionalJoinResponseInsecurely w = false ->
  CreateTHCIMessageFromPbuf waits aPbuf next w
  = (0,
     Some (mk_message (msgPtr m0) (datagram_bytes (aPbuf :: next)) 0 (tot_len aPbuf)
                      (mTotalLength m0) (mFlags m0)),
     with_ncp (set_mRing g') w).
Proof.
  intros Hwf Hlen Hnew Hprov. unfold CreateTHCIMessageFromPbuf.
  rewrite (allocate_blocking_at_once waits _ _ w m0 g' Hnew).
  destruct (NewMessage_fresh _ _ _ _ _ Hnew) as (Hb & Ho & Hl & Ht & Hf).
  pose proof (alignedLength_bounds _ Hlen) as Hal.
  assert (Hm0 : message_wf m0).
  { unfold message_wf, sizeof_thci_message_t in *. rewrite Hb, Ho, Hl, Ht.
    cbn [length]. unfold alignedLength, uint16_t in *.
    pose proof (Z.mod_pos_bound
                  ((tot_len aPbuf + 12) mod 65536
                   + Z.land (4 - Z.land ((tot_len aPbuf + 12) mod 65536) (4 - 1)) (4 - 1))
                  65536 ltac:(lia)).
    repeat split; lia. }
  pose proof (copy_pbuf_copies (aPbuf :: next) m0 Hwf Hm0) as Hcopy.
  cbn [chain_tot_len] in Hcopy. rewrite Hcopy by lia.
  cbn [Z.eqb negb].
  assert (Hprov' : SendProvisionalJoinResponseInsecurely (with_ncp (set_mRing g') w)
                   = false) by exact Hprov.
  rewrite Hprov'. unfold ResetOffset, set_message.
  cbn [msgPtr mBuffer mOffset mLength mTotalLength mFlags].
  rewrite Hb, Hl. reflexivity.
Qed.

(** X7: a datagram that [LwIPOutputIP6] accepts is queued with its bytes.
    For a well-formed chain whose first buffer is within the MTU, handed
    to the Thread interface while the ring has room at once, the queue
    holds fewer than 16 messages and no joiner is being assisted, the
    function returns [ERR_OK]; the queue then holds one more message, the
    last, whose bytes are those of the whole chain, read from the start;
    the message carries the security mark exactly when Thread has been
    started, and the pump flag is set. *)
Theorem LwIPOutputIP6_queues_the_datagram (waits : list (list thci_message_t))
  (netif : Z) (aPbuf : pbuf) (next : list pbuf) (w : thci_t)
  (l : list thci_message_t) (m0 : thci_message_t) (g' : message_ring_t) :
  len aPbuf <= NL_THCI_PAYLOAD_MTU ->
  mNetifThread (gTHCISDKContext w) = Some netif ->
  pbuf_wf (aPbuf :: next) ->
  0 <= tot_len aPbuf <= 65520 ->
  NewMessage (THCI_ENABLE_MESSAGE_SECURITY (mSecurityFlags (gTHCISDKContext w)))
             (tot_len aPbuf) (mRing (gTHCINCPContext w)) = (Some m0, g') ->
  SendProvisionalJoinResponseInsecurely w = false ->
  queue_holds (mMessageQueue (gTHCISDKContext w)) l ->
  Z.of_nat (length l) < THCI_CONFIG_MESSAGE_QUEUE_SIZE ->
  exists m w',
    LwIPOutputIP6 waits netif aPbuf next w = (ERR_OK, w') /\
    queue_holds (mMessageQueue (gTHCISDKContext w')) (l ++ [m]) /\
    mBuffer m = datagram_bytes (aPbuf :: next) /\
    mLength m = tot_len aPbuf /\
    mOffset m = 0 /\
    msgPtr m = msgPtr m0 /\
    IsMessageSecure m
    = THCI_ENABLE_MESSAGE_SECURITY (mSecurityFlags (gTHCISDKContext w)) /\
    mRing (gTHCINCPContext w') = g' /\
    sOutgoingIPPacketEventPosted w' <> 0.
Proof.
  intros Hmtu Hnetif Hwf Hlen Hnew Hprov Hq Hroom.
  unfold LwIPOutputIP6.
  replace (len aPbuf <=? NL_THCI_PAYLOAD_MTU) with true
    by (symmetry; apply Z.leb_le; exact Hmtu).
  cbn [negb]. rewrite Hnetif, Z.eqb_refl.
  rewrite (CreateTHCIMessageFromPbuf_copies waits aPbuf next w m0 g'
             Hwf Hlen Hnew Hprov).
  set (m := mk_message _ _ _ _ _ _).
  assert (Hq' : queue_holds
                  (mMessageQueue (gTHCISDKContext (with_ncp (set_mRing g') w))) l)
    by exact Hq.
  destruct (queue_holds_enqueue _ l m Hq' Hroom) as (q' & Henq & Hholds).
  rewrite Henq. cbn [Z.eqb].
  set (w1 := with_sdk (set_mMessageQueue q') (with_ncp (set_mRing g') w)).
  destruct (post_pump_event_once_fields w1) as (Hmq & Hncp & Hflag).
  exists m, (post_pump_event_once w1). split; [reflexivity |].
  split; [rewrite Hmq; exact Hholds |].
  split; [reflexivity |]. split; [reflexivity |]. split; [reflexivity |].
  split; [reflexivity |]. split.
  - destruct (NewMessage_fresh _ _ _ _ _ Hnew) as (_ & _ & _ & _ & Hf).
    unfold IsMessageSecure. subst m. cbn [mFlags]. rewrite Hf.
    destruct (THCI_ENABLE_MESSAGE_SECURITY _); reflexivity.
  - split; [rewrite Hncp; reflexivity |].
    rewrite Hflag. apply lor_1_nonzero.
Qed.

(** A datagram of 1400 bytes in two buffers of 700 bytes, submitted to a
    driver that was just initialised and has an SDK queue. *)
Lemma LwIPOutputIP6_queues_the_datagram_witness :
  let ncp := mk_ncp ring_init [] false true true 0 kModuleStateInitialized 0 0 in
  let sdk := mk_sdk (Some []) (Some 7) queue_init 0 0 OT_DEVICE_ROLE_DISABLED false in
  let w := mk_thci ncp sdk 0 [] in
  let first := mk_pbuf (repeat 96 700) 700 1400 in
  let second := mk_pbuf (repeat 17 700) 700 700 in
  exists m w',
    LwIPOutputIP6 [] 7 first [second] w = (ERR_OK, w') /\
    queue_holds (mMessageQueue (gTHCISDKContext w')) ([] ++ [m]) /\
    mBuffer m = datagram_bytes [first; second] /\
    mLength m = 1400 /\
    mOffset m = 0 /\
    msgPtr m = 0 /\
    IsMessageSecure m = false /\
    mRing (gTHCINCPContext w') = mk_ring 1412 0 0 [] true /\
    sOutgoingIPPacketEventPosted w' <> 0.
Proof.
  intros ncp sdk w first second.
  refine (LwIPOutputIP6_queues_the_datagram [] 7 first [second] w []
            (mk_message 0 [] 0 0 1412 0) (mk_ring 1412 0 0 [] true)
            _ _ _ _ _ _ _ _).
  - vm_compute. congruence.
  - reflexivity.
  - cbn [pbuf_wf first second payload len tot_len]. rewrite !repeat_length.
    repeat split; lia.
  - cbn [first tot_len]. lia.
  - vm_compute. reflexivity.
  - vm_compute. reflexivity.
  - exact queue_init_holds_nothing.
  - vm_compute. reflexivity.
Defined.





(** * The handler of the pump event and the messages left in the queue *)

Section PumpDrain.
Context `{OT : OpenThread}.
Variable sDataFrameCB : option (Z -> Z -> list Z -> thci_t -> thci_t).
Variable sControlFrameCB : option (Z -> Z -> Z -> list Z -> thci_t -> thci_t).

Hypothesis data_cb_unchanged :
  forall cb, sDataFrameCB = Some cb ->
  forall c k a w, unchanged pump_only w (cb c k a w).
Hypothesis control_cb_unchanged :
  forall cb, sControlFrameCB = Some cb ->
  forall h c k a w, unchanged pump_only w (cb h c k a w).

(** X9: the handler of the pump event strands no message.  When the
    handler returns and outgoing packets are not stalled, either the
    message queue is empty, the pump flag is clear and no pump event was
    posted, or messages are left (a request failed, or the module is not
    initialised), the pump flag is set and one pump event was posted to
    the SDK queue, so that the handler runs again. *)
Theorem OutgoingIPPacketEventHandler_strands_no_message (fuel : nat)
  (env : nat -> request_env) (s s' : uart_t * thci_t) :
  mSdkQueue (gTHCISDKContext (snd s)) <> None ->
  mStallOutgoingDataPackets (gTHCISDKContext (snd s)) = false ->
  OutgoingIPPacketEventHandler sDataFrameCB sControlFrameCB fuel env s = Some s' ->
  if IsMessageQueueEmpty (mMessageQueue (gTHCISDKContext (snd s')))
  then
    sOutgoingIPPacketEventPosted (snd s') = 0 /\
    filter pump_only (sdk_events (snd s')) = filter pump_only (sdk_events (snd s))
  else
    sOutgoingIPPacketEventPosted (snd s') = 1 /\
    filter pump_only (sdk_events (snd s'))
    = filter pump_only (sdk_events (snd s)) ++ [sOutgoingIPPacketEvent].
Proof.
  destruct s as [u w]. cbn [snd]. intros Hq Hstall Hrun.
  unfold OutgoingIPPacketEventHandler in Hrun.
  set (w0 := set_sOutgoingIPPacketEventPosted 0 w) in *.
  assert (Hdone : forall s1 : uart_t * thci_t,
             same_pump_view w0 (snd s1) ->
             s' = (if negb (IsMessageQueueEmpty (mMessageQueue (gTHCISDKContext (snd s1))))
                   then (fst s1, post_pump_event_once (snd s1)) else s1) ->
             if IsMessageQueueEmpty (mMessageQueue (gTHCISDKContext (snd s')))
             then
               sOutgoingIPPacketEventPosted (snd s') = 0 /\
               filter pump_only (sdk_events (snd s')) = filter pump_only (sdk_events w)
             else
               sOutgoingIPPacketEventPosted (snd s') = 1 /\
               filter pump_only (sdk_events (snd s'))
               = filter pump_only (sdk_events w) ++ [sOutgoingIPPacketEvent]).
  { intros [u1 w1] (Hev & Hnone & Hflag) ->. clear Hrun. cbn [fst snd] in *.
    change (sdk_events w0) with (sdk_events w) in Hev.
    change (sOutgoingIPPacketEventPosted w0) with 0 in Hflag.
    destruct (IsMessageQueueEmpty (mMessageQueue (gTHCISDKContext w1))) eqn:E;
      cbn [negb snd].
    - rewrite E. auto.
    - destruct (post_pump_event_once_fields w1) as (Hmq & _ & Hf).
      rewrite Hmq, E.
      destruct (post_pump_event_once_view w1) as [_ Hm].
      { change (mSdkQueue (gTHCISDKContext w0)) with (mSdkQueue (gTHCISDKContext w))
          in Hnone. tauto. }
      rewrite Hf, Hm, Hflag, Hev. split; reflexivity. }
  destruct (negb (module_state_eqb _ _)).
  { injection Hrun as Hrun. apply (Hdone (u, w0)); [apply same_pump_view_refl | auto]. }
  change (mStallOutgoingDataPackets (gTHCISDKContext w0))
    with (mStallOutgoingDataPackets (gTHCISDKContext w)) in Hrun.
  rewrite Hstall in Hrun.
  destruct (drain_message_queue _ _ _ _ _ _) as [[status s1] |] eqn:E; [| discriminate].
  injection Hrun as Hrun.
  apply (drain_message_queue_same_pump_view sDataFrameCB sControlFrameCB
           data_cb_unchanged control_cb_unchanged) in E.
  cbn [snd] in E. apply (Hdone s1); auto.
Qed.

End PumpDrain.

(** Two messages are queued; the frame of the first cannot be sent
    ([OT_ERROR_BUSY]).  The handler returns with the second message left
    in the queue and the pump event posted again. *)
Lemma OutgoingIPPacketEventHandler_strands_no_message_witness :
  let OT := openthread_reference in
  let m1 := mk_message 0 [96; 0] 0 2 16 0 in
  let m2 := mk_message 16 [96; 1] 0 2 16 0 in
  let q := snd (EnqueueMessage (Some m2) (snd (EnqueueMessage (Some m1) queue_init))) in
  let w := with_sdk (set_mMessageQueue q)
             (with_ncp (set_mRing (mk_ring 32 0 0 [] true)) thci_initialized) in
  let env := fun _ : nat => mk_request_env (fun _ _ _ _ => OT_ERROR_BUSY) [] false in
  exists s',
    OutgoingIPPacketEventHandler None (Some ReceiveControlFrame) 2 env
      (uart_enabled true, w) = Some s' /\
    IsMessageQueueEmpty (mMessageQueue (gTHCISDKContext (snd s'))) = false /\
    sOutgoingIPPacketEventPosted (snd s') = 1 /\
    filter pump_only (sdk_events (snd s'))
    = filter pump_only (sdk_events w) ++ [sOutgoingIPPacketEvent].
Proof.
  intros OT m1 m2 q w env.
  assert (Hrun : exists s',
            OutgoingIPPacketEventHandler None (Some ReceiveControlFrame) 2 env
              (uart_enabled true, w) = Some s' /\
            IsMessageQueueEmpty (mMessageQueue (gTHCISDKContext (snd s'))) = false).
  { eexists. split; vm_compute; reflexivity. }
  destruct Hrun as (s' & Hrun & Hleft). exists s'.
  split; [exact Hrun |]. split; [exact Hleft |].
  pose proof (OutgoingIPPacketEventHandler_strands_no_message
                None (Some ReceiveControlFrame)
                ltac:(discriminate)
                (fun cb H => match H in _ = Some c
                                   return forall h c0 k a w0,
                                     unchanged pump_only w0 (c h c0 k a w0)
                             with eq_refl => ReceiveControlFrame_leaves_pump end)
                2 env (uart_enabled true, w) s'
                ltac:(vm_compute; discriminate) ltac:(reflexivity) Hrun) as H.
  rewrite Hleft in H. exact H.
Defined.

(** * A reset of the NCP seen in a last-status frame *)

Lemma thciInitiateNCPRecovery_events (w : thci_t) :
  sdk_events (thciInitiateNCPRecovery w)
  = match mSdkQueue (gTHCISDKContext w) with
    | Some q =>
        if module_state_eqb (mModuleState (gTHCINCPContext w)) kModuleStateResetRecovery
        then q else q ++ [sNCPRecoveryEvent]
    | None => []
    end.
Proof.
  unfold thciInitiateNCPRecovery, sdk_events.
  destruct (module_state_eqb _ _); [destruct (mSdkQueue _); reflexivity |].
  unfold_updates. thci_fields.
  destruct (mSdkQueue (gTHCISDKContext w)) eqn:E; thci_fields; rewrite ?E;
    reflexivity.
Qed.

Lemma thciInitiateNCPRecovery_other_fields (w : thci_t) :
  mLastStatus (gTHCINCPContext (thciInitiateNCPRecovery w))
  = mLastStatus (gTHCINCPContext w) /\
  mRing (gTHCINCPContext (thciInitiateNCPRecovery w)) = mRing (gTHCINCPContext w) /\
  mMessageQueue (gTHCISDKContext (thciInitiateNCPRecovery w))
  = mMessageQueue (gTHCISDKContext w).
Proof.
  unfold thciInitiateNCPRecovery.
  destruct (module_state_eqb _ _); [auto |].
  unfold_updates. thci_fields.
  destruct (mSdkQueue (gTHCISDKContext w)); thci_fields; auto.
Qed.

Section ResetStatus.
Context `{OT : OpenThread}.

(** X10: an unsolicited last-status frame that reports a reset of the NCP
    starts the recovery.  The status is recorded when the parse consumed
    bytes.  With a status between [SPINEL_STATUS_RESET__BEGIN] and
    [SPINEL_STATUS_RESET__END] the module is in ResetRecovery afterwards
    and one recovery event is posted, unless the module was in
    ResetRecovery already (nothing is posted); with any other status the
    module state and the events of the SDK queue are left as they are. *)
Theorem unsolicited_reset_status_initiates_recovery
  (aHeader : Z) (aArgPtr : list Z) (w : thci_t) (q : list nl_event_t) :
  uint16_t SPINEL_PROP_LAST_STATUS = SPINEL_PROP_LAST_STATUS ->
  mSdkQueue (gTHCISDKContext w) = Some q ->
  let parsedLength := fst (spinel_unpack_uint_packed aArgPtr) in
  let status := snd (spinel_unpack_uint_packed aArgPtr) in
  let w' := ReceiveControlFrame aHeader SPINEL_CMD_PROP_VALUE_IS
              SPINEL_PROP_LAST_STATUS aArgPtr w in
  (parsedLength <> 0 -> mLastStatus (gTHCINCPContext w') = status) /\
  if (status >=? SPINEL_STATUS_RESET__BEGIN) && (status <=? SPINEL_STATUS_RESET__END)
  then
    mModuleState (gTHCINCPContext w') = kModuleStateResetRecovery /\
    sdk_events w'
    = if module_state_eqb (mModuleState (gTHCINCPContext w)) kModuleStateResetRecovery
      then q else q ++ [sNCPRecoveryEvent]
  else
    mModuleState (gTHCINCPContext w') = mModuleState (gTHCINCPContext w) /\
    sdk_events w' = q.
Proof.
  intros Hkey Hq parsedLength status w'.
  assert (Hw' : w' = HandleLastStatusUpdate aArgPtr w).
  { subst w'. unfold ReceiveControlFrame, ReceiveControlFrame_value_is.
    rewrite Z.eqb_refl, Hkey, Z.eqb_refl.
    assert (Hflags : mStateChangeFlags (gTHCINCPContext (HandleLastStatusUpdate aArgPtr w))
                     = mStateChangeFlags (gTHCINCPContext w)).
    { unfold HandleLastStatusUpdate.
      destruct (spinel_unpack_uint_packed aArgPtr) as [n st].
      destruct (_ && _); [unfold thciInitiateNCPRecovery |];
        repeat match goal with
               | |- context [if ?c then _ else _] => destruct c
               | |- context [match ?c with Some _ => _ | None => _ end] => destruct c
               end; reflexivity. }
    rewrite Hflags.
    destruct (mStateChangeFlags (gTHCINCPContext w) =? 0); reflexivity. }
  rewrite Hw'. clear Hw' w'. unfold HandleLastStatusUpdate.
  subst parsedLength status.
  destruct (spinel_unpack_uint_packed aArgPtr) as [n st]. cbn [fst snd].
  set (w1 := if n =? 0 then w else with_ncp (set_mLastStatus st) w).
  assert (H1 : mSdkQueue (gTHCISDKContext w1) = Some q /\
               mModuleState (gTHCINCPContext w1) = mModuleState (gTHCINCPContext w) /\
               (n <> 0 -> mLastStatus (gTHCINCPContext w1) = st)).
  { subst w1. destruct (Z.eqb_spec n 0); repeat split; auto; congruence. }
  destruct H1 as (Hq1 & Hst1 & Hls1).
  destruct (_ && _).
  - destruct (thciInitiateNCPRecovery_other_fields w1) as (Hls & _).
    split; [intros Hn; rewrite Hls; auto |].
    split; [apply thciInitiateNCPRecovery_state |].
    rewrite thciInitiateNCPRecovery_events, Hq1, Hst1. reflexivity.
  - split; [exact Hls1 |]. split; [exact Hst1 |].
    unfold sdk_events. rewrite Hq1. reflexivity.
Qed.

End ResetStatus.

(** The NCP reports [SPINEL_STATUS_RESET_SOFTWARE] (114) to a driver that
    is initialised. *)
Lemma unsolicited_reset_status_initiates_recovery_witness :
  let OT := openthread_reference in
  let w' := ReceiveControlFrame 128 SPINEL_CMD_PROP_VALUE_IS
              SPINEL_PROP_LAST_STATUS [114] thci_initialized in
  mLastStatus (gTHCINCPContext w') = 114 /\
  mModuleState (gTHCINCPContext w') = kModuleStateResetRecovery /\
  sdk_events w' = [sNCPRecoveryEvent].
Proof.
  intros OT w'.
  pose proof (unsolicited_reset_status_initiates_recovery (OT := OT)
                128 [114] thci_initialized [] ltac:(reflexivity) ltac:(reflexivity))
    as [H1 H2].
  split; [apply H1; vm_compute; discriminate |].
  exact H2.
Defined.

(** * Scan results and the callback buffers *)

Lemma release_callback_buffers_none (aState : callback_buffer_state_t)
  (registered : bool) (bufs : list callback_buffer_t) :
  Forall (fun b => mState b <> aState) bufs ->
  release_callback_buffers aState registered bufs = ([], bufs).
Proof.
  induction 1 as [| b rest Hb _ IH]; cbn [release_callback_buffers]; [reflexivity |].
  rewrite IH. destruct (mState b), aState; cbn [callback_buffer_state_eqb];
    congruence.
Qed.

Lemma no_scan_results_first (bufs : list callback_buffer_t) :
  Forall (fun b => mState b <> kCallbackBufferStateScanResult) bufs ->
  scan_results_first bufs.
Proof.
  induction 1 as [| b rest Hb Hrest IH]; cbn [scan_results_first]; auto.
Qed.

Lemma free_contents_length (bufs : list callback_buffer_t) :
  length (free_contents bufs) = free_callback_buffers bufs.
Proof. unfold free_contents, free_callback_buffers. apply length_map. Qed.

Section ScanResults.
Context `{OT : OpenThread}.

(** A scan result goes into the first free buffer, behind the results
    that wait to be delivered. *)
Lemma store_scan_result (result : otActiveScanResult) (bufs : list callback_buffer_t) :
  scan_results_first bufs ->
  match AllocateCallbackBuffer kCallbackBufferStateScanResult bufs with
  | (None, _) => free_callback_buffers bufs = O
  | (Some i, bufs') =>
      let p := store_mScanResult i result bufs' in
      exists prev,
        free_contents bufs = prev :: free_contents p /\
        scan_results_first p /\
        forall registered,
          fst (release_callback_buffers kCallbackBufferStateScanResult registered p)
          = fst (release_callback_buffers kCallbackBufferStateScanResult registered bufs)
            ++ (if registered then [otActiveScanResult_store result prev] else []) /\
          map mState
              (snd (release_callback_buffers kCallbackBufferStateScanResult registered p))
          = map mState
              (snd (release_callback_buffers kCallbackBufferStateScanResult registered
                      bufs))
  end.
Proof.
  induction bufs as [| b rest IH]; intros Hsrf.
  - reflexivity.
  - cbn [scan_results_first] in Hsrf. destruct Hsrf as [Hfree Hrest].
    cbn [AllocateCallbackBuffer].
    destruct (mState b) eqn:Eb.
    + specialize (Hfree eq_refl). cbn [store_mScanResult mState mContent].
      exists (mContent b). split.
      { unfold free_contents. cbn [filter mState callback_buffer_state_eqb].
        rewrite Eb. reflexivity. }
      split; [cbn [scan_results_first mState]; split; [discriminate | exact Hrest] |].
      intros registered. cbn [release_callback_buffers mState mContent].
      rewrite Eb. cbn [callback_buffer_state_eqb].
      rewrite (release_callback_buffers_none _ registered rest Hfree).
      cbn [fst snd map mState]. rewrite app_nil_r, Eb. auto.
    + specialize (IH Hrest).
      destruct (AllocateCallbackBuffer kCallbackBufferStateScanResult rest)
        as [[i |] rest']; cbn [option_map].
      * cbn [store_mScanResult]. destruct IH as (prev & H0 & H1 & H3).
        exists prev. split.
        { unfold free_contents in *. cbn [filter]. rewrite Eb.
          cbn [callback_buffer_state_eqb]. exact H0. }
        split; [cbn [scan_results_first]; rewrite Eb; split; [discriminate | exact H1] |].
        intros registered. destruct (H3 registered) as [H4 H5].
        cbn [release_callback_buffers]. rewrite Eb. cbn [callback_buffer_state_eqb].
        destruct (release_callback_buffers _ registered (store_mScanResult i result rest')).
        destruct (release_callback_buffers _ registered rest).
        cbn [fst snd map mState] in *. rewrite H4, H5, app_assoc. auto.
      * unfold free_callback_buffers in *. cbn [filter]. rewrite Eb.
        cbn [callback_buffer_state_eqb]. exact IH.
    + specialize (IH Hrest).
      destruct (AllocateCallbackBuffer kCallbackBufferStateScanResult rest)
        as [[i |] rest']; cbn [option_map].
      * cbn [store_mScanResult]. destruct IH as (prev & H0 & H1 & H3).
        exists prev. split.
        { unfold free_contents in *. cbn [filter]. rewrite Eb.
          cbn [callback_buffer_state_eqb]. exact H0. }
        split; [cbn [scan_results_first]; rewrite Eb; split; [discriminate | exact H1] |].
        intros registered. destruct (H3 registered) as [H4 H5].
        cbn [release_callback_buffers]. rewrite Eb. cbn [callback_buffer_state_eqb].
        destruct (release_callback_buffers _ registered (store_mScanResult i result rest')).
        destruct (release_callback_buffers _ registered rest).
        cbn [fst snd map mState] in *. rewrite H4, H5. auto.
      * unfold free_callback_buffers in *. cbn [filter]. rewrite Eb.
        cbn [callback_buffer_state_eqb]. exact IH.
Qed.

(** The beacons that find a free buffer are those that arrive first, as
    many as there are free buffers; [unpacked] is what they unpack to. *)
Lemma beacons_stored_in_order (aHeader : Z) (beacons : list (list Z)) :
  SPINEL_CMD_PROP_VALUE_INSERTED <> SPINEL_CMD_PROP_VALUE_IS ->
  forall (w : thci_t) (q : list nl_event_t) (unpacked : list spinel_scan_beacon),
    mScanResultCallback (gTHCINCPContext w) = true ->
    mSdkQueue (gTHCISDKContext w) = Some q ->
    scan_results_first (mCallbackBuffers (gTHCINCPContext w)) ->
    let free := free_callback_buffers (mCallbackBuffers (gTHCINCPContext w)) in
    map spinel_unpack_scan_beacon (firstn free beacons) = map Some unpacked ->
    let w1 := fold_left
                (fun w b => ReceiveControlFrame aHeader SPINEL_CMD_PROP_VALUE_INSERTED
                              SPINEL_PROP_MAC_SCAN_BEACON b w) beacons w in
    mScanResultCallback (gTHCINCPContext w1) = true /\
    fst (release_callback_buffers kCallbackBufferStateScanResult true
           (mCallbackBuffers (gTHCINCPContext w1)))
    = fst (release_callback_buffers kCallbackBufferStateScanResult true
             (mCallbackBuffers (gTHCINCPContext w)))
      ++ map (fun x => otActiveScanResult_store (scan_result_of_beacon (fst x)) (snd x))
             (combine unpacked (free_contents (mCallbackBuffers (gTHCINCPContext w)))) /\
    map mState
        (snd (release_callback_buffers kCallbackBufferStateScanResult true
                (mCallbackBuffers (gTHCINCPContext w1))))
    = map mState
        (snd (release_callback_buffers kCallbackBufferStateScanResult true
                (mCallbackBuffers (gTHCINCPContext w)))) /\
    sdk_events w1 = q ++ repeat sScanResultEvent (length unpacked).
Proof.
  intros Hcmd. induction beacons as [| b beacons IH];
    intros w q unpacked Hcb Hq Hsrf free Hun.
  - rewrite firstn_nil in Hun. destruct unpacked; [| discriminate].
    cbn [fold_left combine map length repeat]. rewrite !app_nil_r.
    unfold sdk_events. rewrite Hq. auto.
  - cbn [fold_left].
    set (w' := ReceiveControlFrame aHeader SPINEL_CMD_PROP_VALUE_INSERTED
                 SPINEL_PROP_MAC_SCAN_BEACON b w).
    assert (Hw' : w' = match ReceiveControlFrame_scan_beacon b w with
                       | Some w2 => w2
                       | None => w
                       end).
    { subst w'. unfold ReceiveControlFrame.
      replace (SPINEL_CMD_PROP_VALUE_INSERTED =? SPINEL_CMD_PROP_VALUE_IS) with false
        by (symmetry; apply Z.eqb_neq; exact Hcmd).
      rewrite !Z.eqb_refl. reflexivity. }
    unfold ReceiveControlFrame_scan_beacon in Hw'. rewrite Hcb in Hw'.
    pose proof (fun r => store_scan_result r _ Hsrf) as Hstore.
    pose proof (free_contents_length (mCallbackBuffers (gTHCINCPContext w))) as Hlen.
    fold free in Hlen.
    destruct (AllocateCallbackBuffer kCallbackBufferStateScanResult
                (mCallbackBuffers (gTHCINCPContext w))) as [[i |] bufs].
    + destruct (Hstore (mk_otActiveScanResult [] [] [] 0 0 0 0 false))
        as (prev0 & Hfc0 & _).
      pose proof Hlen as Hlen0. rewrite Hfc0 in Hlen0. cbn [length] in Hlen0.
      destruct free as [| free'] eqn:Efree; [discriminate |]. clear Hlen0.
      cbn [firstn map] in Hun.
      destruct unpacked as [| u unpacked]; [discriminate |].
      cbn [map] in Hun. injection Hun as Hu Hun. rewrite Hu in Hw'.
      destruct (Hstore (scan_result_of_beacon u)) as (prev & Hfc & H1 & H3).
      destruct (H3 true) as [H4 H5].
      set (w2 := with_ncp (set_mCallbackBuffers
                             (store_mScanResult i (scan_result_of_beacon u) bufs)) w)
        in *.
      assert (Hq2 : mSdkQueue (gTHCISDKContext w2) = Some q) by exact Hq.
      destruct (sdk_events_post sScanResultEvent w2 q Hq2) as (_ & Hq' & Hncp & _).
      rewrite <- Hw' in Hq', Hncp.
      specialize (IH w' (nl_eventqueue_post_event q sScanResultEvent) unpacked).
      rewrite Hncp in IH. subst w2. unfold_updates. thci_fields.
      specialize (IH Hcb Hq' H1). cbv zeta in IH.
      assert (Hfree' : free_callback_buffers
                         (store_mScanResult i (scan_result_of_beacon u) bufs) = free').
      { rewrite <- free_contents_length. rewrite Hfc in Hlen. cbn [length] in Hlen.
        lia. }
      rewrite Hfree' in IH. specialize (IH Hun).
      destruct IH as (I1 & I2 & I3 & I4).
      split; [exact I1 |]. rewrite I2, I3, I4, H4, H5, Hfc.
      cbn [combine map fst snd length repeat]. unfold nl_eventqueue_post_event.
      rewrite <- !app_assoc. auto.
    + specialize (Hstore (mk_otActiveScanResult [] [] [] 0 0 0 0 false)).
      cbv beta iota in Hstore.
      assert (Efree : free = O) by exact Hstore.
      rewrite Efree in Hun. cbn [firstn map] in Hun.
      destruct unpacked; [| discriminate].
      rewrite Hw'.
      specialize (IH w q [] Hcb Hq Hsrf). cbv zeta in IH. fold free in IH.
      rewrite Efree in IH. cbn [firstn map] in IH. specialize (IH eq_refl).
      exact IH.
Qed.

(** X11: the scan results reach the client in the order of arrival.
    While a scan callback is registered and no callback buffer holds an
    earlier result, the beacon frames that arrive first, as many as there
    are free buffers, each take the first free buffer and post one
    scan-result event, provided they unpack; the beacons that find no free
    buffer are dropped and post nothing, whatever they hold.
    [ScanResultEventHandler] then calls the callback once for each stored
    beacon, in the order of arrival, with the buffer in which the fields
    unpacked from that beacon were stored, and sets these buffers free
    again. *)
Theorem scan_results_are_delivered_in_order (aHeader : Z)
  (beacons : list (list Z)) (unpacked : list spinel_scan_beacon)
  (w : thci_t) (q : list nl_event_t) :
  SPINEL_CMD_PROP_VALUE_INSERTED <> SPINEL_CMD_PROP_VALUE_IS ->
  mScanResultCallback (gTHCINCPContext w) = true ->
  mSdkQueue (gTHCISDKContext w) = Some q ->
  Forall (fun b => mState b <> kCallbackBufferStateScanResult)
         (mCallbackBuffers (gTHCINCPContext w)) ->
  let free := free_callback_buffers (mCallbackBuffers (gTHCINCPContext w)) in
  map spinel_unpack_scan_beacon (firstn free beacons) = map Some unpacked ->
  let w1 := fold_left
              (fun w b => ReceiveControlFrame aHeader SPINEL_CMD_PROP_VALUE_INSERTED
                            SPINEL_PROP_MAC_SCAN_BEACON b w) beacons w in
  length unpacked = Nat.min (length beacons) free /\
  sdk_events w1 = q ++ repeat sScanResultEvent (Nat.min (length beacons) free) /\
  fst (ScanResultEventHandler w1)
  = map (fun x => otActiveScanResult_store (scan_result_of_beacon (fst x)) (snd x))
        (combine unpacked (free_contents (mCallbackBuffers (gTHCINCPContext w)))) /\
  map mState (mCallbackBuffers (gTHCINCPContext (snd (ScanResultEventHandler w1))))
  = map mState (mCallbackBuffers (gTHCINCPContext w)).
Proof.
  intros Hcmd Hcb Hq Hnone free Hun w1.
  destruct (beacons_stored_in_order aHeader beacons Hcmd w q unpacked Hcb Hq
              (no_scan_results_first _ Hnone) Hun) as (H1 & H2 & H3 & H4).
  fold w1 in H1, H2, H3, H4.
  rewrite (release_callback_buffers_none _ true _ Hnone) in H2, H3.
  cbn [fst snd app] in H2, H3.
  assert (Hlen : length unpacked = Nat.min (length beacons) free).
  { apply (f_equal (@length _)) in Hun. rewrite !length_map, length_firstn in Hun.
    lia. }
  split; [exact Hlen |]. rewrite <- Hlen.
  split; [exact H4 |].
  unfold ScanResultEventHandler. rewrite H1.
  destruct (release_callback_buffers _ true _) as [calls bufs].
  cbn [fst snd] in *. auto.
Qed.

End ScanResults.

(** Five beacons of the network "Thread" arrive in a burst, on channels 11
    to 15, while the four callback buffers are free: four are stored and
    delivered, in order, and the fifth is dropped. *)
Lemma scan_results_are_delivered_in_order_witness :
  let OT := openthread_reference in
  let w := with_ncp (fun c =>
             mk_ncp (mRing c) (mCallbackBuffers c) true (mStateChangeCallback c)
                    (mResetRecoveryCallback c) (mTransactionId c) (mModuleState c)
                    (mLastStatus c) (mStateChangeFlags c)) thci_initialized in
  let address := [1; 2; 3; 4; 5; 6; 7; 8] in
  let name := [84; 104; 114; 101; 97; 100; 0] in
  let xpanid := [222; 173; 0; 255; 190; 239; 0; 202] in
  let beacon (channel : Z) :=
    [channel; 200; 13; 0] ++ address ++ [52; 18; 206; 250; 255]
    ++ [19; 0; 3; 1] ++ name ++ [8; 0] ++ xpanid in
  let delivered (channel : Z) :=
    address ++ (name ++ [8; 0] ++ xpanid) ++ xpanid ++ [64206; channel; -56; 255; 1] in
  let beacons := map beacon [11; 12; 13; 14; 15] in
  let w1 := fold_left
              (fun w b => ReceiveControlFrame 128 SPINEL_CMD_PROP_VALUE_INSERTED
                            SPINEL_PROP_MAC_SCAN_BEACON b w) beacons w in
  map spinel_unpack_scan_beacon beacons
  = map (fun channel =>
           Some (mk_scan_beacon channel (-56)
                   (address ++ [52; 18; 206; 250; 255]) 64206 255 1
                   (name ++ [8; 0] ++ xpanid) xpanid))
        [11; 12; 13; 14; 15] /\
  sdk_events w1 = repeat sScanResultEvent 4 /\
  fst (ScanResultEventHandler w1) = map delivered [11; 12; 13; 14] /\
  map mState (mCallbackBuffers (gTHCINCPContext (snd (ScanResultEventHandler w1))))
  = repeat kCallbackBufferStateFree 4.
Proof.
  intros OT w address name xpanid beacon delivered beacons w1.
  split; [reflexivity |].
  destruct (scan_results_are_delivered_in_order (OT := OT) 128 beacons
              (map (fun channel =>
                      mk_scan_beacon channel (-56)
                        (address ++ [52; 18; 206; 250; 255]) 64206 255 1
                        (name ++ [8; 0] ++ xpanid) xpanid)
                   [11; 12; 13; 14])
              w []
              ltac:(vm_compute; discriminate) eq_refl eq_refl
              ltac:(repeat constructor; discriminate) eq_refl)
    as (_ & Hevents & Hcalls & Hstates).
  split; [exact Hevents |]. split; [exact Hcalls | exact Hstates].
Defined.

(** * The debug stream of the NCP *)

Lemma array_store_app (cur : list Z) (x v : Z) (tl : list Z) :
  array_store (length cur) v (cur ++ x :: tl) = cur ++ v :: tl.
Proof.
  induction cur as [| c cur IH]; cbn [length app array_store]; [reflexivity |].
  rewrite IH. reflexivity.
Qed.

Lemma array_store_checked_app (cur : list Z) (x v : Z) (tl : list Z) :
  array_store_checked (Z.of_nat (length cur)) v (cur ++ x :: tl)
  = Some (cur ++ v :: tl).
Proof.
  unfold array_store_checked. rewrite length_app. cbn [length].
  replace (0 <=? Z.of_nat (length cur)) with true by (symmetry; apply Z.leb_le; lia).
  replace (Z.of_nat (length cur) <? Z.of_nat (length cur + S (length tl))) with true
    by (symmetry; apply Z.ltb_lt; lia).
  cbn [andb]. rewrite Nat2Z.id, array_store_app. reflexivity.
Qed.

Lemma strlen_app_nul (cur tl : list Z) :
  Forall (fun c => c <> 0) cur ->
  strlen (cur ++ 0 :: tl) = Z.of_nat (length cur).
Proof.
  induction 1 as [| c cur Hc _ IH]; cbn [app strlen length]; [reflexivity |].
  destruct (Z.eqb_spec c 0); [contradiction |]. rewrite IH. lia.
Qed.

Lemma logged_line (cur tl : list Z) :
  Forall (fun c => c <> 0) cur ->
  firstn (Z.to_nat (strlen (cur ++ 0 :: tl))) (cur ++ 0 :: tl) = cur.
Proof.
  intros H. rewrite (strlen_app_nul cur tl H), Nat2Z.id.
  rewrite firstn_app, Nat.sub_diag, firstn_all. cbn [firstn]. apply app_nil_r.
Qed.

Lemma debug_char_kept_nonzero (c : Z) :
  debug_char_kept c = true -> c <> 0 /\ (c =? 10) = false /\ (c =? 13) = false.
Proof.
  unfold debug_char_kept. intros H. apply orb_true_iff in H.
  destruct H as [H | H]; [apply Z.eqb_eq in H | rewrite Z.geb_leb in H; apply Z.leb_le in H];
    repeat split; try lia; apply Z.eqb_neq; lia.
Qed.

Lemma HandleDebugStream_loop_lines (char_is_signed : bool) (aArgPtr : list Z) :
  forall (cur tl : list Z) (log : list (list Z)),
    (length cur + length tl = 97)%nat ->
    (length cur <= 95)%nat ->
    Forall (fun c => c <> 0) cur ->
    (aArgPtr = [] -> cur = []) ->
    exists lines,
      HandleDebugStream_loop char_is_signed aArgPtr (cur ++ tl)
        (Z.of_nat (length cur)) log = Some (log ++ lines) /\
      concat lines
      = cur ++ filter debug_char_kept (map (char_of_byte char_is_signed) aArgPtr) /\
      Forall (fun l => (0 < length l <= 96)%nat) lines.
Proof.
  induction aArgPtr as [| byte rest IH]; intros cur tl log Hlen Hcur Hnz Hend.
  - rewrite (Hend eq_refl). exists []. cbn. rewrite app_nil_r. auto.
  - clear Hend. cbn [HandleDebugStream_loop map filter].
    set (c := char_of_byte char_is_signed byte).
    destruct tl as [| x tl]; [cbn [length] in Hlen; lia |].
    destruct tl as [| y tl]; [cbn [length] in Hlen; lia |].
    cbn [length] in Hlen.
    destruct (debug_char_kept c) eqn:Ekept.
    + destruct (debug_char_kept_nonzero c Ekept) as (Hc0 & Hc10 & Hc13).
      rewrite array_store_checked_app. cbn [option_map].
      rewrite Hc10, Hc13. cbn [orb].
      replace (negb (Z.of_nat (length cur) + 1 =? 0)) with true
        by (symmetry; apply negb_true_iff, Z.eqb_neq; lia).
      cbn [andb].
      assert (Hcur' : Forall (fun c => c <> 0) (cur ++ [c])).
      { apply Forall_app. split; [exact Hnz | constructor; [exact Hc0 | constructor]]. }
      assert (Hpos : Z.of_nat (length cur) + 1 = Z.of_nat (length (cur ++ [c]))).
      { rewrite length_app. cbn [length]. lia. }
      assert (Hbuf : cur ++ c :: y :: tl = (cur ++ [c]) ++ y :: tl).
      { rewrite <- app_assoc. reflexivity. }
      rewrite Hpos, Hbuf.
      destruct ((Z.of_nat (length (cur ++ [c])) >=? 97 - 1)
                || match rest with [] => true | _ :: _ => false end) eqn:Eflush.
      * rewrite array_store_checked_app, (logged_line _ tl Hcur').
        destruct (IH [] ((cur ++ [c]) ++ 0 :: tl) (log ++ [cur ++ [c]]))
          as (lines & Hrun & Hcat & Hall).
        { cbn [length]. rewrite !length_app. cbn [length]. lia. }
        { cbn [length]. lia. }
        { constructor. }
        { reflexivity. }
        cbn [app length Z.of_nat] in Hrun. rewrite Hrun.
        exists ((cur ++ [c]) :: lines). rewrite <- app_assoc. split; [reflexivity |].
        cbn [concat]. rewrite Hcat. cbn [app]. rewrite <- app_assoc.
        split; [reflexivity |].
        constructor; [| exact Hall]. rewrite length_app. cbn [length]. lia.
      * apply orb_false_iff in Eflush. destruct Eflush as [Elt Erest].
        rewrite Z.geb_leb in Elt. apply Z.leb_gt in Elt.
        destruct (IH (cur ++ [c]) (y :: tl) log) as (lines & Hrun & Hcat & Hall).
        { rewrite length_app. cbn [length]. lia. }
        { lia. }
        { exact Hcur'. }
        { intros ->. discriminate Erest. }
        rewrite Hrun. exists lines. split; [reflexivity |].
        rewrite Hcat, <- app_assoc. auto.
    + replace (Z.of_nat (length cur) >=? 97 - 1) with false
        by (symmetry; rewrite Z.geb_leb; apply Z.leb_gt; lia).
      rewrite orb_false_r.
      destruct (negb (Z.of_nat (length cur) =? 0)
                && ((c =? 10) || (c =? 13)
                    || match rest with [] => true | _ :: _ => false end)) eqn:Eflush.
      * apply andb_true_iff in Eflush. destruct Eflush as [Enz _].
        rewrite array_store_checked_app, (logged_line _ (y :: tl) Hnz).
        destruct (IH [] (cur ++ 0 :: y :: tl) (log ++ [cur]))
          as (lines & Hrun & Hcat & Hall).
        { cbn [length]. rewrite length_app. cbn [length]. lia. }
        { cbn [length]. lia. }
        { constructor. }
        { reflexivity. }
        cbn [app length Z.of_nat] in Hrun. rewrite Hrun.
        exists (cur :: lines). rewrite <- app_assoc. split; [reflexivity |].
        cbn [concat]. rewrite Hcat. split; [reflexivity |].
        constructor; [| exact Hall].
        apply negb_true_iff, Z.eqb_neq in Enz. lia.
      * destruct (IH cur (x :: y :: tl) log) as (lines & Hrun & Hcat & Hall).
        { cbn [length]. lia. }
        { exact Hcur. }
        { exact Hnz. }
        { intros ->. rewrite orb_true_r, andb_true_r in Eflush.
          apply negb_false_iff, Z.eqb_eq in Eflush.
          destruct cur; [reflexivity | cbn [length] in Eflush; lia]. }
        rewrite Hrun. exists lines. auto.
Qed.

(** X12: [HandleDebugStream] never writes outside its line buffer and
    loses no character.  For every stream of bytes and whatever the
    buffer holds at first, all stores stay within the 97 characters of
    the buffer; the lines handed to the log have 1 to 96 characters each
    and, put one after the other, are the characters of the stream that
    are tabs or not below 32, in order. *)
Theorem HandleDebugStream_logs_the_kept_characters (char_is_signed : bool)
  (linebuffer aArgPtr : list Z) :
  length linebuffer = 97%nat ->
  exists lines,
    HandleDebugStream char_is_signed linebuffer aArgPtr = Some lines /\
    concat lines = filter debug_char_kept (map (char_of_byte char_is_signed) aArgPtr) /\
    Forall (fun l => (0 < length l <= 96)%nat) lines.
Proof.
  intros Hlen. unfold HandleDebugStream.
  destruct (HandleDebugStream_loop_lines char_is_signed aArgPtr [] linebuffer [])
    as (lines & Hrun & Hcat & Hall).
  - cbn [length]. lia.
  - cbn [length]. lia.
  - constructor.
  - reflexivity.
  - exists lines. cbn [app length Z.of_nat] in *. auto.
Qed.

(** The stream [ab\ncd] with a bell character in it: two lines. *)
Lemma HandleDebugStream_logs_the_kept_characters_witness :
  HandleDebugStream false (repeat 255 97) [97; 98; 10; 7; 99; 100]
  = Some [[97; 98]; [99; 100]] /\
  exists lines,
    HandleDebugStream false (repeat 255 97) [97; 98; 10; 7; 99; 100] = Some lines /\
    concat lines
    = filter debug_char_kept (map (char_of_byte false) [97; 98; 10; 7; 99; 100]) /\
    Forall (fun l => (0 < length l <= 96)%nat) lines.
Proof.
  split; [vm_compute; reflexivity |].
  apply (HandleDebugStream_logs_the_kept_characters false (repeat 255 97)).
  apply repeat_length.
Defined.

(** * A decode error during a wait *)

Section DecodeFailure.
Context `{OT : OpenThread}.
Variable sDataFrameCB : option (Z -> Z -> list Z -> thci_t -> thci_t).
Variable sControlFrameCB : option (Z -> Z -> Z -> list Z -> thci_t -> thci_t).

Lemma wait_with_latched_decode_failure (aAvoidNCPRecovery : bool)
  (aTransactionID aCommand aKey : Z) (rx : list rx_delivery) (leftover : bool)
  (u : uart_t) (w : thci_t) :
  sDecodeFailure u = true ->
  sProvideInternalResponse u = false -> sResponseReceived u = false ->
  thciUartWaitForResponseInternal sDataFrameCB sControlFrameCB aAvoidNCPRecovery
    aTransactionID aCommand aKey rx leftover (u, w)
  = (OT_ERROR_NO_FRAME_RECEIVED, None, (u, w)).
Proof.
  intros Hd Hp Hr. unfold thciUartWaitForResponseInternal. rewrite Hd.
  unfold clear_response. destruct u. thci_fields. subst. reflexivity.
Qed.

(** X13: a decode error ends the wait as a failure and is latched.  When
    the decoder reports an error after frames that do not match, the wait
    returns [OT_ERROR_FAILED], the module is in ResetRecovery afterwards
    (also for a wait that ignores time-outs) and the decode failure stays
    set; every later wait returns no-frame-received at once, whatever
    arrives, and leaves the statics of the transport and the driver
    contexts as they are. *)
Theorem decode_error_fails_the_wait_and_is_latched (aAvoidNCPRecovery : bool)
  (aTransactionID aCommand aKey : Z) (rx1 rx2 : list rx_delivery)
  (leftover : bool) (u : uart_t) (w : thci_t) :
  sDecodeFailure u = false ->
  Forall (unmatched (register_response aTransactionID aCommand aKey u)) rx1 ->
  let r := thciUartWaitForResponseInternal sDataFrameCB sControlFrameCB
             aAvoidNCPRecovery aTransactionID aCommand aKey
             (rx1 ++ RxError :: rx2) leftover (u, w) in
  fst (fst r) = OT_ERROR_FAILED /\
  sDecodeFailure (fst (snd r)) = true /\
  mModuleState (gTHCINCPContext (snd (snd r))) = kModuleStateResetRecovery /\
  forall aAvoidNCPRecovery' aTransactionID' aCommand' aKey' rx' leftover',
    thciUartWaitForResponseInternal sDataFrameCB sControlFrameCB
      aAvoidNCPRecovery' aTransactionID' aCommand' aKey' rx' leftover' (snd r)
    = (OT_ERROR_NO_FRAME_RECEIVED, None, snd r).
Proof.
  intros Hd Hun r.
  set (p := register_response aTransactionID aCommand aKey u) in *.
  destruct (register_response_pending aTransactionID aCommand aKey u)
    as (Hp1 & Hp2 & Hp3 & Hp4 & Hp5).
  fold p in Hp1, Hp2, Hp3, Hp4, Hp5. rewrite Hd in Hp4.
  pose proof (UartRxFifoProcess_unmatched sDataFrameCB sControlFrameCB rx1 p
                Hp2 Hp4 Hun w) as H1.
  assert (Hs : exists w1,
             UartRxFifoProcess sDataFrameCB sControlFrameCB (rx1 ++ RxError :: rx2) (p, w)
             = HandleError (p, w1)).
  { rewrite UartRxFifoProcess_app.
    destruct (UartRxFifoProcess sDataFrameCB sControlFrameCB rx1 (p, w)) as [u1 w1].
    cbn [fst] in H1. subst u1. exists w1.
    cbn [UartRxFifoProcess fst]. rewrite Hp2, Hp4. cbn [orb].
    apply UartRxFifoProcess_done. reflexivity. }
  destruct Hs as (w1 & Hs).
  assert (Hr : exists u' w',
             snd r = (u', w') /\ fst (fst r) = OT_ERROR_FAILED /\
             sDecodeFailure u' = true /\ sProvideInternalResponse u' = false /\
             sResponseReceived u' = false /\
             mModuleState (gTHCINCPContext w') = kModuleStateResetRecovery).
  { subst r. unfold thciUartWaitForResponseInternal. rewrite Hd. fold p. rewrite Hs.
    unfold HandleError. cbv zeta. thci_fields.
    pose proof (thciInitiateNCPRecovery_state w1) as Hst.
    set (w2 := thciInitiateNCPRecovery w1) in *.
    destruct (sResponseQueueHandle p).
    - destruct leftover.
      + pose proof (PostRxDoneEventToSdkQueue_keeps
                      (mk_uart (sProvideInternalResponse p) (sRxEventPostedToSdkQueue p)
                               true (sResponseCommand p) (sResponseKey p)
                               (sResponseBuffer p) true (sResponseTransactionId p)
                               false true, w2)) as (Hk1 & Hk2 & _).
        assert (Hk3 : sDecodeFailure
                        (fst (PostRxDoneEventToSdkQueue
                           (mk_uart (sProvideInternalResponse p)
                                    (sRxEventPostedToSdkQueue p) true
                                    (sResponseCommand p) (sResponseKey p)
                                    (sResponseBuffer p) true
                                    (sResponseTransactionId p) false true, w2)))
                      = true).
        { unfold PostRxDoneEventToSdkQueue.
          destruct (mSdkQueue _); [destruct (_ =? 0) |]; reflexivity. }
        destruct (PostRxDoneEventToSdkQueue _) as [u3 w3]. thci_fields.
        rewrite Hk1. cbn [negb andb]. thci_fields.
        eexists. eexists. split; [reflexivity |].
        unfold clear_response. thci_fields. repeat split; auto. congruence.
      + cbn [negb andb]. thci_fields.
        eexists. eexists. split; [reflexivity |].
        unfold clear_response. thci_fields. repeat split; auto.
    - thci_fields. eexists. eexists. split; [reflexivity |].
      unfold clear_response. thci_fields. repeat split; auto. }
  destruct Hr as (u' & w' & Hsnd & Herr & Hdf & Hpr & Hrr & Hst).
  rewrite Hsnd. cbn [fst snd].
  split; [exact Herr |]. split; [exact Hdf |]. split; [exact Hst |].
  intros. apply wait_with_latched_decode_failure; assumption.
Qed.

End DecodeFailure.

(** A property get with tid 2 is awaited; the decoder reports an error.
    The wait that follows is given the matching response and still fails. *)
Lemma decode_error_fails_the_wait_and_is_latched_witness :
  let OT := openthread_reference in
  let r := thciUartWaitForResponseInternal None (Some ReceiveControlFrame)
             true 2 6 2 ([] ++ RxError :: []) false
             (uart_enabled true, thci_initialized) in
  fst (fst r) = OT_ERROR_FAILED /\
  sDecodeFailure (fst (snd r)) = true /\
  mModuleState (gTHCINCPContext (snd (snd r))) = kModuleStateResetRecovery /\
  thciUartWaitForResponseInternal None (Some ReceiveControlFrame)
    false 3 6 2 [RxFrame (Some (mk_frame 131 6 2 [0]))] false (snd r)
  = (OT_ERROR_NO_FRAME_RECEIVED, None, snd r).
Proof.
  intros OT r.
  destruct (decode_error_fails_the_wait_and_is_latched (OT := OT)
              None (Some ReceiveControlFrame) true 2 6 2 [] [] false
              (uart_enabled true) thci_initialized
              ltac:(reflexivity) ltac:(constructor)) as (H1 & H2 & H3 & H4).
  split; [exact H1 |]. split; [exact H2 |]. split; [exact H3 |].
  apply H4.
Defined.

(** * Stalling the outgoing packets *)

Section Stall.
Context `{OT : OpenThread}.
Variable sDataFrameCB : option (Z -> Z -> list Z -> thci_t -> thci_t).
Variable sControlFrameCB : option (Z -> Z -> Z -> list Z -> thci_t -> thci_t).

(** X14: while outgoing packets are stalled the handler of the pump
    event sends nothing, and lifting the stall resumes the pump.  In an
    initialised module with the stall set, the handler only clears the
    pump flag: no request is made and the contexts are otherwise as
    before, whatever is queued.  [thciStallOutgoingDataPackets(false)]
    then clears the stall and, when messages are queued, sets the pump
    flag and posts one pump event; with an empty queue it posts nothing.
    Setting a stall that is already set changes nothing. *)
Theorem stall_holds_the_queue_and_release_resumes_the_pump (fuel : nat)
  (env : nat -> request_env) (u : uart_t) (w : thci_t) (q : list nl_event_t) :
  mModuleState (gTHCINCPContext w) = kModuleStateInitialized ->
  mStallOutgoingDataPackets (gTHCISDKContext w) = true ->
  mSdkQueue (gTHCISDKContext w) = Some q ->
  let w1 := set_sOutgoingIPPacketEventPosted 0 w in
  let w2 := thciStallOutgoingDataPackets false w1 in
  OutgoingIPPacketEventHandler sDataFrameCB sControlFrameCB fuel env (u, w)
  = Some (u, w1) /\
  thciStallOutgoingDataPackets true w = w /\
  mStallOutgoingDataPackets (gTHCISDKContext w2) = false /\
  mMessageQueue (gTHCISDKContext w2) = mMessageQueue (gTHCISDKContext w) /\
  gTHCINCPContext w2 = gTHCINCPContext w /\
  if IsMessageQueueEmpty (mMessageQueue (gTHCISDKContext w))
  then sOutgoingIPPacketEventPosted w2 = 0 /\ sdk_events w2 = q
  else sOutgoingIPPacketEventPosted w2 = 1 /\
       sdk_events w2 = q ++ [sOutgoingIPPacketEvent].
Proof.
  intros Hst Hstall Hq w1 w2.
  split.
  { unfold OutgoingIPPacketEventHandler. fold w1.
    change (mModuleState (gTHCINCPContext w1)) with (mModuleState (gTHCINCPContext w)).
    change (mStallOutgoingDataPackets (gTHCISDKContext w1))
      with (mStallOutgoingDataPackets (gTHCISDKContext w)).
    rewrite Hst, Hstall. reflexivity. }
  split.
  { unfold thciStallOutgoingDataPackets. rewrite Hstall. reflexivity. }
  subst w2. unfold thciStallOutgoingDataPackets.
  change (mStallOutgoingDataPackets (gTHCISDKContext w1))
    with (mStallOutgoingDataPackets (gTHCISDKContext w)).
  rewrite Hstall. cbn [Bool.eqb negb andb].
  set (w3 := with_sdk _ w1).
  change (mMessageQueue (gTHCISDKContext w3))
    with (mMessageQueue (gTHCISDKContext w)).
  destruct (IsMessageQueueEmpty (mMessageQueue (gTHCISDKContext w))); cbn [negb].
  - repeat split. unfold sdk_events. subst w3 w1. unfold_updates. thci_fields.
    rewrite Hq. reflexivity.
  - destruct (post_pump_event_once_fields w3) as (Hmq & Hncp & Hflag).
    assert (Hq3 : mSdkQueue (gTHCISDKContext w3) = Some q) by exact Hq.
    unfold post_pump_event_once in *.
    change (sOutgoingIPPacketEventPosted w3) with 0 in *. cbn [Z.eqb Z.lor] in *.
    set (w4 := set_sOutgoingIPPacketEventPosted 1 w3) in *.
    assert (Hq4 : mSdkQueue (gTHCISDKContext w4) = Some q) by exact Hq.
    destruct (sdk_events_post sOutgoingIPPacketEvent w4 q Hq4) as (Hev & _).
    split; [reflexivity |]. split; [exact Hmq |]. split; [exact Hncp |].
    split; [exact Hflag | exact Hev].
Qed.

End Stall.

(** A message is queued in a module whose outgoing packets are stalled. *)
Lemma stall_holds_the_queue_and_release_resumes_the_pump_witness :
  let OT := openthread_reference in
  let m := mk_message 0 [96; 0] 0 2 16 0 in
  let q := snd (EnqueueMessage (Some m) queue_init) in
  let w := with_sdk (fun c =>
             mk_sdk (mSdkQueue c) (mNetifThread c) q (mInsecureSourcePort c)
                    (mSecurityFlags c) (mDeviceRole c) true)
             (set_sOutgoingIPPacketEventPosted 1 thci_initialized) in
  let env := fun _ : nat => mk_request_env (fun _ _ _ _ => OT_ERROR_NONE) [] false in
  let w1 := set_sOutgoingIPPacketEventPosted 0 w in
  let w2 := thciStallOutgoingDataPackets false w1 in
  OutgoingIPPacketEventHandler None (Some ReceiveControlFrame) 1 env
    (uart_enabled true, w) = Some (uart_enabled true, w1) /\
  thciStallOutgoingDataPackets true w = w /\
  mStallOutgoingDataPackets (gTHCISDKContext w2) = false /\
  mMessageQueue (gTHCISDKContext w2) = mMessageQueue (gTHCISDKContext w) /\
  gTHCINCPContext w2 = gTHCINCPContext w /\
  sOutgoingIPPacketEventPosted w2 = 1 /\
  sdk_events w2 = [] ++ [sOutgoingIPPacketEvent].
Proof.
  intros OT m q w env w1 w2.
  exact (stall_holds_the_queue_and_release_resumes_the_pump (OT := OT)
           None (Some ReceiveControlFrame) 1 env (uart_enabled true) w []
           ltac:(reflexivity) ltac:(reflexivity) ltac:(reflexivity)).
Defined.

(** * Requests and the responses that echo their header *)

Lemma header_tid_round_trip (tid : Z) :
  0 <= tid <= 15 -> SPINEL_HEADER_GET_TID (thciUartFrameSend_header tid) = tid.
Proof.
  intros H.
  assert (Hall : forallb (fun t => SPINEL_HEADER_GET_TID (thciUartFrameSend_header t) =? t)
                         (map Z.of_nat (seq 0 16)) = true) by (vm_compute; reflexivity).
  rewrite forallb_forall in Hall. apply Z.eqb_eq, Hall.
  apply in_map_iff. exists (Z.to_nat tid). split; [lia |]. apply in_seq. lia.
Qed.

Section RequestHeader.
Context `{OT : OpenThread}.
Variable sDataFrameCB : option (Z -> Z -> list Z -> thci_t -> thci_t).
Variable sControlFrameCB : option (Z -> Z -> Z -> list Z -> thci_t -> thci_t).

(** X15: a response is matched to the request whose header it echoes.
    For the transaction id that [GetNewTransactionId] draws from any
    counter value, a frame that carries the header [thciUartFrameSend]
    packed for it and the awaited command and key is taken as the
    successful response with its arguments; a frame with the header of any
    other transaction id of 2 to 14 is not taken as the response and leaves
    the statics of the wait as they are. *)
Theorem response_with_request_header_is_accepted (counter aCommand aKey : Z)
  (args : list Z) (u : uart_t) (w : thci_t) :
  0 <= aCommand < 256 ->
  let tid := GetNewTransactionId counter in
  let p := register_response tid aCommand aKey u in
  let u' := fst (HandleFrame sDataFrameCB sControlFrameCB
                   (Some (mk_frame (thciUartFrameSend_header tid) aCommand aKey args))
                   (p, w)) in
  sResponseReceived u' = true /\
  sResponseSuccess u' = true /\
  sResponseBuffer u' = args /\
  forall other,
    2 <= other <= 14 -> other <> tid ->
    fst (HandleFrame sDataFrameCB sControlFrameCB
           (Some (mk_frame (thciUartFrameSend_header other) aCommand aKey args))
           (p, w)) = p.
Proof.
  intros Hcmd tid p u'.
  pose proof (GetNewTransactionId_range counter) as Htid. fold tid in Htid.
  assert (Hp : sResponseTransactionId p = tid /\ sResponseCommand p = aCommand /\
               sResponseKey p = aKey).
  { subst p. unfold register_response, uint8_t. thci_fields.
    rewrite !Z.mod_small by lia. auto. }
  destruct Hp as (Hp1 & Hp2 & Hp3).
  destruct (register_response_pending tid aCommand aKey u) as (Hq1 & Hq2 & Hq3 & _).
  fold p in Hq1, Hq2, Hq3.
  assert (Hnd : sResponseTransactionId p <> kDontCareTransactionId).
  { rewrite Hp1. unfold kDontCareTransactionId. lia. }
  split; [| split; [| split]].
  - subst u'. apply HandleFrame_matched; [exact Hq1 |].
    left. split; [exact Hnd |]. cbn [fHeader].
    rewrite Hp1. apply header_tid_round_trip. lia.
  - subst u'.
    destruct (HandleFrame_matched sDataFrameCB sControlFrameCB p w
                (mk_frame (thciUartFrameSend_header tid) aCommand aKey args) Hq1)
      as (_ & _ & Hs & _).
    { left. split; [exact Hnd |]. cbn [fHeader].
      rewrite Hp1. apply header_tid_round_trip. lia. }
    rewrite Hs. unfold expected_pairb. cbn [fCommand fKey].
    rewrite Hp2, Hp3, !Z.eqb_refl. apply orb_true_r.
  - subst u'.
    destruct (HandleFrame_matched sDataFrameCB sControlFrameCB p w
                (mk_frame (thciUartFrameSend_header tid) aCommand aKey args) Hq1)
      as (_ & Hb & _).
    { left. split; [exact Hnd |]. cbn [fHeader].
      rewrite Hp1. apply header_tid_round_trip. lia. }
    exact Hb.
  - intros other Hother Hneq. apply HandleFrame_unmatched.
    intros [[_ H] | [H _]]; [| contradiction].
    cbn [fHeader] in H. rewrite header_tid_round_trip in H by lia. congruence.
Qed.

End RequestHeader.

(** A property get (command 2) for the role (key 67) after the counter
    held 14: the transaction id is 2 and the header [0x82]. *)
Lemma response_with_request_header_is_accepted_witness :
  let OT := openthread_reference in
  let p := register_response 2 6 67 (uart_enabled true) in
  let u' := fst (HandleFrame None (Some ReceiveControlFrame)
                   (Some (mk_frame 130 6 67 [1])) (p, thci_initialized)) in
  sResponseReceived u' = true /\
  sResponseSuccess u' = true /\
  sResponseBuffer u' = [1] /\
  forall other,
    2 <= other <= 14 -> other <> 2 ->
    fst (HandleFrame None (Some ReceiveControlFrame)
           (Some (mk_frame (thciUartFrameSend_header other) 6 67 [1]))
           (p, thci_initialized)) = p.
Proof.
  intros OT p u'.
  exact (response_with_request_header_is_accepted (OT := OT)
           None (Some ReceiveControlFrame) 14 6 67 [1] (uart_enabled true)
           thci_initialized ltac:(lia)).
Defined.

(** * Datagrams sent while a joiner is assisted *)


Lemma ReadMessage_enough (p : Z) (buf : list Z) (off len tot fl n : Z) :
  0 < n <= len - off ->
  ReadMessage (mk_message p buf off len tot fl) n
  = (n, firstn (Z.to_nat n) (skipn (Z.to_nat off) buf),
     mk_message p buf (uint16_t (off + n)) len tot fl).
Proof.
  intros H. unfold ReadMessage, set_message.
  cbn [msgPtr mBuffer mOffset mLength mTotalLength mFlags].
  replace (n >? len - off) with false
    by (symmetry; rewrite Z.gtb_ltb; apply Z.ltb_ge; lia).
  replace (n =? 0) with false by (symmetry; apply Z.eqb_neq; lia).
  reflexivity.
Qed.





(** * Reception of a datagram *)

Lemma flag_set_after_lor (flags bit : Z) :
  bit = 1 \/ bit = 2 \/ bit = 4 \/ bit = 8 ->
  negb (Z.land (uint8_t (Z.lor flags bit)) bit =? 0) = true.
Proof.
  intros Hbit. apply negb_true_iff, Z.eqb_neq. intros H.
  assert (Hex : exists n, 0 <= n < 8 /\ bit = 2 ^ n).
  { destruct Hbit as [-> | [-> | [-> | ->]]];
      [exists 0 | exists 1 | exists 2 | exists 3]; split; (lia || reflexivity). }
  destruct Hex as (n & Hn & ->).
  apply (f_equal (fun x => Z.testbit x n)) in H.
  rewrite Z.land_spec, Z.bits_0, Z.pow2_bits_eqb, Z.eqb_refl, andb_true_r in H by lia.
  unfold uint8_t in H. change 256 with (2 ^ 8) in H.
  rewrite Z.mod_pow2_bits_low, Z.lor_spec, Z.pow2_bits_eqb, Z.eqb_refl, orb_true_r in H
    by lia.
  discriminate.
Qed.

Section Ip6ReceiveProperties.
Context `{OT : OpenThread}.
Variable spinel_unpack_data_wlen : list Z -> Z * list Z.

(** X17: a secure message for the insecure port ends the insecure
    answers.  A frame of the network stream whose datagram parses is
    handed to the IP stack as it is.  When the frame came on the secure
    stream while a joiner is assisted, the buffer announces TCP and the
    bytes at offsets 42 and 43 are the insecure source port, the driver
    records that a secure message arrived, after which
    [SendProvisionalJoinResponseInsecurely] answers [false]; in every
    other case the contexts are unchanged.  Without a buffer the frame is
    dropped and nothing changes. *)
Theorem secure_message_on_insecure_port_ends_insecure_answers
  (stale : list Z) (aCommand aKey : Z) (aBuf arg : list Z) (w : thci_t) :
  spinel_unpack_data_wlen aBuf = (Z.of_nat (length aBuf), arg) ->
  let r := ReceiveIp6Datagram spinel_unpack_data_wlen true stale
             aCommand aKey aBuf w in
  let buffer := arg ++ stale in
  let hit :=
    negb (aKey =? SPINEL_PROP_STREAM_NET_INSECURE)
    && SendProvisionalJoinResponseInsecurely w
    && (nth 6 buffer 0 =? IP6_NEXTH_TCP)
    && (nth 42 buffer 0 * 256 + nth 43 buffer 0
        =? mInsecureSourcePort (gTHCISDKContext w)) in
  fst r = Some arg /\
  (if hit
   then
     SendProvisionalJoinResponseInsecurely (snd r) = false /\
     mSecurityFlags (gTHCISDKContext (snd r))
     = uint8_t (Z.lor (mSecurityFlags (gTHCISDKContext w))
                      THCI_SECURITY_FLAG_SECURE_MSG_RXD_ON_INSECURE_PORT) /\
     mInsecureSourcePort (gTHCISDKContext (snd r))
     = mInsecureSourcePort (gTHCISDKContext w) /\
     gTHCINCPContext (snd r) = gTHCINCPContext w /\
     unchanged pump_only w (snd r)
   else snd r = w) /\
  ReceiveIp6Datagram spinel_unpack_data_wlen false stale aCommand aKey aBuf w
  = (None, w).
Proof.
  intros Hparse r buffer hit. subst r. unfold ReceiveIp6Datagram.
  rewrite Hparse, Z.eqb_refl. cbn [negb]. fold buffer.
  split; [reflexivity |]. split; [| reflexivity].
  assert (Hnexth : IP6H_NEXTH (firstn (Z.to_nat sizeof_ip6_hdr) buffer)
                   = nth 6 buffer 0).
  { unfold IP6H_NEXTH. rewrite nth_firstn. reflexivity. }
  assert (Hport : lwip_ntohs_bytes
                    (firstn 2 (skipn (Z.to_nat (sizeof_ip6_hdr + 2)) buffer))
                  = nth 42 buffer 0 * 256 + nth 43 buffer 0).
  { unfold lwip_ntohs_bytes. rewrite !nth_firstn, !nth_skipn. reflexivity. }
  rewrite Hnexth, Hport. subst hit. cbn [snd].
  destruct (negb (aKey =? SPINEL_PROP_STREAM_NET_INSECURE)); cbn [andb];
    [| reflexivity].
  destruct (SendProvisionalJoinResponseInsecurely w) eqn:Eprov; cbn [andb];
    [| reflexivity].
  destruct (nth 6 buffer 0 =? IP6_NEXTH_TCP); cbn [andb]; [| reflexivity].
  destruct (_ =? mInsecureSourcePort (gTHCISDKContext w)); [| reflexivity].
  split.
  - unfold SendProvisionalJoinResponseInsecurely,
      THCI_RECEIVED_SECURE_MESSAGE_ON_INSECURE_PORT.
    unfold with_sdk, set_security. thci_fields.
    rewrite flag_set_after_lor by (unfold THCI_SECURITY_FLAG_SECURE_MSG_RXD_ON_INSECURE_PORT; auto).
    apply andb_false_r.
  - repeat split; intros H; exact H.
Qed.

End Ip6ReceiveProperties.

(** A router assists a joiner on port 11095 and receives, on the secure
    stream, a TCP segment for that port. *)
Lemma secure_message_on_insecure_port_ends_insecure_answers_witness :
  let OT := openthread_reference in
  let unpack := fun bytes : list Z =>
    match bytes with
    | lo :: hi :: rest => (Z.of_nat (length bytes), rest)
    | _ => (-1, [])
    end in
  let sdk := mk_sdk (Some []) (Some 1) queue_init 11095 3 OT_DEVICE_ROLE_ROUTER false in
  let w := mk_thci (gTHCINCPContext thci_initialized) sdk 0 [] in
  let segment := repeat 0 6 ++ [6] ++ repeat 0 35 ++ [43; 87] ++ repeat 0 16 in
  let r := ReceiveIp6Datagram unpack true [] 6 SPINEL_PROP_STREAM_NET
             (60 :: 0 :: segment) w in
  fst r = Some segment /\
  SendProvisionalJoinResponseInsecurely w = true /\
  SendProvisionalJoinResponseInsecurely (snd r) = false /\
  mSecurityFlags (gTHCISDKContext (snd r)) = 11.
Proof.
  intros OT unpack sdk w segment r.
  destruct (secure_message_on_insecure_port_ends_insecure_answers (OT := OT)
              unpack [] 6 SPINEL_PROP_STREAM_NET (60 :: 0 :: segment) segment w
              ltac:(reflexivity)) as (H1 & H2 & _).
  split; [exact H1 |]. split; [reflexivity |].
  destruct H2 as (H2 & H3 & _). split; [exact H2 | exact H3].
Defined.

(** * Corruption of datagrams for certification tests *)

Lemma array_store_app_l (a b : list Z) (v : Z) :
  forall i : nat, (i < length a)%nat ->
    array_store i v (a ++ b) = array_store i v a ++ b.
Proof.
  induction a as [| x a IH]; intros i Hi; cbn [length] in Hi; [lia |].
  destruct i as [| i]; cbn [app array_store]; [reflexivity |].
  rewrite IH by lia. reflexivity.
Qed.

Lemma array_store_app_r (a b : list Z) (v : Z) :
  forall i : nat, (length a <= i)%nat ->
    array_store i v (a ++ b) = a ++ array_store (i - length a) v b.
Proof.
  induction a as [| x a IH]; intros i Hi; cbn [length] in *.
  - rewrite Nat.sub_0_r. reflexivity.
  - destruct i as [| i]; [lia |]. cbn [app array_store Nat.sub].
    rewrite IH by lia. reflexivity.
Qed.

Lemma array_store_same (a : list Z) :
  forall (i : nat) (v : Z),
    array_store i (nth i a 0) (array_store i v a) = a.
Proof.
  induction a as [| x a IH]; intros [| i] v; cbn [array_store nth]; try reflexivity.
  rewrite IH. reflexivity.
Qed.

Lemma flip_twice (old bit : Z) :
  0 <= old < 256 -> 0 <= bit < 8 ->
  uint8_t (Z.lxor (uint8_t (Z.lxor old (Z.shiftl 1 bit))) (Z.shiftl 1 bit)) = old.
Proof.
  intros Ho Hb.
  assert (H : forallb (fun b =>
                uint8_t (Z.lxor (uint8_t (Z.lxor old (Z.shiftl 1 b))) (Z.shiftl 1 b))
                =? old) [0; 1; 2; 3; 4; 5; 6; 7] = true).
  { revert old Ho.
    apply (forall_uint8 (fun old => forallb (fun b =>
             uint8_t (Z.lxor (uint8_t (Z.lxor old (Z.shiftl 1 b))) (Z.shiftl 1 b))
             =? old) [0; 1; 2; 3; 4; 5; 6; 7])).
    vm_compute. reflexivity. }
  rewrite forallb_forall in H. apply Z.eqb_eq, H.
  assert (Hc : bit = 0 \/ bit = 1 \/ bit = 2 \/ bit = 3 \/ bit = 4 \/ bit = 5 \/
               bit = 6 \/ bit = 7) by lia.
  cbn [In]. intuition auto.
Qed.

Lemma flipped_bit (old bit j : Z) :
  0 <= bit -> 0 <= j < 8 ->
  Z.testbit (uint8_t (Z.lxor old (Z.shiftl 1 bit))) j
  = xorb (Z.testbit old j) (bit =? j).
Proof.
  intros Hb Hj. unfold uint8_t. change 256 with (2 ^ 8).
  rewrite Z.mod_pow2_bits_low, Z.lxor_spec, Z.shiftl_1_l, Z.pow2_bits_eqb by lia.
  reflexivity.
Qed.

Lemma bit_flip_loop_shape (bit : Z) (chain : list pbuf) :
  forall byte_offset,
    map len (thci_cert_pbuf_bit_flip_loop bit byte_offset chain) = map len chain /\
    map tot_len (thci_cert_pbuf_bit_flip_loop bit byte_offset chain)
    = map tot_len chain.
Proof.
  induction chain as [| b next IH]; intros o; cbn [thci_cert_pbuf_bit_flip_loop];
    [split; reflexivity |].
  destruct (len b >? o).
  - split; reflexivity.
  - cbn [map]. destruct (IH (o - len b)) as (-> & ->). split; reflexivity.
Qed.

Lemma bit_flip_loop_wf (bit : Z) (chain : list pbuf) :
  forall byte_offset,
    pbuf_wf chain -> pbuf_wf (thci_cert_pbuf_bit_flip_loop bit byte_offset chain).
Proof.
  induction chain as [| b next IH]; intros o Hwf; cbn [thci_cert_pbuf_bit_flip_loop];
    [exact I |].
  destruct Hwf as (H1 & H2 & H3 & H4 & H5).
  destruct (len b >? o).
  - cbn [pbuf_wf set_payload payload len tot_len].
    rewrite length_array_store. auto.
  - cbn [pbuf_wf]. split; [exact H1 |]. split; [exact H2 |]. split; [exact H3 |].
    split; [| apply IH; exact H5].
    rewrite H4. f_equal.
    pose proof (bit_flip_loop_shape bit next (o - len b)) as (_ & Ht).
    destruct next as [| q next'];
      destruct (thci_cert_pbuf_bit_flip_loop bit (o - len b) _) as [| q' next''];
      cbn [map] in Ht; congruence.
Qed.

Lemma bit_flip_loop_bytes (bit : Z) (chain : list pbuf) :
  forall byte_offset,
    pbuf_wf chain -> 0 <= byte_offset ->
    datagram_bytes (thci_cert_pbuf_bit_flip_loop bit byte_offset chain)
    = array_store (Z.to_nat byte_offset)
        (uint8_t (Z.lxor (nth (Z.to_nat byte_offset) (datagram_bytes chain) 0)
                         (Z.shiftl 1 bit)))
        (datagram_bytes chain).
Proof.
  unfold datagram_bytes.
  induction chain as [| b next IH]; intros o Hwf Ho;
    cbn [thci_cert_pbuf_bit_flip_loop map concat].
  - destruct (Z.to_nat o); reflexivity.
  - destruct Hwf as (H1 & H2 & H3 & H4 & H5).
    destruct (len b >? o) eqn:E.
    + rewrite Z.gtb_ltb in E. apply Z.ltb_lt in E.
      cbn [map concat set_payload payload].
      rewrite app_nth1, array_store_app_l by lia. reflexivity.
    + rewrite Z.gtb_ltb in E. apply Z.ltb_ge in E.
      cbn [map concat]. rewrite IH by (auto; lia).
      rewrite app_nth2, array_store_app_r by lia.
      replace (Z.to_nat (o - len b)) with (Z.to_nat o - length (payload b))%nat by lia.
      reflexivity.
Qed.

Lemma bit_flip_loop_twice (bit : Z) (chain : list pbuf) :
  forall byte_offset,
    pbuf_wf chain -> Forall (fun b => 0 <= b < 256) (datagram_bytes chain) ->
    0 <= bit < 8 -> 0 <= byte_offset ->
    thci_cert_pbuf_bit_flip_loop bit byte_offset
      (thci_cert_pbuf_bit_flip_loop bit byte_offset chain) = chain.
Proof.
  unfold datagram_bytes.
  induction chain as [| b next IH]; intros o Hwf Hr Hb Ho;
    cbn [thci_cert_pbuf_bit_flip_loop]; [reflexivity |].
  destruct Hwf as (H1 & H2 & H3 & H4 & H5).
  cbn [map concat] in Hr. apply Forall_app in Hr. destruct Hr as (Hr1 & Hr2).
  destruct (len b >? o) eqn:E.
  - cbn [thci_cert_pbuf_bit_flip_loop set_payload len payload tot_len].
    rewrite E. f_equal.
    rewrite Z.gtb_ltb in E. apply Z.ltb_lt in E.
    rewrite nth_array_store.
    replace (Z.to_nat o <? length (payload b))%nat with true
      by (symmetry; apply Nat.ltb_lt; lia).
    rewrite Nat.eqb_refl. cbn [andb].
    rewrite flip_twice.
    + rewrite array_store_same. destruct b; reflexivity.
    + rewrite Forall_forall in Hr1. apply Hr1, nth_In. lia.
    + exact Hb.
  - cbn [thci_cert_pbuf_bit_flip_loop]. rewrite E.
    rewrite Z.gtb_ltb in E. apply Z.ltb_ge in E.
    rewrite IH by (auto; lia). reflexivity.
Qed.

Lemma offset_split (offset : Z) :
  0 <= offset ->
  0 <= Z.land offset 7 < 8 /\ 0 <= Z.shiftr offset 3 /\
  offset = 8 * Z.shiftr offset 3 + Z.land offset 7.
Proof.
  intros Ho. change 7 with (Z.ones 3).
  rewrite Z.land_ones, Z.shiftr_div_pow2 by lia. change (2 ^ 3) with 8.
  mod_lia.
Qed.

Lemma bit_flip_bits (chain : list pbuf) (offset : Z) (k : nat) (j : Z) :
  pbuf_wf chain -> 0 <= offset -> 0 <= j < 8 ->
  (k < length (datagram_bytes chain))%nat ->
  Z.testbit (nth k (datagram_bytes (thci_cert_pbuf_bit_flip chain offset)) 0) j
  = xorb (Z.testbit (nth k (datagram_bytes chain) 0) j)
         (8 * Z.of_nat k + j =? offset).
Proof.
  intros Hwf Ho Hj Hk. unfold thci_cert_pbuf_bit_flip.
  destruct (offset_split offset Ho) as (Hb & Hy & Hsplit).
  rewrite bit_flip_loop_bytes, nth_array_store by auto.
  destruct (k =? Z.to_nat (Z.shiftr offset 3))%nat eqn:Ek.
  - apply Nat.eqb_eq in Ek.
    replace (Z.to_nat (Z.shiftr offset 3) <? length (datagram_bytes chain))%nat
      with true by (symmetry; apply Nat.ltb_lt; lia).
    cbn [andb]. rewrite flipped_bit by lia. rewrite <- Ek. f_equal.
    destruct (Z.land offset 7 =? j) eqn:Ej.
    + apply Z.eqb_eq in Ej. symmetry. apply Z.eqb_eq. lia.
    + apply Z.eqb_neq in Ej. symmetry. apply Z.eqb_neq. lia.
  - apply Nat.eqb_neq in Ek. cbn [andb].
    replace (8 * Z.of_nat k + j =? offset) with false
      by (symmetry; apply Z.eqb_neq; lia).
    rewrite xorb_false_r. reflexivity.
Qed.

Lemma bit_flip_length (chain : list pbuf) (offset : Z) :
  pbuf_wf chain -> 0 <= offset ->
  length (datagram_bytes (thci_cert_pbuf_bit_flip chain offset))
  = length (datagram_bytes chain).
Proof.
  intros Hwf Ho. unfold thci_cert_pbuf_bit_flip.
  destruct (offset_split offset Ho) as (Hb & Hy & Hsplit).
  rewrite bit_flip_loop_bytes, length_array_store by auto. reflexivity.
Qed.

Lemma bit_flip_range (chain : list pbuf) (offset : Z) :
  pbuf_wf chain -> 0 <= offset ->
  Forall (fun b => 0 <= b < 256) (datagram_bytes chain) ->
  Forall (fun b => 0 <= b < 256) (datagram_bytes (thci_cert_pbuf_bit_flip chain offset)).
Proof.
  intros Hwf Ho Hr. unfold thci_cert_pbuf_bit_flip.
  destruct (offset_split offset Ho) as (Hb & Hy & Hsplit).
  rewrite bit_flip_loop_bytes by auto.
  rewrite Forall_forall in *. intros x Hx.
  apply (In_nth _ _ 0) in Hx. destruct Hx as (n & Hn & <-).
  rewrite length_array_store in Hn. rewrite nth_array_store.
  destruct (_ && _).
  - unfold uint8_t. apply Z.mod_pos_bound. lia.
  - apply Hr, nth_In. exact Hn.
Qed.

Lemma bit_flip_other_bytes (chain : list pbuf) (offset : Z) (k : nat) :
  pbuf_wf chain -> 0 <= offset ->
  Z.of_nat k <> Z.shiftr offset 3 ->
  nth k (datagram_bytes (thci_cert_pbuf_bit_flip chain offset)) 0
  = nth k (datagram_bytes chain) 0.
Proof.
  intros Hwf Ho Hk. unfold thci_cert_pbuf_bit_flip.
  destruct (offset_split offset Ho) as (Hb & Hy & Hsplit).
  rewrite bit_flip_loop_bytes, nth_array_store by auto.
  replace (k =? Z.to_nat (Z.shiftr offset 3))%nat with false
    by (symmetry; apply Nat.eqb_neq; lia).
  reflexivity.
Qed.

Lemma bit_flip_loop_past (bit : Z) (chain : list pbuf) :
  forall byte_offset,
    pbuf_wf chain ->
    Z.of_nat (length (datagram_bytes chain)) <= byte_offset ->
    thci_cert_pbuf_bit_flip_loop bit byte_offset chain = chain.
Proof.
  unfold datagram_bytes.
  induction chain as [| b next IH]; intros o Hwf Hlen;
    cbn [thci_cert_pbuf_bit_flip_loop]; [reflexivity |].
  destruct Hwf as (H1 & H2 & H3 & H4 & H5).
  cbn [map concat] in Hlen. rewrite length_app in Hlen.
  replace (len b >? o) with false by (symmetry; rewrite Z.gtb_ltb; apply Z.ltb_ge; lia).
  rewrite IH; [reflexivity | exact H5 | lia].
Qed.

(** X18: [thci_cert_pbuf_bit_flip] inverts exactly the bit it is asked
    for.  On a well-formed chain the lengths of the buffers stay as they
    are, bit [j] of byte [k] of the datagram is inverted when
    [8 * k + j] is the offset and kept otherwise (so an offset past the end
    of the datagram changes nothing), and a second call with the same
    offset restores the chain. *)
Theorem thci_cert_pbuf_bit_flip_inverts_one_bit (chain : list pbuf) (offset : Z) :
  pbuf_wf chain ->
  Forall (fun b => 0 <= b < 256) (datagram_bytes chain) ->
  0 <= offset ->
  let chain' := thci_cert_pbuf_bit_flip chain offset in
  map len chain' = map len chain /\
  map tot_len chain' = map tot_len chain /\
  pbuf_wf chain' /\
  length (datagram_bytes chain') = length (datagram_bytes chain) /\
  (forall (k : nat) (j : Z),
     (k < length (datagram_bytes chain))%nat -> 0 <= j < 8 ->
     Z.testbit (nth k (datagram_bytes chain') 0) j
     = xorb (Z.testbit (nth k (datagram_bytes chain) 0) j)
            (8 * Z.of_nat k + j =? offset)) /\
  (8 * Z.of_nat (length (datagram_bytes chain)) <= offset -> chain' = chain) /\
  thci_cert_pbuf_bit_flip chain' offset = chain.
Proof.
  intros Hwf Hr Ho chain'.
  destruct (offset_split offset Ho) as (Hb & Hy & Hsplit).
  destruct (bit_flip_loop_shape (Z.land offset 7) chain (Z.shiftr offset 3))
    as (Hl & Ht).
  split; [exact Hl |]. split; [exact Ht |].
  split; [apply bit_flip_loop_wf; exact Hwf |].
  split; [apply bit_flip_length; assumption |].
  split; [intros k j Hk Hj; apply bit_flip_bits; assumption |].
  split; [| apply bit_flip_loop_twice; assumption].
  intros Hpast. subst chain'. unfold thci_cert_pbuf_bit_flip.
  apply bit_flip_loop_past; [exact Hwf | lia].
Qed.

(** A chain of two buffers of two bytes; bit 1 of the third byte of the
    datagram is inverted, the first bit of the second buffer. *)
Lemma thci_cert_pbuf_bit_flip_inverts_one_bit_witness :
  let chain := [mk_pbuf [1; 2] 2 4; mk_pbuf [3; 4] 2 2] in
  thci_cert_pbuf_bit_flip chain 17 = [mk_pbuf [1; 2] 2 4; mk_pbuf [1; 4] 2 2] /\
  thci_cert_pbuf_bit_flip (thci_cert_pbuf_bit_flip chain 17) 17 = chain /\
  thci_cert_pbuf_bit_flip chain 32 = chain.
Proof.
  intros chain.
  assert (Hwf : pbuf_wf chain) by (cbn; repeat split; lia).
  assert (Hr : Forall (fun b => 0 <= b < 256) (datagram_bytes chain))
    by (repeat constructor; lia).
  split; [reflexivity |]. split.
  - apply (thci_cert_pbuf_bit_flip_inverts_one_bit chain 17 Hwf Hr ltac:(lia)).
  - destruct (thci_cert_pbuf_bit_flip_inverts_one_bit chain 32 Hwf Hr ltac:(lia))
      as (_ & _ & _ & _ & _ & H & _).
    apply H. cbn. lia.
Defined.

Lemma chain_tot_len_of_map (a b : list pbuf) :
  map tot_len a = map tot_len b -> chain_tot_len a = chain_tot_len b.
Proof.
  destruct a, b; cbn [map chain_tot_len]; congruence.
Qed.

Lemma thci_cert_offset_range (tot r : Z) :
  40 < tot -> 0 <= r ->
  320 <= thci_cert_offset tot r < 8 * tot.
Proof.
  intros Ht Hr. unfold thci_cert_offset.
  rewrite !Z.shiftl_mul_pow2 by lia. change (2 ^ 3) with 8.
  rewrite Z.rem_mod_nonneg by lia. mod_lia.
Qed.

Lemma corrupt_loop_bits (rand : nat -> Z) (tot : Z) :
  40 < tot -> (forall i, 0 <= rand i) ->
  forall (todo i : nat) (chain : list pbuf),
    pbuf_wf chain -> chain_tot_len chain = tot ->
    exists chain',
      thci_cert_pbuf_corrupt_loop todo i rand chain = Some chain' /\
      map len chain' = map len chain /\
      map tot_len chain' = map tot_len chain /\
      pbuf_wf chain' /\
      (forall k : nat, (k < 40)%nat ->
         nth k (datagram_bytes chain') 0 = nth k (datagram_bytes chain) 0) /\
      (forall (k : nat) (j : Z),
         (k < length (datagram_bytes chain))%nat -> 0 <= j < 8 ->
         Z.testbit (nth k (datagram_bytes chain') 0) j
         = xorb (Z.testbit (nth k (datagram_bytes chain) 0) j)
             (Nat.odd (count_occ Z.eq_dec
                         (map (fun n => thci_cert_offset tot (rand n)) (seq i todo))
                         (8 * Z.of_nat k + j)))).
Proof.
  intros Htot Hrand.
  induction todo as [| todo IH]; intros i chain Hwf Ht;
    cbn [thci_cert_pbuf_corrupt_loop].
  - exists chain. repeat split; auto.
    intros k j _ _. cbn. rewrite xorb_false_r. reflexivity.
  - rewrite Ht. replace (tot - 40 <=? 0) with false by (symmetry; apply Z.leb_gt; lia).
    set (offset := thci_cert_offset tot (rand i)).
    pose proof (thci_cert_offset_range tot (rand i) Htot (Hrand i)) as Hoff.
    fold offset in Hoff.
    destruct (offset_split offset ltac:(lia)) as (Hb & Hy & Hsplit).
    set (chain1 := thci_cert_pbuf_bit_flip chain offset).
    destruct (bit_flip_loop_shape (Z.land offset 7) chain (Z.shiftr offset 3))
      as (Hl1 & Ht1).
    fold (thci_cert_pbuf_bit_flip chain offset) in Hl1, Ht1. fold chain1 in Hl1, Ht1.
    assert (Hwf1 : pbuf_wf chain1) by (apply bit_flip_loop_wf; exact Hwf).
    assert (Htot1 : chain_tot_len chain1 = tot)
      by (rewrite (chain_tot_len_of_map _ _ Ht1); exact Ht).
    destruct (IH (S i) chain1 Hwf1 Htot1) as (chain' & He & Hl & Htl & Hwf' & Hh & Hbits).
    exists chain'. split; [exact He |].
    split; [congruence |]. split; [congruence |]. split; [exact Hwf' |].
    split.
    + intros k Hk. rewrite (Hh k Hk). apply bit_flip_other_bytes; [exact Hwf | lia | lia].
    + intros k j Hk Hj.
      assert (Hlen1 : length (datagram_bytes chain1) = length (datagram_bytes chain))
        by (apply bit_flip_length; [exact Hwf | lia]).
      rewrite Hbits by (rewrite ?Hlen1; assumption).
      unfold chain1. rewrite bit_flip_bits by (auto; lia).
      rewrite xorb_assoc. f_equal.
      cbn [seq map count_occ]. fold offset.
      destruct (Z.eq_dec offset (8 * Z.of_nat k + j)) as [-> | Hne].
      * rewrite Z.eqb_refl, Nat.odd_succ, <- Nat.negb_odd. reflexivity.
      * replace (8 * Z.of_nat k + j =? offset) with false
          by (symmetry; apply Z.eqb_neq; lia).
        reflexivity.
Qed.

(** X19: [thci_cert_pbuf_corrupt] never touches the IPv6 header and
    inverts one bit of the rest for each round.  For a well-formed chain
    of more than 40 bytes and up to three bits, every offset drawn lies
    after the header and within the datagram, the buffers keep their
    lengths, the first 40 bytes stay as they are, and a bit of the
    datagram is inverted as many times as its offset was drawn: an offset
    drawn twice leaves its bit as it was.  A request for more than three
    bits changes nothing. *)
Theorem thci_cert_pbuf_corrupt_spares_the_header
  (rand : nat -> Z) (chain : list pbuf) (bits : Z) :
  pbuf_wf chain ->
  (forall i, 0 <= rand i) ->
  let tot := chain_tot_len chain in
  let offsets :=
    map (fun n => thci_cert_offset tot (rand n)) (seq 0 (Z.to_nat bits)) in
  (3 < bits -> thci_cert_pbuf_corrupt rand chain bits = Some chain) /\
  (0 <= bits <= 3 -> 40 < tot ->
   exists chain',
     thci_cert_pbuf_corrupt rand chain bits = Some chain' /\
     map len chain' = map len chain /\
     map tot_len chain' = map tot_len chain /\
     pbuf_wf chain' /\
     Forall (fun o => 320 <= o < 8 * tot) offsets /\
     (forall k : nat, (k < 40)%nat ->
        nth k (datagram_bytes chain') 0 = nth k (datagram_bytes chain) 0) /\
     (forall (k : nat) (j : Z),
        (k < length (datagram_bytes chain))%nat -> 0 <= j < 8 ->
        Z.testbit (nth k (datagram_bytes chain') 0) j
        = xorb (Z.testbit (nth k (datagram_bytes chain) 0) j)
               (Nat.odd (count_occ Z.eq_dec offsets (8 * Z.of_nat k + j))))).
Proof.
  intros Hwf Hrand tot offsets. split.
  - intros Hbits. unfold thci_cert_pbuf_corrupt. destruct chain; [reflexivity |].
    replace (bits <=? 3) with false by (symmetry; apply Z.leb_gt; lia).
    reflexivity.
  - intros Hbits Htot.
    destruct (corrupt_loop_bits rand tot Htot Hrand (Z.to_nat bits) 0%nat chain Hwf
                eq_refl) as (chain' & He & Hl & Ht & Hwf' & Hh & Hb).
    exists chain'. split.
    { unfold thci_cert_pbuf_corrupt. destruct chain as [| b next].
      - cbn in Htot. subst tot. cbn in Htot. lia.
      - replace (bits <=? 3) with true by (symmetry; apply Z.leb_le; lia).
        exact He. }
    split; [exact Hl |]. split; [exact Ht |]. split; [exact Hwf' |].
    split; [| split; [exact Hh | exact Hb]].
    apply Forall_forall. intros o Ho. subst offsets.
    apply in_map_iff in Ho. destruct Ho as (n & <- & _).
    apply thci_cert_offset_range; [exact Htot | apply Hrand].
Qed.

(** A datagram of 44 bytes in one buffer and two rounds that draw the same
    number: the datagram comes back as it was. *)
Lemma thci_cert_pbuf_corrupt_spares_the_header_witness :
  let chain := [mk_pbuf (repeat 0 44) 44 44] in
  let rand := fun _ : nat => 37 in
  thci_cert_pbuf_corrupt rand chain 2 = Some chain /\
  thci_cert_pbuf_corrupt rand chain 1
  = Some [mk_pbuf (repeat 0 40 ++ [32; 0; 0; 0]) 44 44] /\
  thci_cert_pbuf_corrupt rand chain 4 = Some chain.
Proof.
  intros chain rand.
  assert (Hwf : pbuf_wf chain) by (cbn; repeat split; lia).
  assert (Hrand : forall i : nat, 0 <= rand i) by (intros i; unfold rand; lia).
  destruct (thci_cert_pbuf_corrupt_spares_the_header rand chain 4 Hwf Hrand)
    as (Hmany & _).
  destruct (thci_cert_pbuf_corrupt_spares_the_header rand chain 1 Hwf Hrand)
    as (_ & Hone).
  destruct (Hone ltac:(lia) ltac:(cbn; lia)) as (c1 & He1 & _).
  split; [reflexivity |]. split; [reflexivity |].
  apply Hmany. lia.
Defined.

(** * The channels of a scan *)

Lemma land_bit_zero (a i : Z) :
  0 <= i -> (0 =? Z.land a (Z.shiftl 1 i)) = negb (Z.testbit a i).
Proof.
  intros Hi. rewrite Z.shiftl_1_l.
  destruct (Z.testbit a i) eqn:E; cbn [negb].
  - apply Z.eqb_neq. intros H.
    apply (f_equal (fun x => Z.testbit x i)) in H.
    rewrite Z.bits_0, Z.land_spec, E, Z.pow2_bits_eqb, Z.eqb_refl in H by lia.
    discriminate.
  - apply Z.eqb_eq. symmetry. apply Z.bits_inj'. intros n Hn.
    rewrite Z.bits_0, Z.land_spec, Z.pow2_bits_eqb by lia.
    destruct (Z.eqb_spec i n) as [<- | _]; [rewrite E |]; rewrite ?andb_false_r;
      reflexivity.
Qed.

Lemma firstn_length_app (a b : list Z) : firstn (length a) (a ++ b) = a.
Proof.
  rewrite firstn_app, Nat.sub_diag, firstn_all. cbn. apply app_nil_r.
Qed.

Lemma SetScanMaskAll_loop_selects (aScanChannels : Z) :
  forall (rounds : nat) (i : nat) (cur rest : list Z),
    (rounds <= length rest)%nat -> (i + rounds <= 256)%nat ->
    exists rest',
      SetScanMaskAll_loop rounds (Z.of_nat i) aScanChannels (cur ++ rest)
        (Z.of_nat (length cur))
      = Some ((cur ++ filter (Z.testbit aScanChannels)
                        (map Z.of_nat (seq i rounds))) ++ rest',
              Z.of_nat (length (cur ++ filter (Z.testbit aScanChannels)
                                          (map Z.of_nat (seq i rounds))))).
Proof.
  induction rounds as [| rounds IH]; intros i cur rest Hr Hi;
    cbn [SetScanMaskAll_loop seq map filter].
  - exists rest. rewrite app_nil_r. reflexivity.
  - rewrite land_bit_zero, negb_involutive by lia.
    replace (Z.of_nat i + 1) with (Z.of_nat (S i)) by lia.
    destruct (Z.testbit aScanChannels (Z.of_nat i)).
    + destruct rest as [| x rest]; [cbn [length] in Hr; lia |].
      rewrite array_store_checked_app.
      replace (uint8_t (Z.of_nat i)) with (Z.of_nat i)
        by (unfold uint8_t; rewrite Z.mod_small; lia).
      cbn [length] in Hr.
      destruct (IH (S i) (cur ++ [Z.of_nat i]) rest ltac:(lia) ltac:(lia))
        as (rest' & He).
      rewrite <- !app_assoc in He. cbn [app] in He.
      replace (Z.of_nat (length cur) + 1)
        with (Z.of_nat (length (cur ++ [Z.of_nat i])))
        by (rewrite length_app; cbn [length]; lia).
      exists rest'. rewrite He, <- !app_assoc. reflexivity.
    + apply IH; lia.
Qed.

(** X20: the scan mask [SetScanMaskAll] sends lists, in increasing order,
    exactly the channels from 11 to 26 whose bit is set in
    [aScanChannels]; bits of other channels are ignored and the array of
    32 bytes is never exceeded, whatever it held before. *)
Theorem SetScanMaskAll_sends_the_supported_channels
  (aScanChannels : Z) (channelArray : list Z) :
  length channelArray = 32%nat ->
  exists data,
    SetScanMaskAll_data aScanChannels channelArray = Some data /\
    data = filter (Z.testbit aScanChannels) (map Z.of_nat (seq 11 16)) /\
    (length data <= 16)%nat /\
    forall c, In c data <->
      MIN_SUPPORTED_CHANNEL <= c <= MAX_SUPPORTED_CHANNEL /\
      Z.testbit aScanChannels c = true.
Proof.
  intros Hlen. unfold SetScanMaskAll_data.
  destruct (SetScanMaskAll_loop_selects aScanChannels 16 11 [] channelArray
              ltac:(lia) ltac:(lia)) as (rest' & He).
  cbn [app length] in He.
  change (Z.to_nat (MAX_SUPPORTED_CHANNEL - MIN_SUPPORTED_CHANNEL + 1)) with 16%nat.
  change MIN_SUPPORTED_CHANNEL with (Z.of_nat 11).
  change (Z.of_nat 0) with 0 in He. rewrite He.
  set (data := filter (Z.testbit aScanChannels) (map Z.of_nat (seq 11 16))).
  exists data. rewrite Nat2Z.id, firstn_length_app.
  split; [reflexivity |]. split; [reflexivity |]. split.
  - unfold data. etransitivity; [apply filter_length_le |].
    rewrite length_map, length_seq. lia.
  - intros c. unfold data. rewrite filter_In, in_map_iff.
    unfold MAX_SUPPORTED_CHANNEL. split.
    + intros ((n & <- & Hn) & Hbit). apply in_seq in Hn. split; [lia | exact Hbit].
    + intros (Hc & Hbit). split; [| exact Hbit].
      exists (Z.to_nat c). split; [lia |]. apply in_seq. lia.
Qed.

(** The mask of channels 11, 15 and 27: channel 27 is not supported. *)
Lemma SetScanMaskAll_sends_the_supported_channels_witness :
  exists data,
    SetScanMaskAll_data (2 ^ 11 + 2 ^ 15 + 2 ^ 27) (repeat 255 32) = Some data /\
    data = [11; 15].
Proof.
  destruct (SetScanMaskAll_sends_the_supported_channels
              (2 ^ 11 + 2 ^ 15 + 2 ^ 27) (repeat 255 32) eq_refl)
    as (data & He & Hd & _).
  exists data. split; [exact He |]. rewrite Hd. reflexivity.
Defined.

(** * Reception of bytes *)

Lemma rx_fifo_near_full_bool (f : rx_fifo_t) (l : list Z) (aThreshold : Z) :
  rx_fifo_holds f l ->
  1 <= aThreshold <= RX_UART_FIFO_SIZE ->
  IsRxFifoNearFull aThreshold f
  = (Z.of_nat (length l) =? 0)
    || (RX_UART_FIFO_SIZE - 1 - Z.of_nat (length l) <? aThreshold).
Proof.
  intros Hf Hthr.
  pose proof (rx_fifo_holds_near_full f l aThreshold Hf Hthr) as H.
  assert (Hnil : l = [] <-> Z.of_nat (length l) = 0).
  { destruct l; cbn [length]; split; intros; try reflexivity; try discriminate; lia. }
  destruct (IsRxFifoNearFull aThreshold f).
  - symmetry. apply orb_true_iff.
    destruct (proj1 H eq_refl) as [Hn | Hr].
    + left. apply Z.eqb_eq, Hnil, Hn.
    + right. apply Z.ltb_lt, Hr.
  - symmetry. apply orb_false_iff. split.
    + apply Z.eqb_neq. intros Hz. apply Hnil in Hz.
      assert (false = true) by (apply H; left; exact Hz). discriminate.
    + apply Z.ltb_ge. destruct (Z.lt_ge_cases (RX_UART_FIFO_SIZE - 1 - Z.of_nat (length l)) aThreshold) as [Hlt | Hge]; [| exact Hge].
      assert (false = true) by (apply H; right; exact Hlt). discriminate.
Qed.

(** X21: the interrupt handler stores the byte and throttles the sender
    before the FIFO can overflow.  While decoding has not failed and the
    response path or the SDK queue listens, [UartRxReadyIsr] appends the
    byte to a FIFO that holds fewer than 127 bytes (and loses it when 127
    are held), turns the receive interrupt off as soon as 116 bytes are
    held, and posts the event of reception once: to the response queue
    while a response is awaited (when that queue exists), to the SDK queue
    otherwise, and only when the flag of that queue was clear.  After a
    decode failure, or with nobody listening, the byte is dropped and
    nothing changes. *)
Theorem UartRxReadyIsr_stores_the_byte_and_throttles (aContext : Z)
  (r : uart_rx_t) (u : uart_t) (w : thci_t) (l : list Z) :
  rx_fifo_holds (sRxFifo r) l ->
  let st' := UartRxReadyIsr aContext (r, (u, w)) in
  let r' := fst st' in
  let u' := fst (snd st') in
  let w' := snd (snd st') in
  if sDecodeFailure u
     || negb (sProvideInternalResponse u
              || match mSdkQueue (gTHCISDKContext w) with
                 | Some _ => true | None => false end)
  then st' = (r, (u, w))
  else
    (if Z.of_nat (length l) <? RX_UART_FIFO_SIZE - 1
     then rx_fifo_holds (sRxFifo r') (l ++ [aContext])
     else sRxFifo r' = sRxFifo r) /\
    sRxIsrDisabled r' = sRxIsrDisabled r || (115 <=? Z.of_nat (length l)) /\
    sFrameByteCount r' = sFrameByteCount r /\
    if sProvideInternalResponse u
    then
      u' = u /\ w' = w /\
      if sResponseQueueHandle u && (sRxEventPostedToResponseQueue r =? 0)
      then sRxEventPostedToResponseQueue r' = 1 /\
           sResponseQueue r' = sResponseQueue r ++ [sUartRxDoneEvent]
      else sRxEventPostedToResponseQueue r' = sRxEventPostedToResponseQueue r /\
           sResponseQueue r' = sResponseQueue r
    else
      sRxEventPostedToResponseQueue r' = sRxEventPostedToResponseQueue r /\
      sResponseQueue r' = sResponseQueue r /\
      if sRxEventPostedToSdkQueue u =? 0
      then sRxEventPostedToSdkQueue u' = 1 /\
           sdk_events w' = sdk_events w ++ [sUartRxDoneEvent] /\
           unchanged (fun e => negb (nl_event_eqb sUartRxDoneEvent e)) w w'
      else u' = u /\ w' = w.
Proof.
  intros Hf st' r' u' w'. subst r' u' w' st'. unfold UartRxReadyIsr.
  destruct (sDecodeFailure u); cbn [orb]; [reflexivity |].
  set (listening := sProvideInternalResponse u || _).
  destruct listening eqn:El; cbn [negb]; [| reflexivity].
  set (posted := if sProvideInternalResponse u
                 then (PostRxDoneEventToResponseQueue_from_isr u r, (u, w))
                 else (r, PostRxDoneEventToSdkQueue_from_isr (u, w))).
  assert (Hfifo : sRxFifo (fst posted) = sRxFifo r /\
                  sRxIsrDisabled (fst posted) = sRxIsrDisabled r /\
                  sFrameByteCount (fst posted) = sFrameByteCount r).
  { subst posted. destruct (sProvideInternalResponse u); cbn [fst]; [| auto].
    unfold PostRxDoneEventToResponseQueue_from_isr.
    destruct (sProvideInternalResponse u), (sResponseQueueHandle u),
      (sRxEventPostedToResponseQueue r =? 0); auto. }
  destruct Hfifo as (Hfifo & Hdis & Hcount).
  destruct posted as [r1 s1] eqn:Eposted. cbn [fst] in Hfifo, Hdis, Hcount.
  assert (Hput : exists f1,
             PutRxFifoChar aContext (sRxFifo r1) = (Z.of_nat (length l) <? RX_UART_FIFO_SIZE - 1, f1) /\
             (if Z.of_nat (length l) <? RX_UART_FIFO_SIZE - 1
              then rx_fifo_holds f1 (l ++ [aContext])
              else f1 = sRxFifo r) /\
             IsRxFifoNearFull RX_UART_FIFO_NEAR_FULL_THRESHOLD f1
             = (115 <=? Z.of_nat (length l))).
  { rewrite Hfifo. destruct (Z.of_nat (length l) <? RX_UART_FIFO_SIZE - 1) eqn:Eroom.
    - apply Z.ltb_lt in Eroom.
      destruct (rx_fifo_holds_put (sRxFifo r) l aContext Hf Eroom) as (f1 & Hp & Hh).
      exists f1. split; [exact Hp |]. split; [exact Hh |].
      rewrite (rx_fifo_near_full_bool f1 (l ++ [aContext]) _ Hh)
        by (vm_compute; split; congruence).
      rewrite length_app. cbn [length].
      unfold RX_UART_FIFO_NEAR_FULL_THRESHOLD, RX_UART_FIFO_SIZE.
      change (128 / 10) with 12.
      replace (Z.of_nat (length l + 1) =? 0) with false by (symmetry; apply Z.eqb_neq; lia).
      cbn [orb].
      destruct (115 <=? Z.of_nat (length l)) eqn:E;
        [apply Z.leb_le in E; apply Z.ltb_lt; lia
        | apply Z.leb_gt in E; apply Z.ltb_ge; lia].
    - apply Z.ltb_ge in Eroom.
      assert (Hfull : Z.of_nat (length l) = RX_UART_FIFO_SIZE - 1).
      { destruct Hf as (_ & _ & Hn & _). lia. }
      exists (sRxFifo r). split; [apply (rx_fifo_holds_full _ l); assumption |].
      split; [reflexivity |].
      rewrite (rx_fifo_near_full_bool (sRxFifo r) l _ Hf)
        by (vm_compute; split; congruence).
      rewrite Hfull. reflexivity. }
  destruct Hput as (f1 & Hp & Hh & Hnear). rewrite Hp.
  cbn [set_sRxFifo sRxFifo]. rewrite Hnear.
  split.
  { destruct (115 <=? Z.of_nat (length l)); unfold RxISRDisable;
      cbn [sRxIsrDisabled set_sRxFifo];
      try destruct (negb (sRxIsrDisabled r1)); cbn [fst sRxFifo set_sRxIsrDisabled];
      exact Hh. }
  split.
  { destruct (115 <=? Z.of_nat (length l)); unfold RxISRDisable;
      cbn [sRxIsrDisabled set_sRxFifo fst];
      [| rewrite orb_false_r; exact Hdis].
    rewrite orb_true_r.
    destruct (sRxIsrDisabled r1) eqn:E; cbn [negb set_sRxIsrDisabled sRxIsrDisabled];
      [exact E | reflexivity]. }
  split.
  { destruct (115 <=? Z.of_nat (length l)); unfold RxISRDisable;
      cbn [sRxIsrDisabled set_sRxFifo fst];
      try destruct (negb (sRxIsrDisabled r1));
      cbn [set_sRxIsrDisabled sFrameByteCount]; exact Hcount. }
  assert (Hr' : forall x : uart_rx_t,
             x = (if 115 <=? Z.of_nat (length l)
                  then RxISRDisable (set_sRxFifo f1 r1) else set_sRxFifo f1 r1) ->
             sRxEventPostedToResponseQueue x = sRxEventPostedToResponseQueue r1 /\
             sResponseQueue x = sResponseQueue r1).
  { intros x ->. destruct (115 <=? Z.of_nat (length l)); unfold RxISRDisable;
      cbn [sRxIsrDisabled set_sRxFifo];
      try destruct (negb (sRxIsrDisabled r1)); split; reflexivity. }
  cbn [fst snd]. cbn [set_sRxFifo] in Hr'.
  destruct (Hr' _ eq_refl) as (Hflag & Hqueue). rewrite Hflag, Hqueue.
  clear Hr' Hflag Hqueue.
  destruct (sProvideInternalResponse u) eqn:Eint.
  - injection Eposted as <- <-. cbn [fst snd].
    split; [reflexivity |]. split; [reflexivity |].
    unfold PostRxDoneEventToResponseQueue_from_isr. rewrite Eint.
    destruct (sResponseQueueHandle u); cbn [andb]; [| auto].
    destruct (sRxEventPostedToResponseQueue r =? 0); auto.
  - injection Eposted as <- <-.
    split; [reflexivity |]. split; [reflexivity |].
    unfold PostRxDoneEventToSdkQueue_from_isr.
    subst listening. cbn [orb] in El.
    destruct (mSdkQueue (gTHCISDKContext w)) as [q |] eqn:Eq; [| discriminate].
    destruct (sRxEventPostedToSdkQueue u =? 0); cbn [fst snd]; [| auto].
    split; [reflexivity |]. split.
    + destruct (sdk_events_post sUartRxDoneEvent w q Eq) as (-> & _).
      unfold sdk_events. rewrite Eq. reflexivity.
    + apply unchanged_post. reflexivity.
Qed.

Lemma repeat_nth (x : Z) (n k : nat) : (k < n)%nat -> nth k (repeat x n) 0 = x.
Proof.
  intros Hk. apply (repeat_spec n x). apply nth_In. rewrite repeat_length. exact Hk.
Qed.

(** The FIFO holds 115 bytes and a response is awaited: the byte is
    stored, the interrupt is turned off and the event goes to the response
    queue. *)
Lemma UartRxReadyIsr_stores_the_byte_and_throttles_witness :
  let r := mk_uart_rx (mk_rx_fifo (repeat 7 128) 115 0) false 0 0 [] in
  let u := mk_uart true 0 true 0 0 [] false 2 false false in
  let st' := UartRxReadyIsr 9 (r, (u, thci_initialized)) in
  rx_fifo_holds (sRxFifo (fst st')) (repeat 7 115 ++ [9]) /\
  sRxIsrDisabled (fst st') = true /\
  sResponseQueue (fst st') = [sUartRxDoneEvent].
Proof.
  intros r u st'.
  assert (Hf : rx_fifo_holds (sRxFifo r) (repeat 7 115)).
  { unfold rx_fifo_holds, RX_UART_FIFO_SIZE. cbn [r sRxFifo sRxUartFifo sRxUartFifoHead
      sRxUartFifoTail]. rewrite !repeat_length.
    split; [reflexivity |]. split; [lia |]. split; [lia |]. split; [reflexivity |].
    intros i Hi. rewrite !repeat_nth; [reflexivity | lia |].
    apply Nat2Z.inj_lt. rewrite Z2Nat.id by (apply Z.mod_pos_bound; lia).
    apply Z.mod_pos_bound. lia. }
  pose proof (UartRxReadyIsr_stores_the_byte_and_throttles 9 r u thci_initialized
                (repeat 7 115) Hf) as H.
  cbv zeta in H. fold st' in H.
  change (sDecodeFailure u) with false in H.
  change (sProvideInternalResponse u) with true in H.
  cbn [orb negb andb] in H.
  rewrite repeat_length in H.
  change (Z.of_nat 115 <? RX_UART_FIFO_SIZE - 1) with true in H.
  change (115 <=? Z.of_nat 115) with true in H.
  destruct H as (H1 & H2 & _ & _ & _ & H3).
  change (sResponseQueueHandle u && (sRxEventPostedToResponseQueue r =? 0))
    with true in H3.
  split; [exact H1 |]. split; [exact H2 |]. exact (proj2 H3).
Defined.

Lemma rx_fifo_holds_get_none (f : rx_fifo_t) :
  rx_fifo_holds f [] -> GetRxFifoChar f = (None, f).
Proof.
  intros (Hlen & Ht & Hn & Hh & Hc). unfold GetRxFifoChar.
  unfold RX_UART_FIFO_SIZE in *. cbn [length] in Hh.
  replace (sRxUartFifoTail f =? sRxUartFifoHead f) with true
    by (symmetry; apply Z.eqb_eq; rewrite Hh; mod_lia).
  reflexivity.
Qed.

Lemma reenable_arith (d : bool) (h n : Z) :
  0 <= n <= h ->
  (d && ((h =? 0) || (RX_UART_FIFO_SIZE - 1 - h <? 2 * RX_UART_FIFO_NEAR_FULL_THRESHOLD)))
  && negb ((1 <=? n) && (2 <=? h) && (h - n <=? 103))
  = d && negb ((1 <=? n + 1) && (2 <=? h + 1) && (h + 1 - (n + 1) <=? 103)).
Proof.
  intros Hn. unfold RX_UART_FIFO_NEAR_FULL_THRESHOLD, RX_UART_FIFO_SIZE.
  change (2 * (128 / 10)) with 24.
  replace (h + 1 - (n + 1)) with (h - n) by lia.
  destruct d; cbn [andb]; [| reflexivity].
  destruct (Z.eqb_spec h 0), (Z.ltb_spec (128 - 1 - h) 24), (Z.leb_spec 1 n),
    (Z.leb_spec 2 h), (Z.leb_spec (h - n) 103), (Z.leb_spec 1 (n + 1)),
    (Z.leb_spec 2 (h + 1)); cbn [andb orb negb]; try reflexivity; lia.
Qed.

Section UartRxProperties.
Context `{OT : OpenThread}.
Variable sDataFrameCB : option (Z -> Z -> list Z -> thci_t -> thci_t).
Variable sControlFrameCB : option (Z -> Z -> Z -> list Z -> thci_t -> thci_t).
Variable decoder_t : Type.
Variable Decode : decoder_t -> Z -> decoder_t * option rx_delivery.

Lemma UartRxFifoProcess_bytes_run (l : list Z) :
  forall (fuel : nat) (dec : decoder_t) (r : uart_rx_t) (s : uart_t * thci_t),
    rx_fifo_holds (sRxFifo r) l ->
    (length l <= fuel)%nat ->
    exists (n : nat) (dec' : decoder_t) (r' : uart_rx_t) (s' : uart_t * thci_t)
           (ds : list rx_delivery),
      (n <= length l)%nat /\
      UartRxFifoProcess_bytes sDataFrameCB sControlFrameCB decoder_t Decode
        fuel dec (r, s) = Some (dec', (r', s')) /\
      decoded decoder_t Decode dec (firstn n l) = (dec', ds) /\
      s' = UartRxFifoProcess sDataFrameCB sControlFrameCB ds s /\
      rx_fifo_holds (sRxFifo r') (skipn n l) /\
      (n = length l \/
       sDecodeFailure (fst s') || sResponseReceived (fst s') = true) /\
      sRxIsrDisabled r'
      = sRxIsrDisabled r
        && negb ((1 <=? Z.of_nat n) && (2 <=? Z.of_nat (length l))
                 && (Z.of_nat (length l) - Z.of_nat n <=? 103)) /\
      sRxEventPostedToResponseQueue r' = sRxEventPostedToResponseQueue r /\
      sResponseQueue r' = sResponseQueue r.
Proof.
  induction l as [| b l IH]; intros fuel dec r s Hf Hfuel.
  - exists O, dec, r, s, [].
    split; [cbn; lia |]. split.
    { destruct fuel; cbn [UartRxFifoProcess_bytes];
        rewrite (rx_fifo_holds_get_none _ Hf);
        destruct (sDecodeFailure (fst s) || sResponseReceived (fst s)); reflexivity. }
    split; [reflexivity |]. split; [reflexivity |]. split; [exact Hf |].
    split; [left; reflexivity |].
    split; [cbn; rewrite andb_true_r; reflexivity |]. split; reflexivity.
  - destruct (sDecodeFailure (fst s) || sResponseReceived (fst s)) eqn:Eflags.
    + exists O, dec, r, s, [].
      split; [cbn; lia |]. split.
      { destruct fuel; cbn [UartRxFifoProcess_bytes]; rewrite Eflags; reflexivity. }
      split; [reflexivity |]. split; [reflexivity |]. split; [exact Hf |].
      split; [right; exact Eflags |].
      split; [cbn; rewrite andb_true_r; reflexivity |]. split; reflexivity.
    + destruct fuel as [| fuel]; [cbn [length] in Hfuel; lia |].
      cbn [UartRxFifoProcess_bytes]. rewrite Eflags.
      destruct (rx_fifo_holds_get _ b l Hf) as (f1 & Hget & Hf1). rewrite Hget.
      destruct (Decode dec b) as [dec1 d] eqn:Edec.
      set (r1 := set_sFrameByteCount _ (set_sRxFifo f1 r)).
      set (handled := match d with
                      | Some (RxFrame unpacked) =>
                          (set_sFrameByteCount 0 r1,
                           HandleFrame sDataFrameCB sControlFrameCB unpacked s)
                      | Some RxError => (set_sFrameByteCount 0 r1, HandleError s)
                      | None => (r1, s)
                      end).
      assert (Hh : sRxFifo (fst handled) = f1 /\
                   sRxIsrDisabled (fst handled) = sRxIsrDisabled r /\
                   sRxEventPostedToResponseQueue (fst handled)
                   = sRxEventPostedToResponseQueue r /\
                   sResponseQueue (fst handled) = sResponseQueue r /\
                   snd handled
                   = match d with
                     | Some (RxFrame unpacked) =>
                         HandleFrame sDataFrameCB sControlFrameCB unpacked s
                     | Some RxError => HandleError s
                     | None => s
                     end).
      { subst handled. destruct d as [[unpacked |] |]; repeat split. }
      destruct handled as [r2 s2]. cbn [fst snd] in Hh.
      destruct Hh as (Hfifo2 & Hdis2 & Hflag2 & Hqueue2 & Hs2).
      set (r3 := if sRxIsrDisabled r2 && negb (IsRxFifoNearFull _ (sRxFifo r2))
                 then RxISREnable false r2 else r2).
      assert (Hr3 : sRxFifo r3 = f1 /\
                    sRxIsrDisabled r3
                    = sRxIsrDisabled r
                      && ((Z.of_nat (length l) =? 0)
                          || (RX_UART_FIFO_SIZE - 1 - Z.of_nat (length l)
                              <? 2 * RX_UART_FIFO_NEAR_FULL_THRESHOLD)) /\
                    sRxEventPostedToResponseQueue r3
                    = sRxEventPostedToResponseQueue r /\
                    sResponseQueue r3 = sResponseQueue r).
      { subst r3. rewrite Hfifo2, Hdis2.
        rewrite (rx_fifo_near_full_bool f1 l _ Hf1) by (vm_compute; split; congruence).
        unfold RxISREnable. rewrite Hdis2.
        destruct (sRxIsrDisabled r) eqn:Ed; cbn [andb orb];
          [| repeat split; assumption].
        destruct ((Z.of_nat (length l) =? 0) || _); cbn [negb];
          cbn [set_sRxIsrDisabled sRxFifo sRxIsrDisabled sRxEventPostedToResponseQueue
               sResponseQueue]; repeat split; congruence. }
      destruct Hr3 as (Hfifo3 & Hdis3 & Hflag3 & Hqueue3).
      cbn [length] in Hfuel.
      destruct (IH fuel dec1 r3 s2 ltac:(rewrite Hfifo3; exact Hf1) ltac:(lia))
        as (n & dec' & r' & s' & ds & Hn & Hrun & Hdec & Hs' & Hf' & Hend & Hdis' &
            Hflag' & Hqueue').
      exists (S n), dec', r', s', (match d with Some d => d :: ds | None => ds end).
      split; [cbn [length]; lia |]. split; [exact Hrun |].
      split; [cbn [firstn decoded]; rewrite Edec, Hdec; reflexivity |].
      split.
      { rewrite Hs', Hs2. destruct d as [[unpacked |] |];
          cbn [UartRxFifoProcess]; rewrite ?Eflags; reflexivity. }
      split; [exact Hf' |].
      split; [destruct Hend as [-> | Hend]; [left; reflexivity | right; exact Hend] |].
      split.
      { rewrite Hdis', Hdis3. cbn [length].
        replace (Z.of_nat (S n)) with (Z.of_nat n + 1) by lia.
        replace (Z.of_nat (S (length l))) with (Z.of_nat (length l) + 1) by lia.
        apply reenable_arith. lia. }
      split; congruence.
Qed.

(** X22: [UartRxFifoProcess] hands the bytes of the FIFO to the decoder in
    order and stops at the response.  Run with no interrupt in between on a
    FIFO that holds [l], the loop ends (as many rounds as bytes suffice)
    having taken the first [n] bytes of [l]: the rest stays in the FIFO in
    order, the contexts are those that the frames and errors decoded from
    these bytes lead to, one after the other, and bytes are left only when
    a response was received or decoding failed.  A disabled receive
    interrupt is enabled again once the FIFO has been drained to 103
    bytes or fewer. *)
Theorem UartRxFifoProcess_feeds_the_decoder_in_order (l : list Z) :
  forall (fuel : nat) (dec : decoder_t) (r : uart_rx_t) (s : uart_t * thci_t),
    rx_fifo_holds (sRxFifo r) l ->
    (length l <= fuel)%nat ->
    exists (n : nat) (dec' : decoder_t) (r' : uart_rx_t) (s' : uart_t * thci_t)
           (ds : list rx_delivery),
      (n <= length l)%nat /\
      UartRxFifoProcess_bytes sDataFrameCB sControlFrameCB decoder_t Decode
        fuel dec (r, s) = Some (dec', (r', s')) /\
      decoded decoder_t Decode dec (firstn n l) = (dec', ds) /\
      s' = UartRxFifoProcess sDataFrameCB sControlFrameCB ds s /\
      rx_fifo_holds (sRxFifo r') (skipn n l) /\
      (n = length l \/
       sDecodeFailure (fst s') || sResponseReceived (fst s') = true) /\
      sRxIsrDisabled r'
      = sRxIsrDisabled r
        && negb ((1 <=? Z.of_nat n) && (2 <=? Z.of_nat (length l))
                 && (Z.of_nat (length l) - Z.of_nat n <=? 103)) /\
      sRxEventPostedToResponseQueue r' = sRxEventPostedToResponseQueue r /\
      sResponseQueue r' = sResponseQueue r.
Proof.
  intros fuel dec r s Hf Hfuel. apply UartRxFifoProcess_bytes_run; assumption.
Qed.


Lemma UartRxFifoProcess_idle (ds : list rx_delivery) :
  forall s : uart_t * thci_t,
    sProvideInternalResponse (fst s) = false ->
    sResponseReceived (fst s) = false ->
    sDecodeFailure (fst s) = false ->
    let s' := UartRxFifoProcess sDataFrameCB sControlFrameCB ds s in
    sRxEventPostedToSdkQueue (fst s') = sRxEventPostedToSdkQueue (fst s) /\
    (sDecodeFailure (fst s') = false -> sResponseReceived (fst s') = false) /\
    (sDecodeFailure (fst s') = true ->
     mModuleState (gTHCINCPContext (snd s')) = kModuleStateResetRecovery).
Proof.
  induction ds as [| d ds IH]; intros [u w] Hint Hrec Hfail; cbn [fst snd] in *.
  - cbn [UartRxFifoProcess fst snd]. rewrite Hfail. repeat split; auto; discriminate.
  - cbn [UartRxFifoProcess fst]. rewrite Hfail, Hrec. cbn [orb].
    destruct d as [unpacked |].
    + assert (Hu : fst (HandleFrame sDataFrameCB sControlFrameCB unpacked (u, w)) = u).
      { unfold HandleFrame. destruct unpacked as [f |]; [| reflexivity].
        rewrite Hint.
        destruct ((fKey f =? SPINEL_PROP_STREAM_NET)
                  || (fKey f =? SPINEL_PROP_STREAM_NET_INSECURE));
          [destruct sDataFrameCB | destruct sControlFrameCB]; reflexivity. }
      destruct (HandleFrame sDataFrameCB sControlFrameCB unpacked (u, w)) as [u1 w1].
      cbn [fst] in Hu. subst u1. apply (IH (u, w1)); assumption.
    + rewrite UartRxFifoProcess_done by reflexivity.
      unfold HandleError. cbn [fst snd]. thci_fields.
      split; [reflexivity |]. split; [discriminate |].
      intros _. apply thciInitiateNCPRecovery_state.
Qed.

(** X26: [UartRxDoneEventHandler] leaves no byte behind.  Run in the task
    of the SDK queue while no response is awaited and decoding has not
    failed, with no interrupt in between, the handler clears the flag of
    the posted event and hands the bytes of the FIFO to the decoder in
    order; it returns either with the FIFO empty or with a decode failure,
    in which case the module is in reset recovery, and in neither case
    posts the event again. *)
Theorem UartRxDoneEventHandler_drains_the_fifo (l : list Z) (fuel : nat)
  (dec : decoder_t) (r : uart_rx_t) (u : uart_t) (w : thci_t) :
  rx_fifo_holds (sRxFifo r) l ->
  (length l <= fuel)%nat ->
  sProvideInternalResponse u = false ->
  sResponseReceived u = false ->
  sDecodeFailure u = false ->
  let u0 := mk_uart (sProvideInternalResponse u) 0 (sResponseQueueHandle u)
                    (sResponseCommand u) (sResponseKey u) (sResponseBuffer u)
                    (sResponseReceived u) (sResponseTransactionId u)
                    (sResponseSuccess u) (sDecodeFailure u) in
  exists (n : nat) (dec' : decoder_t) (r' : uart_rx_t) (s' : uart_t * thci_t)
         (ds : list rx_delivery),
    UartRxDoneEventHandler sDataFrameCB sControlFrameCB decoder_t Decode fuel dec
      (r, (u, w)) = Some (dec', (r', s')) /\
    (n <= length l)%nat /\
    decoded decoder_t Decode dec (firstn n l) = (dec', ds) /\
    s' = UartRxFifoProcess sDataFrameCB sControlFrameCB ds (u0, w) /\
    rx_fifo_holds (sRxFifo r') (skipn n l) /\
    sRxEventPostedToSdkQueue (fst s') = 0 /\
    if sDecodeFailure (fst s')
    then mModuleState (gTHCINCPContext (snd s')) = kModuleStateResetRecovery
    else n = length l.
Proof.
  intros Hf Hfuel Hint Hrec Hfail u0.
  destruct (UartRxFifoProcess_bytes_run l fuel dec r (u0, w) Hf Hfuel)
    as (n & dec' & r' & s' & ds & Hn & Hrun & Hdec & Hs' & Hf' & Hend & _).
  destruct (UartRxFifoProcess_idle ds (u0, w) Hint Hrec Hfail) as (Hflag & Hidle & Hrecov).
  rewrite <- Hs' in Hflag, Hidle, Hrecov. cbn [fst] in Hflag.
  exists n, dec', r', s', ds.
  assert (Hnopost : negb (sDecodeFailure (fst s')) && negb (IsRxFifoEmpty (sRxFifo r'))
                    = false).
  { destruct (sDecodeFailure (fst s')) eqn:E; [reflexivity |].
    cbn [negb andb]. apply negb_false_iff.
    destruct Hend as [-> | Hend].
    - rewrite skipn_all in Hf'. rewrite (rx_fifo_holds_empty _ _ Hf'). reflexivity.
    - rewrite (Hidle eq_refl) in Hend. discriminate. }
  split.
  { unfold UartRxDoneEventHandler. fold u0. rewrite Hrun, Hnopost. reflexivity. }
  split; [exact Hn |]. split; [exact Hdec |]. split; [exact Hs' |].
  split; [exact Hf' |]. split; [exact Hflag |].
  destruct (sDecodeFailure (fst s')) eqn:E.
  - apply Hrecov. reflexivity.
  - destruct Hend as [Hend | Hend]; [exact Hend |].
    rewrite (Hidle eq_refl) in Hend. discriminate.
Qed.

End UartRxProperties.

(** A FIFO of three bytes and a decoder that reports an error at byte
    126. *)
Lemma UartRxFifoProcess_feeds_the_decoder_in_order_witness :
  let OT := openthread_reference in
  let Decode := fun (dec : unit) (b : Z) =>
    (dec, if b =? 126 then Some RxError else None) in
  let r := mk_uart_rx (mk_rx_fifo (5 :: 126 :: 7 :: repeat 0 125) 3 0) false 0 0 [] in
  let u := mk_uart true 0 true 0 0 [] false 2 false false in
  rx_fifo_holds (sRxFifo r) [5; 126; 7] /\
  UartRxFifoProcess_bytes None (Some ReceiveControlFrame) unit Decode 3 tt
    (r, (u, thci_initialized))
  = Some (tt, (mk_uart_rx (mk_rx_fifo (5 :: 126 :: 7 :: repeat 0 125) 3 2)
                          false 0 0 [],
               HandleError (u, thci_initialized))) /\
  exists (n : nat) (r' : uart_rx_t) (s' : uart_t * thci_t),
    UartRxFifoProcess_bytes None (Some ReceiveControlFrame) unit Decode 3 tt
      (r, (u, thci_initialized)) = Some (tt, (r', s')) /\
    rx_fifo_holds (sRxFifo r') (skipn n [5; 126; 7]) /\
    (n = 3%nat \/ sDecodeFailure (fst s') || sResponseReceived (fst s') = true).
Proof.
  intros OT Decode r u.
  assert (Hf : rx_fifo_holds (sRxFifo r) [5; 126; 7]).
  { unfold rx_fifo_holds, RX_UART_FIFO_SIZE.
    split; [reflexivity |]. split; [cbn; lia |]. split; [cbn; lia |].
    split; [reflexivity |].
    intros i Hi. cbn [length] in Hi.
    destruct i as [| [| [| i]]]; [reflexivity | reflexivity | reflexivity | lia]. }
  split; [exact Hf |]. split; [vm_compute; reflexivity |].
  destruct (UartRxFifoProcess_feeds_the_decoder_in_order (OT := OT)
              None (Some ReceiveControlFrame) unit Decode [5; 126; 7] 3 tt r
              (u, thci_initialized) Hf ltac:(cbn; lia))
    as (n & dec' & r' & s' & ds & Hn & Hrun & Hdec & Hs' & Hf' & Hend & _).
  exists n, r', s'. destruct dec'.
  split; [exact Hrun |]. split; [exact Hf' | exact Hend].
Defined.

(** The FIFO of three bytes and the decoder that reports an error at byte
    126, in the task of the SDK queue. *)
Lemma UartRxDoneEventHandler_drains_the_fifo_witness :
  let OT := openthread_reference in
  let Decode := fun (dec : unit) (b : Z) =>
    (dec, if b =? 126 then Some RxError else None) in
  let r := mk_uart_rx (mk_rx_fifo (5 :: 126 :: 7 :: repeat 0 125) 3 0) false 0 0 [] in
  let u := mk_uart false 1 true 0 0 [] false 0 false false in
  exists (n : nat) (r' : uart_rx_t) (s' : uart_t * thci_t),
    UartRxDoneEventHandler None (Some ReceiveControlFrame) unit Decode 3 tt
      (r, (u, thci_initialized)) = Some (tt, (r', s')) /\
    rx_fifo_holds (sRxFifo r') (skipn n [5; 126; 7]) /\
    sRxEventPostedToSdkQueue (fst s') = 0.
Proof.
  intros OT Decode r u.
  assert (Hf : rx_fifo_holds (sRxFifo r) [5; 126; 7]).
  { unfold rx_fifo_holds, RX_UART_FIFO_SIZE.
    split; [reflexivity |]. split; [cbn; lia |]. split; [cbn; lia |].
    split; [reflexivity |].
    intros i Hi. cbn [length] in Hi.
    destruct i as [| [| [| i]]]; [reflexivity | reflexivity | reflexivity | lia]. }
  destruct (UartRxDoneEventHandler_drains_the_fifo (OT := OT)
              None (Some ReceiveControlFrame) unit Decode [5; 126; 7] 3 tt r u
              thci_initialized Hf ltac:(cbn; lia) eq_refl eq_refl eq_refl)
    as (n & dec' & r' & s' & ds & Hrun & _ & _ & _ & Hf' & Hflag & _).
  exists n, r', s'. destruct dec'.
  split; [exact Hrun |]. split; [exact Hf' | exact Hflag].
Defined.

(** * The combined table of neighbours and children *)


Lemma nth_error_app_mid {A : Type} (P R : list A) (x : A) :
  nth_error (P ++ x :: R) (length P) = Some x.
Proof.
  induction P as [| p P IH]; cbn [app length nth_error]; auto.
Qed.

Lemma table_store_app_mid (P R : list thci_neighbor_child_info_t)
  (x v : thci_neighbor_child_info_t) :
  table_store (length P) v (P ++ x :: R) = P ++ v :: R.
Proof.
  induction P as [| p P IH]; cbn [app length table_store]; [reflexivity |].
  rewrite IH. reflexivity.
Qed.

Lemma firstn_exact {A : Type} (P R : list A) : firstn (length P) (P ++ R) = P.
Proof.
  induction P as [| p P IH]; cbn [app length firstn]; [destruct R; reflexivity |].
  rewrite IH. reflexivity.
Qed.

Section TableLoops.
Context `{OT : OpenThread}.
Variable sDataFrameCB : option (Z -> Z -> list Z -> thci_t -> thci_t).
Variable sControlFrameCB : option (Z -> Z -> Z -> list Z -> thci_t -> thci_t).
Variable SPINEL_PROP_THREAD_NEIGHBOR_TABLE : Z.
Variable SPINEL_THREAD_MODE_RX_ON_WHEN_IDLE : Z.
Variable SPINEL_THREAD_MODE_SECURE_DATA_REQUEST : Z.
Variable SPINEL_THREAD_MODE_FULL_FUNCTION_DEV : Z.
Variable SPINEL_THREAD_MODE_FULL_NETWORK_DATA : Z.
Variable spinel_unpack_neighbor : list Z -> Z * neighbor_unpacked.
Variable spinel_unpack_child : list Z -> Z * child_unpacked.

Lemma read_neighbors_fills (nbrs : list neighbor_unpacked) :
  forall (arg : list Z) (room : nat) (P R : list thci_neighbor_child_info_t) (k : Z),
    unpacks_to spinel_unpack_neighbor arg nbrs ->
    (length nbrs <= room)%nat -> (length nbrs <= length R)%nat ->
    Z.of_nat (length P + length nbrs) < 4294967296 ->
    0 <= k -> k + Z.of_nat (length nbrs) < 4294967296 ->
    read_neighbors SPINEL_THREAD_MODE_RX_ON_WHEN_IDLE
      SPINEL_THREAD_MODE_SECURE_DATA_REQUEST SPINEL_THREAD_MODE_FULL_FUNCTION_DEV
      SPINEL_THREAD_MODE_FULL_NETWORK_DATA spinel_unpack_neighbor room arg (P ++ R)
      (Z.of_nat (length P)) k
    = Some (OT_ERROR_NONE,
            P ++ map (fun fo => fill_entry (neighbor_filled SPINEL_THREAD_MODE_RX_ON_WHEN_IDLE
                              SPINEL_THREAD_MODE_SECURE_DATA_REQUEST SPINEL_THREAD_MODE_FULL_FUNCTION_DEV
                              SPINEL_THREAD_MODE_FULL_NETWORK_DATA (fst fo)) (snd fo))
                     (combine nbrs R)
              ++ skipn (length nbrs) R,
            Z.of_nat (length P + length nbrs),
            k + Z.of_nat (length (filter nuIsChild nbrs))).
Proof.
  induction nbrs as [| f nbrs IH]; intros arg room P R k Hun Hroom HR Hlen Hk Hk2.
  - cbn [unpacks_to] in Hun. subst arg. cbn [length combine map skipn app filter].
    rewrite Nat.add_0_r, Z.add_0_r. destruct room; reflexivity.
  - cbn [unpacks_to] in Hun. destruct Hun as (Hne & n & Hu & Hn & Hrest).
    destruct arg as [| a arg]; [congruence |].
    destruct room as [| room]; [cbn [length] in Hroom; lia |].
    destruct R as [| old R]; [cbn [length] in HR; lia |].
    cbn [read_neighbors]. rewrite Nat2Z.id, nth_error_app_mid, Hu.
    replace (n >? 0) with true by (symmetry; apply Z.gtb_lt; lia).
    replace (n >? Z.of_nat (length (a :: arg))) with false
      by (symmetry; rewrite Z.gtb_ltb; apply Z.ltb_ge; lia).
    cbn [negb]. rewrite table_store_app_mid.
    cbn [length] in *.
    set (entry := mk_neighbor_child_info _ _ _ _ false).
    replace (uint32_t (Z.of_nat (length P) + 1)) with (Z.of_nat (length (P ++ [entry])))
      by (rewrite length_app; cbn [length]; unfold uint32_t; rewrite Z.mod_small; lia).
    replace (P ++ entry :: R) with ((P ++ [entry]) ++ R)
      by (rewrite <- app_assoc; reflexivity).
    rewrite IH; try assumption; try lia.
    + rewrite <- app_assoc. cbn [combine map app skipn fst snd filter].
      f_equal. f_equal; [f_equal |].
      * rewrite length_app. cbn [length]. f_equal. lia.
      * destruct (nuIsChild f); cbn [length].
        -- unfold uint32_t. rewrite Z.mod_small by lia. lia.
        -- reflexivity.
    + rewrite length_app. cbn [length]. lia.
    + destruct (nuIsChild f); [unfold uint32_t; rewrite Z.mod_small by lia |]; lia.
    + destruct (nuIsChild f); [unfold uint32_t; rewrite Z.mod_small by lia |]; lia.
Qed.


Lemma find_rloc16_found (r : Z) (l : list thci_neighbor_child_info_t) :
  forall i j, find_rloc16 r l i = Some j ->
    exists pre e post,
      l = pre ++ e :: post /\ j = (i + length pre)%nat /\
      mRloc16 (mNeighborInfo e) = r /\
      Forall (fun x => mRloc16 (mNeighborInfo x) <> r) pre.
Proof.
  induction l as [| x l IH]; intros i j H; cbn [find_rloc16] in H; [discriminate |].
  destruct (Z.eqb_spec (mRloc16 (mNeighborInfo x)) r) as [Heq | Hne].
  - injection H as <-. exists [], x, l. cbn [app length].
    repeat split; auto.
  - destruct (IH _ _ H) as (pre & e & post & -> & -> & He & Hpre).
    exists (x :: pre), e, post. cbn [app length].
    split; [reflexivity |]. split; [lia |]. split; [exact He |].
    constructor; assumption.
Qed.

Lemma find_rloc16_none (r : Z) (l : list thci_neighbor_child_info_t) :
  forall i, find_rloc16 r l i = None ->
    Forall (fun x => mRloc16 (mNeighborInfo x) <> r) l.
Proof.
  induction l as [| x l IH]; intros i H; cbn [find_rloc16] in H; [constructor |].
  destruct (Z.eqb_spec (mRloc16 (mNeighborInfo x)) r) as [Heq | Hne]; [discriminate |].
  constructor; [exact Hne | exact (IH _ H)].
Qed.

Lemma annotate_child_other (cg : child_unpacked * Z) (l : list thci_neighbor_child_info_t) :
  Forall (fun x => mRloc16 (mNeighborInfo x) <> cuRloc16 (fst cg)) l ->
  map (annotate_child cg) l = l.
Proof.
  induction 1 as [| x l Hx Hl IH]; cbn [map]; [reflexivity |].
  rewrite IH. unfold annotate_child.
  destruct (Z.eqb_spec (mRloc16 (mNeighborInfo x)) (cuRloc16 (fst cg))); congruence.
Qed.

Lemma annotate_child_info (cg : child_unpacked * Z) (e : thci_neighbor_child_info_t) :
  mNeighborInfo (annotate_child cg e) = mNeighborInfo e.
Proof.
  unfold annotate_child. destruct (_ =? _); reflexivity.
Qed.

Lemma map_annotate_child_info (cg : child_unpacked * Z)
  (l : list thci_neighbor_child_info_t) :
  map mNeighborInfo (map (annotate_child cg) l) = map mNeighborInfo l.
Proof.
  rewrite map_map. apply map_ext. intros e. apply annotate_child_info.
Qed.

Lemma table_store_app_l (P R : list thci_neighbor_child_info_t)
  (v : thci_neighbor_child_info_t) :
  forall i : nat, (i < length P)%nat ->
    table_store i v (P ++ R) = table_store i v P ++ R.
Proof.
  induction P as [| p P IH]; intros i Hi; cbn [length] in Hi; [lia |].
  destruct i as [| i]; cbn [app table_store]; [reflexivity |].
  rewrite IH by lia. reflexivity.
Qed.

Lemma match_children_annotates (uninitialised : nat -> Z) (chs : list child_unpacked) :
  forall (arg : list Z) (fuel round : nat) (P R : list thci_neighbor_child_info_t)
         (k : Z),
    unpacks_to spinel_unpack_child arg chs ->
    (length chs <= fuel)%nat ->
    NoDup (map (fun e => mRloc16 (mNeighborInfo e)) P) ->
    (forall c e, In c chs -> In e P ->
       mRloc16 (mNeighborInfo e) = cuRloc16 c -> mIsChild (mNeighborInfo e) = true) ->
    Z.of_nat (length (filter (fun c => existsb (fun i => mRloc16 i =? cuRloc16 c)
                                          (map mNeighborInfo P)) chs)) <= k ->
    k < 4294967296 ->
    match_children spinel_unpack_child fuel uninitialised round arg (P ++ R)
      (Z.of_nat (length P)) k
    = Some (OT_ERROR_NONE,
            map (annotate_children
                   (combine chs (map uninitialised (seq round (length chs))))) P ++ R,
            k - Z.of_nat (length (filter (fun c => existsb (fun i => mRloc16 i =? cuRloc16 c)
                                                      (map mNeighborInfo P)) chs))).
Proof.
  induction chs as [| c chs IH]; intros arg fuel round P R k Hun Hfuel Hnd Hchild Hk Hk2.
  - cbn [unpacks_to] in Hun. subst arg. cbn [length seq map combine filter].
    unfold annotate_children. cbn [fold_left]. rewrite map_id, Z.sub_0_r.
    destruct fuel; reflexivity.
  - cbn [unpacks_to] in Hun. destruct Hun as (Hne & n & Hu & Hn & Hrest).
    destruct arg as [| a arg]; [congruence |].
    destruct fuel as [| fuel]; [cbn [length] in Hfuel; lia |].
    cbn [match_children]. rewrite Hu.
    replace ((n <? 0) || (n >? Z.of_nat (length (a :: arg)))) with false
      by (symmetry; apply orb_false_iff; split;
          [apply Z.ltb_ge | rewrite Z.gtb_ltb; apply Z.ltb_ge]; lia).
    rewrite Nat2Z.id, firstn_exact.
    cbn [length seq map combine]. set (cg := (c, uninitialised round)).
    assert (Hstep : forall P1 k1,
               P1 = map (annotate_child cg) P ->
               k1 = k - (if existsb (fun i => mRloc16 i =? cuRloc16 c)
                                    (map mNeighborInfo P) then 1 else 0) ->
               match_children spinel_unpack_child fuel uninitialised (S round)
                 (skipn (Z.to_nat n) (a :: arg)) (P1 ++ R) (Z.of_nat (length P)) k1
               = Some (OT_ERROR_NONE,
                       map (annotate_children
                              (cg :: combine chs (map uninitialised
                                                    (seq (S round) (length chs))))) P ++ R,
                       k - Z.of_nat (length (filter (fun c0 => existsb (fun i => mRloc16 i =? cuRloc16 c0)
                                                      (map mNeighborInfo P)) (c :: chs))))).
    { intros P1 k1 -> ->.
      cbn [filter] in Hk |- *.
      assert (Hlen1 : length (map (annotate_child cg) P) = length P) by apply length_map.
      rewrite <- Hlen1 at 1.
      rewrite IH; try assumption.
      - rewrite map_map, map_annotate_child_info.
        replace (map (fun x => annotate_children
                        (combine chs (map uninitialised (seq (S round) (length chs))))
                        (annotate_child cg x)) P)
          with (map (annotate_children
                       (cg :: combine chs (map uninitialised
                                             (seq (S round) (length chs))))) P)
          by (apply map_ext; intros e; reflexivity).
        do 2 f_equal.
        destruct (existsb _ (map mNeighborInfo P)); cbn [length]; lia.
      - cbn [length] in Hfuel. lia.
      - rewrite <- (map_map mNeighborInfo mRloc16), map_annotate_child_info, map_map.
        exact Hnd.
      - intros c0 e Hc0 He. apply in_map_iff in He. destruct He as (e0 & <- & He0).
        rewrite annotate_child_info. apply Hchild; [right; exact Hc0 | exact He0].
      - rewrite map_annotate_child_info.
        destruct (existsb _ (map mNeighborInfo P)); cbn [length] in Hk; lia.
      - destruct (existsb _ (map mNeighborInfo P)); lia. }
    destruct (find_rloc16 (cuRloc16 c) P 0) as [j |] eqn:Efind.
    + destruct (find_rloc16_found _ _ _ _ Efind) as (pre & e & post & HP & Hj & He & Hpre).
      cbn [Nat.add] in Hj. subst j.
      assert (Hnth : nth_error (P ++ R) (length pre) = Some e).
      { rewrite HP, <- app_assoc. cbn [app]. apply nth_error_app_mid. }
      rewrite Hnth.
      assert (Hin : In e P) by (rewrite HP; apply in_or_app; right; left; reflexivity).
      rewrite (Hchild c e (or_introl eq_refl) Hin He). cbn [negb].
      assert (Hex : existsb (fun i => mRloc16 i =? cuRloc16 c) (map mNeighborInfo P) = true).
      { apply existsb_exists. exists (mNeighborInfo e). split; [apply in_map; exact Hin |].
        apply Z.eqb_eq. exact He. }
      assert (Hk1 : 1 <= k).
      { cbn [filter] in Hk. rewrite Hex in Hk. cbn [length] in Hk. lia. }
      rewrite table_store_app_l
        by (rewrite HP, length_app; cbn [length]; lia).
      apply Hstep.
      * rewrite HP. rewrite table_store_app_mid.
        rewrite map_app. cbn [map].
        assert (Hpost : Forall (fun x => mRloc16 (mNeighborInfo x) <> cuRloc16 (fst cg)) post).
        { rewrite HP, map_app in Hnd. cbn [map] in Hnd.
          apply NoDup_remove_2 in Hnd. apply Forall_forall. intros x Hx Heq.
          apply Hnd. apply in_or_app. right.
          cbn [fst cg] in Heq. rewrite He, <- Heq.
          apply (in_map (fun e0 => mRloc16 (mNeighborInfo e0))). exact Hx. }
        rewrite (annotate_child_other cg pre Hpre), (annotate_child_other cg post Hpost).
        do 2 f_equal.
        unfold annotate_child. cbn [fst snd cg].
        rewrite He, Z.eqb_refl. reflexivity.
      * rewrite Hex. unfold uint32_t. rewrite Z.mod_small by lia. reflexivity.
    + pose proof (find_rloc16_none _ _ _ Efind) as Hnone.
      assert (Hex : existsb (fun i => mRloc16 i =? cuRloc16 c) (map mNeighborInfo P) = false).
      { apply not_true_is_false. intros Hex. apply existsb_exists in Hex.
        destruct Hex as (i & Hi & Heq). apply in_map_iff in Hi.
        destruct Hi as (e & <- & He). rewrite Forall_forall in Hnone.
        apply (Hnone e He). apply Z.eqb_eq. exact Heq. }
      apply Hstep.
      * rewrite (annotate_child_other cg P Hnone). reflexivity.
      * rewrite Hex. lia.
Qed.


End TableLoops.

Lemma filter_all_kept {A : Type} (p : A -> bool) (l : list A) :
  length (filter (fun x => negb (p x)) l) = O -> filter p l = l.
Proof.
  induction l as [| x l IH]; cbn [filter]; [reflexivity |].
  destruct (p x); cbn [negb length]; [| discriminate].
  intros H. rewrite IH by exact H. reflexivity.
Qed.

Lemma purge_unmatched_purges (n : nat) :
  forall (B A R : list thci_neighbor_child_info_t) (fuel : nat) (k : Z),
    length B = n ->
    (length B <= fuel)%nat ->
    Z.of_nat (length (filter (fun e => negb (entry_kept e)) B)) <= k ->
    k < 4294967296 ->
    Z.of_nat (length A + length B) < 4294967296 ->
    exists B' R',
      purge_unmatched fuel (A ++ B ++ R) (Z.of_nat (length A))
        (Z.of_nat (length A + length B)) k
      = Some ((A ++ B') ++ R', Z.of_nat (length (A ++ B'))) /\
      Permutation B' (filter entry_kept B).
Proof.
  induction n as [| n IH]; intros B A R fuel k Hn Hfuel Hk Hk2 Hlen.
  - destruct B; [| discriminate]. exists [], R. split; [| constructor].
    cbn [app length]. rewrite Nat.add_0_r, app_nil_r.
    assert (Hc : (k >? 0) && (Z.of_nat (length A) <? Z.of_nat (length A)) = false)
      by (rewrite Z.ltb_irrefl; apply andb_false_r).
    destruct fuel; cbn [purge_unmatched]; rewrite Hc; reflexivity.
  - destruct B as [| e B1]; [discriminate |]. cbn [length] in Hn, Hfuel, Hlen.
    injection Hn as Hn.
    destruct (Z.eq_dec k 0) as [-> | Hk0].
    + exists (e :: B1), R. split.
      * assert (Hc : (0 >? 0) && (Z.of_nat (length A)
                                  <? Z.of_nat (length A + length (e :: B1))) = false)
          by reflexivity.
        rewrite <- app_assoc.
        destruct fuel; cbn [purge_unmatched]; rewrite Hc; rewrite length_app; reflexivity.
      * rewrite filter_all_kept; [reflexivity | lia].
    + destruct fuel as [| fuel]; [lia |].
      cbn [purge_unmatched].
      replace ((k >? 0) && (Z.of_nat (length A)
                            <? Z.of_nat (length A + length (e :: B1)))) with true
        by (symmetry; apply andb_true_iff; split;
            [apply Z.gtb_lt; cbn [filter] in Hk; lia
            | apply Z.ltb_lt; cbn [length]; lia]).
      rewrite Nat2Z.id. cbn [app]. rewrite nth_error_app_mid.
      destruct (exists_last (l := e :: B1) ltac:(discriminate)) as (B0 & last & HB).
      assert (Hlast : nth_error (A ++ e :: B1 ++ R)
                        (Z.to_nat (Z.of_nat (length A + length (e :: B1)) - 1))
                      = Some last).
      { change (e :: B1 ++ R) with ((e :: B1) ++ R). rewrite HB, <- app_assoc.
        cbn [app]. rewrite app_assoc.
        replace (Z.to_nat (Z.of_nat (length A + length (B0 ++ [last])) - 1))
          with (length (A ++ B0))
          by (rewrite !length_app; cbn [length]; lia).
        apply nth_error_app_mid. }
      rewrite Hlast. rewrite table_store_app_mid.
      cbn [filter] in Hk. unfold entry_kept at 1 in Hk.
      destruct (mIsChild (mNeighborInfo e) && negb (mFoundChild e)) eqn:Eorphan;
        cbn [negb length] in Hk.
      * replace (uint32_t (Z.of_nat (length A + length (e :: B1)) - 1))
          with (Z.of_nat (length A + length B1))
          by (cbn [length]; unfold uint32_t; rewrite Z.mod_small; lia).
        replace (uint32_t (k - 1)) with (k - 1)
          by (unfold uint32_t; rewrite Z.mod_small; lia).
        assert (Hkeep : filter entry_kept (e :: B1) = filter entry_kept B1).
        { cbn [filter]. unfold entry_kept at 1. rewrite Eorphan. reflexivity. }
        rewrite Hkeep.
        destruct B0 as [| e0 B2]; cbn [app] in HB.
        -- injection HB as -> ->. cbn [length filter] in *.
           destruct (IH [] A (last :: R) fuel (k - 1)) as (B' & R' & He & Hp);
             cbn [length filter]; try lia.
           cbn [app length] in He |- *. exists B', R'. split; assumption.
        -- injection HB as <- ->.
           destruct (IH (last :: B2) A (last :: R) fuel (k - 1)) as (B' & R' & He & Hp).
           ++ rewrite length_app in Hn. cbn [length] in *. lia.
           ++ rewrite length_app in Hfuel. cbn [length] in *. lia.
           ++ rewrite filter_app, length_app in Hk. cbn [filter length] in *.
              destruct (negb (entry_kept last)); cbn [length] in *; lia.
           ++ lia.
           ++ rewrite length_app in Hlen. cbn [length] in *. lia.
           ++ exists B', R'. split.
              ** rewrite <- He. f_equal.
                 --- rewrite <- !app_assoc. reflexivity.
                 --- rewrite length_app. cbn [length]. f_equal. lia.
              ** rewrite Hp. rewrite filter_app. cbn [filter].
                 destruct (entry_kept last).
                 --- apply Permutation_cons_append.
                 --- rewrite app_nil_r. reflexivity.
      * replace (uint32_t (Z.of_nat (length A) + 1))
          with (Z.of_nat (length (A ++ [e])))
          by (rewrite length_app; cbn [length]; unfold uint32_t;
              rewrite Z.mod_small; lia).
        replace (Z.of_nat (length A + length (e :: B1)))
          with (Z.of_nat (length (A ++ [e]) + length B1))
          by (rewrite length_app; cbn [length]; lia).
        replace (A ++ e :: B1 ++ R) with ((A ++ [e]) ++ B1 ++ R)
          by (rewrite <- app_assoc; reflexivity).
        destruct (IH B1 (A ++ [e]) R fuel k Hn ltac:(lia) ltac:(lia) Hk2)
          as (B' & R' & He & Hp).
        { rewrite length_app. cbn [length]. lia. }
        exists (e :: B'), R'. split.
        -- rewrite He. rewrite <- !app_assoc. reflexivity.
        -- cbn [filter]. unfold entry_kept at 1. rewrite Eorphan. cbn [negb].
           constructor. exact Hp.
Qed.

Lemma annotate_children_info (cgs : list (child_unpacked * Z)) :
  forall e, mNeighborInfo (annotate_children cgs e) = mNeighborInfo e.
Proof.
  unfold annotate_children.
  induction cgs as [| cg cgs IH]; intros e; cbn [fold_left]; [reflexivity |].
  rewrite IH. apply annotate_child_info.
Qed.

Lemma annotate_children_none (cgs : list (child_unpacked * Z)) :
  forall e,
    existsb (fun cg => mRloc16 (mNeighborInfo e) =? cuRloc16 (fst cg)) cgs = false ->
    annotate_children cgs e = e.
Proof.
  unfold annotate_children.
  induction cgs as [| cg cgs IH]; intros e H; cbn [fold_left existsb] in *;
    [reflexivity |].
  apply orb_false_iff in H. destruct H as (H1 & H2).
  unfold annotate_child at 2. rewrite H1. apply IH. exact H2.
Qed.

Lemma annotate_children_some (cgs : list (child_unpacked * Z)) :
  forall e,
    existsb (fun cg => mRloc16 (mNeighborInfo e) =? cuRloc16 (fst cg)) cgs = true ->
    mFoundChild (annotate_children cgs e) = true /\
    exists cg, In cg cgs /\
      cuRloc16 (fst cg) = mRloc16 (mNeighborInfo e) /\
      mTimeout (annotate_children cgs e) = cuTimeout (fst cg) /\
      mNetworkDataVersion (annotate_children cgs e) = cuNetworkDataVersion (fst cg) /\
      mChildId (annotate_children cgs e) = snd cg.
Proof.
  induction cgs as [| cg cgs IH]; intros e H; cbn [existsb] in H; [discriminate |].
  change (annotate_children (cg :: cgs) e)
    with (annotate_children cgs (annotate_child cg e)).
  destruct (existsb (fun cg0 => mRloc16 (mNeighborInfo e) =? cuRloc16 (fst cg0)) cgs)
    eqn:Erest.
  - destruct (IH (annotate_child cg e)) as (Hf & cg' & Hin & Hr & Ht & Hv & Hc).
    { rewrite annotate_child_info. exact Erest. }
    split; [exact Hf |]. exists cg'. rewrite annotate_child_info in Hr.
    split; [right; exact Hin |]. auto.
  - rewrite orb_false_r in H.
    rewrite annotate_children_none by (rewrite annotate_child_info; exact Erest).
    unfold annotate_child. rewrite H. cbn [mFoundChild mTimeout mNetworkDataVersion mChildId].
    split; [reflexivity |]. exists cg. split; [left; reflexivity |].
    apply Z.eqb_eq in H. auto.
Qed.

Lemma map_fst_combine {A B : Type} (l : list A) :
  forall l' : list B, (length l <= length l')%nat -> map fst (combine l l') = l.
Proof.
  induction l as [| x l IH]; intros [| y l'] H; cbn [combine map fst length] in *;
    try reflexivity; try lia.
  rewrite IH by lia. reflexivity.
Qed.

Lemma existsb_map {A B : Type} (g : B -> bool) (h : A -> B) (l : list A) :
  existsb g (map h l) = existsb (fun x => g (h x)) l.
Proof.
  induction l as [| x l IH]; cbn [map existsb]; [reflexivity |].
  rewrite IH. reflexivity.
Qed.

Lemma filter_fst_combine {A B : Type} (p : A -> bool) (l : list A) :
  forall l' : list B, (length l <= length l')%nat ->
    map fst (filter (fun x => p (fst x)) (combine l l')) = filter p l.
Proof.
  induction l as [| x l IH]; intros [| y l'] H; cbn [combine map filter fst length] in *;
    try reflexivity; try lia.
  destruct (p x); cbn [map fst]; rewrite IH by lia; reflexivity.
Qed.

Lemma existsb_ext {A : Type} (f g : A -> bool) (l : list A) :
  (forall x, f x = g x) -> existsb f l = existsb g l.
Proof.
  intros H. induction l as [| x l IH]; cbn [existsb]; [reflexivity |].
  rewrite H, IH. reflexivity.
Qed.

Lemma filter_map_swap {A B : Type} (p : B -> bool) (h : A -> B) (l : list A) :
  filter p (map h l) = map h (filter (fun x => p (h x)) l).
Proof.
  induction l as [| x l IH]; cbn [map filter]; [reflexivity |].
  rewrite IH. destruct (p (h x)); reflexivity.
Qed.

Lemma NoDup_map_filter {A : Type} (h : A -> Z) (p : A -> bool) (l : list A) :
  NoDup (map h l) -> NoDup (map h (filter p l)).
Proof.
  induction l as [| x l IH]; cbn [map filter]; intros H; [constructor |].
  inversion H as [| ? ? Hx Hl]; subst.
  destruct (p x); [| exact (IH Hl)].
  cbn [map]. constructor; [| exact (IH Hl)].
  intros Hin. apply Hx. apply in_map_iff in Hin. destruct Hin as (y & Hy & Hyin).
  apply filter_In in Hyin. rewrite <- Hy. apply in_map. tauto.
Qed.

Lemma filter_split_length {A : Type} (p q : A -> bool) (l : list A) :
  length (filter p l)
  = (length (filter (fun x => p x && q x) l)
     + length (filter (fun x => p x && negb (q x)) l))%nat.
Proof.
  induction l as [| x l IH]; cbn [filter]; [reflexivity |].
  destruct (p x), (q x); cbn [andb negb length]; lia.
Qed.

Section CombinedTable.
Context `{OT : OpenThread}.
Variable sDataFrameCB : option (Z -> Z -> list Z -> thci_t -> thci_t).
Variable sControlFrameCB : option (Z -> Z -> Z -> list Z -> thci_t -> thci_t).
Variable SPINEL_PROP_THREAD_NEIGHBOR_TABLE : Z.
Variable SPINEL_THREAD_MODE_RX_ON_WHEN_IDLE : Z.
Variable SPINEL_THREAD_MODE_SECURE_DATA_REQUEST : Z.
Variable SPINEL_THREAD_MODE_FULL_FUNCTION_DEV : Z.
Variable SPINEL_THREAD_MODE_FULL_NETWORK_DATA : Z.
Variable spinel_unpack_neighbor : list Z -> Z * neighbor_unpacked.
Variable spinel_unpack_child : list Z -> Z * child_unpacked.

(** X23: [thciGetCombinedNeighborTable] returns the neighbours that are
    not children together with the children found in the child table, and
    drops the neighbours marked as children that the child table does not
    list.  When both requests are answered, the two frames unpack into the
    neighbours [nbrs] (no more than the table has room for, with distinct
    RLOC16) and the children [chs] (with distinct RLOC16), and every
    neighbour with the RLOC16 of a child is marked as a child, the result
    is [OT_ERROR_NONE]; the first [*aOutSize] entries of the table carry,
    in some order, the neighbour information of exactly the neighbours
    that are not children or have their child listed, and each entry of a
    child has [mFoundChild] set and the timeout and network data version
    of the child with its RLOC16, the others have it clear. *)
Theorem thciGetCombinedNeighborTable_drops_unmatched_children
  (table0 : list thci_neighbor_child_info_t) (aInSize : Z)
  (env1 env2 : request_env) (uninitialised : nat -> Z) (fuel : nat)
  (u : uart_t) (w : thci_t) (arg1 arg2 : list Z) (s1 s2 : uart_t * thci_t)
  (nbrs : list neighbor_unpacked) (chs : list child_unpacked) :
  let tid1 := GetNewTransactionId (mTransactionId (gTHCINCPContext w)) in
  let w1 := with_ncp (set_mTransactionId tid1) w in
  let tid2 := GetNewTransactionId (mTransactionId (gTHCINCPContext (snd s1))) in
  let w2 := with_ncp (set_mTransactionId tid2) (snd s1) in
  mModuleState (gTHCINCPContext w) = kModuleStateInitialized ->
  0 < aInSize < 4294967296 ->
  length table0 = Z.to_nat aInSize ->
  envSent env1 tid1 SPINEL_CMD_PROP_VALUE_GET SPINEL_PROP_THREAD_NEIGHBOR_TABLE []
  = OT_ERROR_NONE ->
  thciUartWaitForResponse sDataFrameCB sControlFrameCB tid1 SPINEL_CMD_PROP_VALUE_IS
    SPINEL_PROP_THREAD_NEIGHBOR_TABLE (envRx env1) (envLeftover env1) (u, w1)
  = (OT_ERROR_NONE, Some arg1, s1) ->
  envSent env2 tid2 SPINEL_CMD_PROP_VALUE_GET SPINEL_PROP_THREAD_CHILD_TABLE []
  = OT_ERROR_NONE ->
  thciUartWaitForResponse sDataFrameCB sControlFrameCB tid2 SPINEL_CMD_PROP_VALUE_IS
    SPINEL_PROP_THREAD_CHILD_TABLE (envRx env2) (envLeftover env2) (fst s1, w2)
  = (OT_ERROR_NONE, Some arg2, s2) ->
  unpacks_to spinel_unpack_neighbor arg1 nbrs ->
  (length nbrs <= length table0)%nat ->
  unpacks_to spinel_unpack_child arg2 chs ->
  NoDup (map nuRloc16 nbrs) ->
  NoDup (map cuRloc16 chs) ->
  (forall f c, In f nbrs -> In c chs -> nuRloc16 f = cuRloc16 c -> nuIsChild f = true) ->
  (length nbrs <= fuel)%nat ->
  (length chs <= fuel)%nat ->
  exists (table' : list thci_neighbor_child_info_t) (outSize : Z),
    thciGetCombinedNeighborTable sDataFrameCB sControlFrameCB
      SPINEL_PROP_THREAD_NEIGHBOR_TABLE SPINEL_THREAD_MODE_RX_ON_WHEN_IDLE
      SPINEL_THREAD_MODE_SECURE_DATA_REQUEST SPINEL_THREAD_MODE_FULL_FUNCTION_DEV
      SPINEL_THREAD_MODE_FULL_NETWORK_DATA spinel_unpack_neighbor spinel_unpack_child
      (Some table0) aInSize false env1 env2 uninitialised fuel (u, w)
    = Some (OT_ERROR_NONE, Some table', outSize, s2) /\
    let out := firstn (Z.to_nat outSize) table' in
    let kept (f : neighbor_unpacked) :=
      negb (nuIsChild f) || existsb (fun c => cuRloc16 c =? nuRloc16 f) chs in
    Permutation (map mNeighborInfo out)
      (map (neighbor_filled SPINEL_THREAD_MODE_RX_ON_WHEN_IDLE
              SPINEL_THREAD_MODE_SECURE_DATA_REQUEST SPINEL_THREAD_MODE_FULL_FUNCTION_DEV
              SPINEL_THREAD_MODE_FULL_NETWORK_DATA) (filter kept nbrs)) /\
    Forall (fun e =>
              if mIsChild (mNeighborInfo e)
              then mFoundChild e = true /\
                   exists c, In c chs /\
                     cuRloc16 c = mRloc16 (mNeighborInfo e) /\
                     mTimeout e = cuTimeout c /\
                     mNetworkDataVersion e = cuNetworkDataVersion c
              else mFoundChild e = false) out.
Proof.
  intros tid1 w1 tid2 w2 Hinit Hsize Htable Hsent1 Hwait1 Hsent2 Hwait2 Hun1 Hfit Hun2
    Hnd1 Hnd2 Hchild Hfuel1 Hfuel2.
  destruct s1 as [u1 w1']. cbn [fst snd] in *.
  set (filled := neighbor_filled SPINEL_THREAD_MODE_RX_ON_WHEN_IDLE
                   SPINEL_THREAD_MODE_SECURE_DATA_REQUEST
                   SPINEL_THREAD_MODE_FULL_FUNCTION_DEV
                   SPINEL_THREAD_MODE_FULL_NETWORK_DATA).
  set (P1 := map (fun fo => fill_entry (filled (fst fo)) (snd fo)) (combine nbrs table0)).
  set (R1 := skipn (length nbrs) table0).
  set (cgs := combine chs (map uninitialised (seq 0 (length chs)))).
  set (P2 := map (annotate_children cgs) P1).
  set (matched := fun f : neighbor_unpacked =>
                    existsb (fun c => cuRloc16 c =? nuRloc16 f) chs).
  assert (HlenP1 : length P1 = length nbrs).
  { unfold P1. rewrite length_map, length_combine. lia. }
  assert (Hinfo1 : map mNeighborInfo P1 = map filled nbrs).
  { unfold P1. rewrite map_map. cbn [fill_entry mNeighborInfo].
    rewrite <- (map_map fst filled), map_fst_combine by exact Hfit. reflexivity. }
  assert (Hcgs : map fst cgs = chs).
  { unfold cgs. apply map_fst_combine. rewrite length_map, length_seq. lia. }
  assert (Hmatch : forall e,
             existsb (fun cg => mRloc16 (mNeighborInfo e) =? cuRloc16 (fst cg)) cgs
             = existsb (fun c => cuRloc16 c =? mRloc16 (mNeighborInfo e)) chs).
  { intros e. rewrite <- Hcgs. rewrite existsb_map.
    apply existsb_ext. intros cg. apply Z.eqb_sym. }
  set (cm := fun c : child_unpacked =>
               existsb (fun i => mRloc16 i =? cuRloc16 c) (map mNeighborInfo P1)).
  assert (Hcm : forall c, cm c = existsb (fun f => nuRloc16 f =? cuRloc16 c) nbrs).
  { intros c. unfold cm. rewrite Hinfo1, existsb_map. reflexivity. }
  assert (Hcount : (length (filter cm chs)
                    <= length (filter (fun f => nuIsChild f && matched f) nbrs))%nat).
  { rewrite <- (length_map cuRloc16 (filter cm chs)).
    rewrite <- (length_map nuRloc16 (filter _ nbrs)).
    apply NoDup_incl_length; [apply NoDup_map_filter; exact Hnd2 |].
    intros r Hr. apply in_map_iff in Hr. destruct Hr as (c & <- & Hc).
    apply filter_In in Hc. destruct Hc as (Hc & Hcmc). rewrite Hcm in Hcmc.
    apply existsb_exists in Hcmc. destruct Hcmc as (f & Hf & Heq).
    apply Z.eqb_eq in Heq. rewrite <- Heq. apply in_map. apply filter_In.
    split; [exact Hf |]. apply andb_true_iff. split.
    - exact (Hchild f c Hf Hc Heq).
    - unfold matched. apply existsb_exists. exists c. split; [exact Hc |].
      apply Z.eqb_eq. symmetry. exact Heq. }
  pose proof (filter_split_length nuIsChild matched nbrs) as Hsplit.
  assert (Hisle : (length (filter nuIsChild nbrs) <= length nbrs)%nat)
    by apply filter_length_le.
  assert (Hkept2 : forall f old,
             entry_kept (annotate_children cgs (fill_entry (filled f) old))
             = negb (nuIsChild f) || matched f).
  { intros f old. unfold entry_kept. rewrite annotate_children_info.
    cbn [fill_entry mNeighborInfo filled neighbor_filled mIsChild].
    destruct (existsb (fun cg => mRloc16 (mNeighborInfo (fill_entry (filled f) old))
                                 =? cuRloc16 (fst cg)) cgs) eqn:E.
    - destruct (annotate_children_some cgs _ E) as (-> & _).
      rewrite Hmatch in E. cbn [fill_entry mNeighborInfo filled neighbor_filled mRloc16] in E.
      unfold matched. rewrite E. destruct (nuIsChild f); reflexivity.
    - rewrite (annotate_children_none cgs _ E). cbn [fill_entry mFoundChild].
      rewrite Hmatch in E. cbn [fill_entry mNeighborInfo filled neighbor_filled mRloc16] in E.
      unfold matched. rewrite E. destruct (nuIsChild f); reflexivity. }
  assert (HP2 : P2 = map (fun fo => annotate_children cgs (fill_entry (filled (fst fo)) (snd fo)))
                         (combine nbrs table0)).
  { unfold P2, P1. rewrite map_map. reflexivity. }
  assert (Horphans : length (filter (fun e => negb (entry_kept e)) P2)
                     = length (filter (fun f => nuIsChild f && negb (matched f)) nbrs)).
  { rewrite HP2, filter_map_swap, length_map.
    rewrite <- (filter_fst_combine (fun f => nuIsChild f && negb (matched f))
                  nbrs table0 Hfit).
    rewrite length_map. f_equal. apply filter_ext.
    intros [f old]. cbn [fst snd]. rewrite Hkept2.
    destruct (nuIsChild f), (matched f); reflexivity. }
  unfold thciGetCombinedNeighborTable.
  fold tid1. fold w1.
  replace (aInSize =? 0) with false by (symmetry; apply Z.eqb_neq; lia).
  assert (Hstate : mModuleState (gTHCINCPContext w1) = kModuleStateInitialized)
    by exact Hinit.
  rewrite Hstate. cbn [module_state_eqb negb].
  rewrite Hsent1, Hwait1.
  pose proof (read_neighbors_fills SPINEL_THREAD_MODE_RX_ON_WHEN_IDLE
                SPINEL_THREAD_MODE_SECURE_DATA_REQUEST
                SPINEL_THREAD_MODE_FULL_FUNCTION_DEV
                SPINEL_THREAD_MODE_FULL_NETWORK_DATA spinel_unpack_neighbor
                nbrs arg1 (Z.to_nat aInSize) [] table0 0 Hun1
                ltac:(lia) Hfit ltac:(cbn [length]; lia) ltac:(lia) ltac:(lia)) as Hread.
  cbn [app length Nat.add] in Hread. change (Z.of_nat 0) with 0 in Hread.
  rewrite Hread. clear Hread.
  fold filled. fold P1. fold R1. fold tid2. fold w2.
  rewrite Hsent2, Hwait2.
  rewrite Z.add_0_l.
  rewrite <- HlenP1.
  rewrite (match_children_annotates spinel_unpack_child uninitialised chs arg2 fuel 0
             P1 R1 _ Hun2 Hfuel2).
  - fold cgs. fold P2. fold cm.
    set (k2 := Z.of_nat (length (filter nuIsChild nbrs)) - Z.of_nat (length (filter cm chs))).
    assert (HlenP2 : length P2 = length P1) by (unfold P2; apply length_map).
    destruct (purge_unmatched_purges (length P2) P2 [] R1 fuel k2 eq_refl)
      as (B' & R' & Hpurge & Hperm).
    + rewrite HlenP2, HlenP1. exact Hfuel1.
    + rewrite Horphans. unfold k2. lia.
    + unfold k2. lia.
    + cbn [length]. rewrite HlenP2, HlenP1. lia.
    + cbn [app length Nat.add] in Hpurge. change (Z.of_nat 0) with 0 in Hpurge.
      rewrite <- HlenP2. rewrite Hpurge.
      exists (B' ++ R'), (Z.of_nat (length B')).
      split; [reflexivity |].
      cbv zeta. rewrite Nat2Z.id, firstn_exact.
      split.
      * rewrite (Permutation_map mNeighborInfo Hperm).
        rewrite HP2, filter_map_swap, map_map.
        replace (map (fun x => mNeighborInfo
                                 (annotate_children cgs (fill_entry (filled (fst x)) (snd x))))
                     (filter (fun x => entry_kept
                                         (annotate_children cgs
                                            (fill_entry (filled (fst x)) (snd x))))
                             (combine nbrs table0)))
          with (map filled (map fst (filter (fun x => (fun f => negb (nuIsChild f) || matched f) (fst x))
                                            (combine nbrs table0)))).
        -- pose proof (filter_fst_combine (fun f => negb (nuIsChild f) || matched f)
                         nbrs table0 Hfit) as Heq.
           cbv beta in Heq. rewrite Heq. reflexivity.
        -- rewrite map_map.
           replace (filter (fun x => entry_kept
                                       (annotate_children cgs
                                          (fill_entry (filled (fst x)) (snd x))))
                           (combine nbrs table0))
             with (filter (fun x : neighbor_unpacked * thci_neighbor_child_info_t =>
                             negb (nuIsChild (fst x)) || matched (fst x))
                          (combine nbrs table0))
             by (apply filter_ext; intros [f old]; cbn [fst snd];
                 symmetry; apply Hkept2).
           apply map_ext. intros [f old]. cbn [fst snd].
           rewrite annotate_children_info. reflexivity.
      * apply (Permutation_Forall (Permutation_sym Hperm)).
        apply Forall_forall. intros e He. apply filter_In in He.
        destruct He as (He & Hk). rewrite HP2 in He. apply in_map_iff in He.
        destruct He as ([f old] & <- & Hin). cbn [fst snd] in *.
        rewrite annotate_children_info.
        cbn [fill_entry mNeighborInfo filled neighbor_filled mIsChild mRloc16].
        rewrite Hkept2 in Hk.
        destruct (existsb (fun cg => mRloc16 (mNeighborInfo (fill_entry (filled f) old))
                                     =? cuRloc16 (fst cg)) cgs) eqn:E.
        -- destruct (annotate_children_some cgs _ E)
             as (Hf & cg & Hcg & Hr & Ht & Hv & _).
           assert (Hc : In (fst cg) chs) by (rewrite <- Hcgs; apply in_map; exact Hcg).
           destruct (nuIsChild f) eqn:Eic.
           ++ split; [exact Hf |]. exists (fst cg). auto.
           ++ exfalso.
              assert (Hf0 : In f nbrs).
              { apply in_combine_l in Hin. exact Hin. }
              cbn [fill_entry mNeighborInfo filled neighbor_filled mRloc16] in Hr.
              rewrite (Hchild f (fst cg) Hf0 Hc (eq_sym Hr)) in Eic. discriminate.
        -- rewrite (annotate_children_none cgs _ E). cbn [fill_entry mFoundChild].
           rewrite Hmatch in E.
           cbn [fill_entry mNeighborInfo filled neighbor_filled mRloc16] in E.
           unfold matched in Hk. rewrite E in Hk.
           destruct (nuIsChild f); [discriminate | reflexivity].
  - rewrite <- (map_map mNeighborInfo mRloc16), Hinfo1, map_map. exact Hnd1.
  - intros c e Hc He Heq. unfold P1 in He. apply in_map_iff in He.
    destruct He as ([f old] & <- & Hin). cbn [fst snd] in *.
    cbn [fill_entry mNeighborInfo filled neighbor_filled mIsChild mRloc16] in *.
    apply (Hchild f c); [apply in_combine_l in Hin; exact Hin | exact Hc | exact Heq].
  - fold cm. lia.
  - lia.
Qed.

End CombinedTable.

Ltac unpack_two_bytes :=
  split; [discriminate |]; exists 2; split; [reflexivity |];
  split; [cbn [length]; lia |];
  change (Z.to_nat 2) with 2%nat; cbn [skipn unpacks_to].

(** Three neighbours, of which the ones with RLOC16 1 and 3 are marked as
    children, and a child table that lists only the child with RLOC16 1:
    the neighbour with RLOC16 3 is dropped. *)
Lemma thciGetCombinedNeighborTable_drops_unmatched_children_witness :
  let OT := openthread_reference in
  let unpack_neighbor := fun bytes : list Z =>
    match bytes with
    | r :: c :: _ => (2, mk_neighbor_unpacked [] r 0 0 0 0 (c =? 1) 0 0 0)
    | _ => (-1, mk_neighbor_unpacked [] 0 0 0 0 0 false 0 0 0)
    end in
  let unpack_child := fun bytes : list Z =>
    match bytes with
    | r :: t :: _ => (2, mk_child_unpacked [] r t 0 0 0 0 0 0)
    | _ => (-1, mk_child_unpacked [] 0 0 0 0 0 0 0 0)
    end in
  let blank :=
    mk_neighbor_child_info
      (mk_neighbor_info [] 0 0 0 0 0 0 0 false false false false false) 0 0 0 false in
  let sent := fun _ _ _ (_ : list Z) => OT_ERROR_NONE in
  let env1 :=
    mk_request_env sent
      [RxFrame (Some (mk_frame 130 SPINEL_CMD_PROP_VALUE_IS 5385 [1; 1; 2; 0; 3; 1]))]
      false in
  let env2 :=
    mk_request_env sent
      [RxFrame (Some (mk_frame 131 SPINEL_CMD_PROP_VALUE_IS
                        SPINEL_PROP_THREAD_CHILD_TABLE [1; 240]))]
      false in
  exists (table' : list thci_neighbor_child_info_t) (outSize : Z)
         (s2 : uart_t * thci_t),
    thciGetCombinedNeighborTable None None 5385 8 4 2 1 unpack_neighbor unpack_child
      (Some (repeat blank 4)) 4 false env1 env2 (fun _ => 0) 3%nat
      (uart_enabled true, thci_initialized)
    = Some (OT_ERROR_NONE, Some table', outSize, s2) /\
    Permutation
      (map (fun e => mRloc16 (mNeighborInfo e)) (firstn (Z.to_nat outSize) table'))
      [1; 2].
Proof.
  intros OT unpack_neighbor unpack_child blank sent env1 env2.
  set (w := thci_initialized).
  set (u := uart_enabled true).
  set (tid1 := GetNewTransactionId (mTransactionId (gTHCINCPContext w))).
  set (w1 := with_ncp (set_mTransactionId tid1) w).
  set (r1 := thciUartWaitForResponse None None tid1 SPINEL_CMD_PROP_VALUE_IS 5385
               (envRx env1) (envLeftover env1) (u, w1)).
  set (s1 := snd r1).
  set (tid2 := GetNewTransactionId (mTransactionId (gTHCINCPContext (snd s1)))).
  set (w2 := with_ncp (set_mTransactionId tid2) (snd s1)).
  set (r2 := thciUartWaitForResponse None None tid2 SPINEL_CMD_PROP_VALUE_IS
               SPINEL_PROP_THREAD_CHILD_TABLE (envRx env2) (envLeftover env2)
               (fst s1, w2)).
  set (nbrs := [mk_neighbor_unpacked [] 1 0 0 0 0 true 0 0 0;
                mk_neighbor_unpacked [] 2 0 0 0 0 false 0 0 0;
                mk_neighbor_unpacked [] 3 0 0 0 0 true 0 0 0]).
  set (chs := [mk_child_unpacked [] 1 240 0 0 0 0 0 0]).
  destruct (thciGetCombinedNeighborTable_drops_unmatched_children (OT := OT)
              None None 5385 8 4 2 1 unpack_neighbor unpack_child
              (repeat blank 4) 4 env1 env2 (fun _ => 0) 3%nat u w
              [1; 1; 2; 0; 3; 1] [1; 240] s1 (snd r2) nbrs chs)
    as (table' & outSize & Hrun & Hperm & _).
  - reflexivity.
  - lia.
  - reflexivity.
  - reflexivity.
  - vm_compute. reflexivity.
  - reflexivity.
  - vm_compute. reflexivity.
  - cbn [unpacks_to nbrs]. do 3 unpack_two_bytes. reflexivity.
  - cbn. lia.
  - cbn [unpacks_to chs]. unpack_two_bytes. reflexivity.
  - cbn. repeat constructor; cbn; intuition discriminate.
  - cbn. repeat constructor; cbn; intuition discriminate.
  - intros f c Hf Hc Heq. cbn in Hf, Hc.
    destruct Hc as [<- | []].
    destruct Hf as [<- | [<- | [<- | []]]]; cbn in *; try reflexivity; discriminate.
  - cbn. lia.
  - cbn. lia.
  - exists table', outSize, (snd r2). split; [exact Hrun |].
    cbv zeta in Hperm.
    apply (Permutation_map mRloc16) in Hperm. rewrite map_map in Hperm.
    exact Hperm.
Defined.

(** * The neighbour table *)

Lemma neighbor_store_app_mid (P R : list otNeighborInfo) (x v : otNeighborInfo) :
  neighbor_store (length P) v (P ++ x :: R) = P ++ v :: R.
Proof.
  induction P as [| p P IH]; cbn [app length neighbor_store]; [reflexivity |].
  rewrite IH. reflexivity.
Qed.

Section NeighborTableOnlyProperties.
Context `{OT : OpenThread}.
Variable sDataFrameCB : option (Z -> Z -> list Z -> thci_t -> thci_t).
Variable sControlFrameCB : option (Z -> Z -> Z -> list Z -> thci_t -> thci_t).
Variable SPINEL_PROP_THREAD_NEIGHBOR_TABLE : Z.
Variable SPINEL_THREAD_MODE_RX_ON_WHEN_IDLE : Z.
Variable SPINEL_THREAD_MODE_SECURE_DATA_REQUEST : Z.
Variable SPINEL_THREAD_MODE_FULL_FUNCTION_DEV : Z.
Variable SPINEL_THREAD_MODE_FULL_NETWORK_DATA : Z.
Variable spinel_unpack_neighbor : list Z -> Z * neighbor_unpacked.

Lemma thciGetNeighborTable_loop_fills (nbrs : list neighbor_unpacked) :
  forall (arg : list Z) (room : nat) (P R : list otNeighborInfo),
    unpacks_to spinel_unpack_neighbor arg nbrs ->
    (room <= length R)%nat ->
    Z.of_nat (length P + room) < 4294967296 ->
    thciGetNeighborTable_loop SPINEL_THREAD_MODE_RX_ON_WHEN_IDLE
      SPINEL_THREAD_MODE_SECURE_DATA_REQUEST SPINEL_THREAD_MODE_FULL_FUNCTION_DEV
      SPINEL_THREAD_MODE_FULL_NETWORK_DATA spinel_unpack_neighbor room arg (P ++ R)
      (Z.of_nat (length P))
    = Some (OT_ERROR_NONE,
            P ++ map (neighbor_filled SPINEL_THREAD_MODE_RX_ON_WHEN_IDLE
                        SPINEL_THREAD_MODE_SECURE_DATA_REQUEST
                        SPINEL_THREAD_MODE_FULL_FUNCTION_DEV
                        SPINEL_THREAD_MODE_FULL_NETWORK_DATA) (firstn room nbrs)
              ++ skipn (Nat.min room (length nbrs)) R,
            Z.of_nat (length P + Nat.min room (length nbrs))).
Proof.
  induction nbrs as [| f nbrs IH]; intros arg room P R Hun Hroom Hlen.
  - cbn [unpacks_to] in Hun. subst arg.
    rewrite firstn_nil. cbn [length map app]. rewrite Nat.min_0_r, Nat.add_0_r.
    destruct room; reflexivity.
  - cbn [unpacks_to] in Hun. destruct Hun as (Hne & n & Hu & Hn & Hrest).
    destruct arg as [| a arg]; [congruence |].
    destruct room as [| room].
    + cbn [thciGetNeighborTable_loop firstn map app Nat.min skipn].
      rewrite Nat.add_0_r. reflexivity.
    + destruct R as [| old R]; [cbn [length] in Hroom; lia |].
      cbn [thciGetNeighborTable_loop]. rewrite Nat2Z.id, nth_error_app_mid, Hu.
      replace (n >? 0) with true by (symmetry; apply Z.gtb_lt; lia).
      replace (n >? Z.of_nat (length (a :: arg))) with false
        by (symmetry; rewrite Z.gtb_ltb; apply Z.ltb_ge; lia).
      cbn [negb]. rewrite neighbor_store_app_mid.
      cbn [length] in *.
      set (entry := neighbor_filled _ _ _ _ f).
      replace (uint32_t (Z.of_nat (length P) + 1))
        with (Z.of_nat (length (P ++ [entry])))
        by (rewrite length_app; cbn [length]; unfold uint32_t;
            rewrite Z.mod_small; lia).
      replace (P ++ entry :: R) with ((P ++ [entry]) ++ R)
        by (rewrite <- app_assoc; reflexivity).
      rewrite IH; try assumption; try lia.
      * rewrite <- app_assoc. cbn [firstn map app Nat.min skipn length].
        do 3 f_equal. rewrite length_app. cbn [length]. lia.
      * rewrite length_app. cbn [length]. lia.
Qed.

(** X24: [thciGetNeighborTable] never writes past the caller's array and
    truncates without an error.  When the request is answered with a frame
    that unpacks into the neighbours [nbrs], the result is
    [OT_ERROR_NONE], [*aOutSize] is the smaller of [aInSize] and the
    number of neighbours, the entries below [*aOutSize] are the first
    neighbours of the frame in order and the other entries of the array
    are as before. *)
Theorem thciGetNeighborTable_fills_at_most_aInSize_entries
  (table0 : list otNeighborInfo) (aInSize : Z) (env : request_env)
  (u : uart_t) (w : thci_t) (arg : list Z) (s1 : uart_t * thci_t)
  (nbrs : list neighbor_unpacked) :
  let tid := GetNewTransactionId (mTransactionId (gTHCINCPContext w)) in
  let w1 := with_ncp (set_mTransactionId tid) w in
  mModuleState (gTHCINCPContext w) = kModuleStateInitialized ->
  0 < aInSize < 4294967296 ->
  length table0 = Z.to_nat aInSize ->
  envSent env tid SPINEL_CMD_PROP_VALUE_GET SPINEL_PROP_THREAD_NEIGHBOR_TABLE []
  = OT_ERROR_NONE ->
  thciUartWaitForResponse sDataFrameCB sControlFrameCB tid SPINEL_CMD_PROP_VALUE_IS
    SPINEL_PROP_THREAD_NEIGHBOR_TABLE (envRx env) (envLeftover env) (u, w1)
  = (OT_ERROR_NONE, Some arg, s1) ->
  unpacks_to spinel_unpack_neighbor arg nbrs ->
  exists table' : list otNeighborInfo,
    let written := Nat.min (Z.to_nat aInSize) (length nbrs) in
    thciGetNeighborTable sDataFrameCB sControlFrameCB
      SPINEL_PROP_THREAD_NEIGHBOR_TABLE SPINEL_THREAD_MODE_RX_ON_WHEN_IDLE
      SPINEL_THREAD_MODE_SECURE_DATA_REQUEST SPINEL_THREAD_MODE_FULL_FUNCTION_DEV
      SPINEL_THREAD_MODE_FULL_NETWORK_DATA spinel_unpack_neighbor
      (Some table0) aInSize false env (u, w)
    = Some (OT_ERROR_NONE, Some table', Z.of_nat written, s1) /\
    length table' = length table0 /\
    firstn written table'
    = map (neighbor_filled SPINEL_THREAD_MODE_RX_ON_WHEN_IDLE
             SPINEL_THREAD_MODE_SECURE_DATA_REQUEST SPINEL_THREAD_MODE_FULL_FUNCTION_DEV
             SPINEL_THREAD_MODE_FULL_NETWORK_DATA) (firstn written nbrs) /\
    skipn written table' = skipn written table0.
Proof.
  intros tid w1 Hinit Hsize Htable Hsent Hwait Hun.
  set (filled := neighbor_filled SPINEL_THREAD_MODE_RX_ON_WHEN_IDLE
                   SPINEL_THREAD_MODE_SECURE_DATA_REQUEST
                   SPINEL_THREAD_MODE_FULL_FUNCTION_DEV
                   SPINEL_THREAD_MODE_FULL_NETWORK_DATA).
  set (written := Nat.min (Z.to_nat aInSize) (length nbrs)).
  exists (map filled (firstn (Z.to_nat aInSize) nbrs) ++ skipn written table0).
  cbv zeta. fold written.
  assert (Hfirst : firstn (Z.to_nat aInSize) nbrs = firstn written nbrs).
  { unfold written. destruct (Nat.le_ge_cases (Z.to_nat aInSize) (length nbrs)) as [H | H].
    - rewrite Nat.min_l by exact H. reflexivity.
    - rewrite Nat.min_r by exact H. rewrite !firstn_all2 by lia. reflexivity. }
  assert (Hlenw : length (map filled (firstn written nbrs)) = written).
  { rewrite length_map, length_firstn. unfold written. lia. }
  split; [| split; [| split]].
  - unfold thciGetNeighborTable. fold tid. fold w1.
    replace (aInSize =? 0) with false by (symmetry; apply Z.eqb_neq; lia).
    assert (Hstate : mModuleState (gTHCINCPContext w1) = kModuleStateInitialized)
      by exact Hinit.
    rewrite Hstate. cbn [module_state_eqb negb].
    rewrite Hsent, Hwait.
    pose proof (thciGetNeighborTable_loop_fills nbrs arg (Z.to_nat aInSize) [] table0
                  Hun ltac:(lia) ltac:(cbn [length]; lia)) as Hloop.
    cbn [app length Nat.add] in Hloop. change (Z.of_nat 0) with 0 in Hloop.
    rewrite Hloop. reflexivity.
  - rewrite Hfirst, length_app, Hlenw, length_skipn. unfold written. lia.
  - rewrite Hfirst. rewrite <- Hlenw at 1. apply firstn_exact.
  - rewrite Hfirst. rewrite <- Hlenw at 1.
    rewrite skipn_app, skipn_all, Nat.sub_diag. reflexivity.
Qed.

End NeighborTableOnlyProperties.

(** A frame of three neighbours and an array of two entries. *)
Lemma thciGetNeighborTable_fills_at_most_aInSize_entries_witness :
  let OT := openthread_reference in
  let unpack_neighbor := fun bytes : list Z =>
    match bytes with
    | r :: c :: _ => (2, mk_neighbor_unpacked [] r 0 0 0 0 (c =? 1) 0 0 0)
    | _ => (-1, mk_neighbor_unpacked [] 0 0 0 0 0 false 0 0 0)
    end in
  let blank := mk_neighbor_info [] 0 0 0 0 0 0 0 false false false false false in
  let env :=
    mk_request_env (fun _ _ _ (_ : list Z) => OT_ERROR_NONE)
      [RxFrame (Some (mk_frame 130 SPINEL_CMD_PROP_VALUE_IS 5385 [1; 1; 2; 0; 3; 1]))]
      false in
  exists (table' : list otNeighborInfo) (s1 : uart_t * thci_t),
    thciGetNeighborTable None None 5385 8 4 2 1 unpack_neighbor
      (Some (repeat blank 2)) 2 false env (uart_enabled true, thci_initialized)
    = Some (OT_ERROR_NONE, Some table', 2, s1) /\
    map mRloc16 table' = [1; 2].
Proof.
  intros OT unpack_neighbor blank env.
  set (w := thci_initialized).
  set (u := uart_enabled true).
  set (tid := GetNewTransactionId (mTransactionId (gTHCINCPContext w))).
  set (w1 := with_ncp (set_mTransactionId tid) w).
  set (r1 := thciUartWaitForResponse None None tid SPINEL_CMD_PROP_VALUE_IS 5385
               (envRx env) (envLeftover env) (u, w1)).
  set (nbrs := [mk_neighbor_unpacked [] 1 0 0 0 0 true 0 0 0;
                mk_neighbor_unpacked [] 2 0 0 0 0 false 0 0 0;
                mk_neighbor_unpacked [] 3 0 0 0 0 true 0 0 0]).
  destruct (thciGetNeighborTable_fills_at_most_aInSize_entries (OT := OT)
              None None 5385 8 4 2 1 unpack_neighbor (repeat blank 2) 2 env u w
              [1; 1; 2; 0; 3; 1] (snd r1) nbrs)
    as (table' & Hrun & Hlen & Hfirst & _).
  - reflexivity.
  - lia.
  - reflexivity.
  - reflexivity.
  - vm_compute. reflexivity.
  - cbn [unpacks_to nbrs]. do 3 unpack_two_bytes. reflexivity.
  - exists table', (snd r1). split; [exact Hrun |].
    cbv zeta in Hfirst. change (Nat.min (Z.to_nat 2) (length nbrs)) with 2%nat in Hfirst.
    change (length (repeat blank 2)) with 2%nat in Hlen.
    rewrite <- Hlen, firstn_all in Hfirst. rewrite Hfirst, Hlen. reflexivity.
Defined.

(** * The insecure source port of a joiner *)


Lemma uint8_testbit (z i : Z) : 0 <= i < 8 -> Z.testbit (uint8_t z) i = Z.testbit z i.
Proof.
  intros H. unfold uint8_t. change 256 with (2 ^ 8).
  apply Z.mod_pow2_bits_low. lia.
Qed.

Lemma flag_test_bit (flags i : Z) :
  0 <= i -> negb (Z.land flags (2 ^ i) =? 0) = Z.testbit flags i.
Proof.
  intros H. rewrite Z.eqb_sym, <- Z.shiftl_1_l, land_bit_zero by lia.
  apply negb_involutive.
Qed.

Section OpenPort.
Context `{OT : OpenThread}.
Variable sDataFrameCB : option (Z -> Z -> list Z -> thci_t -> thci_t).
Variable sControlFrameCB : option (Z -> Z -> Z -> list Z -> thci_t -> thci_t).

Lemma thciAddUnsecurePort_flags (aPort : Z) (env : request_env) (s s' : uart_t * thci_t) :
  thciAddUnsecurePort sDataFrameCB sControlFrameCB aPort env s = (OT_ERROR_NONE, s') ->
  let flags := mSecurityFlags (gTHCISDKContext (snd s')) in
  Z.testbit flags 1 = true /\ Z.testbit flags 3 = false /\
  0 <= flags < 256 /\
  mInsecureSourcePort (gTHCISDKContext (snd s')) = aPort.
Proof.
  destruct s as [u w]. unfold thciAddUnsecurePort.
  destruct (negb (module_state_eqb _ _)); [discriminate |].
  destruct (envSent env _ _ _ _); try discriminate.
  destruct (thciUartWaitForResponse _ _ _ _ _ _ _ _) as [[e b] [u2 w2]].
  destruct e; try discriminate.
  intros H. injection H as <-. cbn [snd].
  unfold with_sdk, set_security. thci_fields.
  split; [| split; [| split; [apply uint8_t_range | reflexivity]]].
  - rewrite uint8_testbit, Z.land_spec, uint8_testbit, Z.lor_spec by lia.
    rewrite Z.lnot_spec by lia. rewrite orb_true_r. reflexivity.
  - rewrite uint8_testbit, Z.land_spec by lia.
    rewrite Z.lnot_spec by lia. apply andb_false_r.
Qed.

(** X25: [OpenSourcePort] opens the source port of a TCP datagram and
    leaves the message as it was.  For a message that is read from the
    start, the message comes back unchanged with its offset at 0, whatever
    happens.  A request is made exactly when the message holds the IPv6
    header and the two bytes after it and announces TCP; when that request
    is answered, the port read from the bytes at offsets 40 and 41 is the
    insecure source port, insecure ports are enabled, and
    [NeedToOpenInsecureSourcePort] answers [false] from then on; when it
    fails the contexts are as the request left them.  Without a request
    the contexts are unchanged. *)
Theorem OpenSourcePort_opens_the_port_and_keeps_the_message
  (aMessage : thci_message_t) (env : request_env) (s : uart_t * thci_t) :
  mOffset aMessage = 0 ->
  0 <= mLength aMessage < 65536 ->
  let r := OpenSourcePort sDataFrameCB sControlFrameCB aMessage env s in
  let s' := snd r in
  let tcp := (sizeof_ip6_hdr + 2 <=? mLength aMessage)
             && (nth 6 (mBuffer aMessage) 0 =? IP6_NEXTH_TCP) in
  let srcPort := nth 40 (mBuffer aMessage) 0 * 256 + nth 41 (mBuffer aMessage) 0 in
  fst (fst r) = aMessage /\
  if tcp then
    snd (fst r) = 1%nat /\
    match thciAddUnsecurePort sDataFrameCB sControlFrameCB srcPort env s with
    | (OT_ERROR_NONE, _) =>
        NeedToOpenInsecureSourcePort (snd s') = false /\
        THCI_TEST_INSECURE_PORTS (mSecurityFlags (gTHCISDKContext (snd s'))) = true /\
        THCI_TEST_INSECURE_SOURCE_PORT (mSecurityFlags (gTHCISDKContext (snd s'))) = true /\
        THCI_RECEIVED_SECURE_MESSAGE_ON_INSECURE_PORT
          (mSecurityFlags (gTHCISDKContext (snd s'))) = false /\
        mInsecureSourcePort (gTHCISDKContext (snd s')) = srcPort
    | (_, s1) => s' = s1
    end
  else snd (fst r) = 0%nat /\ s' = s.
Proof.
  destruct aMessage as [p buf off len tot fl]. cbn [mOffset mLength mBuffer].
  intros -> Hlen.
  unfold OpenSourcePort, sizeof_ip6_hdr.
  destruct (Z.le_gt_cases 40 len) as [H40 | H40].
  - rewrite ReadMessage_enough by lia.
    replace (uint16_t 40 =? 40) with true by reflexivity. cbn [negb].
    change (Z.to_nat 0) with 0%nat. cbn [skipn].
    replace (IP6H_NEXTH (firstn (Z.to_nat 40) buf)) with (nth 6 buf 0)
      by (unfold IP6H_NEXTH; rewrite nth_firstn; reflexivity).
    destruct (nth 6 buf 0 =? IP6_NEXTH_TCP) eqn:Etcp; cbn [negb].
    + change (uint16_t (0 + 40)) with 40.
      destruct (Z.le_gt_cases 42 len) as [H42 | H42].
      * replace (40 + 2 <=? len) with true by (symmetry; apply Z.leb_le; lia).
        rewrite ReadMessage_enough by lia.
        replace (uint16_t 2 =? 2) with true by reflexivity. cbn [negb andb].
        replace (lwip_ntohs_bytes (firstn (Z.to_nat 2) (skipn (Z.to_nat 40) buf)))
          with (nth 40 buf 0 * 256 + nth 41 buf 0)
          by (unfold lwip_ntohs_bytes; rewrite !nth_firstn, !nth_skipn; reflexivity).
        destruct (thciAddUnsecurePort _ _ _ _ _) as [e [u1 w1]] eqn:Eadd.
        destruct e; cbn [fst snd]; (split; [reflexivity |]);
          (split; [reflexivity |]); try reflexivity.
        destruct (thciAddUnsecurePort_flags _ _ _ _ Eadd) as (Hb1 & Hb3 & Hr & Hport).
        cbn [snd] in Hb1, Hb3, Hr, Hport.
        unfold NeedToOpenInsecureSourcePort, THCI_TEST_INSECURE_PORTS,
          THCI_TEST_INSECURE_SOURCE_PORT, THCI_RECEIVED_SECURE_MESSAGE_ON_INSECURE_PORT,
          THCI_ENABLE_MESSAGE_SECURITY.
        unfold with_sdk, set_security. thci_fields.
        change THCI_SECURITY_FLAG_INSECURE_PORTS_ENABLED with (2 ^ 1).
        change THCI_SECURITY_FLAG_INSECURE_SOURCE_PORT with (2 ^ 2).
        change THCI_SECURITY_FLAG_SECURE_MSG_RXD_ON_INSECURE_PORT with (2 ^ 3).
        rewrite !flag_test_bit by lia.
        rewrite !uint8_testbit, !Z.lor_spec by lia.
        rewrite Hb1, Hb3. change (Z.testbit (2 ^ 2) 1) with false.
        change (Z.testbit (2 ^ 2) 2) with true. change (Z.testbit (2 ^ 2) 3) with false.
        rewrite !orb_true_r. cbn [negb andb orb]. rewrite andb_false_r.
        repeat split.
      * replace (40 + 2 <=? len) with false by (symmetry; apply Z.leb_gt; lia).
        cbn [andb].
        unfold ReadMessage, set_message.
        cbn [msgPtr mBuffer mOffset mLength mTotalLength mFlags].
        replace (2 >? len - 40) with true
          by (symmetry; rewrite Z.gtb_ltb; apply Z.ltb_lt; lia).
        assert (Hc : len - 40 = 0 \/ len - 40 = 1) by lia.
        destruct Hc as [-> | ->]; cbn; repeat split.
    + rewrite andb_false_r. cbn [fst snd]. repeat split.
  - replace (40 + 2 <=? len) with false by (symmetry; apply Z.leb_gt; lia).
    cbn [andb].
    unfold ReadMessage, set_message.
    cbn [msgPtr mBuffer mOffset mLength mTotalLength mFlags].
    replace (40 >? len - 0) with true
      by (symmetry; rewrite Z.gtb_ltb; apply Z.ltb_lt; lia).
    rewrite Z.sub_0_r.
    destruct (len =? 0) eqn:E0.
    + apply Z.eqb_eq in E0. subst len. cbn. repeat split.
    + replace (uint16_t len =? 40) with false
        by (symmetry; apply Z.eqb_neq; unfold uint16_t; rewrite Z.mod_small; lia).
      cbn [negb fst snd]. unfold ResetOffset, set_message. cbn. repeat split.
Qed.

End OpenPort.

(** A joiner (Thread not started, insecure ports enabled) sends a TCP
    segment from port 11095 and the request is answered. *)
Lemma OpenSourcePort_opens_the_port_and_keeps_the_message_witness :
  let OT := openthread_reference in
  let segment := repeat 0 6 ++ [6] ++ repeat 0 33 ++ [43; 87] ++ repeat 0 18 in
  let m := mk_message 0 segment 0 60 72 0 in
  let env :=
    mk_request_env (fun _ _ _ (_ : list Z) => OT_ERROR_NONE)
      [RxFrame (Some (mk_frame 130 SPINEL_CMD_PROP_VALUE_INSERTED
                        SPINEL_PROP_THREAD_ASSISTING_PORTS []))]
      false in
  let sdk := mk_sdk (Some []) (Some 1) queue_init 0 2 OT_DEVICE_ROLE_DETACHED false in
  let w := mk_thci (gTHCINCPContext thci_initialized) sdk 0 [] in
  let r := OpenSourcePort None None m env (uart_enabled true, w) in
  fst (fst r) = m /\
  NeedToOpenInsecureSourcePort w = true /\
  NeedToOpenInsecureSourcePort (snd (snd r)) = false /\
  mInsecureSourcePort (gTHCISDKContext (snd (snd r))) = 11095.
Proof.
  intros OT segment m env sdk w r.
  destruct (OpenSourcePort_opens_the_port_and_keeps_the_message (OT := OT)
              None None m env (uart_enabled true, w) eq_refl
              ltac:(cbn [mLength m]; lia)) as (Hm & _).
  split; [exact Hm |]. split; [reflexivity |]. split; reflexivity.
Defined.


(** ** Closing the insecure ports ([thciRemoveUnsecurePort]) *)

Lemma post_to_sdk_queue_security (e : nl_event_t) (w : thci_t) :
  mSecurityFlags (gTHCISDKContext (post_to_sdk_queue e w))
  = mSecurityFlags (gTHCISDKContext w).
Proof. reflexivity. Qed.

Lemma thciInitiateNCPRecovery_security (w : thci_t) :
  mSecurityFlags (gTHCISDKContext (thciInitiateNCPRecovery w))
  = mSecurityFlags (gTHCISDKContext w).
Proof.
  unfold thciInitiateNCPRecovery.
  destruct (module_state_eqb _ _); [reflexivity |].
  destruct (mSdkQueue _); reflexivity.
Qed.

Lemma HandleLastStatusUpdate_security `{OT : OpenThread} (a : list Z) (w : thci_t) :
  mSecurityFlags (gTHCISDKContext (HandleLastStatusUpdate a w))
  = mSecurityFlags (gTHCISDKContext w).
Proof.
  unfold HandleLastStatusUpdate.
  destruct (spinel_unpack_uint_packed a) as [parsedLength status].
  destruct (_ && _); [rewrite thciInitiateNCPRecovery_security |];
    destruct (parsedLength =? 0); reflexivity.
Qed.

Lemma ReceiveControlFrame_security `{OT : OpenThread} (h c k : Z) (a : list Z)
  (w : thci_t) :
  mSecurityFlags (gTHCISDKContext (ReceiveControlFrame h c k a w))
  = mSecurityFlags (gTHCISDKContext w).
Proof.
  unfold ReceiveControlFrame.
  destruct (c =? SPINEL_CMD_PROP_VALUE_IS).
  - assert (H : mSecurityFlags (gTHCISDKContext (fst (ReceiveControlFrame_value_is k a w)))
                = mSecurityFlags (gTHCISDKContext w)).
    { unfold ReceiveControlFrame_value_is.
      destruct (uint16_t k =? SPINEL_PROP_LAST_STATUS);
        [apply HandleLastStatusUpdate_security |].
      destruct (uint16_t k =? SPINEL_PROP_NET_ROLE).
      { destruct (spinel_unpack_uint8 a) as [n r]. destruct (n >? 0); reflexivity. }
      destruct (uint16_t k =? SPINEL_PROP_NEST_LEGACY_ULA_PREFIX).
      { destruct (AllocateCallbackBuffer _ _) as [[i |] bufs]; [| reflexivity].
        destruct (spinel_unpack_data a) as [n p]. destruct (n >? 0); reflexivity. }
      repeat match goal with
             | |- context [if ?x then _ else _] => destruct x
             end; reflexivity. }
    destruct (ReceiveControlFrame_value_is k a w) as [w1 after]. cbn [fst] in H.
    destruct after; [| exact H].
    destruct (_ && _); [| exact H]. exact H.
  - destruct (c =? SPINEL_CMD_PROP_VALUE_INSERTED); [| reflexivity].
    destruct (k =? SPINEL_PROP_MAC_SCAN_BEACON); [| reflexivity].
    unfold ReceiveControlFrame_scan_beacon.
    destruct (mScanResultCallback _); [| reflexivity].
    destruct (AllocateCallbackBuffer _ _) as [[i |] bufs]; [| reflexivity].
    destruct (spinel_unpack_scan_beacon a); reflexivity.
Qed.

Lemma ReceiveIp6Datagram_keeps_ports `{OT : OpenThread}
  (unpack : list Z -> Z * list Z) (ok : bool) (stale : list Z) (c k : Z) (a : list Z)
  (w : thci_t) :
  THCI_TEST_INSECURE_PORTS
    (mSecurityFlags (gTHCISDKContext (snd (ReceiveIp6Datagram unpack ok stale c k a w))))
  = THCI_TEST_INSECURE_PORTS (mSecurityFlags (gTHCISDKContext w)).
Proof.
  unfold ReceiveIp6Datagram.
  destruct (unpack a) as [n arg].
  destruct (negb (n =? Z.of_nat (length a))); [reflexivity |].
  destruct (negb ok); [reflexivity |]. cbn [snd].
  repeat match goal with
         | |- context [if ?x then _ else _] => destruct x
         end; try reflexivity.
  unfold with_sdk, set_security, THCI_TEST_INSECURE_PORTS. thci_fields.
  change THCI_SECURITY_FLAG_INSECURE_PORTS_ENABLED with (2 ^ 1).
  change THCI_SECURITY_FLAG_SECURE_MSG_RXD_ON_INSECURE_PORT with (2 ^ 3).
  rewrite !flag_test_bit by lia.
  rewrite uint8_testbit, Z.lor_spec, Z.pow2_bits_eqb by lia.
  apply orb_false_r.
Qed.

Section RemovePortProperties.
Context `{OT : OpenThread}.
Variable sDataFrameCB : option (Z -> Z -> list Z -> thci_t -> thci_t).
Variable sControlFrameCB : option (Z -> Z -> Z -> list Z -> thci_t -> thci_t).
Variable SPINEL_CMD_PROP_VALUE_REMOVE : Z.
Variable SPINEL_CMD_PROP_VALUE_REMOVED : Z.

Hypothesis data_cb_keeps_ports :
  forall cb, sDataFrameCB = Some cb ->
  forall c k a w,
    THCI_TEST_INSECURE_PORTS (mSecurityFlags (gTHCISDKContext (cb c k a w)))
    = THCI_TEST_INSECURE_PORTS (mSecurityFlags (gTHCISDKContext w)).
Hypothesis control_cb_keeps_ports :
  forall cb, sControlFrameCB = Some cb ->
  forall h c k a w,
    THCI_TEST_INSECURE_PORTS (mSecurityFlags (gTHCISDKContext (cb h c k a w)))
    = THCI_TEST_INSECURE_PORTS (mSecurityFlags (gTHCISDKContext w)).

Lemma HandleFrame_keeps_ports (unpacked : option spinel_frame) (s : uart_t * thci_t) :
  THCI_TEST_INSECURE_PORTS
    (mSecurityFlags (gTHCISDKContext
       (snd (HandleFrame sDataFrameCB sControlFrameCB unpacked s))))
  = THCI_TEST_INSECURE_PORTS (mSecurityFlags (gTHCISDKContext (snd s))).
Proof.
  destruct s as [u w]. unfold HandleFrame.
  destruct unpacked as [f |]; [| reflexivity].
  destruct (if sProvideInternalResponse u
            then CompareResponse (fHeader f) (fCommand f) (fKey f) u
            else (false, u)) as [matched u'].
  destruct matched.
  - match goal with
    | |- context [if ?c then _ else _] => destruct c
    end; cbn [snd]; [| reflexivity].
    unfold HandleLastStatusUpdate.
    destruct (spinel_unpack_uint_packed (fArgs f)) as [parsedLength status].
    destruct (_ && _); [rewrite thciInitiateNCPRecovery_security |];
      destruct (parsedLength =? 0); reflexivity.
  - destruct ((fKey f =? SPINEL_PROP_STREAM_NET)
              || (fKey f =? SPINEL_PROP_STREAM_NET_INSECURE)).
    + destruct sDataFrameCB as [cb |] eqn:E; cbn [snd]; [| reflexivity].
      apply (data_cb_keeps_ports cb eq_refl).
    + destruct sControlFrameCB as [cb |] eqn:E; cbn [snd]; [| reflexivity].
      apply (control_cb_keeps_ports cb eq_refl).
Qed.

Lemma UartRxFifoProcess_keeps_ports (rx : list rx_delivery) :
  forall s,
    THCI_TEST_INSECURE_PORTS
      (mSecurityFlags (gTHCISDKContext
         (snd (UartRxFifoProcess sDataFrameCB sControlFrameCB rx s))))
    = THCI_TEST_INSECURE_PORTS (mSecurityFlags (gTHCISDKContext (snd s))).
Proof.
  induction rx as [| d rx IH]; intros s; [reflexivity |].
  cbn [UartRxFifoProcess].
  destruct (sDecodeFailure (fst s) || sResponseReceived (fst s)); [reflexivity |].
  rewrite IH. destruct d as [unpacked |].
  - apply HandleFrame_keeps_ports.
  - destruct s as [u w]. cbn [HandleError snd].
    rewrite thciInitiateNCPRecovery_security. reflexivity.
Qed.

Lemma thciUartWaitForResponse_keeps_ports (aTransactionID aCommand aKey : Z)
  (rx : list rx_delivery) (leftover : bool) (s : uart_t * thci_t) :
  THCI_TEST_INSECURE_PORTS
    (mSecurityFlags (gTHCISDKContext
       (snd (snd (thciUartWaitForResponse sDataFrameCB sControlFrameCB
                    aTransactionID aCommand aKey rx leftover s)))))
  = THCI_TEST_INSECURE_PORTS (mSecurityFlags (gTHCISDKContext (snd s))).
Proof.
  destruct s as [u w]. unfold thciUartWaitForResponse, thciUartWaitForResponseInternal.
  destruct (sDecodeFailure u); [reflexivity |].
  set (pending := register_response aTransactionID aCommand aKey u).
  pose proof (UartRxFifoProcess_keeps_ports rx (pending, w)) as H1.
  set (s1 := UartRxFifoProcess sDataFrameCB sControlFrameCB rx (pending, w)) in *.
  cbn [snd] in H1.
  destruct (sResponseQueueHandle pending); cbn [snd]; [| exact H1].
  rewrite <- H1.
  assert (H2 : mSecurityFlags (gTHCISDKContext
                 (snd (if leftover
                       then
                        let (u0, w0) := PostRxDoneEventToSdkQueue s1 in
                        (mk_uart false (sRxEventPostedToSdkQueue u0)
                                 (sResponseQueueHandle u0) (sResponseCommand u0)
                                 (sResponseKey u0) (sResponseBuffer u0)
                                 (sResponseReceived u0) (sResponseTransactionId u0)
                                 (sResponseSuccess u0) (sDecodeFailure u0), w0)
                       else s1)))
               = mSecurityFlags (gTHCISDKContext (snd s1))).
  { destruct leftover; [| reflexivity].
    destruct s1 as [u1 w1]. unfold PostRxDoneEventToSdkQueue.
    destruct (mSdkQueue (gTHCISDKContext w1)); [| reflexivity].
    destruct (sRxEventPostedToSdkQueue u1 =? 0); reflexivity. }
  match goal with
  | |- context [if ?c then _ else _] => destruct c
  end; cbn [snd]; rewrite ?thciInitiateNCPRecovery_security, H2; reflexivity.
Qed.

Lemma cleared_flag (flags bit : Z) (i : Z) :
  0 <= i < 8 -> bit = 2 ^ i ->
  forall j, 0 <= j < 8 ->
    Z.testbit (uint8_t (Z.land flags (Z.lnot bit))) j
    = Z.testbit flags j && negb (i =? j).
Proof.
  intros Hi -> j Hj.
  rewrite uint8_testbit, Z.land_spec, Z.lnot_spec, Z.pow2_bits_eqb by lia.
  reflexivity.
Qed.

Lemma test_after_clear (flags i j : Z) :
  0 <= i < 8 -> 0 <= j < 8 ->
  negb (Z.land (uint8_t (Z.land flags (Z.lnot (2 ^ i)))) (2 ^ j) =? 0)
  = negb (Z.land flags (2 ^ j) =? 0) && negb (i =? j).
Proof.
  intros Hi Hj. rewrite !flag_test_bit by lia.
  apply (cleared_flag flags (2 ^ i) i Hi eq_refl j Hj).
Qed.

(** X27: when [thciRemoveUnsecurePort] succeeds, the insecure traffic is
    over: the flags for the insecure ports and for the insecure source port
    are both clear, so no answer goes out insecurely any more and no source
    port is opened any more.  The frames that arrive while the second
    request waits are handled by the registered callbacks, which are only
    required not to switch the insecure ports on again. *)
Theorem thciRemoveUnsecurePort_ends_the_insecure_traffic
  (aPort : Z) (env1 env2 : request_env) (s s' : uart_t * thci_t) :
  thciRemoveUnsecurePort sDataFrameCB sControlFrameCB SPINEL_CMD_PROP_VALUE_REMOVE
    SPINEL_CMD_PROP_VALUE_REMOVED aPort env1 env2 s = (OT_ERROR_NONE, s') ->
  let flags := mSecurityFlags (gTHCISDKContext (snd s')) in
  THCI_TEST_INSECURE_PORTS flags = false /\
  THCI_TEST_INSECURE_SOURCE_PORT flags = false /\
  SendProvisionalJoinResponseInsecurely (snd s') = false /\
  NeedToOpenInsecureSourcePort (snd s') = false.
Proof.
  intros Hrun flags.
  assert (Hclear1 : forall f,
             THCI_TEST_INSECURE_PORTS
               (uint8_t (Z.land f (Z.lnot THCI_SECURITY_FLAG_INSECURE_PORTS_ENABLED)))
             = false).
  { intros f. unfold THCI_TEST_INSECURE_PORTS.
    change THCI_SECURITY_FLAG_INSECURE_PORTS_ENABLED with (2 ^ 1).
    rewrite test_after_clear by lia. apply andb_false_r. }
  assert (Hclear2 : forall f,
             THCI_TEST_INSECURE_SOURCE_PORT
               (uint8_t (Z.land f (Z.lnot THCI_SECURITY_FLAG_INSECURE_SOURCE_PORT)))
             = false /\
             THCI_TEST_INSECURE_PORTS
               (uint8_t (Z.land f (Z.lnot THCI_SECURITY_FLAG_INSECURE_SOURCE_PORT)))
             = THCI_TEST_INSECURE_PORTS f).
  { intros f. unfold THCI_TEST_INSECURE_PORTS, THCI_TEST_INSECURE_SOURCE_PORT.
    change THCI_SECURITY_FLAG_INSECURE_PORTS_ENABLED with (2 ^ 1).
    change THCI_SECURITY_FLAG_INSECURE_SOURCE_PORT with (2 ^ 2).
    rewrite !test_after_clear by lia. split; [apply andb_false_r | apply andb_true_r]. }
  assert (H : THCI_TEST_INSECURE_PORTS flags = false /\
              THCI_TEST_INSECURE_SOURCE_PORT flags = false).
  { subst flags. destruct s as [u w]. unfold thciRemoveUnsecurePort in Hrun.
    destruct (negb (module_state_eqb _ _)); [discriminate |].
    destruct (envSent env1 _ _ _ _); try discriminate.
    destruct (thciUartWaitForResponse _ _ _ _ _ _ _ _) as [[e b] [u1 w1]].
    destruct e; try discriminate.
    set (w2 := with_sdk _ w1) in Hrun.
    assert (Hports2 : THCI_TEST_INSECURE_PORTS (mSecurityFlags (gTHCISDKContext w2))
                      = false) by apply Hclear1.
    destruct (THCI_TEST_INSECURE_SOURCE_PORT (mSecurityFlags (gTHCISDKContext w2)))
      eqn:Esrc.
    - destruct (envSent env2 _ _ _ _); try discriminate.
      pose proof (thciUartWaitForResponse_keeps_ports
                    (GetNewTransactionId (mTransactionId (gTHCINCPContext w)))
                    SPINEL_CMD_PROP_VALUE_REMOVED SPINEL_PROP_THREAD_ASSISTING_PORTS
                    (envRx env2) (envLeftover env2) (u1, w2)) as Hkeep.
      destruct (thciUartWaitForResponse _ _ _ _ _ _ _ _) as [[e b2] [u3 w3]].
      destruct e; try discriminate.
      injection Hrun as <-. cbn [snd] in Hkeep |- *.
      rewrite Hports2 in Hkeep.
      change (mSecurityFlags (gTHCISDKContext (with_sdk _ w3)))
        with (uint8_t (Z.land (mSecurityFlags (gTHCISDKContext w3))
                              (Z.lnot THCI_SECURITY_FLAG_INSECURE_SOURCE_PORT))).
      destruct (Hclear2 (mSecurityFlags (gTHCISDKContext w3))) as (Hc & Hp).
      rewrite Hc, Hp, Hkeep. split; reflexivity.
    - injection Hrun as <-. cbn [snd]. split; assumption. }
  destruct H as (Hp & Hs). split; [exact Hp |]. split; [exact Hs |].
  unfold SendProvisionalJoinResponseInsecurely, NeedToOpenInsecureSourcePort.
  fold flags. rewrite Hp. rewrite !andb_false_r. split; reflexivity.
Qed.

End RemovePortProperties.

(** A provisionally joined device (insecure ports and insecure source port
    11095 enabled) closes port 11095 with the driver's own callbacks
    registered; both requests are answered. *)
Lemma thciRemoveUnsecurePort_ends_the_insecure_traffic_witness :
  let OT := openthread_reference in
  let data_cb :=
    fun c k a w =>
      snd (ReceiveIp6Datagram (fun b => (Z.of_nat (length b), b)) true [] c k a w) in
  let env :=
    mk_request_env (fun _ _ _ (_ : list Z) => OT_ERROR_NONE)
      [RxFrame (Some (mk_frame 130 8 SPINEL_PROP_THREAD_ASSISTING_PORTS []))]
      false in
  let sdk := mk_sdk (Some []) (Some 1) queue_init 11095 6 OT_DEVICE_ROLE_CHILD false in
  let w := mk_thci (gTHCINCPContext thci_initialized) sdk 0 [] in
  let r :=
    thciRemoveUnsecurePort (Some data_cb) (Some ReceiveControlFrame) 5 8 11095 env env
      (uart_enabled true, w) in
  fst r = OT_ERROR_NONE /\
  THCI_TEST_INSECURE_PORTS (mSecurityFlags (gTHCISDKContext w)) = true /\
  THCI_TEST_INSECURE_SOURCE_PORT (mSecurityFlags (gTHCISDKContext w)) = true /\
  THCI_TEST_INSECURE_PORTS (mSecurityFlags (gTHCISDKContext (snd (snd r)))) = false /\
  THCI_TEST_INSECURE_SOURCE_PORT (mSecurityFlags (gTHCISDKContext (snd (snd r)))) = false /\
  SendProvisionalJoinResponseInsecurely (snd (snd r)) = false /\
  NeedToOpenInsecureSourcePort (snd (snd r)) = false.
Proof.
  intros OT data_cb env sdk w r.
  assert (Hrun : r = (OT_ERROR_NONE, snd r)) by (vm_compute; reflexivity).
  split; [rewrite Hrun; reflexivity |].
  split; [reflexivity |]. split; [reflexivity |].
  apply (thciRemoveUnsecurePort_ends_the_insecure_traffic (OT := OT)
           (Some data_cb) (Some ReceiveControlFrame) 5 8
           ltac:(intros cb [= <-] c k a w0; apply ReceiveIp6Datagram_keeps_ports)
           ltac:(intros cb [= <-] h c k a w0;
                 rewrite ReceiveControlFrame_security; reflexivity)
           11095 env env (uart_enabled true, w) (snd r) Hrun).
Defined.
